(* ===== verification/_CoqProject ===== *)
-Q . S2P
Prelude.v
CircuitBreaker.v
Errors.v
Json.v
Values.v
Router.v
Config.v
Amqp.v
Client.v
FlowControl.v
Reconnect.v
Publisher.v
PublisherSafety.v
PublisherSteps.v
PublisherErrors.v
PublisherConfirms.v
PublisherHazards.v
PublisherApi.v
PublisherRuns.v
System.v
Retry.v
Consumer.v
Workers.v
Groups.v
Service.v
Marshal.v
Roundtrip.v
EventBus.v
Routing.v
Direct.v
Logger.v
