(* ===== verification/Prelude.v ===== *)
(** * Verification of rabbitmq-kit-go

    rabbitmq-kit-go is a Go library for publishing and consuming domain events over RabbitMQ.
    An application creates an [EventBus] from a [Config]; the bus connects a [Client], which
    declares the configured exchanges, queues and dead letter queues and reconnects when the
    connection is lost, and a [Publisher], which sends messages on the client's channel and
    waits for the broker's confirmations.  Consuming starts worker goroutines that route each
    delivery by the type in its JSON body to a handler, retry failed messages through the
    publisher with a counter in the headers, and consult a circuit breaker.

    The development models this library file by file and proves what makes it correct.  Where
    the code does not do what it means to, there is a theorem with a run that shows it.

    ** Files

    - [Prelude]: machine integers ([int64], [uint64]) with wrap-around, time, a state monad,
      record update, tactics, hint databases and shared lemmas.
    - [CircuitBreaker], module [CB] (internal/circuitbreaker): the breaker's record and its
      operations; [run] executes a sequence of operations, [step] is the relation of one
      operation, and [Spec] an abstract three-state machine that the breaker refines.
    - [Errors], module [Err] (errors/errors.go): the error values, their texts, and
      [errors.Is] and [errors.As] over the tree of wrapped errors.
    - [Json], [Marshal], [Roundtrip]: encoding/json as router/message.go and event.go use it:
      the parser with the standard library's limits, the encoder, and their round trip.
    - [Values], module [Val]: dynamic values ([any]), header tables on a heap (Go maps are
      shared by reference), and the message structs of amqp091-go.
    - [Router], modules [Router], [Msg], [Dlq] (router/): handler lookup, the message context
      and its header accessors, and dead letter messages.
    - [Config], module [Cfg] (config/): the configuration structs, every option, [Validate],
      and the dead letter helpers of queue and exchange configurations.
    - [Amqp]: the interface to amqp091-go, a type class whose instances answer calls, and the
      trace of calls made; plans of calls, which set-up code is shown to implement.
    - [Client], module [Client] (internal/broker/client.go): [connect], the declaration of the
      topology, [Close] and queries.
    - [FlowControl], module [Flow] (internal/broker/client.go, [connect]): the goroutine that
      receives the broker's flow control notices, and the callbacks it starts.
    - [Reconnect], module [Reconn] (internal/broker/client.go): the reconnection loop, the
      watchers of connections, [Reconnect] and [Close] as interleaved steps.
    - [Publisher], module [Pub] (internal/broker/publisher.go): an interleaving semantics of
      [Publish] and [PublishBatchPipeline] calls, the confirmation processors and the broker.
      [PublisherSafety] has its invariant, panics and termination, [PublisherErrors] the type
      of the errors returned and what they say about the broker, [PublisherSteps] a
      classification of steps and events with the invariants that follow from it,
      [PublisherConfirms] which message a confirmation answers, [PublisherHazards] runs in
      which one answers another, [PublisherApi] the interface its clients use, with an instance made from the
      interleaving model, and [PublisherRuns] calls on a new channel and after closing.
    - [System], module [Sys]: the machines of [Reconnect] and [Publisher] as one, a bus from
      [NewEventBus] to [Close]: an event of the client carries what the publisher sees of it.
    - [Retry], module [Retry] (internal/broker/retry.go): the retry handler.
    - [Consumer], module [Cons] (internal/broker/consumer.go): the handling of one delivery by a
      worker, and the start of the workers.  [Workers], module [Workers], has the same loop as
      the interleaved steps of workers that share a channel of deliveries, a breaker and a
      publisher, and [Groups] the workers of several queues that share one breaker.
    - [Service], module [Service] (eventbus.go, internal/broker/consumer.go): the whole bus, the
      workers of all queues on the machines of [System], with retries that are calls of the
      bus's publisher, interleaved with everything else, resets of the breaker included.
    - [EventBus], module [Bus] (eventbus.go, publish.go, event.go): publishing events, batches,
      bringing messages back from a dead letter queue, and the life of a bus.
    - [Routing]: the way of an event from [Publish] to the handler lookup.
    - [Direct] (direct/) and [Logger] (logger.go, internal/logger): topology declaration on a
      bare channel; the logger interface as a type class and the default logger.

    ** How code is represented

    A pure function is a function; a method that changes its receiver takes and returns the
    record, with the name and the fields it has in Go; code that threads state through
    several calls is written in the state monad [M].  An [error] is [option error], a
    fallible result a sum.  A Go map that is shared is a location in a heap.  [int] is a
    [Z] with [int64] applied where the code does arithmetic.  The clock, fresh identifiers and
    the answers of the AMQP library are arguments or type class operations.  Goroutines are
    interleaved: a state machine's [exec] performs one event (a critical section, an atomic
    operation, a channel operation or a library call), and theorems quantify over all
    schedules.  A panic is a value.

    ** What is proved

    - Circuit breaker: refinement of the abstract machine; well-formedness of every reachable
      state; when it opens, rejects, admits probes and recovers; reported transitions.
    - Publisher: the confirmation processor never blocks or panics; every call returns within
      seven steps per message plus seven; results reflect answers of the broker; the errors
      that can be returned, each in its place; the complete list of panics.  In orderly runs,
      over any number of reconnections, every answer is for the caller's own message; for
      each of the six conditions of an orderly run there is a run that breaks it once and in
      which a message that was not acknowledged is reported as published.  A batch can close a
      channel twice, and a stale cleanup can remove a newer registration.
    - Client: the topology set-up makes exactly the calls of a declarative plan; the dead
      letter wiring; failed connects are cleaned up; a second set-up makes the same calls;
      what goes wrong with shared argument maps; reconnecting registers no consumer again.
    - Reconnection: only the loop connects, and never after [Close]; a reported loss is
      repaired after any number of failed attempts; a wake-up can be lost for good.
    - The bus: a run of client and publisher together is a run of each, and they agree about
      the channel in use; after a loss the next publish succeeds on the new channel, or
      panics if two resets have overlapped before; what a publish after [Close] does, which is a
      panic if confirms are enabled and the client has reconnected meanwhile.
    - Flow control: every notice is logged and leads to one call of its callback, panics are
      contained, and the goroutines end with the connection; calls can overtake each other.
    - Retry and consumer: each delivery is settled exactly once; without a breaker a failing
      message is handled [MaxRetries + 1] times and then rejected; messages without a handler
      use up the probes of a half-open breaker of any configuration and so wedge it; a
      handler that acknowledges its message itself makes the worker acknowledge it twice.  With any number of workers, under every interleaving: no delivery
      is lost or settled twice, a shutdown drains, an open breaker keeps handlers from being
      called until its timeout or a manual reset, for all queues of a bus, whichever of them
      opened it; a worker alone does what the function for one delivery says.
    - The whole bus: under every interleaving of workers, their retries, the application's
      calls, confirmations and reconnections no delivery is lost or settled twice, and every
      acknowledged delivery was handled, has no handler or failed and was published again; a
      worker that waits for a retry goes on within a bound; in orderly runs a failed message is
      acknowledged only after the broker has acknowledged its own copy; two workers that retry
      at the same time can lose a message.
    - Event bus: one message per event, with a header map of its own, all maps of the caller
      unchanged; exact accounting of batches and of dead letter draining, in which every delivery
      taken from the channel is settled once; the place of the last death of a dead letter is
      recovered.
    - Bodies: what the encoder writes is read back as the same value; a published event is
      routed by the [type] member of its body.
    - Configuration and errors: [Validate] against a declarative specification; the search
      through wrapped errors.

    ** Bounds and fuel

    The JSON parser recurses on fuel; [parse] gives it the length of the text and one, and
    [Json.value_fuel] shows that a value found with any fuel is found with as much fuel as it
    has characters.  [Cons.life], the history of a message that keeps failing, takes more
    rounds than the remaining retries as fuel, which its theorem assumes and shows to be
    enough.  Delivery tags wrap at [2^64] as in the code; counters that the theorems speak
    about arithmetically are assumed to stay in the [int64] range where that matters (the
    number of events in a batch, the retry count).  The body round trip is for values nested
    at most 10000 deep, the decoder's own limit.

    ** What is not modelled

    [MessageContext.BindJSON] (it decodes into a type of the caller's) and the test helpers; the
    texts of the JSON decoder's errors, of which the consumer logs one, are an input.  The lines that the client,
    the publisher and the event bus log are left out, those of the consumer and of flow
    control are kept.  Message contents are reduced to an identity in the publisher's
    interleaving model.  The values of [ToMap] are those of JSON: Go structs among them, which
    the standard library encodes by reflection, are not represented.  The confirmation
    processor's select reads the publisher's two channel fields, which no lock protects, in one
    step.  [Workers], [Groups] and [Service] exclude handlers that settle their
    delivery themselves from their accounting; [Consumer] shows what happens with one. *)

From stdpp Require Import base gmap strings list fin_maps relations.
From Stdlib Require Import ZArith Lia.

Declare Scope kit_scope.
Delimit Scope kit_scope with kit.
Local Open Scope Z_scope.

(** ** Machine integers: Go's [int]/[int64] and [uint64] with wrap-around *)

Definition int64_min : Z := - 2 ^ 63.
Definition int64_max : Z := 2 ^ 63 - 1.

(** The value of an [int64] computation: reduction modulo [2^64] into the signed range. *)
Definition int64 (z : Z) : Z := (z + 2 ^ 63) mod 2 ^ 64 - 2 ^ 63.

(** The value of a [uint64] computation. *)
Definition uint64 (z : Z) : Z := z mod 2 ^ 64.

Definition in_int64 (z : Z) : Prop := int64_min <= z <= int64_max.

#[export] Instance in_int64_dec z : Decision (in_int64 z).
Proof. unfold in_int64. solve_decision. Defined.

(** ** Time: [time.Time] and [time.Duration] as nanoseconds

    [Time.Sub] saturates at the ends of the [Duration] range. *)

Definition Second : Z := 1000000000.

Definition time_sub (a b : Z) : Z := Z.max int64_min (Z.min int64_max (a - b)).

(** The zero [time.Time] (January 1, year 1, UTC), relative to the Unix epoch. *)
Definition zero_time : Z := -62135596800 * Second.

(** ** A state monad for code that threads a world through its calls *)

Definition M (W A : Type) : Type := W -> A * W.

#[export] Instance M_ret {W} : MRet (M W) := fun A a w => (a, w).

#[export] Instance M_bind {W} : MBind (M W) :=
  fun A B k m w => let '(a, w') := m w in k a w'.

Definition get {W} : M W W := fun w => (w, w).

Definition gets {W A} (f : W -> A) : M W A := fun w => (f w, w).

Definition modify {W} (f : W -> W) : M W unit := fun w => (tt, f w).

(** ** Record update

    [r <| f := v |>] is [r] with field [f] set to [v].  A record type takes part by an
    instance of [Eta], its eta expansion; the notation is replaced by the full record when
    the term is elaborated. *)

Class Eta (R : Type) := eta : R -> R.

Ltac set_field r f v :=
  let R := type of r in
  let i := constr:(ltac:(typeclasses eauto) : Eta R) in
  let g := eval hnf in i in
  let e := eval cbv beta in (g r) in
  lazymatch e with
  | context E [f r] => let u := context E [v] in exact u
  end.

Notation "r <| f := v |>" := (ltac:(set_field r f v))
  (at level 1, left associativity, only parsing) : kit_scope.

(** ** Tactics *)

(** Unfold the state monad. *)
Ltac run_m := cbv [mbind mret M_bind M_ret get gets modify] in *; simpl in *.

(** Case analysis on the innermost scrutinee of a goal or hypothesis. *)
Ltac split_match :=
  match goal with
  | |- context [match ?x with _ => _ end] =>
      lazymatch x with
      | context [match _ with _ => _ end] => fail
      | _ => destruct x eqn:?
      end
  | H : context [match ?x with _ => _ end] |- _ =>
      lazymatch x with
      | context [match _ with _ => _ end] => fail
      | _ => destruct x eqn:?
      end
  end.

(** Turn boolean integer comparisons into propositions, then linear arithmetic. *)
Ltac bool_lia :=
  repeat match goal with
  | H : (_ <=? _) = true |- _ => apply Z.leb_le in H
  | H : (_ <=? _) = false |- _ => apply Z.leb_gt in H
  | H : (_ <? _) = true |- _ => apply Z.ltb_lt in H
  | H : (_ <? _) = false |- _ => apply Z.ltb_ge in H
  | H : (_ =? _) = true |- _ => apply Z.eqb_eq in H
  | H : (_ =? _) = false |- _ => apply Z.eqb_neq in H
  | H : (_ >=? _) = _ |- _ => rewrite Z.geb_leb in H
  | H : (_ >? _) = _ |- _ => rewrite Z.gtb_ltb in H
  end; try lia.

(** Take the else branch of comparisons that linear arithmetic refutes. *)
Ltac if_false :=
  repeat match goal with
  | |- context [?a <=? ?b] => rewrite (proj2 (Z.leb_gt a b)) by lia
  | |- context [?a <? ?b] => rewrite (proj2 (Z.ltb_ge a b)) by lia
  end.

(** Prove a decidable closed proposition by running its decision procedure. *)
Ltac by_compute :=
  match goal with |- ?P => refine (bool_decide_unpack P _); vm_compute; exact I end.

(** ** Hint databases *)

Create HintDb kit discriminated.
Create Rewrite HintDb kit_rw.

(** ** Lemmas on machine integers *)

Lemma int64_id z : in_int64 z -> int64 z = z.
Proof.
  unfold in_int64, int64, int64_min, int64_max. intros.
  rewrite Z.mod_small by lia. lia.
Qed.

Lemma int64_range z : in_int64 (int64 z).
Proof.
  unfold in_int64, int64, int64_min, int64_max.
  pose proof (Z.mod_pos_bound (z + 2 ^ 63) (2 ^ 64) ltac:(lia)). lia.
Qed.

Lemma uint64_id z : 0 <= z < 2 ^ 64 -> uint64 z = z.
Proof. apply Z.mod_small. Qed.

Lemma uint64_range z : 0 <= uint64 z < 2 ^ 64.
Proof. apply Z.mod_pos_bound. lia. Qed.

(** A guarded increment does not overflow: the counter is below a machine integer. *)
Lemma int64_succ_lt z m : 0 <= z -> z < m -> in_int64 m -> int64 (z + 1) = z + 1.
Proof. intros ?? Hm. apply int64_id. revert Hm. unfold in_int64, int64_min. lia. Qed.

(** Comparing a saturated difference with a non-negative duration is exact. *)
Lemma time_sub_leb a b d :
  0 < d <= int64_max -> (d <=? time_sub a b) = (d <=? a - b).
Proof. unfold time_sub, int64_max, int64_min. lia. Qed.

#[export] Hint Resolve int64_range uint64_range : kit.

(** ** Lemmas on lists *)

Lemma Forall_snoc {A} (P : A -> Prop) l x : Forall P (l ++ [x]) <-> Forall P l /\ P x.
Proof. rewrite Forall_app, Forall_singleton. done. Qed.

Lemma list_bind_ext_in {A B} (f g : A -> list B) l :
  (forall x, x ∈ l -> f x = g x) -> l ≫= f = l ≫= g.
Proof.
  induction l as [|x l IH]; intros Hfg; [done|].
  rewrite !bind_cons, Hfg, IH; [done| |by left]. intros y Hy. apply Hfg. by right.
Qed.
