(* ===== verification/CircuitBreaker.v ===== *)
(** * The circuit breaker (internal/circuitbreaker)

    The breaker is a state machine behind a mutex.  Every exported operation runs in one
    critical section, so an execution of any number of goroutines is a sequence of the
    operations of type [Op]; [run] and the step relation [step] are over such sequences.
    Each call of [time.Now] in the source is an argument of the operation, in source order. *)

From stdpp Require Import base strings list relations pretty.
From Stdlib Require Import ZArith Lia.
From S2P Require Import Prelude.
Local Open Scope Z_scope.

Module CB.

(** ** Data *)

(** [type State int] with its three constants.  [StateOther] stands for the remaining values
    of the underlying integer, the ones the [default] branches of the source handle. *)
Inductive State :=
| StateClosed
| StateOpen
| StateHalfOpen
| StateOther (n : Z).

#[export] Instance State_eq_dec : EqDecision State.
Proof. solve_decision. Defined.

Definition String (s : State) : string :=
  match s with
  | StateClosed => "closed"
  | StateOpen => "open"
  | StateHalfOpen => "half-open"
  | StateOther _ => "unknown"
  end.

(** [OnStateChange] records whether the callback is non-nil; what it does is the caller's. *)
Record Config := {
  MaxFailures : Z;
  ResetTimeout : Z;
  HalfOpenMaxRequests : Z;
  OnStateChange : bool
}.

Definition DefaultConfig : Config :=
  {| MaxFailures := 5;
     ResetTimeout := 60 * Second;
     HalfOpenMaxRequests := 3;
     OnStateChange := false |}.

Record CircuitBreaker := {
  config : Config;
  state : State;
  failures : Z;
  successes : Z;
  lastFailureTime : Z;
  lastStateChangeTime : Z;
  halfOpenRequests : Z
}.

Record Metrics := {
  m_State : State;
  m_Failures : Z;
  m_Successes : Z;
  m_HalfOpenRequests : Z;
  m_LastFailureTime : Z;
  m_LastStateChangeTime : Z
}.

(** Invocations of [OnStateChange]: in a goroutine of its own, or by the calling goroutine
    while it holds the breaker's lock. *)
Inductive Callback :=
| GoCallback (from to : State)
| LockedCallback (from to : State).

(** ** Operations *)

(** The defaulting of [New], one field at a time. *)
Definition normalize (c : Config) : Config :=
  {| MaxFailures := if MaxFailures c <=? 0 then 5 else MaxFailures c;
     ResetTimeout := if ResetTimeout c <=? 0 then 60 * Second else ResetTimeout c;
     HalfOpenMaxRequests := if HalfOpenMaxRequests c <=? 0 then 3 else HalfOpenMaxRequests c;
     OnStateChange := OnStateChange c |}.

Definition New (c : Config) (now : Z) : CircuitBreaker :=
  {| config := normalize c;
     state := StateClosed;
     failures := 0;
     successes := 0;
     lastFailureTime := zero_time;
     lastStateChangeTime := now;
     halfOpenRequests := 0 |}.

Definition setState (newState : State) (now : Z) (cb : CircuitBreaker)
  : CircuitBreaker * list Callback :=
  ({| config := config cb;
      state := newState;
      failures := failures cb;
      successes := successes cb;
      lastFailureTime := lastFailureTime cb;
      lastStateChangeTime := now;
      halfOpenRequests := halfOpenRequests cb |},
   if OnStateChange (config cb) && negb (bool_decide (state cb = newState))
   then [GoCallback (state cb) newState] else []).

(** Assignments to the three counters. *)
Definition set_counters (f s h : Z) (cb : CircuitBreaker) : CircuitBreaker :=
  {| config := config cb;
     state := state cb;
     failures := f;
     successes := s;
     lastFailureTime := lastFailureTime cb;
     lastStateChangeTime := lastStateChangeTime cb;
     halfOpenRequests := h |}.

(** [now] is the reading at the top of [AllowRequest], [now'] the one inside [setState]. *)
Definition AllowRequest (now now' : Z) (cb : CircuitBreaker)
  : bool * CircuitBreaker * list Callback :=
  match state cb with
  | StateClosed => (true, cb, [])
  | StateOpen =>
      if ResetTimeout (config cb) <=? time_sub now (lastStateChangeTime cb) then
        let '(cb', ev) := setState StateHalfOpen now' cb in
        (true, set_counters 0 0 0 cb', ev)
      else (false, cb, [])
  | StateHalfOpen =>
      if halfOpenRequests cb <? HalfOpenMaxRequests (config cb) then
        (true, set_counters (failures cb) (successes cb) (int64 (halfOpenRequests cb + 1)) cb, [])
      else (false, cb, [])
  | StateOther _ => (false, cb, [])
  end.

Definition RecordSuccess (now' : Z) (cb : CircuitBreaker) : CircuitBreaker * list Callback :=
  match state cb with
  | StateClosed => (set_counters 0 (successes cb) (halfOpenRequests cb) cb, [])
  | StateHalfOpen =>
      let cb1 := set_counters (failures cb) (int64 (successes cb + 1)) (halfOpenRequests cb) cb in
      if HalfOpenMaxRequests (config cb1) <=? successes cb1 then
        let '(cb2, ev) := setState StateClosed now' cb1 in (set_counters 0 0 0 cb2, ev)
      else (cb1, [])
  | StateOpen => (cb, [])
  | StateOther _ => (cb, [])
  end.

Definition RecordFailure (now now' : Z) (cb : CircuitBreaker) : CircuitBreaker * list Callback :=
  let cb1 :=
    {| config := config cb;
       state := state cb;
       failures := int64 (failures cb + 1);
       successes := successes cb;
       lastFailureTime := now;
       lastStateChangeTime := lastStateChangeTime cb;
       halfOpenRequests := halfOpenRequests cb |} in
  match state cb1 with
  | StateClosed =>
      if MaxFailures (config cb1) <=? failures cb1 then setState StateOpen now' cb1
      else (cb1, [])
  | StateHalfOpen =>
      let '(cb2, ev) := setState StateOpen now' cb1 in
      (set_counters (failures cb2) 0 0 cb2, ev)
  | StateOpen => (cb1, [])
  | StateOther _ => (cb1, [])
  end.

Definition GetState (cb : CircuitBreaker) : State := state cb.

Definition GetMetrics (cb : CircuitBreaker) : Metrics :=
  {| m_State := state cb;
     m_Failures := failures cb;
     m_Successes := successes cb;
     m_HalfOpenRequests := halfOpenRequests cb;
     m_LastFailureTime := lastFailureTime cb;
     m_LastStateChangeTime := lastStateChangeTime cb |}.

Definition Metrics_String (m : Metrics) : string :=
  "CircuitBreaker[state=" +:+ String (m_State m) +:+ ", failures=" +:+ pretty (m_Failures m) +:+
  ", successes=" +:+ pretty (m_Successes m) +:+ ", halfOpen=" +:+
  pretty (m_HalfOpenRequests m) +:+ "]".

Definition Reset (now : Z) (cb : CircuitBreaker) : CircuitBreaker * list Callback :=
  let oldState := state cb in
  ({| config := config cb;
      state := StateClosed;
      failures := 0;
      successes := 0;
      lastFailureTime := lastFailureTime cb;
      lastStateChangeTime := now;
      halfOpenRequests := 0 |},
   if OnStateChange (config cb) && negb (bool_decide (oldState = StateClosed))
   then [LockedCallback oldState StateClosed] else []).

(** ** Executions *)

Inductive Op :=
| OpAllow (now now' : Z)
| OpSuccess (now' : Z)
| OpFailure (now now' : Z)
| OpReset (now : Z).

(** One operation; the boolean is [AllowRequest]'s answer. *)
Definition apply (op : Op) (cb : CircuitBreaker) : CircuitBreaker * option bool :=
  match op with
  | OpAllow now now' => let '(b, cb', _) := AllowRequest now now' cb in (cb', Some b)
  | OpSuccess now' => (fst (RecordSuccess now' cb), None)
  | OpFailure now now' => (fst (RecordFailure now now' cb), None)
  | OpReset now => (fst (Reset now cb), None)
  end.

Fixpoint run (ops : list Op) (cb : CircuitBreaker) : CircuitBreaker * list bool :=
  match ops with
  | [] => (cb, [])
  | op :: ops' =>
      let '(cb1, o) := apply op cb in
      let '(cb2, bs) := run ops' cb1 in
      (cb2, match o with Some b => b :: bs | None => bs end)
  end.

Inductive step : CircuitBreaker -> CircuitBreaker -> Prop :=
| step_op op cb : step cb (fst (apply op cb)).

Definition reachable (c : Config) (cb : CircuitBreaker) : Prop :=
  exists t, rtc step (New c t) cb.

(** ** Well-formedness *)

(** The integer fields of a [Config] are Go integers. *)
Definition config_in_range (c : Config) : Prop :=
  in_int64 (MaxFailures c) /\ in_int64 (ResetTimeout c) /\ in_int64 (HalfOpenMaxRequests c).

Definition config_ok (c : Config) : Prop :=
  0 < MaxFailures c <= int64_max /\ 0 < ResetTimeout c <= int64_max /\
  0 < HalfOpenMaxRequests c <= int64_max.

(** What holds of the counters in each state. *)
Definition counters_ok (cb : CircuitBreaker) : Prop :=
  match state cb with
  | StateClosed =>
      0 <= failures cb < MaxFailures (config cb) /\ successes cb = 0 /\ halfOpenRequests cb = 0
  | StateOpen => successes cb = 0 /\ halfOpenRequests cb = 0
  | StateHalfOpen =>
      failures cb = 0 /\ 0 <= successes cb < HalfOpenMaxRequests (config cb) /\
      0 <= halfOpenRequests cb <= HalfOpenMaxRequests (config cb)
  | StateOther _ => False
  end.

Definition wf (cb : CircuitBreaker) : Prop := config_ok (config cb) /\ counters_ok cb.

#[export] Instance config_in_range_dec c : Decision (config_in_range c).
Proof. unfold config_in_range. solve_decision. Defined.

#[export] Instance wf_dec cb : Decision (wf cb).
Proof.
  unfold wf, config_ok, counters_ok. apply and_dec; [solve_decision|].
  destruct (state cb); solve_decision.
Defined.

(** ** Abstract machine

    The breaker as a client sees it: a count of consecutive failures while closed, the
    moment it opened, or the probes admitted and succeeded since it became half-open.
    Unbounded integers, no dead fields. *)

Inductive Spec :=
| SClosed (consecutive : Z)
| SOpen (since : Z)
| SHalfOpen (admitted succeeded : Z).

Definition spec_apply (c : Config) (op : Op) (s : Spec) : Spec * option bool :=
  match op, s with
  | OpAllow _ _, SClosed _ => (s, Some true)
  | OpAllow now _, SOpen since =>
      if ResetTimeout c <=? now - since then (SHalfOpen 0 0, Some true) else (s, Some false)
  | OpAllow _ _, SHalfOpen a k =>
      if a <? HalfOpenMaxRequests c then (SHalfOpen (a + 1) k, Some true) else (s, Some false)
  | OpSuccess _, SClosed _ => (SClosed 0, None)
  | OpSuccess _, SOpen _ => (s, None)
  | OpSuccess _, SHalfOpen a k =>
      (if k + 1 <? HalfOpenMaxRequests c then SHalfOpen a (k + 1) else SClosed 0, None)
  | OpFailure _ now', SClosed n =>
      (if n + 1 <? MaxFailures c then SClosed (n + 1) else SOpen now', None)
  | OpFailure _ _, SOpen _ => (s, None)
  | OpFailure _ now', SHalfOpen _ _ => (SOpen now', None)
  | OpReset _, _ => (SClosed 0, None)
  end.

Fixpoint spec_run (c : Config) (ops : list Op) (s : Spec) : Spec * list bool :=
  match ops with
  | [] => (s, [])
  | op :: ops' =>
      let '(s1, o) := spec_apply c op s in
      let '(s2, bs) := spec_run c ops' s1 in
      (s2, match o with Some b => b :: bs | None => bs end)
  end.

Definition abs (cb : CircuitBreaker) : Spec :=
  match state cb with
  | StateClosed => SClosed (failures cb)
  | StateOpen => SOpen (lastStateChangeTime cb)
  | StateHalfOpen => SHalfOpen (halfOpenRequests cb) (successes cb)
  | StateOther _ => SClosed 0
  end.

(** ** Lemmas *)

Lemma normalize_ok c : config_in_range c -> config_ok (normalize c).
Proof.
  unfold config_in_range, config_ok, in_int64, int64_min, int64_max, normalize, Second; simpl.
  intros. repeat split; repeat case_match; bool_lia.
Qed.

Lemma New_wf c t : config_in_range c -> wf (New c t).
Proof.
  intros Hc. pose proof (normalize_ok c Hc) as Hn. split; [done|].
  unfold counters_ok. destruct Hn. simpl in *. lia.
Qed.

(** An operation that preserves well-formedness and refines its abstract counterpart. *)
Definition refines_at (op : Op) (cb : CircuitBreaker) : Prop :=
  wf (fst (apply op cb)) /\ config (fst (apply op cb)) = config cb /\
  spec_apply (config cb) op (abs cb) = (abs (fst (apply op cb)), snd (apply op cb)).

Ltac unfold_breaker :=
  unfold refines_at, wf, config_ok, counters_ok, abs, apply, AllowRequest, RecordSuccess,
    RecordFailure, Reset, setState, set_counters, in_int64, int64_min in *; simpl in *.

(** Decide every comparison left in the goal, then linear arithmetic. *)
Ltac breaker_cases :=
  repeat (case_match; simpl; bool_lia); simplify_eq; repeat split; simpl; try done; try lia;
  try (f_equal; lia).

Lemma allow_refines now now' cb : wf cb -> refines_at (OpAllow now now') cb.
Proof.
  destruct cb as [[mf rt hm oc] st f s lft lst h]. intros Hwf.
  pose proof (time_sub_leb now lst rt) as Ht.
  unfold_breaker. destruct Hwf as [(? & ? & ?) ?]. destruct st; simpl in *; [| | |done].
  - breaker_cases.
  - rewrite (Ht ltac:(lia)). breaker_cases.
  - destruct (Z.ltb_spec h hm); [|breaker_cases].
    rewrite (int64_succ_lt h hm) by (unfold in_int64, int64_min; lia). breaker_cases.
Qed.

Lemma success_refines now' cb : wf cb -> refines_at (OpSuccess now') cb.
Proof.
  destruct cb as [[mf rt hm oc] st f s lft lst h]. intros Hwf.
  unfold_breaker. destruct Hwf as [(? & ? & ?) ?]. destruct st; simpl in *; [| | |done].
  - breaker_cases.
  - breaker_cases.
  - rewrite (int64_succ_lt s hm) by (unfold in_int64, int64_min; lia). 
    destruct (Z.leb_spec hm (s + 1)), (Z.ltb_spec (s + 1) hm); breaker_cases.
Qed.

Lemma failure_refines now now' cb : wf cb -> refines_at (OpFailure now now') cb.
Proof.
  destruct cb as [[mf rt hm oc] st f s lft lst h]. intros Hwf.
  unfold_breaker. destruct Hwf as [(? & ? & ?) ?]. destruct st; simpl in *; [| | |done].
  - rewrite (int64_succ_lt f mf) by (unfold in_int64, int64_min; lia).
    destruct (Z.leb_spec mf (f + 1)), (Z.ltb_spec (f + 1) mf); breaker_cases.
  - breaker_cases.
  - breaker_cases.
Qed.

Lemma reset_refines now cb : wf cb -> refines_at (OpReset now) cb.
Proof.
  destruct cb as [[mf rt hm oc] st f s lft lst h]. intros Hwf.
  unfold_breaker. destruct Hwf as [(? & ? & ?) ?]. destruct st; breaker_cases.
Qed.

Lemma apply_refines op cb : wf cb -> refines_at op cb.
Proof.
  destruct op; auto using allow_refines, success_refines, failure_refines, reset_refines.
Qed.

Lemma apply_wf op cb : wf cb -> wf (fst (apply op cb)).
Proof. intros H. apply (apply_refines op cb H). Qed.

Lemma apply_config op cb : wf cb -> config (fst (apply op cb)) = config cb.
Proof. intros H. apply (apply_refines op cb H). Qed.

Lemma run_cons op ops cb :
  run (op :: ops) cb =
  (fst (run ops (fst (apply op cb))),
   match snd (apply op cb) with
   | Some b => b :: snd (run ops (fst (apply op cb)))
   | None => snd (run ops (fst (apply op cb)))
   end).
Proof. simpl. destruct (apply op cb) as [cb1 o]; simpl. by destruct (run ops cb1). Qed.

Lemma run_refines ops cb :
  wf cb ->
  wf (fst (run ops cb)) /\ config (fst (run ops cb)) = config cb /\
  spec_run (config cb) ops (abs cb) = (abs (fst (run ops cb)), snd (run ops cb)).
Proof.
  revert cb. induction ops as [|op ops IH]; intros cb Hwf; [done|].
  destruct (apply_refines op cb Hwf) as (Hwf' & Hc & Hs).
  destruct (IH _ Hwf') as (? & Hc' & Hr). rewrite run_cons. simpl.
  rewrite Hs, <- Hc, Hr. split_and!; [done|congruence|by destruct (snd (apply op cb))].
Qed.

(** *** Opening: runs of failures *)

(** Outcomes of processed messages, [true] for a success, with the clock readings used. *)
Definition record (o : bool * (Z * Z)) : Op :=
  let '(ok, (now, now')) := o in if ok then OpSuccess now' else OpFailure now now'.

(** Does a sequence of outcomes complete a run of [n] failures, [k] already seen? *)
Fixpoint opens (n k : nat) (os : list bool) : bool :=
  match os with
  | [] => false
  | true :: os' => opens n 0 os'
  | false :: os' => (n <=? S k)%nat || opens n (S k) os'
  end.

Lemma opens_run n k os :
  (k < n)%nat ->
  opens n k os = true <->
  (exists l2, os = replicate (n - k) false ++ l2) \/
  (exists l1 l2, os = l1 ++ replicate n false ++ l2).
Proof.
  revert k. induction os as [|[] os IH]; intros k Hk; simpl.
  - split; [done|]. intros [[l2 H]|(l1 & l2 & H)].
    + replace (n - k)%nat with (S (n - k - 1)) in H by lia. done.
    + destruct l1; [|done]. destruct n; [lia|done].
  - rewrite IH by lia. rewrite Nat.sub_0_r. split.
    + intros [[l2 ->]|(l1 & l2 & ->)]; right; [by exists [true], l2|by exists (true :: l1), l2].
    + intros [[l2 H]|(l1 & l2 & H)].
      * replace (n - k)%nat with (S (n - k - 1)) in H by lia. done.
      * destruct l1 as [|? l1]; simplify_eq/=; [destruct n; [lia|done]|].
        right. by exists l1, l2.
  - destruct (Nat.leb_spec n (S k)) as [Hn|Hn]; simpl.
    { split; [|done]. intros _. left. exists os. by replace (n - k)%nat with 1%nat by lia. }
    rewrite IH by done. split.
    + intros [[l2 ->]|(l1 & l2 & ->)]; [left|right; by exists (false :: l1), l2].
      exists l2. by replace (n - k)%nat with (S (n - S k)) by lia.
    + intros [[l2 H]|([|? l1] & l2 & H)]; [left|left|right; simplify_eq/=; by exists l1, l2].
      * exists l2. replace (n - k)%nat with (S (n - S k)) in H by lia. by simplify_eq/=.
      * exists (replicate k false ++ l2). rewrite app_assoc, <- replicate_add.
        replace n with (S (n - S k + k)) in H by lia. by simplify_eq/=.
Qed.

Lemma opens_fresh n os :
  (0 < n)%nat -> opens n 0 os = true <-> exists l1 l2, os = l1 ++ replicate n false ++ l2.
Proof.
  intros Hn. rewrite opens_run, Nat.sub_0_r by done. split; [|by right].
  intros [[l2 ->]|?]; [by exists [], l2|done].
Qed.

Lemma run_records os cb :
  wf cb -> state cb = StateOpen ->
  state (fst (run (record <$> os) cb)) = StateOpen.
Proof.
  revert cb. induction os as [|[[] [now now']] os IH]; intros cb Hwf Hst; [done|..];
    rewrite fmap_cons, run_cons; cbn [fst]; apply IH; try (by apply apply_wf); simpl.
  - unfold RecordSuccess. by rewrite Hst.
  - unfold RecordFailure. simpl. by rewrite Hst.
Qed.

Lemma run_records_closed os cb :
  wf cb -> state cb = StateClosed ->
  state (fst (run (record <$> os) cb)) =
  if opens (Z.to_nat (MaxFailures (config cb))) (Z.to_nat (failures cb)) (fst <$> os)
  then StateOpen else StateClosed.
Proof.
  revert cb. induction os as [|[[] [now now']] os IH]; intros cb Hwf Hst; [done|..];
    rewrite fmap_cons, run_cons; simpl.
  - rewrite IH; [|by apply (apply_wf (OpSuccess now'))|unfold RecordSuccess; by rewrite Hst].
    unfold RecordSuccess. by rewrite Hst.
  - pose proof (apply_wf (OpFailure now now') cb Hwf) as Hwf'. simpl in Hwf'.
    destruct Hwf as [[Hm _] Hc]. unfold counters_ok in Hc. rewrite Hst in Hc.
    unfold RecordFailure in *. simpl in *. rewrite Hst in *.
    rewrite (int64_succ_lt _ (MaxFailures (config cb))) in *
      by (unfold in_int64, int64_min; lia).
    destruct (Z.leb_spec (MaxFailures (config cb)) (failures cb + 1)).
    + rewrite (proj2 (Nat.leb_le _ _)) by lia. simpl. by apply run_records.
    + rewrite (proj2 (Nat.leb_gt _ _)) by lia. simpl in *. rewrite IH by done. simpl.
      by replace (Z.to_nat (failures cb + 1)) with (S (Z.to_nat (failures cb))) by lia.
Qed.

(** *** Open, half-open *)

(** Operations that cannot close an open breaker before [deadline]. *)
Definition before (deadline : Z) (op : Op) : Prop :=
  match op with
  | OpAllow now _ => now < deadline
  | OpReset _ => False
  | OpSuccess _ | OpFailure _ _ => True
  end.

Lemma before_step deadline op cb :
  wf cb -> state cb = StateOpen -> deadline = lastStateChangeTime cb + ResetTimeout (config cb) ->
  before deadline op ->
  let cb' := fst (apply op cb) in
  state cb' = StateOpen /\ lastStateChangeTime cb' = lastStateChangeTime cb /\
  config cb' = config cb /\ (snd (apply op cb) = Some false \/ snd (apply op cb) = None).
Proof.
  intros [(_ & Ht & _) _] Hst -> Hb. destruct op; simpl in *; [| | |done].
  - unfold AllowRequest. rewrite Hst, time_sub_leb by done.
    rewrite (proj2 (Z.leb_gt _ _)) by lia. simpl. auto.
  - unfold RecordSuccess. rewrite Hst. auto.
  - unfold RecordFailure. simpl. rewrite Hst. simpl. auto.
Qed.

(** The breaker becomes half-open on the first request after the timeout. *)
Lemma allow_expired now now' cb :
  wf cb -> state cb = StateOpen ->
  lastStateChangeTime cb + ResetTimeout (config cb) <= now ->
  let cb' := fst (apply (OpAllow now now') cb) in
  state cb' = StateHalfOpen /\ halfOpenRequests cb' = 0 /\ successes cb' = 0 /\
  config cb' = config cb /\ snd (apply (OpAllow now now') cb) = Some true.
Proof.
  intros [(_ & Ht & _) _] Hst Hnow. simpl. unfold AllowRequest.
  rewrite Hst, time_sub_leb, (proj2 (Z.leb_le _ _)) by lia. simpl. auto.
Qed.

Definition allow (t : Z * Z) : Op := OpAllow (fst t) (snd t).

(** The answers of a half-open breaker to a burst of requests. *)
Lemma half_open_answers (ts : list (Z * Z)) cb :
  wf cb -> state cb = StateHalfOpen ->
  let left := Z.to_nat (HalfOpenMaxRequests (config cb) - halfOpenRequests cb) in
  snd (run (allow <$> ts) cb) =
  replicate (Nat.min (length ts) left) true ++ replicate (length ts - left) false.
Proof.
  revert cb. induction ts as [|t ts IH]; intros cb Hwf Hst; [done|].
  rewrite fmap_cons, run_cons. pose proof (apply_wf (allow t) cb Hwf) as Hwf'.
  destruct Hwf as [(_ & _ & Hh) Hc]. unfold counters_ok in Hc. rewrite Hst in Hc.
  cbn [snd]. unfold allow, apply, AllowRequest in *. rewrite Hst in *.
  destruct (Z.ltb_spec (halfOpenRequests cb) (HalfOpenMaxRequests (config cb))) as [Hlt|Hge];
    cbn [fst snd] in *.
  - rewrite IH by done. unfold set_counters. cbn [config halfOpenRequests].
    rewrite (int64_succ_lt _ (HalfOpenMaxRequests (config cb)))
      by (unfold in_int64, int64_min; lia).
    replace (Z.to_nat (HalfOpenMaxRequests (config cb) - halfOpenRequests cb))
      with (S (Z.to_nat (HalfOpenMaxRequests (config cb) - (halfOpenRequests cb + 1)))) by lia.
    done.
  - rewrite IH by done.
    replace (Z.to_nat (HalfOpenMaxRequests (config cb) - halfOpenRequests cb)) with 0%nat by lia.
    rewrite Nat.sub_0_r, !Nat.min_0_r. done.
Qed.

Lemma closed_successes (ts : list Z) cb :
  wf cb -> state cb = StateClosed -> state (fst (run (OpSuccess <$> ts) cb)) = StateClosed.
Proof.
  revert cb. induction ts as [|t ts IH]; intros cb Hwf Hst; [done|].
  rewrite fmap_cons, run_cons. cbn [fst]. apply IH; [by apply apply_wf|].
  simpl. unfold RecordSuccess. by rewrite Hst.
Qed.

Lemma half_open_successes (ts : list Z) cb :
  wf cb -> state cb = StateHalfOpen ->
  state (fst (run (OpSuccess <$> ts) cb)) =
  if Z.of_nat (length ts) <? HalfOpenMaxRequests (config cb) - successes cb
  then StateHalfOpen else StateClosed.
Proof.
  revert cb. induction ts as [|t ts IH]; intros cb Hwf Hst.
  { destruct Hwf as [_ Hc]. unfold counters_ok in Hc. rewrite Hst in Hc. simpl.
    by rewrite (proj2 (Z.ltb_lt _ _)) by lia. }
  rewrite fmap_cons, run_cons. pose proof (apply_wf (OpSuccess t) cb Hwf) as Hwf'.
  destruct Hwf as [(_ & _ & Hh) Hc]. unfold counters_ok in Hc. rewrite Hst in Hc.
  cbn [fst]. unfold apply, RecordSuccess in *. rewrite Hst in *. cbn [config successes set_counters] in *.
  rewrite (int64_succ_lt _ (HalfOpenMaxRequests (config cb))) in *
    by (unfold in_int64, int64_min; lia).
  destruct (Z.leb_spec (HalfOpenMaxRequests (config cb)) (successes cb + 1)); cbn [fst snd] in *.
  - rewrite closed_successes by done. rewrite (proj2 (Z.ltb_ge _ _)); [done|]. cbn [length]. lia.
  - rewrite IH by done. cbn [config successes set_counters length].
    repeat case_match; bool_lia; done.
Qed.

(** The transitions a callback reports. *)
Definition callbacks (op : Op) (cb : CircuitBreaker) : list Callback :=
  match op with
  | OpAllow now now' => snd (AllowRequest now now' cb)
  | OpSuccess now' => snd (RecordSuccess now' cb)
  | OpFailure now now' => snd (RecordFailure now now' cb)
  | OpReset now => snd (Reset now cb)
  end.

Definition transition (c : Callback) : State * State :=
  match c with GoCallback f t | LockedCallback f t => (f, t) end.

(** ** Properties *)

(** Every state the breaker reaches through its exported operations, under any
    interleaving of goroutines and any clock readings, is well-formed: the state is one of
    the three constants, the failure counter of a closed breaker is below the (defaulted)
    threshold, and the probe counters stay within [HalfOpenMaxRequests]. *)
Theorem reachable_wf c cb : config_in_range c -> reachable c cb -> wf cb.
Proof.
  intros Hc [t Hr]. pose proof (New_wf c t Hc) as H0. revert H0.
  induction Hr as [|x y z [op cb0] _ IH]; auto using apply_wf.
Qed.

(** C10: over every sequence of operations a fresh breaker gives exactly the answers of the
    abstract machine, and its state abstracts to the machine's: the wrap-around of its
    counters and the fields a state does not use are never observable. *)
Theorem run_refines_spec c t ops :
  config_in_range c ->
  spec_run (normalize c) ops (SClosed 0) =
  (abs (fst (run ops (New c t))), snd (run ops (New c t))).
Proof. intros Hc. by apply (run_refines ops (New c t)), New_wf. Qed.

(** A breaker that records the outcomes of messages is open exactly when the outcomes
    contain [MaxFailures] failures in a row. *)
Theorem opens_after_max_failures c t (os : list (bool * (Z * Z))) :
  config_in_range c ->
  state (fst (run (record <$> os) (New c t))) = StateOpen <->
  exists l1 l2,
    fst <$> os = l1 ++ replicate (Z.to_nat (MaxFailures (normalize c))) false ++ l2.
Proof.
  intros Hc. pose proof (New_wf c t Hc) as Hwf. destruct (normalize_ok c Hc) as [Hm _].
  rewrite run_records_closed by done.
  rewrite <- opens_fresh by lia. cbn [New config failures Z.to_nat].
  by destruct (opens _ _ _).
Qed.

(** Until [ResetTimeout] has passed since it opened, an open breaker rejects every
    request and stays open, whatever successes and failures are recorded meanwhile. *)
Theorem open_rejects_until_timeout cb ops :
  wf cb -> state cb = StateOpen ->
  Forall (before (lastStateChangeTime cb + ResetTimeout (config cb))) ops ->
  Forall (eq false) (snd (run ops cb)) /\ state (fst (run ops cb)) = StateOpen.
Proof.
  revert cb. induction ops as [|op ops IH]; intros cb Hwf Hst Hops; [done|].
  apply Forall_cons in Hops as [Hop Hops].
  destruct (before_step _ op cb Hwf Hst eq_refl Hop) as (Hst' & Ht & Hc & Ho).
  destruct (IH (fst (apply op cb))) as [IHb IHs]; [by apply apply_wf|done|by rewrite Ht, Hc|].
  rewrite run_cons. split; [|done]. destruct Ho as [->| ->]; [by constructor|done].
Qed.

(** C28: after the timeout an open breaker admits exactly [HalfOpenMaxRequests + 1] requests
    of a burst, the one that made it half-open included, and rejects the rest. *)
Theorem half_open_admits now now' (ts : list (Z * Z)) cb :
  wf cb -> state cb = StateOpen ->
  lastStateChangeTime cb + ResetTimeout (config cb) <= now ->
  let n := S (Z.to_nat (HalfOpenMaxRequests (config cb))) in
  snd (run (allow <$> (now, now') :: ts) cb) =
  replicate (Nat.min (S (length ts)) n) true ++ replicate (S (length ts) - n) false.
Proof.
  intros Hwf Hst Hnow. rewrite fmap_cons, run_cons.
  destruct (allow_expired now now' cb Hwf Hst Hnow) as (Hs & Hh & _ & Hc & Ha).
  cbn [snd]. unfold allow at 1. cbn [fst snd]. rewrite Ha.
  unfold allow at 2. cbn [fst snd].
  rewrite half_open_answers by auto using apply_wf. by rewrite Hh, Hc, Z.sub_0_r.
Qed.

(** A breaker that became half-open closes after [HalfOpenMaxRequests] successes and not
    before, and a failure before that reopens it with a fresh timeout. *)
Theorem half_open_recovery now now' (ts : list Z) tf tf' cb :
  wf cb -> state cb = StateOpen ->
  lastStateChangeTime cb + ResetTimeout (config cb) <= now ->
  let cb' := fst (run (OpAllow now now' :: (OpSuccess <$> ts)) cb) in
  if Z.of_nat (length ts) <? HalfOpenMaxRequests (config cb)
  then state cb' = StateHalfOpen /\
       state (fst (apply (OpFailure tf tf') cb')) = StateOpen /\
       lastStateChangeTime (fst (apply (OpFailure tf tf') cb')) = tf'
  else state cb' = StateClosed.
Proof.
  intros Hwf Hst Hnow. rewrite run_cons. cbn [fst].
  destruct (allow_expired now now' cb Hwf Hst Hnow) as (Hs & _ & Hk & Hc & _).
  rewrite half_open_successes by auto using apply_wf. rewrite Hk, Hc, Z.sub_0_r.
  case_match eqn:E; [|done]. split; [done|].
  set (cb' := fst (run _ _)).
  assert (state cb' = StateHalfOpen) as Hcb'.
  { unfold cb'. rewrite half_open_successes by auto using apply_wf.
    by rewrite Hk, Hc, Z.sub_0_r, E. }
  simpl. unfold RecordFailure. simpl. by rewrite Hcb'.
Qed.

(** Once a half-open breaker has admitted its probes it rejects every further request
    and does not change, however much time passes: only a recorded outcome or [Reset] moves
    it. *)
Theorem half_open_exhausted (ts : list (Z * Z)) cb :
  state cb = StateHalfOpen -> halfOpenRequests cb = HalfOpenMaxRequests (config cb) ->
  run (allow <$> ts) cb = (cb, replicate (length ts) false).
Proof.
  intros Hst Hh. induction ts as [|t ts IH]; [done|].
  assert (apply (allow t) cb = (cb, Some false)) as Ha.
  { unfold allow, apply, AllowRequest. by rewrite Hst, Hh, Z.ltb_irrefl. }
  rewrite fmap_cons, run_cons, Ha. cbn [fst snd]. by rewrite IH.
Qed.

(** When a callback is configured it is invoked exactly once for each operation that
    changes the state, with the old and the new state, and never otherwise. *)
Theorem callbacks_report_transitions op cb :
  wf cb -> OnStateChange (config cb) = true ->
  transition <$> callbacks op cb =
  if bool_decide (state cb = state (fst (apply op cb))) then []
  else [(state cb, state (fst (apply op cb)))].
Proof.
  destruct cb as [[mf rt hm oc] st f s lft lst h]. intros [_ Hc] Ho. simpl in Ho. subst oc.
  unfold counters_ok in Hc. destruct st; simpl in Hc; [| | |done]; destruct op; simpl;
    unfold AllowRequest, RecordSuccess, RecordFailure; simpl; repeat (case_match; simpl; try done);
    simplify_eq; done.
Qed.

(** ** Witnesses *)

Definition demo_config : Config :=
  {| MaxFailures := 2; ResetTimeout := 10; HalfOpenMaxRequests := 2; OnStateChange := true |}.

(** Two failures at times 3 and 4: open since 4. *)
Definition demo_open : CircuitBreaker :=
  fst (run [OpFailure 3 3; OpFailure 4 4] (New demo_config 0)).

(** Half-open at 14, both counted probes admitted. *)
Definition demo_exhausted : CircuitBreaker :=
  fst (run [OpAllow 14 14; OpAllow 15 15; OpAllow 15 15] demo_open).

Lemma reachable_wf_witness : wf (fst (apply (OpFailure 3 3) (New demo_config 0))).
Proof.
  apply (reachable_wf demo_config); [by_compute|].
  exists 0. apply rtc_once. constructor.
Defined.

Lemma run_refines_spec_witness :
  spec_run (normalize demo_config) [OpFailure 3 3; OpFailure 4 4; OpAllow 5 5; OpAllow 14 14]
    (SClosed 0) =
  (SHalfOpen 0 0, [false; true]).
Proof. rewrite (run_refines_spec demo_config 0); [vm_compute; reflexivity|by_compute]. Defined.

Lemma opens_after_max_failures_witness : state demo_open = StateOpen.
Proof.
  apply (opens_after_max_failures demo_config 0 [(false, (3, 3)); (false, (4, 4))]); [by_compute|].
  exists [], []. vm_compute. reflexivity.
Defined.

Lemma open_rejects_until_timeout_witness :
  Forall (eq false) (snd (run [OpAllow 5 5; OpSuccess 6; OpFailure 7 7; OpAllow 13 13] demo_open)).
Proof.
  apply (open_rejects_until_timeout demo_open); [by_compute|vm_compute; reflexivity|].
  repeat constructor.
Defined.

Lemma half_open_admits_witness :
  snd (run (allow <$> [(14, 14); (15, 15); (15, 15); (16, 16)]) demo_open) =
  [true; true; true; false].
Proof.
  rewrite (half_open_admits 14 14 _ demo_open); [vm_compute; reflexivity|by_compute|..];
    vm_compute; [reflexivity|discriminate].
Defined.

Lemma half_open_recovery_witness :
  state (fst (run (OpAllow 14 14 :: (OpSuccess <$> [15; 16])) demo_open)) = StateClosed.
Proof.
  apply (half_open_recovery 14 14 [15; 16] 17 17 demo_open); [by_compute|..];
    vm_compute; [reflexivity|discriminate].
Defined.

Lemma half_open_exhausted_witness :
  run (allow <$> [(16, 16); (1000000, 1000000)]) demo_exhausted = (demo_exhausted, [false; false]).
Proof. apply (half_open_exhausted [(16, 16); (1000000, 1000000)] demo_exhausted); vm_compute; reflexivity. Defined.

Lemma callbacks_report_transitions_witness :
  transition <$> callbacks (OpAllow 14 14) demo_open = [(StateOpen, StateHalfOpen)].
Proof.
  rewrite (callbacks_report_transitions (OpAllow 14 14) demo_open);
    [vm_compute; reflexivity|by_compute|vm_compute; reflexivity].
Defined.

End CB.
