(* ===== verification/Errors.v ===== *)
(** * The error values of the library (errors/errors.go)

    An [error] of the Go program is a value of [option error], [None] for [nil].  The
    pointer types of the package are constructors; [Foreign] is an error of another package
    (amqp091, context, a handler), seen through its message and the errors its [Unwrap]
    method returns.  [Is] and [As] of the standard library follow the [Unwrap] tree depth
    first. *)

From stdpp Require Import base strings list relations.
From S2P Require Import Prelude.

Module Err.

(** ** Data *)

(** The package's sentinel variables; each is one comparable pointer. *)
Inductive sentinel :=
| ErrClientClosed
| ErrNoConnection
| ErrNoChannel
| ErrMaxRetriesExceeded
| ErrNoHandlersRegistered
| ErrPublishNotConfirmed
| ErrPublishConfirmTimeout.

#[export] Instance sentinel_eq_dec : EqDecision sentinel.
Proof. solve_decision. Defined.

Inductive error :=
| Sentinel (s : sentinel)
| ConfigError (Field Message : string)
| ConnectionError (Operation : string) (Cause : option error)
| PublishError (Exchange RoutingKey : string) (Cause : option error)
| ConsumeError (Queue : string) (Cause : option error)
| TopologyError (Operation Resource : string) (Cause : option error)
| HandlerError (EventType MessageID : string) (Cause : option error)
| ExpectedRetryError (Cause : option error)
| Foreign (msg : string) (wraps : list error).

(** ** Operations *)

Definition sentinel_text (s : sentinel) : string :=
  match s with
  | ErrClientClosed => "rabbitmq: client is closed"
  | ErrNoConnection => "rabbitmq: no active connection"
  | ErrNoChannel => "rabbitmq: no active channel"
  | ErrMaxRetriesExceeded => "rabbitmq: max retries exceeded"
  | ErrNoHandlersRegistered =>
      "rabbitmq: no handlers registered, call RegisterHandler before StartConsume"
  | ErrPublishNotConfirmed => "rabbitmq: message publish was not confirmed by broker"
  | ErrPublishConfirmTimeout => "rabbitmq: timeout waiting for publish confirmation"
  end.

(** The [Error] methods. *)
Fixpoint Error (e : error) : string :=
  let caused (text : string) (c : option error) : string :=
    match c with Some c => text +:+ ": " +:+ Error c | None => text end in
  match e with
  | Sentinel s => sentinel_text s
  | ConfigError f m => "rabbitmq: config error [" +:+ f +:+ "]: " +:+ m
  | ConnectionError op c => caused ("rabbitmq: connection error during '" +:+ op +:+ "'") c
  | PublishError ex rk c =>
      caused ("rabbitmq: publish failed [exchange=" +:+ ex +:+ ", routing_key=" +:+ rk +:+ "]") c
  | ConsumeError q c => caused ("rabbitmq: consume failed [queue=" +:+ q +:+ "]") c
  | TopologyError op r c =>
      caused ("rabbitmq: topology error during '" +:+ op +:+ "' [resource=" +:+ r +:+ "]") c
  | HandlerError t i c =>
      caused ("rabbitmq: handler error [type=" +:+ t +:+ ", message_id=" +:+ i +:+ "]") c
  | ExpectedRetryError (Some c) => Error c
  | ExpectedRetryError None => "rabbitmq: expected retry"
  | Foreign m _ => m
  end.

(** The [Unwrap] methods; types without one unwrap to nothing. *)
Definition Unwrap (e : error) : list error :=
  match e with
  | Sentinel _ | ConfigError _ _ => []
  | ConnectionError _ c | PublishError _ _ c | ConsumeError _ c | TopologyError _ _ c
  | HandlerError _ _ c | ExpectedRetryError c => option_list c
  | Foreign _ ws => ws
  end.

Definition NewConfigFieldError (field message : string) : error := ConfigError field message.

Definition NewConnectionError (operation : string) (cause : option error) : error :=
  ConnectionError operation cause.

Definition NewPublishError (exchange routingKey : string) (cause : option error) : error :=
  PublishError exchange routingKey cause.

Definition NewConsumeError (queue : string) (cause : option error) : error :=
  ConsumeError queue cause.

Definition NewTopologyError (operation resource : string) (cause : option error) : error :=
  TopologyError operation resource cause.

Definition NewHandlerError (eventType messageID : string) (cause : option error) : error :=
  HandlerError eventType messageID cause.

Definition NewExpectedRetryError (cause : option error) : option error :=
  match cause with
  | None => None
  | Some c => Some (ExpectedRetryError (Some c))
  end.

(** The depth-first search of [errors.Is] and [errors.As]: does [test] hold of the error
    or of one it wraps? *)
Fixpoint search (test : error -> bool) (e : error) : bool :=
  let in_cause (c : option error) := match c with Some c => search test c | None => false end in
  test e ||
  match e with
  | Sentinel _ | ConfigError _ _ => false
  | ConnectionError _ c | PublishError _ _ c | ConsumeError _ c | TopologyError _ _ c
  | HandlerError _ _ c | ExpectedRetryError c => in_cause c
  | Foreign _ ws => existsb (search test) ws
  end.

(** [errors.Is(err, target)] for a sentinel target. *)
Definition Is (err : option error) (target : sentinel) : bool :=
  match err with
  | None => false
  | Some e =>
      search (fun x => match x with Sentinel s => bool_decide (s = target) | _ => false end) e
  end.

(** [errors.As] with a target of type [*ExpectedRetryError]. *)
Definition IsExpectedRetry (err : option error) : bool :=
  match err with
  | None => false
  | Some e => search (fun x => match x with ExpectedRetryError _ => true | _ => false end) e
  end.

(** ** Lemmas *)

Definition wraps1 (e e' : error) : Prop := e' ∈ Unwrap e.

(** Induction over the [Unwrap] tree. *)
Lemma error_unwrap_ind (P : error -> Prop) :
  (forall e, Forall P (Unwrap e) -> P e) -> forall e, P e.
Proof.
  intros H. fix IH 1. intros e. apply H.
  destruct e as [s|f m|o c|x k c|q c|o r c|t i c|c|m ws]; simpl;
    try destruct c as [c|]; simpl; repeat constructor; try apply IH.
  induction ws as [|w ws IHws]; constructor; [apply IH|exact IHws].
Qed.

Lemma search_unfold test e : search test e = test e || existsb (search test) (Unwrap e).
Proof.
  destruct e as [s|f m|o c|x k c|q c|o r c|t i c|c|m ws]; simpl; try done;
    by destruct c; simpl; rewrite ?orb_false_r.
Qed.

(** The search finds exactly the errors reachable through [Unwrap]. *)
Lemma search_spec test e :
  search test e = true <-> exists e', rtc wraps1 e e' /\ test e' = true.
Proof.
  induction e as [e IH] using error_unwrap_ind.
  rewrite search_unfold, orb_true_iff, existsb_exists. split.
  - intros [Ht|(e1 & Hin & Hs)]; [by exists e|].
    apply list_elem_of_In in Hin. rewrite Forall_forall in IH.
    apply (IH e1 Hin) in Hs as (e' & Hr & Ht). exists e'. split; [|done].
    by eapply rtc_l.
  - intros (e' & Hr & Ht). destruct Hr as [|? e1 ? H1 Hr]; [by left|right].
    exists e1. split; [by apply list_elem_of_In|]. rewrite Forall_forall in IH.
    apply (IH e1 H1). eauto.
Qed.

(** ** Properties *)

(** [errors.Is] recognises a sentinel exactly when the sentinel is the error itself or is
    reachable from it through [Unwrap], however the package's error types and foreign
    wrappers are nested. *)
Theorem Is_spec e t : Is (Some e) t = true <-> rtc wraps1 e (Sentinel t).
Proof.
  unfold Is. rewrite search_spec. split.
  - intros ([] & Hr & Ht); try done. by apply bool_decide_eq_true in Ht as ->.
  - intros Hr. exists (Sentinel t). split; [done|]. by apply bool_decide_eq_true.
Qed.

(** [IsExpectedRetry] holds exactly of the errors that were marked by
    [NewExpectedRetryError] at some level of wrapping; marking a nil error gives nil, and
    marking keeps every sentinel the cause carried and its text. *)
Theorem IsExpectedRetry_spec e :
  (IsExpectedRetry (Some e) = true <-> exists c, rtc wraps1 e (ExpectedRetryError c)) /\
  NewExpectedRetryError None = None /\
  (forall e', NewExpectedRetryError (Some e) = Some e' ->
    IsExpectedRetry (Some e') = true /\ Error e' = Error e /\
    forall t, Is (Some e') t = Is (Some e) t).
Proof.
  split_and!; [|done|by intros ? [= <-]].
  unfold IsExpectedRetry. rewrite search_spec. split.
  - intros ([] & Hr & Ht); try done. eauto.
  - intros (c & Hr). by exists (ExpectedRetryError c).
Qed.

End Err.
