(* ===== verification/Json.v ===== *)
(** * JSON text, as the code uses encoding/json

    [router/message.go] decodes message bodies with [json.Unmarshal] into a struct with one
    string field, [internal/broker/consumer.go] into a map for its log, and [event.go] encodes
    them with [json.Marshal].  This file models the standard library's grammar check
    ([scanner.go]) as a parser into a tree, its string unquoting, and the decoding into the
    struct and into the map.  A Go string and a byte slice are both a [string] of 8-bit characters. *)

From stdpp Require Import base strings list.
From Stdlib Require Import Ascii NArith ZArith Lia.
From S2P Require Import Prelude.

Module Json.

(** ** Data *)

Inductive json :=
| JNull
| JBool (b : bool)
| JNumber (text : string)
| JString (s : string)
| JArray (l : list json)
| JObject (l : list (string * json)).

(** ** Characters *)

Definition code (c : ascii) : N := N_of_ascii c.

Definition chr (n : N) : ascii := ascii_of_N n.

Definition between (lo hi : N) (c : ascii) : bool := (lo <=? code c)%N && (code c <=? hi)%N.

Definition is_digit : ascii -> bool := between 48 57.

Definition is_space (c : ascii) : bool :=
  match code c with 32 | 9 | 10 | 13 => true | _ => false end%N.

(** The value of a hexadecimal digit. *)
Definition hex (c : ascii) : option N :=
  if is_digit c then Some (code c - 48)%N
  else if between 97 102 c then Some (code c - 87)%N
  else if between 65 70 c then Some (code c - 55)%N
  else None.

Definition hex4 (a b c d : ascii) : option N :=
  match hex a, hex b, hex c, hex d with
  | Some a, Some b, Some c, Some d => Some (((a * 16 + b) * 16 + c) * 16 + d)%N
  | _, _, _, _ => None
  end.

Fixpoint skip_space (s : string) : string :=
  match s with
  | String c s' => if is_space c then skip_space s' else s
  | EmptyString => s
  end.

(** ** UTF-8 *)

(** [utf8.AppendRune] of a code point that is not a surrogate. *)
Definition encode_rune (r : N) : string :=
  if (r <? 128)%N then String (chr r) ""
  else if (r <? 2048)%N then String (chr (192 + r / 64)) (String (chr (128 + r mod 64)) "")
  else if (r <? 65536)%N then
    String (chr (224 + r / 4096))
      (String (chr (128 + (r / 64) mod 64)) (String (chr (128 + r mod 64)) ""))
  else
    String (chr (240 + r / 262144))
      (String (chr (128 + (r / 4096) mod 64))
        (String (chr (128 + (r / 64) mod 64)) (String (chr (128 + r mod 64)) ""))).

(** U+FFFD, which stands for bytes that are not UTF-8. *)
Definition replacement : string := encode_rune 65533.

Definition cont : ascii -> bool := between 128 191.

(** The number of bytes of the well-formed multi-byte sequence at the head, 0 if none. *)
Definition rune_size (s : string) : nat :=
  match s with
  | String a (String b s2) =>
      if between 194 223 a && cont b then 2 else
      match s2 with
      | String c s3 =>
          if ((between 224 224 a && between 160 191 b) || (between 225 236 a && cont b) ||
              (between 237 237 a && between 128 159 b) || (between 238 239 a && cont b)) && cont c
          then 3 else
          match s3 with
          | String d _ =>
              if ((between 240 240 a && between 144 191 b) || (between 241 243 a && cont b) ||
                  (between 244 244 a && between 128 143 b)) && cont c && cont d
              then 4 else 0
          | EmptyString => 0
          end
      | EmptyString => 0
      end
  | _ => 0
  end.

(** ** String literals *)

Definition quote : ascii := chr 34.

Definition backslash : ascii := chr 92.

(** The character a one-letter escape stands for. *)
Definition simple_escape (c : ascii) : option ascii :=
  match code c with
  | 34 | 92 | 47 => Some c
  | 98 => Some (chr 8)
  | 102 => Some (chr 12)
  | 110 => Some (chr 10)
  | 114 => Some (chr 13)
  | 116 => Some (chr 9)
  | _ => None
  end%N.

(** The text of a literal up to its closing quote, escapes kept, and the rest; [None] when
    the scanner would report a syntax error. *)
Fixpoint lex_string (s : string) : option (string * string) :=
  match s with
  | EmptyString => None
  | String c s1 =>
      if Ascii.eqb c quote then Some ("", s1)
      else if Ascii.eqb c backslash then
        match s1 with
        | String e s2 =>
            match simple_escape e with
            | Some _ => '(raw, r) ← lex_string s2; Some (String c (String e raw), r)
            | None =>
                if Ascii.eqb e (chr 117) then
                  match s2 with
                  | String h1 (String h2 (String h3 (String h4 s3))) =>
                      match hex4 h1 h2 h3 h4 with
                      | Some _ =>
                          '(raw, r) ← lex_string s3;
                          Some (String c (String e (String h1 (String h2 (String h3
                                  (String h4 raw))))), r)
                      | None => None
                      end
                  | _ => None
                  end
                else None
            end
        | EmptyString => None
        end
      else if (code c <? 32)%N then None
      else '(raw, r) ← lex_string s1; Some (String c raw, r)
  end.

Definition is_surrogate (r : N) : bool := (55296 <=? r)%N && (r <=? 57343)%N.

(** [utf16.DecodeRune]: a high surrogate followed by a low one. *)
Definition surrogate_pair (r1 r2 : N) : option N :=
  if (55296 <=? r1)%N && (r1 <? 56320)%N && (56320 <=? r2)%N && (r2 <=? 57343)%N
  then Some ((r1 - 55296) * 1024 + (r2 - 56320) + 65536)%N else None.

(** [unquoteBytes] on a literal that passed [lex_string]: escapes are replaced, ill-formed
    UTF-8 becomes U+FFFD.  [keep] counts the remaining bytes of the well-formed sequence
    being copied. *)
Fixpoint unquote (keep : nat) (s : string) : string :=
  match s with
  | EmptyString => ""
  | String c s1 =>
      match keep with
      | S k => String c (unquote k s1)
      | 0 =>
          if Ascii.eqb c backslash then
            match s1 with
            | EmptyString => ""
            | String e s2 =>
                match simple_escape e with
                | Some x => String x (unquote 0 s2)
                | None =>
                    match s2 with
                    | String h1 (String h2 (String h3 (String h4 s3))) =>
                        match hex4 h1 h2 h3 h4 with
                        | Some r =>
                            if is_surrogate r then
                              match s3 with
                              | String b (String v (String g1 (String g2 (String g3
                                  (String g4 s4))))) =>
                                  match
                                    (if Ascii.eqb b backslash && Ascii.eqb v (chr 117)
                                     then hex4 g1 g2 g3 g4 ≫= surrogate_pair r else None)
                                  with
                                  | Some r' => encode_rune r' +:+ unquote 0 s4
                                  | None => replacement +:+ unquote 0 s3
                                  end
                              | _ => replacement +:+ unquote 0 s3
                              end
                            else encode_rune r +:+ unquote 0 s3
                        | None => ""
                        end
                    | _ => ""
                    end
                end
            end
          else if (code c <? 128)%N then String c (unquote 0 s1)
          else match rune_size s with
               | S (S k) => String c (unquote (S k) s1)
               | _ => replacement +:+ unquote 0 s1
               end
      end
  end.

(** ** Numbers *)

Fixpoint span_digits (s : string) : string * string :=
  match s with
  | String c s' =>
      if is_digit c then let '(d, r) := span_digits s' in (String c d, r) else ("", s)
  | EmptyString => ("", s)
  end.

Definition digits1 (s : string) : option (string * string) :=
  match span_digits s with
  | (EmptyString, _) => None
  | (d, r) => Some (d, r)
  end.

Definition starts (n : N) (s : string) : option string :=
  match s with
  | String c s' => if (code c =? n)%N then Some s' else None
  | EmptyString => None
  end.

(** The integer part: a single zero, or digits that do not start with one. *)
Definition lex_int (s : string) : option (string * string) :=
  match starts 48 s with
  | Some r => Some ("0", r)
  | None => digits1 s
  end.

Definition lex_frac (s : string) : option (string * string) :=
  match starts 46 s with
  | Some r => '(d, r') ← digits1 r; Some ("." +:+ d, r')
  | None => Some ("", s)
  end.

Definition lex_sign (s : string) : string * string :=
  match starts 43 s with
  | Some r => ("+", r)
  | None => match starts 45 s with Some r => ("-", r) | None => ("", s) end
  end.

Definition lex_exp (s : string) : option (string * string) :=
  match s with
  | String c r =>
      if (code c =? 101)%N || (code c =? 69)%N then
        let '(sg, r1) := lex_sign r in
        '(d, r2) ← digits1 r1; Some (String c (sg +:+ d), r2)
      else Some ("", s)
  | EmptyString => Some ("", s)
  end.

Definition lex_number (s : string) : option (string * string) :=
  let '(sg, s1) := match starts 45 s with Some r => ("-", r) | None => ("", s) end in
  '(i, s2) ← lex_int s1;
  '(f, s3) ← lex_frac s2;
  '(e, s4) ← lex_exp s3;
  Some (sg +:+ i +:+ f +:+ e, s4).

(** ** Values *)

Fixpoint strip_prefix (p s : string) : option string :=
  match p, s with
  | EmptyString, _ => Some s
  | String a p', String b s' => if Ascii.eqb a b then strip_prefix p' s' else None
  | _, EmptyString => None
  end.

(** Values nested deeper than this are a syntax error. *)
Definition maxNestingDepth : Z := 10000.

Definition lex_literal (s : string) : option (json * string) :=
  match strip_prefix "null" s with
  | Some r => Some (JNull, r)
  | None =>
      match strip_prefix "true" s with
      | Some r => Some (JBool true, r)
      | None =>
          match strip_prefix "false" s with
          | Some r => Some (JBool false, r)
          | None => '(t, r) ← lex_number s; Some (JNumber t, r)
          end
      end
  end.

(** A value, the elements of an array after [[], the members of an object after [{].  The
    first argument bounds the recursion; [depth] is the nesting of the enclosing value. *)
Fixpoint value (fuel : nat) (depth : Z) (s : string) {struct fuel} : option (json * string) :=
  match fuel with
  | 0 => None
  | S n =>
      match skip_space s with
      | EmptyString => None
      | String c s1 =>
          match code c with
          | 34%N => '(raw, r) ← lex_string s1; Some (JString (unquote 0 raw), r)
          | 91%N =>
              if (maxNestingDepth <? depth + 1)%Z then None else
              match starts 93 (skip_space s1) with
              | Some r => Some (JArray [], r)
              | None => '(l, r) ← elements n (depth + 1)%Z s1; Some (JArray l, r)
              end
          | 123%N =>
              if (maxNestingDepth <? depth + 1)%Z then None else
              match starts 125 (skip_space s1) with
              | Some r => Some (JObject [], r)
              | None => '(l, r) ← members n (depth + 1)%Z s1; Some (JObject l, r)
              end
          | _ => lex_literal (String c s1)
          end
      end
  end
with elements (fuel : nat) (depth : Z) (s : string) {struct fuel}
  : option (list json * string) :=
  match fuel with
  | 0 => None
  | S n =>
      '(v, r) ← value n depth s;
      match starts 44 (skip_space r) with
      | Some r' => '(l, r'') ← elements n depth r'; Some (v :: l, r'')
      | None => r' ← starts 93 (skip_space r); Some ([v], r')
      end
  end
with members (fuel : nat) (depth : Z) (s : string) {struct fuel}
  : option (list (string * json) * string) :=
  match fuel with
  | 0 => None
  | S n =>
      s1 ← starts 34 (skip_space s);
      '(raw, r) ← lex_string s1;
      r1 ← starts 58 (skip_space r);
      '(v, r2) ← value n depth r1;
      match starts 44 (skip_space r2) with
      | Some r3 => '(l, r4) ← members n depth r3; Some ((unquote 0 raw, v) :: l, r4)
      | None => r3 ← starts 125 (skip_space r2); Some ([(unquote 0 raw, v)], r3)
      end
  end.

(** A whole document: one value and nothing but space after it.  A value is found with as
    much fuel as it has characters ([value_fuel] below). *)
Definition parse (data : string) : option json :=
  '(v, r) ← value (S (String.length data)) 0 data;
  match skip_space r with EmptyString => Some v | _ => None end.

(** ** Decoding into [struct { Type string `json:"type"` }] *)

Definition upper (c : ascii) : ascii := if between 97 122 c then chr (code c - 32) else c.

Fixpoint fold_case (s : string) : string :=
  match s with
  | EmptyString => ""
  | String c s' => String (upper c) (fold_case s')
  end.

(** A key selects the field when it is [type] up to case; no letter outside ASCII folds to
    a letter of [type]. *)
Definition is_type_key (k : string) : bool := String.eqb (fold_case k) "TYPE".

(** The field after the members so far; [None] once a member had the wrong type (the
    decoder goes on but reports the error at the end). *)
Definition decode_member (acc : option string) (m : string * json) : option string :=
  if is_type_key (fst m) then
    match snd m with
    | JString s => match acc with Some _ => Some s | None => None end
    | JNull => acc
    | _ => None
    end
  else acc.

(** [json.Unmarshal(data, &payload)]: the field on success. *)
Definition unmarshal_type (data : string) : option string :=
  v ← parse data;
  match v with
  | JNull => Some ""
  | JObject ms => foldl decode_member (Some "") ms
  | _ => None
  end.

(** ** Decoding into [map[string]any] *)

Fixpoint digits_value (acc : Z) (s : string) : Z :=
  match s with
  | EmptyString => acc
  | String c s' => digits_value (acc * 10 + Z.of_N (code c - 48)) s'
  end.

Definition exponent (s : string) : Z :=
  match s with
  | EmptyString => 0
  | String _ r =>
      let '(sg, r) := lex_sign r in
      let d := digits_value 0 r in if String.eqb sg "-" then (- d)%Z else d
  end.

(** The magnitude of a number as [m * 10^e]. *)
Definition decimal (text : string) : Z * Z :=
  let '(i, r1) := span_digits (snd (lex_sign text)) in
  let '(f, r2) := match starts 46 r1 with Some r => span_digits r | None => ("", r1) end in
  (digits_value 0 (i +:+ f), exponent r2 - Z.of_nat (String.length f))%Z.

(** The smallest magnitude that does not round to a finite [float64]. *)
Definition float64_limit : Z := (2 ^ 1024 - 2 ^ 970)%Z.

(** [strconv.ParseFloat(text, 64)] fails: the number is too large.  The first tests decide
    numbers with a large exponent without computing the power of ten. *)
Definition out_of_range (text : string) : bool :=
  let '(m, e) := decimal text in
  let len := Z.of_nat (String.length text) in
  if (m =? 0)%Z then false
  else if (400 <? e)%Z then true
  else if (e + len <? 300)%Z then false
  else if (0 <=? e)%Z then (float64_limit <=? m * 10 ^ e)%Z
  else (float64_limit * 10 ^ (- e) <=? m)%Z.

(** What a value becomes in an [any], and whether the decoder saved an error: a number that
    is out of range is left nil.  Objects keep their members in the order of the text; of
    members with the same key the map has the last. *)
Fixpoint as_any (v : json) : json * bool :=
  match v with
  | JNumber text => if out_of_range text then (JNull, true) else (v, false)
  | JArray l => let r := as_any <$> l in (JArray (fst <$> r), existsb snd r)
  | JObject ms =>
      let r := (fun m => (fst m, as_any (snd m))) <$> ms in
      (JObject ((fun m => (fst m, fst (snd m))) <$> r), existsb (fun m => snd (snd m)) r)
  | _ => (v, false)
  end.

(** [json.Unmarshal(data, &m)] for an empty [m]: the map afterwards, nil or its members, and
    whether an error was returned. *)
Definition unmarshal_map (data : string) : option (list (string * json)) * bool :=
  match parse data with
  | None => (Some [], true)
  | Some JNull => (None, false)
  | Some v =>
      match as_any v with
      | (JObject ms, err) => (Some ms, err)
      | _ => (Some [], true)
      end
  end.

(** ** Fuel *)

Abbreviation len := String.length.

Lemma skip_space_len s : len (skip_space s) <= len s.
Proof. induction s as [|c s IH]; simpl; [lia|]. destruct (is_space c); simpl; lia. Qed.

Lemma starts_len n s r : starts n s = Some r -> len s = S (len r).
Proof. destruct s; simpl; [done|]. case_match; naive_solver. Qed.

Lemma starts_skip_len n s r : starts n (skip_space s) = Some r -> len r < len s.
Proof. intros H%starts_len. pose proof (skip_space_len s). lia. Qed.

Lemma lex_string_len raw s r : lex_string s = Some (raw, r) -> len r < len s.
Proof.
  remember (len s) as n eqn:Hn. revert raw s r Hn.
  induction (lt_wf n) as [n _ IH]. intros raw s r -> H.
  destruct s as [|c s1]; simpl in H; [done|].
  assert (forall s2 (f : string -> string), len s2 < S (len s1) ->
    ('(raw, r) ← lex_string s2; Some (f raw, r)) = Some (raw, r) -> len r < S (len s1)) as Hrec.
  { intros s2 f Hs E. destruct (lex_string s2) as [[raw' r']|] eqn:E2; simplify_eq/=.
    pose proof (IH (len s2) Hs _ _ _ eq_refl E2). lia. }
  repeat (case_match; simplify_eq/=; try lia); (eapply Hrec; [|exact H]; simpl; lia).
Qed.

Lemma span_digits_len s d r : span_digits s = (d, r) -> len s = len d + len r.
Proof.
  revert d. induction s as [|c s IH]; intros d; simpl; [intros; by simplify_eq|].
  destruct (is_digit c); [|intros; by simplify_eq].
  destruct (span_digits s) as [d' r'] eqn:E. intros; simplify_eq/=. by rewrite (IH d').
Qed.

Lemma digits1_len s d r : digits1 s = Some (d, r) -> len r < len s.
Proof.
  unfold digits1. destruct (span_digits s) as [d' r'] eqn:E. apply span_digits_len in E.
  destruct d'; intros; simplify_eq/=; lia.
Qed.

Lemma strip_prefix_len p s r : strip_prefix p s = Some r -> len s = len p + len r.
Proof.
  revert s. induction p as [|a p IH]; intros [|b s]; simpl; intros; simplify_eq/=; try done.
  case_match; [|done]. by rewrite (IH s).
Qed.

Lemma lex_int_len s i r : lex_int s = Some (i, r) -> len r < len s.
Proof.
  unfold lex_int. destruct (starts 48 s) eqn:E; [|apply digits1_len].
  intros; simplify_eq. apply starts_len in E. lia.
Qed.

Lemma lex_frac_len s f r : lex_frac s = Some (f, r) -> len r <= len s.
Proof.
  unfold lex_frac. destruct (starts 46 s) as [s'|] eqn:E; intros H; [|by simplify_eq].
  destruct (digits1 s') as [[d r']|] eqn:E'; simplify_eq/=.
  apply starts_len in E. apply digits1_len in E'. lia.
Qed.

Lemma lex_sign_len s g r : lex_sign s = (g, r) -> len r <= len s.
Proof.
  unfold lex_sign. destruct (starts 43 s) eqn:E; [|destruct (starts 45 s) eqn:E'];
    intros; simplify_eq/=; try (apply starts_len in E); try (apply starts_len in E'); lia.
Qed.

Lemma lex_exp_len s e r : lex_exp s = Some (e, r) -> len r <= len s.
Proof.
  destruct s as [|c s]; simpl; [intros; by simplify_eq|].
  destruct (_ || _); [|intros; by simplify_eq].
  destruct (lex_sign s) as [g s1] eqn:Eg. intros H.
  destruct (digits1 s1) as [[d s2]|] eqn:Ed; simplify_eq/=.
  apply lex_sign_len in Eg. apply digits1_len in Ed. lia.
Qed.

Lemma lex_number_len s t r : lex_number s = Some (t, r) -> len r < len s.
Proof.
  unfold lex_number. intros H.
  destruct (match starts 45 s with Some r => ("-", r) | None => ("", s) end) as [g s1] eqn:Eg.
  assert (len s1 <= len s) as Hg.
  { destruct (starts 45 s) eqn:E; simplify_eq; [apply starts_len in E|]; lia. }
  destruct (lex_int s1) as [[i s2]|] eqn:Ei; [|done]. simpl in H.
  destruct (lex_frac s2) as [[f s3]|] eqn:Ef; [|done]. simpl in H.
  destruct (lex_exp s3) as [[e s4]|] eqn:Ee; simplify_eq/=.
  apply lex_int_len in Ei. apply lex_frac_len in Ef. apply lex_exp_len in Ee. lia.
Qed.

Lemma lex_literal_len s v r : lex_literal s = Some (v, r) -> len r < len s.
Proof.
  unfold lex_literal. intros H.
  destruct (strip_prefix "null" s) eqn:E1; [apply strip_prefix_len in E1; simplify_eq/=; lia|].
  destruct (strip_prefix "true" s) eqn:E2; [apply strip_prefix_len in E2; simplify_eq/=; lia|].
  destruct (strip_prefix "false" s) eqn:E3; [apply strip_prefix_len in E3; simplify_eq/=; lia|].
  destruct (lex_number s) as [[t r']|] eqn:E; simplify_eq/=. by eapply lex_number_len.
Qed.

(** A parser that succeeded consumed something and succeeds with any fuel of at least as
    many units as it consumed characters. *)
Definition enough {A} (p : nat -> Z -> string -> option (A * string)) (fuel : nat) : Prop :=
  forall depth s v r, p fuel depth s = Some (v, r) ->
    len r < len s /\ forall n, len s - len r <= n -> p n depth s = Some (v, r).

(** The part of [value] after an opening bracket. *)
Definition enclosed {A} (p : nat -> Z -> string -> option (list A * string)) (close : N)
    (mk : list A -> json) (fuel : nat) (depth : Z) (s : string) : option (json * string) :=
  if (maxNestingDepth <? depth + 1)%Z then None else
  match starts close (skip_space s) with
  | Some r => Some (mk [], r)
  | None => '(l, r) ← p fuel (depth + 1)%Z s; Some (mk l, r)
  end.

Lemma enclosed_enough {A} p close (mk : list A -> json) fuel :
  enough p fuel -> enough (enclosed p close mk) fuel.
Proof.
  intros Hp depth s v r. unfold enclosed.
  destruct (maxNestingDepth <? depth + 1)%Z; [done|].
  destruct (starts close (skip_space s)) as [r'|] eqn:E; intros H; simplify_eq/=.
  - split; [by eapply starts_skip_len|done].
  - destruct (p fuel (depth + 1)%Z s) as [[l r']|] eqn:El; simplify_eq/=.
    destruct (Hp _ _ _ _ El) as [Hlt Hany]. split; [done|]. intros n Hn. by rewrite Hany.
Qed.

(** [value] by the first character of its text. *)
Definition value_at (n : nat) (depth : Z) (c : ascii) (s : string) : option (json * string) :=
  if (code c =? 34)%N then '(raw, r) ← lex_string s; Some (JString (unquote 0 raw), r)
  else if (code c =? 91)%N then enclosed elements 93 JArray n depth s
  else if (code c =? 123)%N then enclosed members 125 JObject n depth s
  else lex_literal (String c s).

Lemma value_S n depth s :
  value (S n) depth s =
  match skip_space s with EmptyString => None | String c s1 => value_at n depth c s1 end.
Proof.
  simpl. destruct (skip_space s) as [|c s1]; [done|]. unfold value_at.
  destruct (N.eqb_spec (code c) 34) as [->|H1]; [done|].
  destruct (N.eqb_spec (code c) 91) as [->|H2]; [done|].
  destruct (N.eqb_spec (code c) 123) as [->|H3]; [done|]. repeat (case_match; try done).
Qed.

Lemma value_enough fuel : enough elements fuel -> enough members fuel -> enough value (S fuel).
Proof.
  intros He Hm depth s v r. rewrite value_S. pose proof (skip_space_len s) as Hs.
  destruct (skip_space s) as [|c s1] eqn:Es; [done|]. simpl in Hs. intros H.
  assert (len r < S (len s1) /\
    forall n, len s1 - len r <= n -> value_at n depth c s1 = Some (v, r)) as [Hlt Hany].
  { unfold value_at in *. destruct (code c =? 34)%N.
    - destruct (lex_string s1) as [[raw r']|] eqn:E; simplify_eq/=.
      apply lex_string_len in E. split; [lia|done].
    - destruct (code c =? 91)%N.
      { apply (enclosed_enough _ 93 JArray _ He) in H as [? ?]. split; [lia|done]. }
      destruct (code c =? 123)%N.
      { apply (enclosed_enough _ 125 JObject _ Hm) in H as [? ?]. split; [lia|done]. }
      split; [by apply lex_literal_len in H|done]. }
  split; [lia|]. intros [|n] Hn; [lia|]. rewrite value_S, Es. apply Hany. lia.
Qed.

Lemma elements_enough fuel :
  enough value fuel -> enough elements fuel -> enough elements (S fuel).
Proof.
  intros Hv He depth s v r H. simpl in H.
  destruct (value fuel depth s) as [[x r1]|] eqn:E; [|done]. simpl in H.
  destruct (Hv _ _ _ _ E) as [Hlt Hany].
  destruct (starts 44 (skip_space r1)) as [r2|] eqn:Ec.
  - destruct (elements fuel depth r2) as [[l r3]|] eqn:El; simplify_eq/=.
    destruct (He _ _ _ _ El) as [Hlt' Hany']. pose proof (starts_skip_len _ _ _ Ec).
    split; [lia|]. intros [|n] Hn; [lia|]. simpl. rewrite Hany by lia. simpl.
    rewrite Ec, Hany' by lia. done.
  - destruct (starts 93 (skip_space r1)) as [r2|] eqn:Eb; simplify_eq/=.
    pose proof (starts_skip_len _ _ _ Eb).
    split; [lia|]. intros [|n] Hn; [lia|]. simpl. rewrite Hany by lia. simpl. by rewrite Ec, Eb.
Qed.

Lemma members_enough fuel :
  enough value fuel -> enough members fuel -> enough members (S fuel).
Proof.
  intros Hv He depth s v r H. simpl in H.
  destruct (starts 34 (skip_space s)) as [s1|] eqn:Eq; [|done]. simpl in H.
  destruct (lex_string s1) as [[raw s2]|] eqn:Es; [|done]. simpl in H.
  destruct (starts 58 (skip_space s2)) as [s3|] eqn:Ek; [|done]. simpl in H.
  destruct (value fuel depth s3) as [[x r1]|] eqn:E; [|done]. simpl in H.
  destruct (Hv _ _ _ _ E) as [Hlt Hany].
  pose proof (starts_skip_len _ _ _ Eq). pose proof (lex_string_len _ _ _ Es).
  pose proof (starts_skip_len _ _ _ Ek).
  destruct (starts 44 (skip_space r1)) as [r2|] eqn:Ec.
  - destruct (members fuel depth r2) as [[l r3]|] eqn:El; simplify_eq/=.
    destruct (He _ _ _ _ El) as [Hlt' Hany']. pose proof (starts_skip_len _ _ _ Ec).
    split; [lia|]. intros [|n] Hn; [lia|]. simpl. rewrite Eq. simpl. rewrite Es. simpl.
    rewrite Ek. simpl. rewrite Hany by lia. simpl. rewrite Ec, Hany' by lia. done.
  - destruct (starts 125 (skip_space r1)) as [r2|] eqn:Eb; simplify_eq/=.
    pose proof (starts_skip_len _ _ _ Eb).
    split; [lia|]. intros [|n] Hn; [lia|]. simpl. rewrite Eq. simpl. rewrite Es. simpl.
    rewrite Ek. simpl. rewrite Hany by lia. simpl. by rewrite Ec, Eb.
Qed.

Lemma parsers_enough fuel : enough value fuel /\ enough elements fuel /\ enough members fuel.
Proof.
  induction fuel as [|fuel (Hv & He & Hm)]; [by split_and!|].
  auto using value_enough, elements_enough, members_enough.
Qed.

(** The fuel [parse] uses is enough: a value that any fuel finds is found with as much fuel
    as it has characters, so [parse] fails only on texts that are not JSON. *)
Theorem value_fuel fuel depth s v r :
  value fuel depth s = Some (v, r) ->
  len r < len s /\ forall n, len s - len r <= n -> value n depth s = Some (v, r).
Proof. apply parsers_enough. Qed.

(** ** Ranges of numbers *)

Lemma span_digits_all s d r : span_digits s = (d, r) -> forallb is_digit (String.list_ascii_of_string d) = true.
Proof.
  revert d r. induction s as [|c s IH]; intros d r; simpl; [by intros [= <- <-]|].
  destruct (is_digit c) eqn:E; [|by intros [= <- <-]].
  destruct (span_digits s) as [d' r'] eqn:Es. intros [= <- <-]. simpl. rewrite E. eauto.
Qed.

Lemma digits_value_bound s acc :
  forallb is_digit (String.list_ascii_of_string s) = true -> (0 <= acc)%Z ->
  (0 <= digits_value acc s < (acc + 1) * 10 ^ Z.of_nat (String.length s))%Z.
Proof.
  revert acc. induction s as [|c s IH]; intros acc Hd Ha; [simpl; lia|].
  simpl in Hd. apply andb_true_iff in Hd as [Hc Hd].
  assert (code c - 48 <= 9)%N as H9.
  { unfold is_digit, between in Hc. apply andb_true_iff in Hc as [_ Hc%N.leb_le]. lia. }
  specialize (IH (acc * 10 + Z.of_N (code c - 48))%Z Hd ltac:(lia)).
  assert (String.length (String c s) = S (String.length s)) as -> by done.
  change (digits_value acc (String c s)) with (digits_value (acc * 10 + Z.of_N (code c - 48)) s).
  rewrite Nat2Z.inj_succ, Z.pow_succ_r by lia.
  pose proof (Z.pow_pos_nonneg 10 (Z.of_nat (String.length s)) ltac:(lia) ltac:(lia)). nia.
Qed.

Lemma digits_app s1 s2 :
  forallb is_digit (String.list_ascii_of_string (s1 +:+ s2)) =
  forallb is_digit (String.list_ascii_of_string s1) && forallb is_digit (String.list_ascii_of_string s2).
Proof. induction s1 as [|c s1 IH]; [done|]. simpl. by rewrite IH, andb_assoc. Qed.

Lemma app_len s1 s2 : len (s1 +:+ s2) = (len s1 + len s2)%nat.
Proof. induction s1 as [|c s1 IH]; [done|]. simpl. by rewrite IH. Qed.

(** The digits of a number are part of its text. *)
Lemma decimal_bound text m e :
  decimal text = (m, e) -> (0 <= m < 10 ^ Z.of_nat (len text))%Z.
Proof.
  unfold decimal. destruct (lex_sign text) as [g r0] eqn:Eg.
  pose proof (lex_sign_len _ _ _ Eg) as Hg. simpl.
  destruct (span_digits r0) as [i r1] eqn:Ei.
  pose proof (span_digits_len _ _ _ Ei) as Hi. pose proof (span_digits_all _ _ _ Ei) as Hdi.
  destruct (match starts 46 r1 with Some r => span_digits r | None => ("", r1) end)
    as [f r2] eqn:Ef.
  assert (forallb is_digit (String.list_ascii_of_string f) = true /\ len f <= len r1) as [Hdf Hf].
  { destruct (starts 46 r1) as [r|] eqn:Es; [|injection Ef as <- <-; simpl; split; [done|lia]].
    pose proof (starts_len _ _ _ Es). pose proof (span_digits_len _ _ _ Ef).
    split; [by eapply span_digits_all|lia]. }
  intros [= <- <-].
  destruct (digits_value_bound (i +:+ f) 0) as [H1 H2]; [by rewrite digits_app, Hdi, Hdf|lia|].
  split; [done|]. eapply Z.lt_le_trans; [exact H2|]. rewrite Z.mul_1_l.
  apply Z.pow_le_mono_r; [lia|]. rewrite app_len. lia.
Qed.

(** The shortcuts of [out_of_range] decide as the exact comparison does. *)
Theorem out_of_range_exact text m e :
  decimal text = (m, e) ->
  out_of_range text = true <-> (float64_limit * 10 ^ Z.max 0 (- e) <= m * 10 ^ Z.max 0 e)%Z.
Proof.
  intros Hd. pose proof (decimal_bound _ _ _ Hd) as [H0 Hm]. unfold out_of_range. rewrite Hd.
  assert (0 < float64_limit)%Z as Hpos by by_compute.
  assert (10 ^ 299 <= float64_limit <= 10 ^ 400)%Z as [Hlow Hup] by (split; by_compute).
  pose proof (Z.pow_pos_nonneg 10 (Z.max 0 (- e)) ltac:(lia) ltac:(lia)) as Hp1.
  pose proof (Z.pow_pos_nonneg 10 (Z.max 0 e) ltac:(lia) ltac:(lia)) as Hp2.
  destruct (Z.eqb_spec m 0) as [->|Hne]; [split; [done|nia]|].
  destruct (Z.ltb_spec 400 e) as [He|He].
  { split; [|done]. intros _. rewrite Z.max_l, Z.max_r by lia.
    assert (10 ^ 400 <= 10 ^ e)%Z by (apply Z.pow_le_mono_r; lia). simpl (10 ^ 0)%Z. nia. }
  destruct (Z.ltb_spec (e + Z.of_nat (len text)) 300) as [Hs|Hs].
  { split; [done|]. intros Hle. exfalso.
    assert (m * 10 ^ Z.max 0 e < 10 ^ 299 * 10 ^ Z.max 0 (- e))%Z; [|nia].
    rewrite <- Z.pow_add_r by lia.
    apply Z.lt_le_trans with (10 ^ Z.of_nat (len text) * 10 ^ Z.max 0 e)%Z; [nia|].
    rewrite <- Z.pow_add_r by lia. apply Z.pow_le_mono_r; lia. }
  destruct (Z.leb_spec 0 e) as [Hz|Hz]; rewrite Z.leb_le.
  - rewrite (Z.max_l 0 (- e)), (Z.max_r 0 e) by lia. by rewrite Z.mul_1_r.
  - rewrite (Z.max_r 0 (- e)), (Z.max_l 0 e) by lia. by rewrite Z.mul_1_r.
Qed.

Example float64_range :
  out_of_range <$> ["1.7976931348623158e308"; "-1.7976931348623159e308"; "1e309"; "0e999999"; "1e-999999"] =
  [false; true; true; false; false].
Proof. vm_compute. reflexivity. Qed.

End Json.
