(* ===== verification/Values.v ===== *)
(** * Dynamic values, header tables and AMQP messages

    Header tables are Go maps, hence references: a [Delivery], the [MessageContext] that
    wraps a copy of it and a [Publishing] built from it can hold the same map.  Tables live
    in a [Heap] and a header field is an [option loc], [None] for a nil map.  The structs
    [Delivery] and [Publishing] are those of amqp091-go, with the fields the library reads
    or writes (and [ContentEncoding], which it does not touch). *)

From stdpp Require Import base gmap strings list fin_maps.
From Stdlib Require Import ZArith Lia Floats.SpecFloat.
From S2P Require Import Prelude.
Local Open Scope Z_scope.

Module Val.

(** ** Values of type [any], by dynamic type *)

Inductive any :=
| ANil
| ABool (b : bool)
| AInt (z : Z)
| AInt32 (z : Z)
| AInt64 (z : Z)
| AFloat64 (f : spec_float)
| AString (s : string)
| ATime (ns : Z)
| ASlice (l : list any)
| ATable (t : gmap string any)
| AMap (t : gmap string any)
| AOther (type_name : string).

Abbreviation Table := (gmap string any).

(** What the Go specification leaves to the implementation: the result of converting a
    float64 to [int] when the value does not fit. *)
Class GoImpl := { float_to_int_overflow : spec_float -> Z }.

(** The conversion [int(v)] of a float64: truncation towards zero. *)
Definition float_to_int {G : GoImpl} (f : spec_float) : Z :=
  match f with
  | S754_zero _ => 0
  | S754_finite s m e =>
      let a := Z.shiftl (Z.pos m) e in
      let v := if s then - a else a in
      if bool_decide (in_int64 v) then v else int64 (float_to_int_overflow f)
  | S754_infinity _ | S754_nan => int64 (float_to_int_overflow f)
  end.

(** ** Maps as references *)

Abbreviation loc := nat.

Record Heap := { next : loc; store : gmap loc Table }.

Definition empty_heap : Heap := {| next := 0%nat; store := ∅ |}.

(** Reading a nil map behaves as reading an empty one. *)
Definition deref (h : Heap) (r : option loc) : Table :=
  match r with
  | None => ∅
  | Some l => default ∅ (store h !! l)
  end.

(** [make(map...)] with contents. *)
Definition alloc (t : Table) (h : Heap) : loc * Heap :=
  (next h, {| next := S (next h); store := <[next h := t]> (store h) |}).

(** [m[k] = v] *)
Definition map_set (l : loc) (k : string) (v : any) (h : Heap) : Heap :=
  {| next := next h; store := <[l := <[k := v]> (deref h (Some l))]> (store h) |}.

(** [delete(m, k)] *)
Definition map_delete (l : loc) (k : string) (h : Heap) : Heap :=
  {| next := next h; store := <[l := delete k (deref h (Some l))]> (store h) |}.

(** [maps.Copy(dst, src)] *)
Definition map_copy (dst : loc) (src : option loc) (h : Heap) : Heap :=
  {| next := next h; store := <[dst := deref h src ∪ deref h (Some dst)]> (store h) |}.

(** Every reference in use was allocated. *)
Definition heap_ok (h : Heap) : Prop := forall l, is_Some (store h !! l) -> (l < next h)%nat.

Definition allocated (h : Heap) (r : option loc) : Prop :=
  match r with None => True | Some l => is_Some (store h !! l) end.

(** ** AMQP messages *)

Record Delivery := {
  d_Headers : option loc;
  d_ContentType : string;
  d_ContentEncoding : string;
  d_DeliveryMode : Z;
  d_Priority : Z;
  d_CorrelationId : string;
  d_ReplyTo : string;
  d_Expiration : string;
  d_MessageId : string;
  d_Timestamp : Z;
  d_Type : string;
  d_UserId : string;
  d_AppId : string;
  d_DeliveryTag : Z;
  d_Exchange : string;
  d_RoutingKey : string;
  d_Body : string
}.

Record Publishing := {
  p_Headers : option loc;
  p_ContentType : string;
  p_ContentEncoding : string;
  p_DeliveryMode : Z;
  p_Priority : Z;
  p_CorrelationId : string;
  p_ReplyTo : string;
  p_Expiration : string;
  p_MessageId : string;
  p_Timestamp : Z;
  p_Type : string;
  p_UserId : string;
  p_AppId : string;
  p_Body : string
}.

(** The zero [amqp.Publishing{}]. *)
Definition empty_publishing : Publishing :=
  {| p_Headers := None; p_ContentType := ""; p_ContentEncoding := ""; p_DeliveryMode := 0;
     p_Priority := 0; p_CorrelationId := ""; p_ReplyTo := ""; p_Expiration := "";
     p_MessageId := ""; p_Timestamp := zero_time; p_Type := ""; p_UserId := ""; p_AppId := "";
     p_Body := "" |}.

(** [amqp.Persistent] *)
Definition Persistent : Z := 2.

(** ** Lemmas *)

Lemma float_to_int_range {G : GoImpl} f : in_int64 (float_to_int f).
Proof.
  destruct f; simpl; auto with kit.
  - unfold in_int64, int64_min, int64_max. lia.
  - case_bool_decide; auto with kit.
Qed.

Lemma deref_set_eq l k v h : deref (map_set l k v h) (Some l) = <[k := v]> (deref h (Some l)).
Proof. unfold map_set, deref at 1. simpl. by rewrite lookup_insert_eq. Qed.

Lemma deref_set_ne l l' k v h : l <> l' -> deref (map_set l k v h) (Some l') = deref h (Some l').
Proof. intros. unfold map_set, deref. simpl. by rewrite lookup_insert_ne. Qed.

Lemma deref_delete_eq l k h : deref (map_delete l k h) (Some l) = delete k (deref h (Some l)).
Proof. unfold map_delete, deref at 1. simpl. by rewrite lookup_insert_eq. Qed.

Lemma deref_delete_ne l l' k h :
  l <> l' -> deref (map_delete l k h) (Some l') = deref h (Some l').
Proof. intros. unfold map_delete, deref. simpl. by rewrite lookup_insert_ne. Qed.

Lemma deref_copy_eq l r h : deref (map_copy l r h) (Some l) = deref h r ∪ deref h (Some l).
Proof. unfold map_copy, deref at 1. simpl. by rewrite lookup_insert_eq. Qed.

Lemma deref_copy_ne l l' r h : l <> l' -> deref (map_copy l r h) (Some l') = deref h (Some l').
Proof. intros. unfold map_copy, deref. simpl. by rewrite lookup_insert_ne. Qed.

Lemma deref_alloc_eq t h : deref (snd (alloc t h)) (Some (next h)) = t.
Proof. unfold deref. simpl. by rewrite lookup_insert_eq. Qed.

Lemma deref_alloc_old t h r :
  heap_ok h -> allocated h r -> deref (snd (alloc t h)) r = deref h r.
Proof.
  intros Hh Hr. destruct r as [l|]; [|done]. unfold deref. simpl.
  rewrite lookup_insert_ne; [done|]. apply Hh in Hr. lia.
Qed.

Lemma heap_ok_alloc t h : heap_ok h -> heap_ok (snd (alloc t h)).
Proof.
  intros Hh l. simpl. rewrite lookup_insert. case_decide; [lia|].
  intros Hl. apply Hh in Hl. lia.
Qed.

Lemma heap_ok_set l k v h : heap_ok h -> allocated h (Some l) -> heap_ok (map_set l k v h).
Proof.
  intros Hh Hl l' H'. simpl in *. rewrite lookup_insert in H'.
  case_decide; [subst; by apply Hh|by apply Hh].
Qed.

Lemma heap_ok_copy l r h : heap_ok h -> allocated h (Some l) -> heap_ok (map_copy l r h).
Proof.
  intros Hh Hl l' H'. simpl in *. rewrite lookup_insert in H'.
  case_decide; [subst; by apply Hh|by apply Hh].
Qed.

End Val.
