(* ===== verification/Router.v ===== *)
(** * Routing and message contexts (router/)

    [Router] maps message types to handlers; [Msg] wraps a delivery with accessors for its
    headers, its type and its settlement; [Dlq] reads the death that RabbitMQ recorded in the
    headers of a dead-lettered message. *)

From stdpp Require Import base gmap strings list fin_maps pretty.
From Stdlib Require Import ZArith Lia Floats.SpecFloat.
From S2P Require Import Prelude Json Values.
Import Val.
Local Open Scope Z_scope.

(** ** router/router.go *)

Module Router.

Section Router.
(** [HandlerService] is the caller's interface; a nil interface value is [None]. *)
Context {HandlerService : Type}.

Record Router := { handlers : gmap string (option HandlerService) }.

Definition NewRouter : Router := {| handlers := ∅ |}.

Definition Handle (eventType : string) (handler : option HandlerService) (r : Router) : Router :=
  {| handlers := <[eventType := handler]> (handlers r) |}.

(** Indexing a map with an absent key gives the zero value, here a nil interface. *)
Definition GetHandler (eventType : string) (r : Router) : option HandlerService :=
  default None (handlers r !! eventType).

(** A sequence of registrations. *)
Definition register_all (regs : list (string * option HandlerService)) : Router :=
  foldl (fun r reg => Handle (fst reg) (snd reg) r) NewRouter regs.

(** After any sequence of registrations a message type is routed to the handler
    registered last for it, and to no handler when none was registered. *)
Theorem last_registration_wins (regs : list (string * option HandlerService)) t :
  GetHandler t (register_all regs) =
  default None (snd <$> last (filter (fun reg => fst reg = t) regs)).
Proof.
  unfold register_all. induction regs as [|[k v] regs IH] using rev_ind; [done|].
  rewrite foldl_app, filter_app. simpl. unfold Handle, GetHandler in *. simpl.
  rewrite lookup_insert, filter_cons. simpl. case_decide as Hk.
  - by rewrite filter_nil, last_snoc.
  - by rewrite filter_nil, app_nil_r, <- IH.
Qed.

End Router.
Arguments Router : clear implicits.
End Router.

(** ** router/message.go *)

Module Msg.

Section Message.
Context {G : GoImpl}.

(** The header that tracks retry attempts. *)
Definition CountHeader : string := "x-retry-count".

(** A [MessageContext] wraps a copy of the delivery struct; the headers map is shared. *)
Record MessageContext := { Delivery : Val.Delivery }.

(** An empty string when the body is not the expected JSON or has no type. *)
Definition GetType (c : MessageContext) : string :=
  default "" (Json.unmarshal_type (d_Body (Delivery c))).

(** A missing header is a nil interface. *)
Definition GetHeader (h : Heap) (key : string) (c : MessageContext) : any :=
  match d_Headers (Delivery c) with
  | None => ANil
  | Some l => default ANil (deref h (Some l) !! key)
  end.

Definition GetRetryCount (h : Heap) (c : MessageContext) : Z :=
  match d_Headers (Delivery c) with
  | None => 0
  | Some l =>
      match deref h (Some l) !! CountHeader with
      | None => 0
      | Some rawRetryCount =>
          match rawRetryCount with
          | AInt v => v
          | AInt32 v => v
          | AInt64 v => v
          | AFloat64 v => float_to_int v
          | _ => 0
          end
      end
  end.

Definition Body (c : MessageContext) : string := d_Body (Delivery c).

Definition GetTraceID (h : Heap) (c : MessageContext) : string :=
  match GetHeader h "trace_id" c with
  | AString trace => trace
  | _ => ""
  end.

(** What [Ack] and [Nack] ask of the broker for the delivery's tag; both pass
    [multiple = false]. *)
Inductive Settle :=
| CallAck (tag : Z)
| CallNack (tag : Z) (requeue : bool).

Definition Ack (c : MessageContext) : Settle := CallAck (d_DeliveryTag (Delivery c)).

Definition Nack (requeue : bool) (c : MessageContext) : Settle :=
  CallNack (d_DeliveryTag (Delivery c)) requeue.

(** Integer header values are within the width of their Go type. *)
Definition header_in_range (v : any) : Prop :=
  match v with
  | AInt z | AInt64 z => in_int64 z
  | AInt32 z => - 2 ^ 31 <= z < 2 ^ 31
  | _ => True
  end.

(** The integer a retry header stands for, if it is of an integer type. *)
Definition as_int (v : any) : option Z :=
  match v with AInt z | AInt32 z | AInt64 z => Some z | _ => None end.

Lemma GetRetryCount_int h c v z :
  deref h (d_Headers (Delivery c)) !! CountHeader = Some v -> as_int v = Some z ->
  GetRetryCount h c = z.
Proof.
  unfold GetRetryCount. destruct (d_Headers (Delivery c)); [|simpl; by rewrite lookup_empty].
  intros -> Hz. by destruct v; simplify_eq/=.
Qed.

Lemma GetRetryCount_none h c :
  deref h (d_Headers (Delivery c)) !! CountHeader = None -> GetRetryCount h c = 0.
Proof. unfold GetRetryCount. by destruct (d_Headers (Delivery c)); [intros ->|]. Qed.

(** The retry count of a message is always a machine integer, whatever the header
    holds: an integer of any width is taken as it is, a float is truncated, and a missing
    header or one of another type counts as zero. *)
Theorem GetRetryCount_in_range h c :
  (forall l v, d_Headers (Delivery c) = Some l -> deref h (Some l) !! CountHeader = Some v ->
    header_in_range v) ->
  in_int64 (GetRetryCount h c) /\
  (forall v, deref h (d_Headers (Delivery c)) !! CountHeader = Some v ->
    GetRetryCount h c =
      match as_int v, v with Some z, _ => z | None, AFloat64 f => float_to_int f | _, _ => 0 end).
Proof.
  intros Hr. unfold GetRetryCount. destruct (d_Headers (Delivery c)) as [l|].
  2: { split; [by compute|]. intros v. simpl. by rewrite lookup_empty. }
  specialize (Hr l). destruct (deref h (Some l) !! CountHeader) as [v|]; [|by split].
  specialize (Hr v eq_refl eq_refl). split; [|by intros ? [= <-]; destruct v].
  destruct v; simpl in *; try done; try apply float_to_int_range;
    unfold in_int64, int64_min, int64_max in *; lia.
Qed.

End Message.
End Msg.

(** ** router/dlqMessage.go *)

Module Dlq.

Section Dlq.
Context {G : GoImpl}.

Record DLQMessage := {
  MessageContext : Msg.MessageContext;
  OriginalQueue : string;
  OriginalExchange : string;
  OriginalRoutingKey : string;
  RetryCount : Z;
  DeathReason : string;
  DeathCount : Z;
  FirstDeathTimestamp : Z
}.

(** [t[k].(string)], the empty string when the assertion fails. *)
Definition string_field (t : Table) (k : string) : string :=
  match t !! k with Some (AString s) => s | _ => "" end.

(** The first routing key of an x-death entry. *)
Definition first_routing_key (t : Table) : string :=
  match t !! "routing-keys" with
  | Some (ASlice (AString rk :: _)) => rk
  | _ => ""
  end.

Definition death_count (t : Table) : Z :=
  match t !! "count" with
  | Some (AInt64 n) => n
  | Some (AInt32 n) => n
  | _ => 0
  end.

(** [timestamp.Unix()]: seconds since the epoch. *)
Definition death_time (t : Table) : Z :=
  match t !! "time" with Some (ATime ns) => ns / Second | _ => 0 end.

Definition NewDLQMessage (h : Heap) (ctx : Msg.MessageContext) : DLQMessage :=
  match deref h (d_Headers (Msg.Delivery ctx)) !! "x-death" with
  | Some (ASlice (ATable firstDeath :: _)) =>
      {| MessageContext := ctx;
         OriginalQueue := string_field firstDeath "queue";
         OriginalExchange := string_field firstDeath "exchange";
         OriginalRoutingKey := first_routing_key firstDeath;
         RetryCount := Msg.GetRetryCount h ctx;
         DeathReason := string_field firstDeath "reason";
         DeathCount := death_count firstDeath;
         FirstDeathTimestamp := death_time firstDeath |}
  | _ =>
      {| MessageContext := ctx; OriginalQueue := ""; OriginalExchange := "";
         OriginalRoutingKey := ""; RetryCount := Msg.GetRetryCount h ctx; DeathReason := "";
         DeathCount := 0; FirstDeathTimestamp := 0 |}
  end.

Definition ShouldRetry (maxRetries : Z) (d : DLQMessage) : bool := RetryCount d <? maxRetries.

Definition GetDeathInfo (d : DLQMessage) : string :=
  "DLQ Message: queue=" +:+ OriginalQueue d +:+ ", exchange=" +:+ OriginalExchange d +:+
  ", routing_key=" +:+ OriginalRoutingKey d +:+ ", reason=" +:+ DeathReason d +:+
  ", retry_count=" +:+ pretty (RetryCount d) +:+ ", death_count=" +:+ pretty (DeathCount d).

Definition ResetRetryCount (d : DLQMessage) : DLQMessage :=
  {| MessageContext := MessageContext d;
     OriginalQueue := OriginalQueue d;
     OriginalExchange := OriginalExchange d;
     OriginalRoutingKey := OriginalRoutingKey d;
     RetryCount := 0;
     DeathReason := DeathReason d;
     DeathCount := DeathCount d;
     FirstDeathTimestamp := FirstDeathTimestamp d |}.

Definition GetOriginalDestination (h : Heap) (d : DLQMessage) : string :=
  if negb (String.eqb (OriginalQueue d) "") then OriginalQueue d
  else string_field (deref h (d_Headers (Msg.Delivery (MessageContext d)))) "x-first-death-queue".

Lemma NewDLQMessage_context h ctx : MessageContext (NewDLQMessage h ctx) = ctx.
Proof. unfold NewDLQMessage. repeat case_match; done. Qed.

(** The x-death entry RabbitMQ writes when it dead-letters a message. *)
Record Death := {
  de_queue : string;
  de_exchange : string;
  de_routing_keys : list string;
  de_reason : string;
  de_count : Z;
  de_time : Z
}.

Definition death_entry (d : Death) : Table :=
  {[ "queue" := AString (de_queue d);
     "exchange" := AString (de_exchange d);
     "routing-keys" := ASlice (AString <$> de_routing_keys d);
     "reason" := AString (de_reason d);
     "count" := AInt64 (de_count d);
     "time" := ATime (de_time d) ]}.

(** C38: for a message dead-lettered by RabbitMQ, [NewDLQMessage] recovers the most recent
    death from the x-death header (queue, exchange, first routing key, reason, count and
    time in seconds) and [GetOriginalDestination] the queue it died in, whatever other
    headers it carries and however many earlier deaths there were.  With earlier deaths,
    [OriginalQueue] and [FirstDeathTimestamp] are therefore those of the last death and not, as
    the comments on these fields say, of the first. *)
Theorem NewDLQMessage_recovers_death h ctx d earlier :
  deref h (d_Headers (Msg.Delivery ctx)) !! "x-death" =
    Some (ASlice (ATable (death_entry d) :: earlier)) ->
  NewDLQMessage h ctx =
    {| MessageContext := ctx;
       OriginalQueue := de_queue d;
       OriginalExchange := de_exchange d;
       OriginalRoutingKey := default "" (head (de_routing_keys d));
       RetryCount := Msg.GetRetryCount h ctx;
       DeathReason := de_reason d;
       DeathCount := de_count d;
       FirstDeathTimestamp := de_time d / Second |} /\
  (de_queue d <> "" -> GetOriginalDestination h (NewDLQMessage h ctx) = de_queue d).
Proof.
  intros Hx. unfold NewDLQMessage. rewrite Hx.
  unfold string_field, first_routing_key, death_count, death_time, death_entry.
  simplify_map_eq. split.
  - f_equal. by destruct (de_routing_keys d).
  - intros Hq. unfold GetOriginalDestination. simpl.
    by destruct (String.eqb_spec (de_queue d) "").
Qed.

End Dlq.
End Dlq.

(** ** Witnesses *)

(** An implementation whose overflowing conversions give the least integer, as on amd64. *)
Definition amd64 : GoImpl := {| float_to_int_overflow := fun _ => int64_min |}.

Definition demo_delivery (headers : option loc) (body : string) : Val.Delivery :=
  {| d_Headers := headers; d_ContentType := "application/json"; d_ContentEncoding := "";
     d_DeliveryMode := 2; d_Priority := 0; d_CorrelationId := "c"; d_ReplyTo := "";
     d_Expiration := ""; d_MessageId := "m"; d_Timestamp := 0; d_Type := "t"; d_UserId := "";
     d_AppId := ""; d_DeliveryTag := 7; d_Exchange := "orders"; d_RoutingKey := "order.created";
     d_Body := body |}.

Definition demo_ctx (headers : option loc) (body : string) : Msg.MessageContext :=
  {| Msg.Delivery := demo_delivery headers body |}.

Definition demo_heap (t : Table) : Heap := {| next := 1%nat; store := {[0%nat := t]} |}.

Definition demo_death : Dlq.Death :=
  {| Dlq.de_queue := "orders.queue"; Dlq.de_exchange := "orders";
     Dlq.de_routing_keys := ["order.created"]; Dlq.de_reason := "rejected"; Dlq.de_count := 1;
     Dlq.de_time := 5 * Second |}.

Definition demo_dead_headers : Table :=
  {[ "x-death" := ASlice [ATable (Dlq.death_entry demo_death)]; "x-retry-count" := AInt32 3 ]}.

Lemma GetRetryCount_in_range_witness :
  in_int64 (Msg.GetRetryCount (G := amd64) (demo_heap demo_dead_headers) (demo_ctx (Some 0%nat) "{}")).
Proof.
  apply (Msg.GetRetryCount_in_range (G := amd64)).
  intros l v Hl Hv. simplify_eq/=. vm_compute in Hv. injection Hv as <-. simpl. lia.
Defined.

Lemma NewDLQMessage_recovers_death_witness :
  Dlq.OriginalQueue
    (Dlq.NewDLQMessage (G := amd64) (demo_heap demo_dead_headers) (demo_ctx (Some 0%nat) "{}")) =
  "orders.queue".
Proof.
  destruct (Dlq.NewDLQMessage_recovers_death (G := amd64) (demo_heap demo_dead_headers)
    (demo_ctx (Some 0%nat) "{}") demo_death []) as [-> _]; [vm_compute; reflexivity|reflexivity].
Defined.
