(* ===== verification/Config.v ===== *)
(** * Configuration (config/)

    The configuration structs, the functional options, validation, and the dead-letter
    helpers.  [Args] maps are references, because [WithDLX] writes into the map a queue
    configuration shares with its copies. *)

From stdpp Require Import base gmap strings list fin_maps pretty.
From Stdlib Require Import ZArith Lia.
From S2P Require Import Prelude Errors Values.
Import Err Val.
Local Open Scope Z_scope.
Local Open Scope kit_scope.

Module Cfg.

(** ** Data *)

(** config/exchange.go *)
Record ExchangeConfig := {
  ex_Name : string;
  ex_Type : string;
  ex_Durable : bool;
  ex_AutoDelete : bool;
  ex_Internal : bool;
  ex_Args : option loc
}.

(** config/queue.go *)
Record QueueConfig := {
  q_Name : string;
  q_Exchange : string;
  q_RoutingKeys : list string;
  q_Durable : bool;
  q_AutoDelete : bool;
  q_Exclusive : bool;
  q_Args : option loc
}.

(** config/dlq.go *)
Record DLQConfig := {
  dlq_ExchangeName : string;
  dlq_QueuePrefix : string;
  dlq_ExchangeType : string;
  dlq_Durable : bool;
  dlq_AutoDelete : bool
}.

(** config/batch.go *)
Record BatchConfig := { UsePipelining : bool; FailFast : bool; MaxConcurrency : Z }.

(** A logger is the default one or the caller's; only its presence matters here. *)
Inductive Logger := DefaultLogger | CustomLogger.

(** config/config.go; the two callbacks are recorded as non-nil or not. *)
Record Config := {
  URI : string;
  ReconnectDelay : Z;
  Timeout : Z;
  PrefetchCount : Z;
  MaxRetries : Z;
  PublisherConfirms : bool;
  ConfirmTimeout : Z;
  CfgLogger : option Logger;
  CircuitBreakerEnabled : bool;
  CircuitBreakerMaxFailures : Z;
  CircuitBreakerResetTimeout : Z;
  CircuitBreakerHalfOpenRequests : Z;
  DLQEnabled : bool;
  CfgDLQ : DLQConfig;
  Exchanges : list ExchangeConfig;
  Queues : list QueueConfig;
  OnConnectionBlocked : bool;
  OnConnectionUnblocked : bool
}.

#[export] Instance Config_eta : Eta Config := fun c =>
  {| URI := URI c; ReconnectDelay := ReconnectDelay c; Timeout := Timeout c;
     PrefetchCount := PrefetchCount c; MaxRetries := MaxRetries c;
     PublisherConfirms := PublisherConfirms c; ConfirmTimeout := ConfirmTimeout c;
     CfgLogger := CfgLogger c; CircuitBreakerEnabled := CircuitBreakerEnabled c;
     CircuitBreakerMaxFailures := CircuitBreakerMaxFailures c;
     CircuitBreakerResetTimeout := CircuitBreakerResetTimeout c;
     CircuitBreakerHalfOpenRequests := CircuitBreakerHalfOpenRequests c;
     DLQEnabled := DLQEnabled c; CfgDLQ := CfgDLQ c; Exchanges := Exchanges c;
     Queues := Queues c; OnConnectionBlocked := OnConnectionBlocked c;
     OnConnectionUnblocked := OnConnectionUnblocked c |}.

#[export] Instance DLQConfig_eta : Eta DLQConfig := fun c =>
  {| dlq_ExchangeName := dlq_ExchangeName c; dlq_QueuePrefix := dlq_QueuePrefix c;
     dlq_ExchangeType := dlq_ExchangeType c; dlq_Durable := dlq_Durable c;
     dlq_AutoDelete := dlq_AutoDelete c |}.

#[export] Instance BatchConfig_eta : Eta BatchConfig := fun c =>
  {| UsePipelining := UsePipelining c; FailFast := FailFast c;
     MaxConcurrency := MaxConcurrency c |}.

#[export] Instance QueueConfig_eta : Eta QueueConfig := fun c =>
  {| q_Name := q_Name c; q_Exchange := q_Exchange c; q_RoutingKeys := q_RoutingKeys c;
     q_Durable := q_Durable c; q_AutoDelete := q_AutoDelete c; q_Exclusive := q_Exclusive c;
     q_Args := q_Args c |}.

(** ** Defaults *)

Definition DefaultDLQConfig : DLQConfig :=
  {| dlq_ExchangeName := "dlx.exchange"; dlq_QueuePrefix := "dlq."; dlq_ExchangeType := "direct";
     dlq_Durable := true; dlq_AutoDelete := false |}.

Definition DefaultBatchConfig : BatchConfig :=
  {| UsePipelining := true; FailFast := false; MaxConcurrency := 0 |}.

Definition DefaultConfig : Config :=
  {| URI := "";
     ReconnectDelay := 5 * Second;
     Timeout := 10 * Second;
     PrefetchCount := 10;
     MaxRetries := 3;
     PublisherConfirms := false;
     ConfirmTimeout := 0;
     CfgLogger := Some DefaultLogger;
     CircuitBreakerEnabled := false;
     CircuitBreakerMaxFailures := 5;
     CircuitBreakerResetTimeout := 60 * Second;
     CircuitBreakerHalfOpenRequests := 3;
     DLQEnabled := false;
     CfgDLQ := DefaultDLQConfig;
     Exchanges := [];
     Queues := [];
     OnConnectionBlocked := false;
     OnConnectionUnblocked := false |}.

(** ** Validation *)

Definition validTypes : list string := ["direct"; "fanout"; "topic"; "headers"].

(** The loop over the exchanges, from index [i]. *)
Fixpoint validate_exchanges (i : nat) (exs : list ExchangeConfig) : option error :=
  match exs with
  | [] => None
  | ex :: exs' =>
      if String.eqb (ex_Name ex) "" then
        Some (NewConfigFieldError ("Exchanges[" +:+ pretty i +:+ "].Name") "is required")
      else if String.eqb (ex_Type ex) "" then
        Some (NewConfigFieldError ("Exchanges[" +:+ pretty i +:+ "].Type") "is required")
      else if negb (existsb (String.eqb (ex_Type ex)) validTypes) then
        Some (NewConfigFieldError ("Exchanges[" +:+ pretty i +:+ "].Type")
          ("must be one of: direct, fanout, topic, headers (got: " +:+ ex_Type ex +:+ ")"))
      else validate_exchanges (S i) exs'
  end.

Fixpoint validate_queues (i : nat) (qs : list QueueConfig) : option error :=
  match qs with
  | [] => None
  | q :: qs' =>
      if String.eqb (q_Name q) "" then
        Some (NewConfigFieldError ("Queues[" +:+ pretty i +:+ "].Name") "is required")
      else validate_queues (S i) qs'
  end.

Definition Validate (c : Config) : option error :=
  if String.eqb (URI c) "" then Some (NewConfigFieldError "URI" "is required")
  else if ReconnectDelay c <=? 0 then
    Some (NewConfigFieldError "ReconnectDelay" "must be greater than 0")
  else if Timeout c <=? 0 then Some (NewConfigFieldError "Timeout" "must be greater than 0")
  else if PrefetchCount c <? 0 then
    Some (NewConfigFieldError "PrefetchCount" "cannot be negative")
  else if MaxRetries c <? 0 then Some (NewConfigFieldError "MaxRetries" "cannot be negative")
  else match validate_exchanges 0 (Exchanges c) with
       | Some e => Some e
       | None => validate_queues 0 (Queues c)
       end.

(** ** Functional options

    An [Option] updates the configuration it is applied to. *)

Definition Option : Type := Config -> Config.

Definition WithURI (uri : string) : Option := fun c =>
  c <| URI := uri |>.

Definition WithReconnectDelay (delay : Z) : Option := fun c =>
  c <| ReconnectDelay := delay |>.

Definition WithTimeout (timeout : Z) : Option := fun c =>
  c <| Timeout := timeout |>.

Definition WithPrefetchCount (count : Z) : Option := fun c =>
  c <| PrefetchCount := count |>.

Definition WithMaxRetries (retries : Z) : Option := fun c =>
  c <| MaxRetries := retries |>.

Definition WithExchanges (exchanges : list ExchangeConfig) : Option := fun c =>
  c <| Exchanges := exchanges |>.

Definition WithQueues (queues : list QueueConfig) : Option := fun c =>
  c <| Queues := queues |>.

Definition WithPublisherConfirms (enabled : bool) : Option := fun c =>
  c <| PublisherConfirms := enabled |>.

Definition WithConfirmTimeout (timeout : Z) : Option := fun c =>
  c <| ConfirmTimeout := timeout |>.

Definition WithLogger (log : option Logger) : Option := fun c =>
  c <| CfgLogger := log |>.

Definition WithCircuitBreaker (enabled : bool) : Option := fun c =>
  c <| CircuitBreakerEnabled := enabled |>.

Definition WithCircuitBreakerMaxFailures (n : Z) : Option := fun c =>
  c <| CircuitBreakerMaxFailures := n |>.

Definition WithCircuitBreakerResetTimeout (d : Z) : Option := fun c =>
  c <| CircuitBreakerResetTimeout := d |>.

Definition WithCircuitBreakerHalfOpenRequests (n : Z) : Option := fun c =>
  c <| CircuitBreakerHalfOpenRequests := n |>.

Definition WithDLQ (enabled : bool) : Option := fun c =>
  c <| DLQEnabled := enabled |>.

Definition WithCustomDLQ (dlqConfig : DLQConfig) : Option := fun c =>
  c <| DLQEnabled := true |> <| CfgDLQ := dlqConfig |>.

Definition WithConnectionBlockedCallback (onBlocked onUnblocked : bool) : Option := fun c =>
  c <| OnConnectionBlocked := onBlocked |> <| OnConnectionUnblocked := onUnblocked |>.

Definition WithDLQExchange (exchangeName : string) : Option := fun c =>
  let d := CfgDLQ c in
  let d' := d <| dlq_ExchangeName := exchangeName |> in
  c <| CfgDLQ := d' |>.

Definition WithDLQPrefix (prefix : string) : Option := fun c =>
  let d := CfgDLQ c in
  let d' := d <| dlq_QueuePrefix := prefix |> in
  c <| CfgDLQ := d' |>.

(** Options of a batch publish. *)
Definition BatchOption : Type := BatchConfig -> BatchConfig.

Definition WithPipelining (enabled : bool) : BatchOption := fun c =>
  c <| UsePipelining := enabled |>.

Definition WithFailFast (enabled : bool) : BatchOption := fun c =>
  c <| FailFast := enabled |>.

Definition WithMaxConcurrency (n : Z) : BatchOption := fun c =>
  c <| MaxConcurrency := n |>.

(** The loop [for _, opt := range opts { opt(&cfg) }]. *)
Definition apply_options {C} (opts : list (C -> C)) (c : C) : C := foldl (fun c o => o c) c opts.

(** ** Dead-letter helpers *)

Definition GetDLQName (queueName : string) (c : DLQConfig) : string :=
  dlq_QueuePrefix c +:+ queueName.

Definition GetDLXRoutingKey (queueName : string) (c : DLQConfig) : string := queueName.

Definition dlx_exchange_arg : string := "x-dead-letter-exchange".

Definition dlx_routing_key_arg : string := "x-dead-letter-routing-key".

(** The receiver is a pointer: its [Args] field is set when it was nil, and the map is
    written in place. *)
Definition WithDLX (dlxExchange routingKey : string) (q : QueueConfig) (h : Heap)
  : QueueConfig * Heap :=
  let '(l, h1) := match q_Args q with None => alloc ∅ h | Some l => (l, h) end in
  let q1 := q <| q_Args := Some l |> in
  match deref h1 (Some l) !! dlx_exchange_arg with
  | Some _ => (q1, h1)
  | None =>
      (q1, map_set l dlx_routing_key_arg (AString routingKey)
             (map_set l dlx_exchange_arg (AString dlxExchange) h1))
  end.

Definition CreateDLQQueue (mainQueue : QueueConfig) (dlqConfig : DLQConfig) : QueueConfig :=
  {| q_Name := GetDLQName (q_Name mainQueue) dlqConfig;
     q_Exchange := dlq_ExchangeName dlqConfig;
     q_RoutingKeys := [GetDLXRoutingKey (q_Name mainQueue) dlqConfig];
     q_Durable := dlq_Durable dlqConfig;
     q_AutoDelete := dlq_AutoDelete dlqConfig;
     q_Exclusive := false;
     q_Args := None |}.

(** ** What a valid configuration is *)

Definition exchange_ok (ex : ExchangeConfig) : Prop := ex_Name ex <> "" /\ ex_Type ex ∈ validTypes.

Definition queue_ok (q : QueueConfig) : Prop := q_Name q <> "".

Definition scalars_ok (c : Config) : Prop :=
  URI c <> "" /\ 0 < ReconnectDelay c /\ 0 < Timeout c /\ 0 <= PrefetchCount c /\
  0 <= MaxRetries c.

Definition valid (c : Config) : Prop :=
  scalars_ok c /\ Forall exchange_ok (Exchanges c) /\ Forall queue_ok (Queues c).

#[export] Instance exchange_ok_dec ex : Decision (exchange_ok ex).
Proof. unfold exchange_ok. solve_decision. Defined.

#[export] Instance scalars_ok_dec c : Decision (scalars_ok c).
Proof. unfold scalars_ok. solve_decision. Defined.

(** ** Lemmas *)

Lemma valid_type_spec t : existsb (String.eqb t) validTypes = true <-> t ∈ validTypes.
Proof.
  rewrite existsb_exists. setoid_rewrite String.eqb_eq. setoid_rewrite <- list_elem_of_In.
  naive_solver.
Qed.

Lemma empty_type_invalid : "" ∉ validTypes.
Proof. unfold validTypes. set_solver. Qed.

(** The first exchange that is not acceptable decides the error. *)
Lemma validate_exchanges_cons i ex exs :
  (exchange_ok ex /\ validate_exchanges i (ex :: exs) = validate_exchanges (S i) exs) \/
  (~ exchange_ok ex /\ exists field msg,
    validate_exchanges i (ex :: exs) =
      Some (ConfigError ("Exchanges[" +:+ pretty i +:+ "]." +:+ field) msg) /\
    field = if String.eqb (ex_Name ex) "" then "Name" else "Type").
Proof.
  unfold exchange_ok. cbn [validate_exchanges]. rewrite <- valid_type_spec.
  destruct (String.eqb_spec (ex_Name ex) ""); [right; split; [naive_solver|eauto]|].
  destruct (String.eqb_spec (ex_Type ex) "") as [Ht|]; [right|].
  { split; [|eauto]. rewrite Ht, valid_type_spec. pose proof empty_type_invalid. naive_solver. }
  destruct (existsb _ validTypes); cbn [negb]; [left; split_and!; done|right].
  split; [naive_solver|eauto].
Qed.

Lemma validate_exchanges_None i exs :
  validate_exchanges i exs = None <-> Forall exchange_ok exs.
Proof.
  revert i. induction exs as [|ex exs IH]; intros i; [done|].
  rewrite Forall_cons.
  destruct (validate_exchanges_cons i ex exs) as [[Hok ->]|[Hok (f & m & -> & _)]];
    [rewrite IH|]; naive_solver.
Qed.

Lemma validate_exchanges_first i pre ex post :
  Forall exchange_ok pre -> ~ exchange_ok ex ->
  exists msg, validate_exchanges i (pre ++ ex :: post) =
    Some (ConfigError ("Exchanges[" +:+ pretty (i + length pre)%nat +:+ "]." +:+
      if String.eqb (ex_Name ex) "" then "Name" else "Type") msg).
Proof.
  intros Hpre Hex. revert i. induction Hpre as [|x pre Hx Hpre IH]; intros i; simpl app.
  - rewrite Nat.add_0_r.
    destruct (validate_exchanges_cons i ex post) as [[? _]|[_ (f & m & -> & ->)]]; [done|eauto].
  - destruct (validate_exchanges_cons i x (pre ++ ex :: post)) as [[_ ->]|[? _]]; [|done].
    destruct (IH (S i)) as [msg ->]. exists msg. simpl. by rewrite Nat.add_succ_r.
Qed.

Lemma validate_queues_None i qs : validate_queues i qs = None <-> Forall queue_ok qs.
Proof.
  revert i. induction qs as [|q qs IH]; intros i; [done|].
  rewrite Forall_cons, <- (IH (S i)). unfold queue_ok. simpl.
  destruct (String.eqb_spec (q_Name q) ""); naive_solver.
Qed.

Lemma Validate_scalars c :
  scalars_ok c ->
  Validate c = match validate_exchanges 0 (Exchanges c) with
               | Some e => Some e
               | None => validate_queues 0 (Queues c)
               end.
Proof.
  intros (Hu & ? & ? & ? & ?). unfold Validate.
  destruct (String.eqb_spec (URI c) ""); [done|]. by if_false.
Qed.

(** ** Properties *)

(** C36: [Validate] accepts a configuration exactly when the URI is present, the delays are
    positive, the counts are not negative, every exchange is named and of one of the four
    types, and every queue is named.  So it accepts a [PrefetchCount] of zero and, with
    confirms enabled, a [ConfirmTimeout] of zero, both of which the configuration guide says are
    refused. *)
Theorem Validate_iff c : Validate c = None <-> valid c.
Proof.
  unfold valid. destruct (decide (scalars_ok c)) as [Hs|Hs].
  - rewrite Validate_scalars, <- (validate_exchanges_None 0), <- (validate_queues_None 0) by done.
    destruct (validate_exchanges 0 _); naive_solver.
  - split; [|naive_solver]. intros HV. contradict Hs. unfold Validate in HV.
    destruct (String.eqb_spec (URI c) ""); [done|].
    unfold scalars_ok. repeat (case_match; [done|bool_lia]). naive_solver lia.
Qed.

(** Among the exchanges the error names the first offending entry, by its index and by
    the field that is wrong. *)
Theorem Validate_first_bad_exchange c pre ex post :
  scalars_ok c -> Exchanges c = pre ++ ex :: post ->
  Forall exchange_ok pre -> ~ exchange_ok ex ->
  exists msg, Validate c =
    Some (ConfigError ("Exchanges[" +:+ pretty (length pre) +:+ "]." +:+
      if String.eqb (ex_Name ex) "" then "Name" else "Type") msg).
Proof.
  intros Hs He Hpre Hex. rewrite Validate_scalars, He by done.
  destruct (validate_exchanges_first 0 pre ex post Hpre Hex) as [msg ->]. eauto.
Qed.

(** [WithDLX] is idempotent and never overwrites: a second call changes nothing,
    whatever exchange and key it is given, and a queue that already names a dead-letter
    exchange keeps its arguments as they are. *)
Theorem WithDLX_idempotent dlx rk dlx' rk' q h :
  let '(q1, h1) := WithDLX dlx rk q h in
  WithDLX dlx' rk' q1 h1 = (q1, h1) /\
  deref h1 (q_Args q1) =
    match deref h (q_Args q) !! dlx_exchange_arg with
    | Some _ => deref h (q_Args q)
    | None => <[dlx_routing_key_arg := AString rk]>
                (<[dlx_exchange_arg := AString dlx]> (deref h (q_Args q)))
    end.
Proof.
  destruct q as [n x ks du ad ec [l|]]; unfold WithDLX; simpl q_Args; cbv iota.
  - destruct (deref h (Some l) !! dlx_exchange_arg) eqn:E; simpl q_Args; cbv iota.
    + by rewrite E.
    + rewrite !deref_set_eq, lookup_insert_ne, lookup_insert_eq by done. done.
  - unfold alloc. cbv iota beta. set (h0 := {| next := _ |}).
    assert (deref h0 (Some (next h)) = ∅) as E0 by apply (deref_alloc_eq ∅ h).
    rewrite E0, lookup_empty. simpl q_Args. cbv iota.
    rewrite !deref_set_eq, E0, lookup_insert_ne, lookup_insert_eq by done. done.
Qed.

(** The default configuration becomes valid as soon as it is given a URI, also with
    publisher confirms and dead-lettering switched on; it then waits zero time for a
    confirmation, since no default is set for [ConfirmTimeout]. *)
Theorem default_config_valid uri confirms dlq :
  uri <> "" ->
  let c := apply_options [WithURI uri; WithPublisherConfirms confirms; WithDLQ dlq] DefaultConfig in
  Validate c = None /\ PublisherConfirms c = confirms /\ DLQEnabled c = dlq /\
  ConfirmTimeout c = 0.
Proof.
  intros Hu. split; [|done]. apply Validate_scalars.
  unfold scalars_ok. simpl. split_and!; done.
Qed.

(** ** Witnesses *)

Definition demo_exchange (name type : string) : ExchangeConfig :=
  {| ex_Name := name; ex_Type := type; ex_Durable := true; ex_AutoDelete := false;
     ex_Internal := false; ex_Args := None |}.

Definition demo_bad_config : Config :=
  apply_options
    [WithURI "amqp://h/"; WithExchanges [demo_exchange "a" "topic"; demo_exchange "b" "queue"]]
    DefaultConfig.

Lemma Validate_first_bad_exchange_witness :
  exists msg, Validate demo_bad_config = Some (ConfigError "Exchanges[1].Type" msg).
Proof.
  apply (Validate_first_bad_exchange demo_bad_config [demo_exchange "a" "topic"]
           (demo_exchange "b" "queue") []).
  - by_compute.
  - reflexivity.
  - constructor; [by_compute|constructor].
  - by_compute.
Defined.

Lemma default_config_valid_witness :
  Validate (apply_options [WithURI "amqp://h/"; WithPublisherConfirms true; WithDLQ true]
    DefaultConfig) = None.
Proof. apply (default_config_valid "amqp://h/" true true). discriminate. Defined.

End Cfg.
