(* ===== verification/Amqp.v ===== *)
(** * The AMQP client library as an interface

    amqp091-go is not part of the repository.  The calls the library makes on it are the
    values of [Call], in the shape the source passes them (arguments the source fixes, such
    as [no-wait = false], are left out; a table argument is the contents of the map at the
    moment of the call).  What a call answers is a parameter: an instance of [Amqp] gives
    the outside world and its response to each call.  [exec] performs a call and records it
    in the trace, so that theorems can speak about what was asked of the broker. *)

From stdpp Require Import base gmap strings list fin_maps.
From Stdlib Require Import ZArith.
From S2P Require Import Prelude Errors Values.
Import Err Val.

Module Amqp.

(** [amqp.Queue] *)
Record Queue := { qu_Name : string; qu_Messages : Z; qu_Consumers : Z }.

Definition empty_queue : Queue := {| qu_Name := ""; qu_Messages := 0; qu_Consumers := 0 |}.

(** Connections and channels are named by the order in which they were opened. *)
Abbreviation handle := nat.

Inductive Call :=
| Dial (uri : string)
| OpenChannel (conn : handle)
| Qos (ch : handle) (prefetchCount : Z)
| Confirm (ch : handle)
| ExchangeDeclare (ch : handle) (name kind : string) (durable autoDelete internal : bool)
    (args : Table)
| QueueDeclare (ch : handle) (name : string) (durable autoDelete exclusive : bool) (args : Table)
| QueueBind (ch : handle) (name key exchange : string)
| Consume (ch : handle) (queue : string)
| CloseChannel (ch : handle)
| CloseConn (conn : handle).

(** A failure, or the queue the broker describes (meaningful for [QueueDeclare] only). *)
Definition Reply : Type := error + Queue.

(** [isClosed] is [Connection.IsClosed]. *)
Class Amqp := {
  World : Type;
  answer : Call -> World -> Reply * World;
  isClosed : handle -> World -> bool
}.

(** ** State of a client of the library *)

Section State.
Context {A : Amqp}.

Record St := { heap : Heap; world : World; trace : list Call }.

#[export] Instance St_eta : Eta St := fun s =>
  {| heap := heap s; world := world s; trace := trace s |}.

(** Perform a call: the trace grows by it, the world answers. *)
Definition perform (c : Call) : M St Reply := fun s =>
  let '(r, w) := answer c (world s) in
  (r, {| heap := heap s; world := w; trace := trace s ++ [c] |}).

(** The error part of a reply. *)
Definition err_of (r : Reply) : option error := match r with inl e => Some e | inr _ => None end.

(** [if err := call; err != nil { return wrap(err) }] *)
Definition exec (c : Call) (wrap : error -> error) : M St (option error) :=
  r ← perform c; mret (wrap <$> err_of r).

(** Update the heap of maps. *)
Definition with_heap {B} (f : Heap -> B * Heap) : M St B := fun s =>
  let '(b, h) := f (heap s) in (b, {| heap := h; world := world s; trace := trace s |}).

(** Sequencing with an early return: the continuation runs only when there is no error. *)
Definition and_then {W} (m k : M W (option error)) : M W (option error) :=
  r ← m; match r with Some e => mret (Some e) | None => k end.

(** [for _, x := range l { ... }] with early returns in the body. *)
Fixpoint for_each {W B} (l : list B) (body : B -> M W (option error)) : M W (option error) :=
  match l with
  | [] => mret None
  | x :: l' => and_then (body x) (for_each l' body)
  end.

(** ** Plans

    A flat list of calls, each with the wrapping of its error; [run_plan] performs them in
    order and stops at the first failure.  The specification of set-up code. *)

Definition Plan : Type := list (Call * (error -> error)).

Fixpoint run_plan (p : Plan) : M St (option error) :=
  match p with
  | [] => mret None
  | (c, wrap) :: p' => and_then (exec c wrap) (run_plan p')
  end.

(** ** Lemmas *)

(** Two computations that agree except for the heap they leave. *)
Definition same_calls (x y : option error * St) : Prop :=
  fst x = fst y /\ world (snd x) = world (snd y) /\ trace (snd x) = trace (snd y).

Lemma run_plan_app p q s :
  run_plan (p ++ q) s =
  match run_plan p s with
  | (Some e, s') => (Some e, s')
  | (None, s') => run_plan q s'
  end.
Proof.
  revert s. induction p as [|[c wrap] p IH]; intros s; [done|].
  simpl. unfold and_then, exec, perform. run_m.
  destruct (answer c (world s)) as [[e|q0] w]; simpl; [done|apply IH].
Qed.

(** [m], started with heap [h], makes the calls of plan [p] and, when it succeeds, leaves
    heap [h']. *)
Definition implements (h : Heap) (m : M St (option error)) (p : Plan) (h' : Heap) : Prop :=
  forall s, heap s = h ->
    same_calls (m s) (run_plan p s) /\ (fst (m s) = None -> heap (snd (m s)) = h').

(** A plan does not look at the heap. *)
Lemma run_plan_heap p h s :
  run_plan p {| heap := h; world := world s; trace := trace s |} =
  let '(r, s') := run_plan p s in (r, {| heap := h; world := world s'; trace := trace s' |}).
Proof.
  revert s. induction p as [|[c wrap] p IH]; intros s; [done|].
  simpl. unfold and_then, exec, perform. run_m.
  destruct (answer c (world s)) as [[e|q0] w]; simpl; [done|].
  apply (IH {| heap := heap s; world := w; trace := trace s ++ [c] |}).
Qed.

(** The calls a plan makes are a prefix of it; all of it when it succeeds. *)
Lemma run_plan_trace p s :
  exists n, trace (snd (run_plan p s)) = trace s ++ (fst <$> take n p) /\
    match fst (run_plan p s) with
    | None => n = length p
    | Some e => exists c wrap e0, p !! Nat.pred n = Some (c, wrap) /\ (0 < n)%nat /\ e = wrap e0
    end.
Proof.
  revert s. induction p as [|[c wrap] p IH]; intros s.
  { exists 0%nat. simpl. by rewrite app_nil_r. }
  simpl. unfold and_then, exec, perform. run_m.
  destruct (answer c (world s)) as [[e|q0] w]; simpl.
  - exists 1%nat. split; [done|]. exists c, wrap, e. auto with lia.
  - destruct (IH {| heap := heap s; world := w; trace := trace s ++ [c] |}) as (n & Ht & Hr).
    exists (S n). simpl in *. split; [by rewrite Ht, <- app_assoc|].
    destruct (run_plan p _) as [[e|] s']; simpl in *; [|by f_equal].
    destruct Hr as (c' & w' & e0 & Hp & Hn & ->). exists c', w', e0. split; [|by auto with lia].
    destruct n; [lia|done].
Qed.

Lemma implements_ret h : implements h (mret None) [] h.
Proof. by intros s Hs. Qed.

Lemma implements_exec h c wrap : implements h (exec c wrap) [(c, wrap)] h.
Proof.
  intros s Hs. unfold same_calls. simpl. unfold and_then, exec, perform. run_m.
  by destruct (answer c (world s)) as [[e|q0] w].
Qed.

Lemma implements_then h h1 h2 m k p q :
  implements h m p h1 -> implements h1 k q h2 -> implements h (and_then m k) (p ++ q) h2.
Proof.
  intros Hm Hk s Hs. destruct (Hm s Hs) as [(Hr & Hw & Ht) Hh]. unfold same_calls.
  rewrite run_plan_app. unfold and_then. run_m.
  destruct (m s) as [r s1], (run_plan p s) as [r' s1']. simpl in *. subst r'.
  destruct r as [e|]; [done|]. specialize (Hh eq_refl).
  destruct (Hk s1 Hh) as [(Hr2 & Hw2 & Ht2) Hh2].
  assert (s1 = {| heap := heap s1; world := world s1'; trace := trace s1' |}) as E
    by (destruct s1; simpl in *; congruence).
  assert (run_plan q s1 = let '(r, s') := run_plan q s1' in
    (r, {| heap := heap s1; world := world s'; trace := trace s' |})) as Eq
    by (rewrite E at 1; apply run_plan_heap).
  rewrite Eq in *. by destruct (run_plan q s1').
Qed.

Lemma implements_exec_then h h2 c wrap k q :
  implements h k q h2 -> implements h (and_then (exec c wrap) k) ((c, wrap) :: q) h2.
Proof. intros Hk. by apply (implements_then h h h2 _ _ [_] q (implements_exec h c wrap)). Qed.

(** A loop whose body leaves the heap alone. *)
Lemma implements_for_each {B} h (l : list B) body (plan : B -> Plan) :
  (forall x, implements h (body x) (plan x) h) ->
  implements h (for_each l body) (l ≫= plan) h.
Proof.
  intros Hb. induction l as [|x l IH]; [apply implements_ret|].
  by apply (implements_then h h h).
Qed.

(** Reading the state does not change it. *)
Lemma implements_get h h' (k : St -> M St (option error)) p :
  (forall s, heap s = h -> implements h (k s) p h') -> implements h (s ← get; k s) p h'.
Proof. intros Hk s Hs. run_m. by apply Hk. Qed.

Lemma implements_with_heap {B} h h' (f : Heap -> B * Heap) k p :
  implements (snd (f h)) (k (fst (f h))) p h' -> implements h (b ← with_heap f; k b) p h'.
Proof.
  intros Hk s Hs. unfold with_heap. run_m. rewrite Hs.
  destruct (f h) as [b h1]. simpl in *.
  specialize (Hk {| heap := h1; world := world s; trace := trace s |} eq_refl).
  unfold same_calls in *. rewrite run_plan_heap in Hk.
  by destruct (run_plan p s).
Qed.

End State.

(** ** A concrete world: a broker that accepts every call and counts them, except that it
    refuses call number [n]. *)
Definition refusing (n : nat) : Amqp :=
  {| World := nat;
     answer := fun c k =>
       (if bool_decide (k = n) then inl (Foreign "refused" [])
        else inr match c with
             | QueueDeclare _ name _ _ _ _ =>
                 {| qu_Name := name; qu_Messages := 0; qu_Consumers := 0 |}
             | _ => empty_queue
             end, S k);
     isClosed := fun _ _ => false |}.

(** Refuses none of the first thousand calls. *)
Definition accepting : Amqp := refusing 1000.

End Amqp.
