(* ===== verification/Client.v ===== *)
(** * The client: connecting and declaring the topology (internal/broker/client.go)

    [setupTopology] and its helpers run against the AMQP interface of [Amqp]; their
    specification is the flat plan of declarations [topology_plan].  [connect] opens the
    connection, installs it and runs the set-up. *)

From stdpp Require Import base gmap strings list fin_maps.
From Stdlib Require Import ZArith Lia.
From S2P Require Import Prelude Errors Values Config Amqp.
Import Err Val Cfg Amqp.
Local Open Scope kit_scope.

Module Client.

Section Topology.
Context {A : Amqp}.

(** ** Topology *)

(** The copy of the struct shares the [Args] map with the original. *)
Definition configQueueWithDLX (queue : QueueConfig) (dlqCfg : DLQConfig)
  : Heap -> QueueConfig * Heap :=
  WithDLX (dlq_ExchangeName dlqCfg) (GetDLXRoutingKey (q_Name queue) dlqCfg) queue.

Definition topology_error (operation resource : string) (cause : error) : error :=
  NewTopologyError operation resource (Some cause).

(** The dead letter exchange, and for each queue its dead letter queue and binding. *)
Definition setupDLQ (ch : handle) (cfg : Config) : M St (option error) :=
  let dlqCfg := CfgDLQ cfg in
  and_then
    (exec (ExchangeDeclare ch (dlq_ExchangeName dlqCfg) (dlq_ExchangeType dlqCfg)
             (dlq_Durable dlqCfg) (dlq_AutoDelete dlqCfg) false ∅)
       (topology_error "declare_dlx" (dlq_ExchangeName dlqCfg)))
    (for_each (Queues cfg) (fun mainQueue =>
       let dlqName := GetDLQName (q_Name mainQueue) dlqCfg in
       let routingKey := GetDLXRoutingKey (q_Name mainQueue) dlqCfg in
       and_then
         (exec (QueueDeclare ch dlqName (dlq_Durable dlqCfg) (dlq_AutoDelete dlqCfg) false ∅)
            (topology_error "declare_dlq" dlqName))
         (exec (QueueBind ch dlqName routingKey (dlq_ExchangeName dlqCfg))
            (topology_error "bind_dlq" dlqName)))).

Definition declare_exchange (ch : handle) (ex : ExchangeConfig) : M St (option error) :=
  s ← get;
  exec (ExchangeDeclare ch (ex_Name ex) (ex_Type ex) (ex_Durable ex) (ex_AutoDelete ex)
          (ex_Internal ex) (deref (heap s) (ex_Args ex)))
    (topology_error "declare_exchange" (ex_Name ex)).

(** One iteration of the loop over the queues. *)
Definition declare_queue (ch : handle) (cfg : Config) (q : QueueConfig) : M St (option error) :=
  queueConfig ← with_heap (fun h =>
    if DLQEnabled cfg then configQueueWithDLX q (CfgDLQ cfg) h else (q, h));
  s ← get;
  and_then
    (exec (QueueDeclare ch (q_Name queueConfig) (q_Durable queueConfig)
             (q_AutoDelete queueConfig) (q_Exclusive queueConfig)
             (deref (heap s) (q_Args queueConfig)))
       (topology_error "declare_queue" (q_Name queueConfig)))
    (if String.eqb (q_Exchange queueConfig) "" then mret None
     else for_each (q_RoutingKeys queueConfig) (fun routingKey =>
       exec (QueueBind ch (q_Name queueConfig) routingKey (q_Exchange queueConfig))
         (topology_error "bind_queue" (q_Name queueConfig)))).

Definition setupTopology (ch : handle) (cfg : Config) : M St (option error) :=
  and_then (if DLQEnabled cfg then setupDLQ ch cfg else mret None)
    (and_then (for_each (Exchanges cfg) (declare_exchange ch))
       (for_each (Queues cfg) (declare_queue ch cfg))).

(** ** The plan of declarations *)

Definition dlq_plan (ch : handle) (cfg : Config) : Plan :=
  let d := CfgDLQ cfg in
  (ExchangeDeclare ch (dlq_ExchangeName d) (dlq_ExchangeType d) (dlq_Durable d)
     (dlq_AutoDelete d) false ∅,
   topology_error "declare_dlx" (dlq_ExchangeName d)) ::
  (Queues cfg ≫= fun q =>
     [(QueueDeclare ch (GetDLQName (q_Name q) d) (dlq_Durable d) (dlq_AutoDelete d) false ∅,
       topology_error "declare_dlq" (GetDLQName (q_Name q) d));
      (QueueBind ch (GetDLQName (q_Name q) d) (q_Name q) (dlq_ExchangeName d),
       topology_error "bind_dlq" (GetDLQName (q_Name q) d))]).

Definition exchange_plan (ch : handle) (h : Heap) (ex : ExchangeConfig) : Plan :=
  [(ExchangeDeclare ch (ex_Name ex) (ex_Type ex) (ex_Durable ex) (ex_AutoDelete ex)
      (ex_Internal ex) (deref h (ex_Args ex)),
    topology_error "declare_exchange" (ex_Name ex))].

(** The calls for a queue declared with arguments [args]. *)
Definition queue_plan (ch : handle) (args : Table) (q : QueueConfig) : Plan :=
  (QueueDeclare ch (q_Name q) (q_Durable q) (q_AutoDelete q) (q_Exclusive q) args,
   topology_error "declare_queue" (q_Name q)) ::
  (if String.eqb (q_Exchange q) "" then [] else
   rk ← q_RoutingKeys q;
   [(QueueBind ch (q_Name q) rk (q_Exchange q), topology_error "bind_queue" (q_Name q))]).

(** The heap in which a queue is declared, and the reference to its arguments. *)
Definition queue_args (cfg : Config) (q : QueueConfig) (h : Heap) : option loc * Heap :=
  if DLQEnabled cfg then
    let '(q1, h1) := configQueueWithDLX q (CfgDLQ cfg) h in (q_Args q1, h1)
  else (q_Args q, h).

Fixpoint queues_plan (ch : handle) (cfg : Config) (qs : list QueueConfig) (h : Heap)
  : Plan * Heap :=
  match qs with
  | [] => ([], h)
  | q :: qs' =>
      let '(r, h1) := queue_args cfg q h in
      let '(p, h2) := queues_plan ch cfg qs' h1 in
      (queue_plan ch (deref h1 r) q ++ p, h2)
  end.

Definition topology_plan (ch : handle) (cfg : Config) (h : Heap) : Plan :=
  (if DLQEnabled cfg then dlq_plan ch cfg else []) ++
  (Exchanges cfg ≫= exchange_plan ch h) ++ fst (queues_plan ch cfg (Queues cfg) h).

(** ** Lemmas *)

Lemma setupDLQ_implements h ch cfg : implements h (setupDLQ ch cfg) (dlq_plan ch cfg) h.
Proof.
  unfold setupDLQ, dlq_plan. apply implements_exec_then, implements_for_each.
  intros q. apply implements_exec_then, implements_exec.
Qed.

Lemma exchanges_implement h ch exs :
  implements h (for_each exs (declare_exchange ch)) (exs ≫= exchange_plan ch h) h.
Proof.
  apply implements_for_each. intros ex. unfold declare_exchange.
  apply implements_get. intros s <-. apply implements_exec.
Qed.

(** [WithDLX] changes nothing of a queue configuration but its [Args]. *)
Lemma WithDLX_fields dlx rk q h :
  exists r, fst (WithDLX dlx rk q h) = q <| q_Args := r |>.
Proof.
  unfold WithDLX. destruct (q_Args q) as [l|].
  - exists (Some l). by destruct (deref h (Some l) !! dlx_exchange_arg).
  - exists (Some (next h)). simpl. by destruct (default ∅ _ !! dlx_exchange_arg).
Qed.

Lemma declare_queue_implements h ch cfg q :
  implements h (declare_queue ch cfg q)
    (queue_plan ch (deref (snd (queue_args cfg q h)) (fst (queue_args cfg q h))) q)
    (snd (queue_args cfg q h)).
Proof.
  unfold declare_queue, queue_args. apply implements_with_heap.
  set (r := if DLQEnabled cfg then _ else (q, h)).
  assert (exists a, fst r = q <| q_Args := a |>) as [a Ha].
  { unfold r. destruct (DLQEnabled cfg); [apply WithDLX_fields|].
    exists (q_Args q). by destruct q. }
  replace (if DLQEnabled cfg then _ else (q_Args q, h)) with (q_Args (fst r), snd r)
    by (unfold r; destruct (DLQEnabled cfg); [by destruct (configQueueWithDLX _ _ _)|done]).
  cbn [fst snd]. rewrite Ha. cbn [q_Args q_Name q_Durable q_AutoDelete q_Exclusive q_Exchange
    q_RoutingKeys]. apply implements_get. intros s Hs. rewrite Hs.
  apply implements_exec_then.
  destruct (String.eqb (q_Exchange q) ""); [apply implements_ret|].
  apply (implements_for_each _ _ _ (fun rk => [_])). intros rk. apply implements_exec.
Qed.

Lemma queues_implement h ch cfg qs :
  implements h (for_each qs (declare_queue ch cfg)) (fst (queues_plan ch cfg qs h))
    (snd (queues_plan ch cfg qs h)).
Proof.
  revert h. induction qs as [|q qs IH]; intros h; [apply implements_ret|].
  cbn [queues_plan for_each]. pose proof (declare_queue_implements h ch cfg q) as Hq.
  destruct (queue_args cfg q h) as [r h1]. specialize (IH h1).
  destruct (queues_plan ch cfg qs h1) as [p h2]. cbn [fst snd] in *. by apply (implements_then h h1 h2).
Qed.

Lemma setupTopology_implements h ch cfg :
  implements h (setupTopology ch cfg) (topology_plan ch cfg h)
    (snd (queues_plan ch cfg (Queues cfg) h)).
Proof.
  unfold setupTopology, topology_plan. apply (implements_then h h).
  - destruct (DLQEnabled cfg); [apply setupDLQ_implements|apply implements_ret].
  - apply (implements_then h h); [apply exchanges_implement|apply queues_implement].
Qed.

(** *** What declaring a queue does to the heap *)

(** Maps that name a dead letter exchange are never written again. *)
Definition settled_in (h h' : Heap) : Prop :=
  heap_ok h' /\
  forall l, allocated h (Some l) ->
    allocated h' (Some l) /\
    (is_Some (deref h (Some l) !! dlx_exchange_arg) -> deref h' (Some l) = deref h (Some l)).

Lemma settled_refl h : heap_ok h -> settled_in h h.
Proof. by intros. Qed.

Lemma settled_trans h1 h2 h3 : settled_in h1 h2 -> settled_in h2 h3 -> settled_in h1 h3.
Proof.
  intros [_ H12] [H3 H23]. split; [done|]. intros l Hl.
  destruct (H12 l Hl) as [Ha Hs]. destruct (H23 l Ha) as [Ha' Hs']. split; [done|].
  intros Hd. rewrite Hs'; [by apply Hs|]. by rewrite Hs.
Qed.

(** The dead-letter arguments written for a queue. *)
Definition dlx_args (cfg : Config) (q : QueueConfig) (t : Table) : Table :=
  match t !! dlx_exchange_arg with
  | Some _ => t
  | None => <[dlx_routing_key_arg := AString (q_Name q)]>
              (<[dlx_exchange_arg := AString (dlq_ExchangeName (CfgDLQ cfg))]> t)
  end.

Lemma dlx_args_set cfg q t : is_Some (dlx_args cfg q t !! dlx_exchange_arg).
Proof.
  unfold dlx_args. destruct (t !! dlx_exchange_arg) eqn:E; [by rewrite E|].
  rewrite lookup_insert_ne, lookup_insert_eq by done. eauto.
Qed.

Lemma dlx_args_id cfg q t : is_Some (t !! dlx_exchange_arg) -> dlx_args cfg q t = t.
Proof. unfold dlx_args. by intros [v ->]. Qed.

Lemma allocated_set l k v h r : allocated h r -> allocated (map_set l k v h) r.
Proof.
  destruct r as [l'|]; [|done]. simpl. rewrite lookup_insert. case_decide; eauto.
Qed.

(** Declaring a queue whose map exists: the map gets the arguments, the others stay. *)
Lemma queue_args_Some cfg q h l :
  DLQEnabled cfg = true -> q_Args q = Some l -> heap_ok h -> allocated h (Some l) ->
  let '(r, h1) := queue_args cfg q h in
  r = Some l /\ deref h1 r = dlx_args cfg q (deref h (Some l)) /\ heap_ok h1 /\
  (forall l', allocated h (Some l') -> allocated h1 (Some l')) /\
  (forall l', l' <> l -> deref h1 (Some l') = deref h (Some l')).
Proof.
  intros Hd Hq Hh Hl. unfold queue_args, configQueueWithDLX, WithDLX, dlx_args.
  rewrite Hd, Hq. destruct (deref h (Some l) !! dlx_exchange_arg) eqn:E; cbv iota beta;
    cbn [q_Args]; [by split_and!|].
  split_and!; [done| | | |].
  - by rewrite !deref_set_eq.
  - by apply heap_ok_set; [apply heap_ok_set|apply allocated_set].
  - intros l' Hl'. by do 2 apply allocated_set.
  - intros l' Hne. by rewrite !deref_set_ne.
Qed.

(** Declaring a queue without a map: a fresh one gets the arguments. *)
Lemma queue_args_None cfg q h :
  DLQEnabled cfg = true -> q_Args q = None -> heap_ok h ->
  let '(r, h1) := queue_args cfg q h in
  deref h1 r = dlx_args cfg q ∅ /\ heap_ok h1 /\
  (forall l', allocated h (Some l') ->
    allocated h1 (Some l') /\ deref h1 (Some l') = deref h (Some l')).
Proof.
  intros Hd Hq Hh. unfold queue_args, configQueueWithDLX, WithDLX, dlx_args.
  rewrite Hd, Hq, lookup_empty. pose proof (deref_alloc_eq ∅ h) as E0.
  pose proof (heap_ok_alloc ∅ h Hh) as Hh0. pose proof (deref_alloc_old ∅ h) as Eold.
  destruct (alloc ∅ h) as [l h0] eqn:Ea. assert (l = next h) as -> by (by injection Ea).
  cbn [snd] in *. rewrite E0, lookup_empty. cbn [q_Args].
  assert (allocated h0 (Some (next h))) as Hl0.
  { injection Ea as <-. simpl. rewrite lookup_insert_eq. eauto. }
  split_and!.
  - by rewrite !deref_set_eq, E0.
  - by apply heap_ok_set; [apply heap_ok_set|apply allocated_set].
  - intros l' Hl'. split.
    + do 2 apply allocated_set. injection Ea as <-. simpl in *. rewrite lookup_insert.
      case_decide; eauto.
    + rewrite !deref_set_ne by (apply Hh in Hl'; simpl in *; lia). by apply Eold.
Qed.

Lemma queue_args_settled cfg q h :
  heap_ok h -> allocated h (q_Args q) -> settled_in h (snd (queue_args cfg q h)).
Proof.
  intros Hh Hq. destruct (DLQEnabled cfg) eqn:Hd.
  2: { unfold queue_args. rewrite Hd. by apply settled_refl. }
  destruct (q_Args q) as [l|] eqn:Eq.
  - pose proof (queue_args_Some cfg q h l Hd Eq Hh Hq) as H.
    destruct (queue_args cfg q h) as [r h1]. destruct H as (-> & Hr & Hh1 & Ha & Ho).
    cbn [snd]. split; [done|]. intros l' Hl'. split; [auto|]. intros Hs.
    destruct (decide (l' = l)) as [->|]; [by rewrite Hr, dlx_args_id|auto].
  - pose proof (queue_args_None cfg q h Hd Eq Hh) as H.
    destruct (queue_args cfg q h) as [r h1]. destruct H as (_ & Hh1 & Ha).
    cbn [snd]. split; [done|]. intros l' Hl'. destruct (Ha l' Hl'). auto.
Qed.

Lemma settled_allocated h h' r : settled_in h h' -> allocated h r -> allocated h' r.
Proof. intros [_ H]. destruct r; [apply H|done]. Qed.

Lemma queues_plan_settled ch cfg qs h :
  heap_ok h -> Forall (fun q => allocated h (q_Args q)) qs ->
  settled_in h (snd (queues_plan ch cfg qs h)).
Proof.
  revert h. induction qs as [|q qs IH]; intros h Hh Hqs; [by apply settled_refl|].
  apply Forall_cons in Hqs as [Hq Hqs]. cbn [queues_plan].
  pose proof (queue_args_settled cfg q h Hh Hq) as Hs.
  destruct (queue_args cfg q h) as [r h1]. cbn [snd] in *.
  assert (Forall (fun q => allocated h1 (q_Args q)) qs) as Hqs1.
  { eapply Forall_impl; [exact Hqs|]. intros. by eapply settled_allocated. }
  specialize (IH h1 (proj1 Hs) Hqs1). destruct (queues_plan ch cfg qs h1) as [p h2].
  cbn [snd] in *. by eapply settled_trans.
Qed.

(** *** Declaring the same topology again *)

(** The arguments with which each queue is declared, in a heap that already went through a
    declaration: maps as they are, fresh ones with the dead-letter arguments. *)
Definition redeclared_args (cfg : Config) (h : Heap) (q : QueueConfig) : Table :=
  match q_Args q with
  | Some l => deref h (Some l)
  | None => if DLQEnabled cfg then dlx_args cfg q ∅ else ∅
  end.

(** A heap in which every queue that has a map already names a dead letter exchange. *)
Definition configured (cfg : Config) (h : Heap) (q : QueueConfig) : Prop :=
  allocated h (q_Args q) /\
  (DLQEnabled cfg = true -> q_Args q <> None ->
    is_Some (deref h (q_Args q) !! dlx_exchange_arg)).

(** One queue: its declared arguments are those of every later heap. *)
Lemma queue_args_final cfg q h h' :
  heap_ok h -> allocated h (q_Args q) -> settled_in (snd (queue_args cfg q h)) h' ->
  (DLQEnabled cfg = false -> h' = h) ->
  deref (snd (queue_args cfg q h)) (fst (queue_args cfg q h)) = redeclared_args cfg h' q /\
  configured cfg h' q.
Proof.
  intros Hh Hq Hs Hoff. unfold redeclared_args, configured. destruct (DLQEnabled cfg) eqn:Hd.
  2: { rewrite Hoff by done. unfold queue_args. rewrite Hd. by destruct (q_Args q). }
  destruct (q_Args q) as [l|] eqn:Eq.
  - pose proof (queue_args_Some cfg q h l Hd Eq Hh Hq) as H.
    destruct (queue_args cfg q h) as [r h1]. destruct H as (-> & Hr & _ & Ha & _).
    cbn [fst snd] in *. destruct (proj2 Hs l (Ha l Hq)) as [Hl' Heq].
    rewrite Heq by (rewrite Hr; apply dlx_args_set). split_and!; [done|done|].
    intros _ _. rewrite Hr. apply dlx_args_set.
  - pose proof (queue_args_None cfg q h Hd Eq Hh) as H.
    destruct (queue_args cfg q h) as [r h1]. destruct H as (Hr & _ & _). by split_and!.
Qed.

Lemma queues_plan_off ch cfg qs h :
  DLQEnabled cfg = false -> snd (queues_plan ch cfg qs h) = h.
Proof.
  intros Hd. revert h. induction qs as [|q qs IH]; intros h; [done|].
  cbn [queues_plan]. unfold queue_args. rewrite Hd. specialize (IH h).
  by destruct (queues_plan ch cfg qs h).
Qed.

Lemma queues_plan_final ch cfg qs h h' :
  heap_ok h -> Forall (fun q => allocated h (q_Args q)) qs ->
  settled_in (snd (queues_plan ch cfg qs h)) h' -> (DLQEnabled cfg = false -> h' = h) ->
  fst (queues_plan ch cfg qs h) = (qs ≫= fun q => queue_plan ch (redeclared_args cfg h' q) q) /\
  Forall (configured cfg h') qs.
Proof.
  revert h. induction qs as [|q qs IH]; intros h Hh Hqs Hs Hoff; [done|].
  apply Forall_cons in Hqs as [Hq Hqs]. cbn [queues_plan] in *.
  pose proof (queue_args_settled cfg q h Hh Hq) as Hs1.
  assert (DLQEnabled cfg = false -> snd (queue_args cfg q h) = h) as Hoff1.
  { unfold queue_args. by intros ->. }
  pose proof (queue_args_final cfg q h h' Hh Hq) as Hf.
  destruct (queue_args cfg q h) as [r h1]. cbn [fst snd] in *.
  assert (Forall (fun q => allocated h1 (q_Args q)) qs) as Hqs1.
  { eapply Forall_impl; [exact Hqs|]. intros. by eapply settled_allocated. }
  pose proof (queues_plan_settled ch cfg qs h1 (proj1 Hs1) Hqs1) as Hs2.
  specialize (IH h1 (proj1 Hs1) Hqs1).
  destruct (queues_plan ch cfg qs h1) as [p h2]. cbn [fst snd] in *.
  destruct IH as [-> Hc]; [done|intros Hd; rewrite Hoff1 by done; auto|].
  destruct Hf as [-> Hcq]; [by eapply settled_trans|done|]. auto.
Qed.

(** Maps that belong to no queue are left alone. *)
Lemma queue_args_frame cfg q h l :
  heap_ok h -> allocated h (q_Args q) -> allocated h (Some l) -> q_Args q <> Some l ->
  deref (snd (queue_args cfg q h)) (Some l) = deref h (Some l).
Proof.
  intros Hh Hq Hl Hne. destruct (DLQEnabled cfg) eqn:Hd.
  2: { unfold queue_args. by rewrite Hd. }
  destruct (q_Args q) as [l0|] eqn:Eq.
  - pose proof (queue_args_Some cfg q h l0 Hd Eq Hh Hq) as H.
    destruct (queue_args cfg q h) as [r h1]. apply H. congruence.
  - pose proof (queue_args_None cfg q h Hd Eq Hh) as H.
    destruct (queue_args cfg q h) as [r h1]. by apply H.
Qed.

Lemma queues_plan_frame ch cfg qs h l :
  heap_ok h -> Forall (fun q => allocated h (q_Args q)) qs -> allocated h (Some l) ->
  Forall (fun q => q_Args q <> Some l) qs ->
  deref (snd (queues_plan ch cfg qs h)) (Some l) = deref h (Some l).
Proof.
  revert h. induction qs as [|q qs IH]; intros h Hh Hqs Hl Hne; [done|].
  apply Forall_cons in Hqs as [Hq Hqs]. apply Forall_cons in Hne as [Hneq Hne].
  cbn [queues_plan]. rewrite <- (queue_args_frame cfg q h l) by done.
  pose proof (queue_args_settled cfg q h Hh Hq) as Hs.
  destruct (queue_args cfg q h) as [r h1]. cbn [snd] in *.
  assert (Forall (fun q => allocated h1 (q_Args q)) qs) as Hqs1.
  { eapply Forall_impl; [exact Hqs|]. intros. by eapply settled_allocated. }
  specialize (IH h1 (proj1 Hs) Hqs1 (settled_allocated h h1 (Some l) Hs Hl) Hne).
  by destruct (queues_plan ch cfg qs h1).
Qed.

(** With a map of its own, a queue ends up with the arguments that name its own dead letter
    queue. *)
Lemma own_args_final ch cfg qs h q :
  DLQEnabled cfg = true -> heap_ok h -> Forall (fun q => allocated h (q_Args q)) qs ->
  NoDup (omap q_Args qs) -> q ∈ qs ->
  redeclared_args cfg (snd (queues_plan ch cfg qs h)) q = dlx_args cfg q (deref h (q_Args q)).
Proof.
  intros Hd. unfold redeclared_args. rewrite Hd. destruct (q_Args q) as [l|] eqn:Eq; [|done].
  revert h. induction qs as [|q0 qs IH]; intros h Hh Hqs Hnd Hin; [by apply elem_of_nil in Hin|].
  apply Forall_cons in Hqs as [Hq Hqs]. cbn [queues_plan].
  pose proof (queue_args_settled cfg q0 h Hh Hq) as Hs.
  pose proof (queue_args_frame cfg q0 h l Hh Hq) as Hfr.
  pose proof (queue_args_Some cfg q0 h l Hd) as Hsome.
  destruct (queue_args cfg q0 h) as [r h1]. cbn [snd] in *.
  assert (Forall (fun q => allocated h1 (q_Args q)) qs) as Hqs1.
  { eapply Forall_impl; [exact Hqs|]. intros. by eapply settled_allocated. }
  specialize (IH h1 (proj1 Hs) Hqs1).
  pose proof (queues_plan_frame ch cfg qs h1 l (proj1 Hs) Hqs1) as Hfr2.
  destruct (queues_plan ch cfg qs h1) as [p h2]. cbn [snd] in *.
  assert (q ∈ qs -> allocated h (Some l)) as Hal.
  { intros Hin'. rewrite Forall_forall in Hqs. specialize (Hqs q Hin'). by rewrite Eq in Hqs. }
  assert (NoDup (omap q_Args qs)) as Hnd'.
  { simpl in Hnd. destruct (q_Args q0); [by apply NoDup_cons in Hnd as [_ ?]|done]. }
  assert (q_Args q0 = Some l -> Forall (fun q => q_Args q <> Some l) qs) as Huniq.
  { intros E0. simpl in Hnd. rewrite E0 in Hnd. apply NoDup_cons in Hnd as [Hni _].
    apply Forall_forall. intros q' Hq' E'. apply Hni. apply list_elem_of_omap. eauto. }
  apply elem_of_cons in Hin as [->|Hin].
  - rewrite Eq in *. destruct (Hsome eq_refl Hh Hq) as (-> & Hr & _ & Ha & _).
    rewrite Hfr2 by auto. done.
  - rewrite IH by done. f_equal. apply Hfr; [auto|]. intros E0.
    specialize (Huniq E0). rewrite Forall_forall in Huniq. by apply (Huniq q Hin).
Qed.

Lemma success_trace ch cfg s :
  fst (setupTopology ch cfg s) = None ->
  trace (snd (setupTopology ch cfg s)) = trace s ++ (fst <$> topology_plan ch cfg (heap s)) /\
  heap (snd (setupTopology ch cfg s)) = snd (queues_plan ch cfg (Queues cfg) (heap s)).
Proof.
  intros Hok. destruct (setupTopology_implements (heap s) ch cfg s eq_refl) as [(Hr & _ & ->) Hh].
  split; [|auto]. destruct (run_plan_trace (topology_plan ch cfg (heap s)) s) as (n & -> & Hn).
  rewrite <- Hr, Hok in Hn. by rewrite Hn, take_ge.
Qed.

(** Where the parts of the plan are found in it. *)
Lemma queue_plan_in_topology ch cfg h args q c :
  (args, q) ∈ ((fun q => (redeclared_args cfg (snd (queues_plan ch cfg (Queues cfg) h)) q, q))
    <$> Queues cfg) ->
  heap_ok h -> Forall (fun q => allocated h (q_Args q)) (Queues cfg) ->
  c ∈ queue_plan ch args q -> c ∈ topology_plan ch cfg h.
Proof.
  intros Hin Hh Hqs Hc. apply list_elem_of_fmap in Hin as (q' & [= -> ->] & Hin).
  unfold topology_plan. rewrite !elem_of_app. right. right.
  destruct (queues_plan_final ch cfg (Queues cfg) h (snd (queues_plan ch cfg (Queues cfg) h)))
    as [-> _]; [done|done| | |].
  - apply settled_refl. by apply queues_plan_settled.
  - apply queues_plan_off.
  - apply list_elem_of_bind. eauto.
Qed.

Lemma dlq_plan_in_topology ch cfg h c :
  DLQEnabled cfg = true -> c ∈ dlq_plan ch cfg -> c ∈ topology_plan ch cfg h.
Proof. intros Hd Hc. unfold topology_plan. rewrite Hd, elem_of_app. by left. Qed.

Lemma call_in_trace ch cfg s c w :
  fst (setupTopology ch cfg s) = None -> (c, w) ∈ topology_plan ch cfg (heap s) ->
  c ∈ trace (snd (setupTopology ch cfg s)).
Proof.
  intros Hok Hin. destruct (success_trace ch cfg s Hok) as [-> _].
  apply elem_of_app. right. apply list_elem_of_fmap. by exists (c, w).
Qed.

(** ** Properties *)

(** C17: [setupTopology] performs the declarations of [topology_plan] in order (dead letter
    exchange and queues first, then the exchanges, then every queue followed by its
    bindings), stops at the first one the broker refuses, and returns that refusal wrapped
    in a [TopologyError] naming the operation and the resource. *)
Theorem setupTopology_runs_plan ch cfg s :
  same_calls (setupTopology ch cfg s) (run_plan (topology_plan ch cfg (heap s)) s).
Proof. by apply setupTopology_implements. Qed.

(** C18: with dead-lettering enabled and an [Args] map of its own (or none) for every queue,
    a successful set-up wires every queue whose [Args] do not name a dead letter exchange
    already to its dead letter queue: the queue is declared
    with the dead letter exchange and its own name as routing key, and the dead letter queue
    exists and is bound to that exchange under the same key. *)
Theorem dlq_wiring ch cfg s q :
  DLQEnabled cfg = true -> heap_ok (heap s) ->
  Forall (fun q => allocated (heap s) (q_Args q)) (Queues cfg) ->
  NoDup (omap q_Args (Queues cfg)) ->
  deref (heap s) (q_Args q) !! dlx_exchange_arg = None ->
  fst (setupTopology ch cfg s) = None -> q ∈ Queues cfg ->
  let d := CfgDLQ cfg in
  let t := trace (snd (setupTopology ch cfg s)) in
  (exists args,
    QueueDeclare ch (q_Name q) (q_Durable q) (q_AutoDelete q) (q_Exclusive q) args ∈ t /\
    args !! dlx_exchange_arg = Some (AString (dlq_ExchangeName d)) /\
    args !! dlx_routing_key_arg = Some (AString (q_Name q))) /\
  ExchangeDeclare ch (dlq_ExchangeName d) (dlq_ExchangeType d) (dlq_Durable d)
    (dlq_AutoDelete d) false ∅ ∈ t /\
  QueueDeclare ch (GetDLQName (q_Name q) d) (dlq_Durable d) (dlq_AutoDelete d) false ∅ ∈ t /\
  QueueBind ch (GetDLQName (q_Name q) d) (q_Name q) (dlq_ExchangeName d) ∈ t.
Proof.
  intros Hd Hh Hqs Hnd Hno Hok Hq d t. split_and!.
  - exists (dlx_args cfg q (deref (heap s) (q_Args q))). split_and!.
    + eapply call_in_trace; [done|].
      eapply (queue_plan_in_topology ch cfg _ _ q); [|done|done|by left].
      apply list_elem_of_fmap. exists q. by rewrite own_args_final.
    + unfold dlx_args. rewrite Hno, lookup_insert_ne by done. apply lookup_insert_eq.
    + unfold dlx_args. rewrite Hno. apply lookup_insert_eq.
  - eapply call_in_trace, dlq_plan_in_topology; [done|done|by left].
  - eapply call_in_trace, dlq_plan_in_topology; [done|done|right].
    apply list_elem_of_bind. exists q. split; [by left|done].
  - eapply call_in_trace, dlq_plan_in_topology; [done|done|right].
    apply list_elem_of_bind. exists q. split; [by right; left|done].
Qed.

(** Two queues that share one [Args] map do not get their own dead letter queues: the
    second is declared with the first one's name as dead-letter routing key, and the map the
    caller passed is modified. *)
Theorem shared_args_misroute ch cfg s q1 q2 l :
  DLQEnabled cfg = true -> heap_ok (heap s) -> allocated (heap s) (Some l) ->
  Queues cfg = [q1; q2] -> q_Args q1 = Some l -> q_Args q2 = Some l ->
  deref (heap s) (Some l) !! dlx_exchange_arg = None ->
  fst (setupTopology ch cfg s) = None ->
  (exists args,
    QueueDeclare ch (q_Name q2) (q_Durable q2) (q_AutoDelete q2) (q_Exclusive q2) args ∈
      trace (snd (setupTopology ch cfg s)) /\
    args !! dlx_routing_key_arg = Some (AString (q_Name q1))) /\
  deref (heap (snd (setupTopology ch cfg s))) (Some l) !! dlx_routing_key_arg =
    Some (AString (q_Name q1)).
Proof.
  intros Hd Hh Hl HQ H1 H2 Hno Hok.
  destruct (success_trace ch cfg s Hok) as [_ Hfinal].
  assert (deref (heap (snd (setupTopology ch cfg s))) (Some l) =
    dlx_args cfg q1 (deref (heap s) (Some l))) as Hargs.
  { rewrite Hfinal, HQ. cbn [queues_plan].
    pose proof (queue_args_Some cfg q1 (heap s) l Hd H1 Hh Hl) as E1.
    destruct (queue_args cfg q1 (heap s)) as [r1 h1]. destruct E1 as (-> & Hr1 & Hh1 & Ha1 & _).
    pose proof (queue_args_Some cfg q2 h1 l Hd H2 Hh1 (Ha1 l Hl)) as E2.
    destruct (queue_args cfg q2 h1) as [r2 h2]. destruct E2 as (-> & Hr2 & _). cbn [snd].
    by rewrite Hr2, Hr1, dlx_args_id by apply dlx_args_set. }
  assert (dlx_args cfg q1 (deref (heap s) (Some l)) !! dlx_routing_key_arg =
    Some (AString (q_Name q1))) as Hk by (unfold dlx_args; rewrite Hno; apply lookup_insert_eq).
  split; [|by rewrite Hargs]. eexists. split; [|exact Hk].
  eapply call_in_trace; [done|]. eapply (queue_plan_in_topology ch cfg _ _ q2); [|done| |by left].
  - apply list_elem_of_fmap. exists q2. rewrite <- Hfinal. unfold redeclared_args.
    rewrite H2, Hargs. split; [done|]. rewrite HQ. set_solver.
  - rewrite HQ. repeat constructor; by rewrite ?H1, ?H2.
Qed.

(** A reconnection declares the same topology as the first connection: the plan is
    unchanged by the writes the first set-up made to the [Args] maps, provided no exchange
    shares its map with a queue. *)
Theorem reconnect_same_topology ch cfg s :
  heap_ok (heap s) -> Forall (fun q => allocated (heap s) (q_Args q)) (Queues cfg) ->
  Forall (fun ex => allocated (heap s) (ex_Args ex) /\
    (ex_Args ex <> None -> Forall (fun q => q_Args q <> ex_Args ex) (Queues cfg)))
    (Exchanges cfg) ->
  fst (setupTopology ch cfg s) = None ->
  topology_plan ch cfg (heap (snd (setupTopology ch cfg s))) = topology_plan ch cfg (heap s).
Proof.
  intros Hh Hqs Hexs Hok. destruct (success_trace ch cfg s Hok) as [_ ->].
  set (h := heap s) in *. set (h2 := snd (queues_plan ch cfg (Queues cfg) h)).
  pose proof (queues_plan_settled ch cfg (Queues cfg) h Hh Hqs) as Hs2. fold h2 in Hs2.
  assert (Forall (fun q => allocated h2 (q_Args q)) (Queues cfg)) as Hqs2.
  { eapply Forall_impl; [exact Hqs|]. intros. by eapply settled_allocated. }
  pose proof (queues_plan_settled ch cfg (Queues cfg) h2 (proj1 Hs2) Hqs2) as Hs3.
  set (h3 := snd (queues_plan ch cfg (Queues cfg) h2)) in Hs3.
  assert (DLQEnabled cfg = false -> h3 = h2 /\ h2 = h) as Hoff.
  { intros Hd. split; by apply queues_plan_off. }
  unfold topology_plan. f_equal. f_equal.
  - apply list_bind_ext_in. intros ex Hex. unfold exchange_plan.
    rewrite Forall_forall in Hexs. destruct (Hexs ex Hex) as [Ha Hne].
    destruct (ex_Args ex) as [l|]; [|done]. unfold h2.
    by rewrite queues_plan_frame by auto.
  - destruct (queues_plan_final ch cfg (Queues cfg) h h3 Hh Hqs) as [-> _]; [done| |].
    { intros Hd. destruct (Hoff Hd). congruence. }
    destruct (queues_plan_final ch cfg (Queues cfg) h2 h3 (proj1 Hs2) Hqs2) as [-> _]; [| |done].
    + by apply settled_refl, Hs3.
    + intros Hd. by destruct (Hoff Hd).
Qed.

End Topology.

(** ** The connection *)

Section Connection.
Context {A : Amqp}.

(** [type Client struct]: the signal channel [done] and the lock are modelled with the
    reconnection loop. *)
Record Client := {
  config : Config;
  conn : option handle;
  channel : option handle;
  closed : bool
}.

#[export] Instance Client_eta : Eta Client := fun c =>
  {| config := config c; conn := conn c; channel := channel c; closed := closed c |}.

Record Sys := { client : Client; st : St; next_handle : handle }.

#[export] Instance Sys_eta : Eta Sys := fun s =>
  {| client := client s; st := st s; next_handle := next_handle s |}.

Definition on_st {B} (m : M St B) : M Sys B := fun s =>
  let '(b, st') := m (st s) in (b, s <| st := st' |>).

Definition set_client (f : Client -> Client) : M Sys unit := fun s =>
  let c := f (client s) in (tt, s <| client := c |>).

(** A call that opens a connection or channel; its handle is the next free one. *)
Definition open (c : Call) : M Sys (error + handle) := fun s =>
  let '(r, st') := perform c (st s) in
  match r with
  | inl e => (inl e, s <| st := st' |>)
  | inr _ => (inr (next_handle s),
              {| client := client s; st := st'; next_handle := S (next_handle s) |})
  end.

(** [_ = ch.Close(); _ = conn.Close()] *)
Definition close_both (ch cn : handle) : M Sys unit :=
  on_st (perform (CloseChannel ch));; on_st (perform (CloseConn cn));; mret tt.

Definition connection_error (operation : string) (cause : error) : error :=
  NewConnectionError operation (Some cause).

(** The steps on the new channel; an error closes channel and connection. *)
Definition prepare (ch : handle) (cfg : Config) : M St (option error) :=
  and_then (exec (Qos ch (PrefetchCount cfg)) (connection_error "set qos"))
    (and_then
       (if PublisherConfirms cfg
        then exec (Confirm ch) (connection_error "enable publisher confirms") else mret None)
       (setupTopology ch cfg)).

(** [connect], under the client's write lock. *)
Definition connect : M Sys (option error) :=
  c ← gets client;
  if closed c then mret (Some (Sentinel ErrClientClosed)) else
  r ← open (Dial (URI (config c)));
  match r with
  | inl e => mret (Some (connection_error "dial" e))
  | inr cn =>
      r ← open (OpenChannel cn);
      match r with
      | inl e =>
          on_st (perform (CloseConn cn));;
          mret (Some (connection_error "open channel" e))
      | inr ch =>
          set_client (fun c => c <| conn := Some cn |> <| channel := Some ch |>);;
          r ← on_st (prepare ch (config c));
          match r with
          | Some e => close_both ch cn;; mret (Some e)
          | None => mret None
          end
      end
  end.

(** [New]: the client is returned only when the first connection succeeds. *)
Definition New (cfg : Config) (s : St) : (error + Client) * Sys :=
  let c := {| config := cfg; conn := None; channel := None; closed := false |} in
  let '(r, s') := connect {| client := c; st := s; next_handle := 0 |} in
  (match r with Some e => inl e | None => inr (client s') end, s').

Definition GetChannel (c : Client) : error + handle :=
  if closed c then inl (Sentinel ErrClientClosed)
  else match channel c with
       | None => inl (Sentinel ErrNoChannel)
       | Some ch => inr ch
       end.

Definition close_opt (call : handle -> Call) (o : option handle) : M Sys unit :=
  match o with
  | Some x => on_st (perform (call x));; mret tt
  | None => mret tt
  end.

(** The errors of the two [Close] calls are ignored; the result is always nil. *)
Definition Close : M Sys (option error) :=
  c ← gets client;
  if closed c then mret None else
  set_client (fun c => c <| closed := true |>);;
  close_opt CloseChannel (channel c);;
  close_opt CloseConn (conn c);;
  mret None.

Definition IsConnected (s : Sys) : bool :=
  match conn (client s) with
  | Some cn => negb (isClosed cn (world (st s)))
  | None => false
  end.

(** [context.WithTimeout(context.Background(), d)]: a context that is done [d] after [now], or
    when its cancel function is called. *)
Record TimeoutContext := { deadline : Z; cancelled : bool }.

(** [NewContext] *)
Definition NewContext (now : Z) (c : Client) : TimeoutContext :=
  {| deadline := now + Timeout (config c); cancelled := false |}.

(** ** Lemmas *)

Definition prepare_plan (ch : handle) (cfg : Config) (h : Heap) : Plan :=
  (Qos ch (PrefetchCount cfg), connection_error "set qos") ::
  (if PublisherConfirms cfg
   then [(Confirm ch, connection_error "enable publisher confirms")] else []) ++
  topology_plan ch cfg h.

Lemma prepare_implements h ch cfg :
  implements h (prepare ch cfg) (prepare_plan ch cfg h)
    (snd (queues_plan ch cfg (Queues cfg) h)).
Proof.
  apply implements_exec_then. apply (implements_then h h); [|apply setupTopology_implements].
  destruct (PublisherConfirms cfg); [apply implements_exec|apply implements_ret].
Qed.

(** Calls that neither open nor close a connection or channel, nor consume. *)
Definition is_setup (c : Call) : Prop :=
  match c with
  | Dial _ | OpenChannel _ | CloseChannel _ | CloseConn _ | Consume _ _ => False
  | _ => True
  end.

Lemma queues_plan_setup ch cfg qs h :
  Forall is_setup (fst <$> fst (queues_plan ch cfg qs h)).
Proof.
  revert h. induction qs as [|q qs IH]; intros h; [constructor|]. cbn [queues_plan].
  destruct (queue_args cfg q h) as [r h1]. specialize (IH h1).
  destruct (queues_plan ch cfg qs h1) as [p h2]. cbn [fst] in *.
  rewrite fmap_app, Forall_app. split; [|done]. unfold queue_plan.
  constructor; [done|]. destruct (String.eqb _ _); [constructor|].
  apply Forall_fmap, Forall_bind, Forall_true. by repeat constructor.
Qed.

Lemma prepare_plan_setup ch cfg h : Forall is_setup (fst <$> prepare_plan ch cfg h).
Proof.
  unfold prepare_plan, topology_plan. rewrite fmap_cons, Forall_cons.
  rewrite !fmap_app, !Forall_app. split_and!; [done|..].
  - destruct (PublisherConfirms cfg); by repeat constructor.
  - destruct (DLQEnabled cfg); [|constructor]. constructor; [done|].
    apply Forall_fmap, Forall_bind, Forall_true. by repeat constructor.
  - apply Forall_fmap, Forall_bind, Forall_true. by repeat constructor.
  - apply queues_plan_setup.
Qed.

Lemma prepare_trace ch cfg s :
  exists new, trace (snd (prepare ch cfg s)) = trace s ++ new /\ Forall is_setup new.
Proof.
  destruct (prepare_implements (heap s) ch cfg s eq_refl) as [(_ & _ & ->) _].
  destruct (run_plan_trace (prepare_plan ch cfg (heap s)) s) as (n & -> & _).
  eexists. split; [done|]. rewrite fmap_take.
  apply Forall_take, prepare_plan_setup.
Qed.

(** What [connect] did, in terms of the calls it made. *)
Definition connected (s s' : Sys) (new : list Call) : Prop :=
  conn (client s') = Some (next_handle s) /\ channel (client s') = Some (S (next_handle s)) /\
  next_handle s' = S (S (next_handle s)) /\ 
  Forall (fun c => forall n, c <> CloseConn n /\ c <> CloseChannel n) new.

Definition released (s s' : Sys) (new : list Call) : Prop :=
  next_handle s' = next_handle s \/ last new = Some (CloseConn (next_handle s)).

(** Not the registration of a consumer. *)
Definition no_consume (c : Call) : Prop := forall ch q, c <> Consume ch q.

Lemma setup_no_consume new : Forall is_setup new -> Forall no_consume new.
Proof. intros H. eapply Forall_impl; [exact H|]. by intros []. Qed.

Lemma connect_calls s :
  let '(r, s') := connect s in
  exists new, trace (st s') = trace (st s) ++ new /\ Forall no_consume new /\
    config (client s') = config (client s) /\ closed (client s') = closed (client s) /\
    match r with None => connected s s' new | Some _ => released s s' new end.
Proof.
  unfold connect, close_both, open, on_st, set_client, perform. run_m.
  destruct (closed (client s)) eqn:Ec.
  { exists []. rewrite app_nil_r. split_and!; try done. by left. }
  destruct (answer (Dial _) _) as [[e|?] w1]; simpl.
  { eexists. split_and!; [done|by repeat constructor|done..|]. by left. }
  destruct (answer (OpenChannel _) _) as [[e|?] w2]; simpl.
  { destruct (answer (CloseConn _) _) as [? w3]. simpl.
    exists [Dial (URI (config (client s))); OpenChannel (next_handle s); CloseConn (next_handle s)].
    rewrite <- !app_assoc. split_and!; [done|by repeat constructor|done..|]. by right. }
  destruct (prepare_trace (S (next_handle s)) (config (client s))
    {| heap := heap (st s); world := w2;
       trace := (trace (st s) ++ [Dial (URI (config (client s)))]) ++ [OpenChannel (next_handle s)] |})
    as (new & Hnew & Hset). pose proof (setup_no_consume new Hset) as Hnc.
  destruct (prepare _ _ _) as [[e|] st'] eqn:Ep; simpl in *.
  - destruct (answer (CloseChannel (S (next_handle s))) (world st')) as [? w3]. simpl.
    destruct (answer (CloseConn (next_handle s)) w3) as [? w4]. simpl. rewrite Hnew, <- !app_assoc.
    eexists. split_and!; [done| |done..|].
    + repeat (apply Forall_app; split); by repeat constructor.
    + right. by rewrite !app_assoc, last_snoc.
  - rewrite Hnew, <- !app_assoc. eexists. split_and!; [done| |done..|].
    + repeat (apply Forall_app; split); by repeat constructor.
    + split_and!; try done. simpl. constructor; [done|]. constructor; [done|].
      eapply Forall_impl; [exact Hset|]. by intros [].
Qed.

(** ** Properties *)

(** C35: [connect] leaks no connection on failure and installs the new one on success: when
    it returns an error, either nothing was dialled or the last call closes the connection
    it dialled; when it returns nil the client holds the connection and channel just opened
    and neither was closed. *)
Theorem connect_releases_on_error s :
  let '(r, s') := connect s in
  exists new, trace (st s') = trace (st s) ++ new /\
    match r with
    | Some e => next_handle s' = next_handle s \/ last new = Some (CloseConn (next_handle s))
    | None => conn (client s') = Some (next_handle s) /\
        channel (client s') = Some (S (next_handle s)) /\
        Forall (fun c => forall n, c <> CloseConn n /\ c <> CloseChannel n) new
    end.
Proof.
  pose proof (connect_calls s) as H. destruct (connect s) as [r s'].
  destruct H as (new & Ht & _ & _ & _ & Hr). exists new. split; [done|].
  destruct r; [done|]. by destruct Hr as (? & ? & _ & ?).
Qed.

(** Consumers are registered on channels that have been opened. *)
Definition consumers_known (s : Sys) : Prop :=
  forall ch q, Consume ch q ∈ trace (st s) -> (ch < next_handle s)%nat.


(** Reconnecting while the old connection is still open leaks it: after a successful
    [connect] and a final [Close], no call has closed the connection the client held
    before. *)
Theorem reconnect_leaks_old_connection s old :
  conn (client s) = Some old -> (old < next_handle s)%nat ->
  CloseConn old ∉ trace (st s) ->
  fst (connect s) = None ->
  CloseConn old ∉ trace (st (snd (Close (snd (connect s))))).
Proof.
  intros _ Hold Hnot Hok. pose proof (connect_calls s) as H.
  destruct (connect s) as [r s']. simpl in Hok. subst r. simpl.
  destruct H as (new & Ht & _ & _ & _ & Hcn & Hch & _ & Hno).
  assert (CloseConn old ∉ trace (st s')) as Hnot'.
  { rewrite Ht, elem_of_app. intros [?|Hin]; [done|].
    rewrite Forall_forall in Hno. by destruct (Hno _ Hin old) as [? _]. }
  unfold Close, set_client, close_opt, on_st, perform. run_m.
  destruct (closed (client s')); simpl; [done|]. rewrite Hch. simpl.
  destruct (answer _ _) as [? w1]. simpl. rewrite Hcn. simpl.
  destruct (answer _ _) as [? w2]. simpl. rewrite !elem_of_app.
  intros [[?|Hin]|Hin]; [done|by apply list_elem_of_singleton in Hin|].
  apply list_elem_of_singleton in Hin as [= ->]. lia.
Qed.

End Connection.

(** ** Witnesses *)

Definition demo_queue (name : string) (args : option loc) : QueueConfig :=
  {| q_Name := name; q_Exchange := "orders"; q_RoutingKeys := ["order.created"];
     q_Durable := true; q_AutoDelete := false; q_Exclusive := false; q_Args := args |}.

Definition demo_cfg (qs : list QueueConfig) : Config :=
  apply_options [WithURI "amqp://h/"; WithDLQ true; WithQueues qs;
    WithExchanges [demo_exchange "orders" "topic"]] DefaultConfig.

(** A heap with one map, at location 0. *)
Definition demo_heap : Heap := {| next := 1; store := {[0 := {["x-max-length" := AInt32 10]}]} |}.

Lemma demo_heap_ok : heap_ok demo_heap.
Proof.
  intros l [t Hl]. simpl in *. apply lookup_singleton_Some in Hl as [<- _]. lia.
Qed.

Definition demo_st : @St accepting := @Build_St accepting demo_heap 0 [].

Definition two_queues : list QueueConfig := [demo_queue "a" (Some 0); demo_queue "b" None].

Lemma dlq_wiring_witness :
  QueueBind 1 "dlq.b" "b" "dlx.exchange" ∈
    trace (snd (setupTopology (A := accepting) 1 (demo_cfg two_queues) demo_st)).
Proof.
  apply (dlq_wiring (A := accepting) 1 (demo_cfg two_queues) demo_st (demo_queue "b" None)).
  - reflexivity.
  - exact demo_heap_ok.
  - repeat constructor. simpl. eauto.
  - by_compute.
  - reflexivity.
  - vm_compute. reflexivity.
  - right. left.
Defined.

Definition shared_queues : list QueueConfig := [demo_queue "a" (Some 0); demo_queue "b" (Some 0)].

Lemma shared_args_misroute_witness :
  exists args,
    QueueDeclare 1 "b" true false false args ∈
      trace (snd (setupTopology (A := accepting) 1 (demo_cfg shared_queues) demo_st)) /\
    args !! dlx_routing_key_arg = Some (AString "a").
Proof.
  apply (shared_args_misroute (A := accepting) 1 (demo_cfg shared_queues) demo_st
    (demo_queue "a" (Some 0)) (demo_queue "b" (Some 0)) 0); try reflexivity.
  - exact demo_heap_ok.
  - simpl. eauto.
Defined.

Lemma reconnect_same_topology_witness :
  topology_plan 1 (demo_cfg shared_queues)
    (heap (snd (setupTopology (A := accepting) 1 (demo_cfg shared_queues) demo_st))) =
  topology_plan 1 (demo_cfg shared_queues) demo_heap.
Proof.
  apply (reconnect_same_topology (A := accepting) 1 (demo_cfg shared_queues) demo_st).
  - exact demo_heap_ok.
  - repeat constructor; simpl; eauto.
  - constructor; [|constructor]. split; [exact I|]. intros H. by destruct H.
  - vm_compute. reflexivity.
Defined.

(** A client that holds connection 0 and channel 1. *)
Definition demo_sys : @Sys accepting :=
  @Build_Sys accepting
    {| config := demo_cfg two_queues; conn := Some 0; channel := Some 1; closed := false |}
    demo_st 2.

(** A client whose channel a queue is consumed from. *)
Definition consuming_sys : @Sys accepting :=
  @Build_Sys accepting (client demo_sys) (@Build_St accepting demo_heap 0 [Consume 1 "a"]) 2.


Lemma reconnect_leaks_old_connection_witness :
  CloseConn 0 ∉ trace (st (snd (Close (snd (connect demo_sys))))).
Proof.
  apply (reconnect_leaks_old_connection demo_sys 0).
  - reflexivity.
  - simpl. lia.
  - apply not_elem_of_nil.
  - vm_compute. reflexivity.
Defined.

End Client.
