(* ===== verification/FlowControl.v ===== *)
(** * Flow control notices (internal/broker/client.go, connect)

    A connection that the broker blocks, because of a disk or memory alarm, tells the client
    through [NotifyBlocked].  [connect] starts a goroutine that ranges over the notices, logs
    them and starts a goroutine for each callback, which recovers from the callback's panics.
    The callbacks are the application's: whether and how a call ends is up to the schedule.
    The channel holds one notice, and the library waits while it is full; the library closes
    it with the connection. *)

From stdpp Require Import base gmap strings list fin_maps.
From Stdlib Require Import ZArith Lia.
From S2P Require Import Prelude Values Config.
Import Val.
Local Open Scope kit_scope.

Module Flow.

(** [amqp.Blocking] *)
Record Blocking := { Active : bool; Reason : string }.

(** A callback with its argument. *)
Inductive Callback := CallBlocked (reason : string) | CallUnblocked.

(** A goroutine that calls one: started, in the call, or ended. *)
Inductive Status := Ready | InCall | Ended.

Inductive Watcher := Ranging | Gone.

(** A line for the logger. *)
Record Entry := { level : string; text : string; fields : list (string * any) }.

#[export] Instance Callback_eq_dec : EqDecision Callback.
Proof. solve_decision. Defined.

#[export] Instance Status_eq_dec : EqDecision Status.
Proof. solve_decision. Defined.

Record State := {
  blockedChan : option Blocking;           (* make(chan amqp.Blocking, 1) *)
  closed : bool;
  watcher : Watcher;
  callbacks : list (Callback * Status);
  logged : list Entry;
  (* what happened so far *)
  notified : list Blocking;
  received : list Blocking;
  calls : list Callback
}.

#[export] Instance State_eta : Eta State := fun s =>
  {| blockedChan := blockedChan s; closed := closed s; watcher := watcher s;
     callbacks := callbacks s; logged := logged s; notified := notified s;
     received := received s; calls := calls s |}.

(** How a call of a callback ends; a panic carries the value that [recover] returns. *)
Inductive Ending := Returns | Panics (r : any).

Inductive Event :=
| Notify (b : Blocking)
| CloseChannel
| NextNotice                       (* one round of the range loop, or its end *)
| StartCall (i : nat)
| EndCall (i : nat) (e : Ending).

(** [c.config.Logger.Warn] and [Info] *)
Definition log (lvl msg : string) (fs : list (string * any)) (s : State) : State :=
  let l := logged s ++ [{| level := lvl; text := msg; fields := fs |}] in s <| logged := l |>.

Definition start_callback (c : Callback) (s : State) : State :=
  let l := callbacks s ++ [(c, Ready)] in s <| callbacks := l |>.

(** The body of the range loop. *)
Definition handle_notice (cfg : Cfg.Config) (b : Blocking) (s : State) : State :=
  if Active b then
    let s1 := log "WARN" "RabbitMQ connection blocked by broker"
                [("reason", AString (Reason b))] s in
    if Cfg.OnConnectionBlocked cfg then start_callback (CallBlocked (Reason b)) s1 else s1
  else
    let s1 := log "INFO" "RabbitMQ connection unblocked" [] s in
    if Cfg.OnConnectionUnblocked cfg then start_callback CallUnblocked s1 else s1.

(** The text the deferred function of a callback's goroutine logs. *)
Definition panic_text (c : Callback) : string :=
  match c with
  | CallBlocked _ => "panic in OnConnectionBlocked callback"
  | CallUnblocked => "panic in OnConnectionUnblocked callback"
  end.

(** The deferred function: [recover] returns nil after a call that returned. *)
Definition recover_callback (c : Callback) (e : Ending) (s : State) : State :=
  match e with
  | Returns => s
  | Panics r => log "WARN" (panic_text c) [("recover", r)] s
  end.

Definition set_status (i : nat) (c : Callback) (x : Status) (s : State) : State :=
  let l := <[i := (c, x)]> (callbacks s) in s <| callbacks := l |>.

Definition exec (cfg : Cfg.Config) (e : Event) (s : State) : option State :=
  match e with
  | Notify b =>
      match blockedChan s, closed s with
      | None, false =>
          let l := notified s ++ [b] in Some (s <| blockedChan := Some b |> <| notified := l |>)
      | _, _ => None
      end
  | CloseChannel => Some (s <| closed := true |>)
  | NextNotice =>
      match watcher s, blockedChan s with
      | Ranging, Some b =>
          let l := received s ++ [b] in
          let s1 := s <| blockedChan := @None Blocking |> <| received := l |> in
          Some (handle_notice cfg b s1)
      | Ranging, None => if closed s then Some (s <| watcher := Gone |>) else None
      | Gone, _ => None
      end
  | StartCall i =>
      match callbacks s !! i with
      | Some (c, Ready) =>
          let l := calls s ++ [c] in
          let s1 := s <| calls := l |> in Some (set_status i c InCall s1)
      | _ => None
      end
  | EndCall i e =>
      match callbacks s !! i with
      | Some (c, InCall) => let s1 := recover_callback c e s in Some (set_status i c Ended s1)
      | _ => None
      end
  end.

Fixpoint run (cfg : Cfg.Config) (es : list Event) (s : State) : option State :=
  match es with
  | [] => Some s
  | e :: es' => s' ← exec cfg e s; run cfg es' s'
  end.

(** After [connect]. *)
Definition initial : State :=
  {| blockedChan := None; closed := false; watcher := Ranging; callbacks := []; logged := [];
     notified := []; received := []; calls := [] |}.

(** ** Properties *)

(** The callback that a notice is for, if the application has set one. *)
Definition callback_of (cfg : Cfg.Config) (b : Blocking) : option Callback :=
  if Active b then if Cfg.OnConnectionBlocked cfg then Some (CallBlocked (Reason b)) else None
  else if Cfg.OnConnectionUnblocked cfg then Some CallUnblocked else None.

Definition notice_of (b : Blocking) : Entry :=
  if Active b
  then {| level := "WARN"; text := "RabbitMQ connection blocked by broker";
          fields := [("reason", AString (Reason b))] |}
  else {| level := "INFO"; text := "RabbitMQ connection unblocked"; fields := [] |}.

(** The lines about notices, without those about panics. *)
Definition is_notice (e : Entry) : Prop :=
  text e = "RabbitMQ connection blocked by broker" \/ text e = "RabbitMQ connection unblocked".

#[export] Instance is_notice_dec e : Decision (is_notice e).
Proof. unfold is_notice. solve_decision. Defined.

(** The calls that have begun. *)
Definition begun (l : list (Callback * Status)) : list Callback :=
  (filter (fun x => x.2 <> Ready) l).*1.

Record in_step (cfg : Cfg.Config) (s : State) : Prop := {
  is_received : notified s = received s ++ option_list (blockedChan s);
  is_started : (callbacks s).*1 = omap (callback_of cfg) (received s);
  is_called : calls s ≡ₚ begun (callbacks s);
  is_logged : filter is_notice (logged s) = notice_of <$> received s;
  is_gone : watcher s = Gone -> closed s = true /\ blockedChan s = None
}.

Lemma flow_initial_in_step cfg : in_step cfg initial.
Proof. by split. Qed.

Lemma notice_is_notice b : is_notice (notice_of b).
Proof. unfold is_notice, notice_of. destruct (Active b); simpl; auto. Qed.

(** A round of the loop, field by field. *)
Lemma handle_notice_spec cfg b s :
  handle_notice cfg b s =
    {| blockedChan := blockedChan s; closed := closed s; watcher := watcher s;
       callbacks := callbacks s ++ ((fun c => (c, Ready)) <$> option_list (callback_of cfg b));
       logged := logged s ++ [notice_of b]; notified := notified s; received := received s;
       calls := calls s |}.
Proof.
  unfold handle_notice, callback_of, notice_of, start_callback, log. destruct s, b as [[] r];
    simpl; case_match; simpl; by rewrite ?app_nil_r.
Qed.

Lemma begun_app l l' : begun (l ++ l') = begun l ++ begun l'.
Proof. unfold begun. by rewrite filter_app, fmap_app. Qed.

(** A callback's goroutine moves on. *)
Lemma begun_insert i c x y (l : list (Callback * Status)) :
  l !! i = Some (c, x) ->
  exists l1 l2, l = l1 ++ (c, x) :: l2 /\ <[i := (c, y)]> l = l1 ++ (c, y) :: l2.
Proof.
  intros Hi. exists (take i l), (drop (S i) l). split; [symmetry; by apply take_drop_middle|].
  apply insert_take_drop. by eapply lookup_lt_Some.
Qed.

Lemma begun_start i c l :
  l !! i = Some (c, Ready) -> begun (<[i := (c, InCall)]> l) ≡ₚ begun l ++ [c].
Proof.
  intros Hi. destruct (begun_insert i c Ready InCall l Hi) as (l1 & l2 & -> & ->).
  change (l1 ++ (c, InCall) :: l2) with (l1 ++ [(c, InCall)] ++ l2).
  change (l1 ++ (c, Ready) :: l2) with (l1 ++ [(c, Ready)] ++ l2).
  rewrite !begun_app. simpl. by rewrite <- app_assoc, (Permutation_app_comm (begun l2)).
Qed.

Lemma begun_end i c l :
  l !! i = Some (c, InCall) -> begun (<[i := (c, Ended)]> l) = begun l.
Proof.
  intros Hi. destruct (begun_insert i c InCall Ended l Hi) as (l1 & l2 & -> & ->).
  change (l1 ++ (c, InCall) :: l2) with (l1 ++ [(c, InCall)] ++ l2).
  change (l1 ++ (c, Ended) :: l2) with (l1 ++ [(c, Ended)] ++ l2).
  by rewrite !begun_app.
Qed.

Lemma kinds_insert i c x y (l : list (Callback * Status)) :
  l !! i = Some (c, x) -> (<[i := (c, y)]> l).*1 = l.*1.
Proof.
  intros Hi. destruct (begun_insert i c x y l Hi) as (l1 & l2 & -> & ->).
  by rewrite !fmap_app.
Qed.

Lemma receive_in_step cfg b s :
  in_step cfg s -> blockedChan s = Some b ->
  in_step cfg (handle_notice cfg b
                 (s <| blockedChan := @None Blocking |> <| received := received s ++ [b] |>)).
Proof.
  intros [H1 H2 H3 H4 H5] Hb. rewrite handle_notice_spec. split; simpl.
  - by rewrite H1, Hb, app_nil_r.
  - rewrite fmap_app, H2, omap_app. f_equal. simpl. by destruct (callback_of cfg b).
  - rewrite begun_app, H3. by destruct (callback_of cfg b); simpl; rewrite app_nil_r.
  - rewrite filter_app, H4, fmap_app. f_equal. rewrite filter_cons_True; [done|].
    apply notice_is_notice.
  - intros Hw. by destruct (H5 Hw).
Qed.

Lemma exec_in_step cfg e s s' : in_step cfg s -> exec cfg e s = Some s' -> in_step cfg s'.
Proof.
  intros Hs He. pose proof Hs as [H1 H2 H3 H4 H5]. destruct e; simpl in He.
  - destruct (blockedChan s) eqn:Eb, (closed s) eqn:Ec; try done. injection He as <-.
    split; simpl; try done; [|intros Hw; by destruct (H5 Hw)].
    by rewrite H1, app_nil_r.
  - injection He as <-. split; simpl; try done. intros Hw. by destruct (H5 Hw).
  - destruct (watcher s) eqn:Ew; [|done]. destruct (blockedChan s) as [b|] eqn:Eb.
    + injection He as <-. rewrite <- Ew. exact (receive_in_step cfg b s Hs Eb).
    + destruct (closed s) eqn:Ec; [|done]. injection He as <-. split; simpl; rewrite ?Eb; done.
  - destruct (callbacks s !! i) as [[c []]|] eqn:Ei; try done. injection He as <-.
    split; simpl; try done; [by rewrite (kinds_insert _ _ Ready)|].
    by rewrite begun_start, H3.
  - destruct (callbacks s !! i) as [[c []]|] eqn:Ei; try done. injection He as <-.
    assert (forall l, filter is_notice l = notice_of <$> received s ->
      in_step cfg (set_status i c Ended (s <| logged := l |>))) as Hset.
    { intros l Hl. split; simpl; try done; [by rewrite (kinds_insert _ _ InCall)|].
      by rewrite begun_end. }
    destruct e; simpl.
    + specialize (Hset (logged s) H4). by destruct s.
    + apply Hset. rewrite filter_app, H4, filter_cons_False, app_nil_r; [done|].
      destruct c; by intros [?|?].
Qed.

Lemma run_in_step cfg es s : run cfg es initial = Some s -> in_step cfg s.
Proof.
  assert (forall s0, in_step cfg s0 -> run cfg es s0 = Some s -> in_step cfg s) as Hgen.
  { induction es as [|e es IH]; intros s0 Hs Hr; simpl in Hr; [by simplify_eq|].
    destruct (exec cfg e s0) as [s1|] eqn:E; [|done]. apply (IH s1); [|done].
    by eapply exec_in_step. }
  apply Hgen, flow_initial_in_step.
Qed.

(** The steps that are left to take. *)
Definition status_work (x : Status) : nat := match x with Ready => 2 | InCall => 1 | Ended => 0 end.

Definition work_left (s : State) : nat :=
  (match watcher s with Ranging => 1 | Gone => 0 end) +
  (match blockedChan s with Some _ => 3 | None => 0 end) +
  sum_list_with (fun x => status_work x.2) (callbacks s).

(** The events that are the library's and the broker's. *)
Definition from_outside (e : Event) : bool :=
  match e with Notify _ | CloseChannel => true | _ => false end.

Lemma work_insert i c x y (l : list (Callback * Status)) :
  l !! i = Some (c, x) -> (status_work y < status_work x)%nat ->
  (sum_list_with (fun x => status_work x.2) (<[i := (c, y)]> l) <
   sum_list_with (fun x => status_work x.2) l)%nat.
Proof.
  intros Hi Hlt. destruct (begun_insert i c x y l Hi) as (l1 & l2 & -> & ->).
  rewrite !sum_list_with_app. simpl. lia.
Qed.

Lemma work_decreases cfg e s s' :
  exec cfg e s = Some s' -> from_outside e = false -> (work_left s' < work_left s)%nat.
Proof.
  intros He Ho. destruct e; simpl in He; try done; unfold work_left.
  - destruct (watcher s) eqn:Ew; [|done]. destruct (blockedChan s) as [b|] eqn:Eb.
    + injection He as <-. rewrite handle_notice_spec. simpl. rewrite sum_list_with_app.
      destruct (callback_of cfg b); simpl; lia.
    + destruct (closed s); [|done]. injection He as <-. simpl. lia.
  - destruct (callbacks s !! i) as [[c []]|] eqn:Ei; try done. injection He as <-. simpl.
    pose proof (work_insert i c Ready InCall _ Ei). simpl in *. lia.
  - destruct (callbacks s !! i) as [[c []]|] eqn:Ei; try done. injection He as <-.
    pose proof (work_insert i c InCall Ended _ Ei). destruct e; simpl in *; lia.
Qed.

Lemma work_pending (l : list (Callback * Status)) :
  Forall (fun x => x.2 = Ended) l \/ exists i c x, l !! i = Some (c, x) /\ x <> Ended.
Proof.
  induction l as [|[c x] l IH]; [by left; constructor|].
  destruct (decide (x = Ended)) as [->|Hx]; [|right; by exists 0%nat, c, x].
  destruct IH as [IH|(i & c' & x & Hi & Hx)]; [left; by constructor|right; by exists (S i), c', x].
Qed.

Lemma ended_work (l : list (Callback * Status)) :
  Forall (fun x => x.2 = Ended) l ->
  sum_list_with (fun x => status_work x.2) l = 0%nat /\ begun l = l.*1.
Proof.
  induction 1 as [|[c x] l Hx _ [IH1 IH2]]; [done|]. simpl in Hx. subst. split; [done|].
  change ((c, Ended) :: l) with ([(c, Ended)] ++ l). by rewrite begun_app, IH2.
Qed.

Lemma work_enabled cfg s :
  in_step cfg s -> closed s = true ->
  (exists e s', exec cfg e s = Some s' /\ from_outside e = false) \/
  (watcher s = Gone /\ Forall (fun x => x.2 = Ended) (callbacks s)).
Proof.
  intros [_ _ _ _ Hgone] Hc. destruct (watcher s) eqn:Ew.
  { left. exists NextNotice. simpl. rewrite Ew, Hc. destruct (blockedChan s); by eexists. }
  destruct (work_pending (callbacks s)) as [?|(i & c & x & Hi & Hx)]; [by right|left].
  destruct x; [exists (StartCall i)|exists (EndCall i Returns)|done]; simpl; rewrite Hi; by eexists.
Qed.

(** C31: flow control notices reach the application.  In every state of every schedule the
    notices taken from the channel, in the order in which the broker sent them, have each
    been logged once and have each started one goroutine for their callback, with the
    notice's reason, if the application has set it; every callback that has been called was
    called by one of these goroutines, which calls once.  A callback that panics changes
    nothing but the log. *)
Theorem flow_control_delivers cfg es s :
  run cfg es initial = Some s ->
  notified s = received s ++ option_list (blockedChan s) /\
  filter is_notice (logged s) = notice_of <$> received s /\
  (callbacks s).*1 = omap (callback_of cfg) (received s) /\ calls s ≡ₚ begun (callbacks s) /\
  (forall i r s1 s2, exec cfg (EndCall i (Panics r)) s = Some s1 ->
     exec cfg (EndCall i Returns) s = Some s2 ->
     exists e, s1 = s2 <| logged := logged s2 ++ [e] |> /\ level e = "WARN" /\
       fields e = [("recover", r)]).
Proof.
  intros [H1 H2 H3 H4 _]%run_in_step. split_and!; [done..|]. intros i r s1 s2 E1 E2.
  simpl in E1, E2. destruct (callbacks s !! i) as [[c []]|]; try done.
  injection E1 as <-. injection E2 as <-. by eexists.
Qed.

(** C32: the goroutines of a connection's flow control end with it: every step of theirs uses
    up one of a bounded number of steps, whatever the callbacks do; after the connection is
    closed one of them has a step to take until the watcher has gone and all calls have
    ended, and then every notice the broker sent has led to exactly one call of its callback,
    where one is set. *)
Theorem flow_control_winds_down cfg es s :
  run cfg es initial = Some s ->
  (forall e s', exec cfg e s = Some s' -> from_outside e = false ->
     (work_left s' < work_left s)%nat) /\
  (closed s = true ->
     (exists e s', exec cfg e s = Some s' /\ from_outside e = false) \/
     (watcher s = Gone /\ work_left s = 0%nat /\ calls s ≡ₚ omap (callback_of cfg) (notified s))).
Proof.
  intros Hs%run_in_step. split; [by intros; eapply work_decreases|]. intros Hc.
  destruct (work_enabled cfg s Hs Hc) as [?|[Hw Hall]]; [by left|right]. split; [done|].
  destruct Hs as [H1 H2 H3 _ H5], (ended_work _ Hall) as [Hz Hb], (H5 Hw) as [_ Eb].
  unfold work_left. rewrite Hw, Eb, Hz. split; [done|].
  by rewrite H3, Hb, H2, H1, Eb, app_nil_r.
Qed.

(** The broker blocks the connection and lifts the block, and the goroutine of the second
    notice comes first. *)
Definition overtaken : list Event :=
  [Notify {| Active := true; Reason := "low on memory" |}; NextNotice;
   Notify {| Active := false; Reason := "" |}; NextNotice;
   StartCall 1; EndCall 1 Returns; StartCall 0; EndCall 0 (Panics (AString "boom"))].

Definition both_callbacks : Cfg.Config :=
  Cfg.WithConnectionBlockedCallback true true Cfg.DefaultConfig.

(** The callbacks of a block and of its end can be called in the wrong order, which leaves an
    application that pauses in the first and resumes in the second paused. *)
Theorem callbacks_overtake :
  exists s, run both_callbacks overtaken initial = Some s /\
    received s = [{| Active := true; Reason := "low on memory" |};
                  {| Active := false; Reason := "" |}] /\
    calls s = [CallUnblocked; CallBlocked "low on memory"].
Proof. eexists. split; [vm_compute; reflexivity|]. done. Qed.

(** ** Witnesses *)

Definition reached (es : list Event) : State := default initial (run both_callbacks es initial).

Lemma flow_control_delivers_witness :
  calls (reached overtaken) ≡ₚ [CallBlocked "low on memory"; CallUnblocked].
Proof.
  apply (flow_control_delivers both_callbacks overtaken (reached overtaken)).
  vm_compute. reflexivity.
Defined.

Definition wound_down : list Event := overtaken ++ [CloseChannel; NextNotice].

Lemma flow_control_winds_down_witness :
  watcher (reached wound_down) = Gone /\
  calls (reached wound_down) ≡ₚ [CallBlocked "low on memory"; CallUnblocked].
Proof.
  destruct (flow_control_winds_down both_callbacks wound_down (reached wound_down))
    as [Hdec Hend]; [vm_compute; reflexivity|].
  assert (work_left (reached wound_down) = 0%nat) as Hz by (vm_compute; reflexivity).
  destruct Hend as [(e & s' & He & Ho)|(Hw & _ & Hc)]; [vm_compute; reflexivity| |].
  - specialize (Hdec e s' He Ho). lia.
  - split; [exact Hw|]. rewrite Hc. vm_compute. reflexivity.
Defined.

End Flow.
