(* ===== verification/Reconnect.v ===== *)
(** * Automatic reconnection (internal/broker/client.go)

    Goroutines around a client: the reconnection loop [handleReconnect], one watcher per
    connection that waits for its connection or channel to close, callers of [Reconnect] and
    [Close].  They meet at the unbuffered channel [done]: a send with a default case is
    delivered only if the loop is blocked in its receive at that moment.  Connections are
    numbered in the order in which [connect] succeeded; what a connection attempt does on
    the wire is the subject of [Client].  [connect], [Close] and the readings of [closed]
    under the client's mutex are single steps; the checks of [closed] by a watcher and by
    [Reconnect] and the sends that follow them are separate steps. *)

From stdpp Require Import base gmap strings list fin_maps relations.
From Stdlib Require Import ZArith Lia.
From S2P Require Import Prelude.
Local Open Scope kit_scope.

Module Reconn.

Abbreviation conn_id := nat.

(** The reconnection loop, between its blocking operations. *)
Inductive Loop :=
| AtReceive                (* <-c.done *)
| CheckClosed
| Sleeping                 (* time.Sleep(c.config.ReconnectDelay) *)
| Connecting               (* c.connect() *)
| Verify                   (* err == nil: c.conn != nil && !c.conn.IsClosed() *)
| BeforeReceive            (* just started, or the success is logged *)
| SleepingRetry
| CheckRetry
| LoopGone.

(** A watcher: blocked in its select, about to send on [done], or gone. *)
Inductive Watcher := Watching | Sending | WatcherGone.

(** How an attempt to connect ends.  A failure after [c.conn] was assigned leaves the client
    with the connection that [connect] itself closed again. *)
Inductive Attempt := Succeeds | FailsBefore | FailsAfter.

#[export] Instance Loop_eq_dec : EqDecision Loop.
Proof. solve_decision. Defined.

#[export] Instance Watcher_eq_dec : EqDecision Watcher.
Proof. solve_decision. Defined.

Record State := {
  closed : bool;
  (* the connection the client holds; [None] is one that a failed [connect] closed *)
  current : option conn_id;
  loop : Loop;
  watchers : list Watcher;
  (* connections, and channels, that closed with an error *)
  conn_lost : gset conn_id;
  chan_lost : gset conn_id;
  (* calls of [Reconnect] between their check and their send *)
  callers : nat
}.

#[export] Instance State_eta : Eta State := fun s =>
  {| closed := closed s; current := current s; loop := loop s; watchers := watchers s;
     conn_lost := conn_lost s; chan_lost := chan_lost s; callers := callers s |}.

Inductive Event :=
| LoseConn (n : conn_id)
| LoseChannel (n : conn_id)
| LoopStep (a : Attempt)         (* the outcome of [connect], where it is called *)
| WatcherError (n : conn_id)     (* the watcher receives a close error *)
| WatcherClean (n : conn_id)     (* the watcher sees its channels closed without error *)
| WatcherSend (n : conn_id)
| CallReconnect                  (* up to its check of [closed] *)
| ReconnectSend                  (* its send *)
| CallClose.

(** A non-blocking send on [done]. *)
Definition signal (s : State) : State :=
  match loop s with AtReceive => s <| loop := CheckClosed |> | _ => s end.

(** [connect] succeeds: the client has a new connection and a watcher for it. *)
Definition connected (s : State) : State :=
  let n := length (watchers s) in
  let ws := watchers s ++ [Watching] in
  s <| current := Some n |> <| watchers := ws |>.

(** [IsConnected]: the connection is neither lost nor closed. *)
Definition IsConnected (s : State) : bool :=
  match current s with
  | Some n => negb (bool_decide (n ∈ conn_lost s)) && negb (closed s)
  | None => false
  end.

(** One step of [handleReconnect]; a closed client makes [connect] fail at once. *)
Definition loop_step (a : Attempt) (s : State) : option State :=
  match loop s with
  | AtReceive | LoopGone => None
  | CheckClosed => Some (if closed s then s <| loop := LoopGone |> else s <| loop := Sleeping |>)
  | Sleeping => Some (s <| loop := Connecting |>)
  | Connecting =>
      if closed s then Some (s <| loop := SleepingRetry |>)
      else match a with
           | Succeeds => let s' := connected s in Some (s' <| loop := Verify |>)
           | FailsBefore => Some (s <| loop := SleepingRetry |>)
           | FailsAfter => Some (s <| current := @None conn_id |> <| loop := SleepingRetry |>)
           end
  | Verify =>
      if IsConnected s then Some (s <| loop := BeforeReceive |>)
      else Some (s <| loop := SleepingRetry |>)
  | BeforeReceive => Some (s <| loop := AtReceive |>)
  | SleepingRetry => Some (s <| loop := CheckRetry |>)
  | CheckRetry =>
      Some (if closed s then s <| loop := LoopGone |> else s <| loop := Connecting |>)
  end.

Definition set_watcher (n : conn_id) (x : Watcher) (s : State) : State :=
  let ws := <[n := x]> (watchers s) in s <| watchers := ws |>.

(** [Reconnect] returns on a closed client; otherwise it goes on to send. *)
Definition Reconnect (s : State) : State :=
  if closed s then s else s <| callers := S (callers s) |>.

(** [Close] closes the current connection without an error. *)
Definition Close (s : State) : State := s <| closed := true |>.

Definition exec (e : Event) (s : State) : option State :=
  match e with
  | LoseConn n =>
      if bool_decide (n < length (watchers s)) then
        let l := {[n]} ∪ conn_lost s in Some (s <| conn_lost := l |>) else None
  | LoseChannel n =>
      if bool_decide (n < length (watchers s)) then
        let l := {[n]} ∪ chan_lost s in Some (s <| chan_lost := l |>) else None
  | LoopStep a => loop_step a s
  | WatcherError n =>
      match watchers s !! n with
      | Some Watching =>
          if bool_decide (n ∈ conn_lost s ∪ chan_lost s) then
            Some (set_watcher n (if closed s then WatcherGone else Sending) s)
          else None
      | _ => None
      end
  | WatcherClean n =>
      match watchers s !! n with
      | Some Watching =>
          if closed s && bool_decide (current s = Some n) then Some (set_watcher n WatcherGone s)
          else None
      | _ => None
      end
  | WatcherSend n =>
      match watchers s !! n with
      | Some Sending => Some (signal (set_watcher n WatcherGone s))
      | _ => None
      end
  | CallReconnect => Some (Reconnect s)
  | ReconnectSend =>
      match callers s with O => None | S k => Some (signal (s <| callers := k |>)) end
  | CallClose => Some (Close s)
  end.

Fixpoint run (es : list Event) (s : State) : option State :=
  match es with
  | [] => Some s
  | e :: es' => s' ← exec e s; run es' s'
  end.

(** After [New]: connection 0, its watcher, and the loop's goroutine just started. *)
Definition initial : State :=
  {| closed := false; current := Some 0; loop := BeforeReceive; watchers := [Watching];
     conn_lost := ∅; chan_lost := ∅; callers := 0 |}.

Definition step (s s' : State) : Prop := exists e, exec e s = Some s'.

Definition reachable (s : State) : Prop := rtc step initial s.

(** ** Properties *)

(** The connection held is the newest, and only existing connections can be lost. *)
Definition consistent (s : State) : Prop :=
  (forall n, current s = Some n -> S n = length (watchers s)) /\
  (forall n, n ∈ conn_lost s -> n < length (watchers s)).

Lemma signal_fields s :
  closed (signal s) = closed s /\ current (signal s) = current s /\
  watchers (signal s) = watchers s /\ conn_lost (signal s) = conn_lost s /\
  chan_lost (signal s) = chan_lost s /\ callers (signal s) = callers s.
Proof. unfold signal. by destruct (loop s). Qed.

(** What an event does to the connections: only an open client's loop makes a new one. *)
Lemma exec_connections e s s' :
  exec e s = Some s' -> consistent s ->
  consistent s' /\
  (closed s = true -> closed s' = true /\ length (watchers s') = length (watchers s) /\
     current s' = current s).
Proof.
  intros He [Hcur Hlost]. assert (consistent s) as Hs by done.
  assert (forall n x, consistent (set_watcher n x s)) as Hset.
  { intros n x. split; simpl; rewrite length_insert; [apply Hcur|apply Hlost]. }
  destruct e; simpl in He.
  - case_bool_decide; simplify_eq/=. split; [|done]. split; simpl; [done|]. intros m [->%elem_of_singleton|Hm]%elem_of_union; auto.
  - case_bool_decide; simplify_eq/=. done.
  - unfold loop_step in He.
    destruct (loop s), (closed s), a; simplify_eq/=; try done; try (by case_match; simplify_eq/=).
    split; [|done]. split; simpl; rewrite length_app; simpl; [intros; simplify_eq/=; lia|].
    intros n Hn. specialize (Hlost n Hn). lia.
  - case_match; [|done]. case_match; try done. case_bool_decide; simplify_eq/=.
    split; [done|]. by rewrite length_insert.
  - case_match; [|done]. case_match; try done. case_match; simplify_eq/=.
    split; [done|]. by rewrite length_insert.
  - case_match; [|done]. case_match; try done. simplify_eq/=. unfold consistent.
    destruct (signal_fields (set_watcher n WatcherGone s)) as (-> & -> & -> & -> & _).
    split; [apply Hset|]. simpl. by rewrite length_insert.
  - simplify_eq/=. unfold Reconnect. destruct (closed s) eqn:Ec; [|done]. by rewrite Ec.
  - destruct (callers s); simplify_eq/=. unfold consistent.
    destruct (signal_fields (s <| callers := n |>)) as (-> & -> & -> & -> & _). done.
  - by simplify_eq/=.
Qed.

Lemma run_rtc es s s' : run es s = Some s' -> rtc step s s'.
Proof.
  revert s. induction es as [|e es IH]; intros s Hr; simpl in Hr; [simplify_eq; done|].
  destruct (exec e s) as [s1|] eqn:E; [|done]. eapply rtc_l; [by exists e|by apply IH].
Qed.

Lemma run_events_app es1 es2 s : run (es1 ++ es2) s = s' ← run es1 s; run es2 s'.
Proof.
  revert s. induction es1 as [|e es1 IH]; intros s; simpl; [done|].
  destruct (exec e s); simpl; [apply IH|done].
Qed.

Lemma reachable_consistent s : reachable s -> consistent s.
Proof.
  unfold reachable. apply (rtc_ind_r consistent).
  - split; simpl; [intros; by simplify_eq|set_solver].
  - intros y z _ [e He] Hy. by apply (exec_connections e y).
Qed.

(** An event that makes a connection or gives one up is an attempt of the loop on an open
    client; a successful one makes one connection. *)
Lemma only_loop_connects e s s' :
  exec e s = Some s' ->
  (length (watchers s') = length (watchers s) /\ current s' = current s) \/
  exists a, e = LoopStep a /\ loop s = Connecting /\ closed s = false /\
    (a = Succeeds -> length (watchers s') = S (length (watchers s)) /\
       current s' = Some (length (watchers s))) /\
    (a <> Succeeds -> length (watchers s') = length (watchers s) /\ current s' = None).
Proof.
  intros He. destruct s as [cl cur lp ws co ch k].
  destruct e as [n|n|a|n|n|n| | |]; simpl in He.
  - case_bool_decide; simplify_eq/=. by left.
  - case_bool_decide; simplify_eq/=. by left.
  - unfold loop_step in He. simpl in He.
    destruct lp, cl, a; simplify_eq/=; try (by left); try (right; eexists; split_and!; done).
    all: try (case_match; simplify_eq/=; by left).
    all: right; eexists; split_and!; try done; intros _; rewrite length_app; simpl; split; [lia|done].
  - repeat case_match; simplify_eq/=; left; by rewrite length_insert.
  - repeat case_match; simplify_eq/=; left; by rewrite length_insert.
  - repeat case_match; simplify_eq/=; left. unfold signal. simpl. destruct lp; simpl;
      by rewrite length_insert.
  - simplify_eq/=. left. unfold Reconnect. by destruct cl.
  - destruct k; simplify_eq/=. left. unfold signal. simpl. by destruct lp.
  - simplify_eq/=. by left.
Qed.

(** C29: connections are only made by the reconnection loop, one at a time, and never once
    [Close] has been called: in every reachable state the connection the client holds is the
    newest one made; every event that changes the number of connections made or the one held is
    an attempt of the loop on a client that is not closed, which makes exactly one connection
    when it succeeds; and from a closed state no run makes another one, changes the one held
    or reopens the client. *)
Theorem no_connection_after_close s :
  reachable s ->
  (forall n, current s = Some n -> S n = length (watchers s)) /\
  (forall e s', exec e s = Some s' ->
     (length (watchers s') = length (watchers s) /\ current s' = current s) \/
     exists a, e = LoopStep a /\ loop s = Connecting /\ closed s = false /\
       (a = Succeeds -> length (watchers s') = S (length (watchers s)) /\
          current s' = Some (length (watchers s))) /\
       (a <> Succeeds -> length (watchers s') = length (watchers s) /\ current s' = None)) /\
  (closed s = true -> forall es s', run es s = Some s' ->
     closed s' = true /\ length (watchers s') = length (watchers s) /\ current s' = current s).
Proof.
  intros Hr%reachable_consistent. split_and!; [apply Hr|intros e s'; apply only_loop_connects|].
  intros Hc es. revert s Hr Hc. induction es as [|e es IH]; intros s Hs Hc s' Hrun;
    simpl in Hrun; [by simplify_eq|].
  destruct (exec e s) as [s1|] eqn:E; [|done].
  destruct (exec_connections e s s1 E Hs) as [Hs1 Hkeep].
  destruct (Hkeep Hc) as (Hc1 & <- & <-). by apply (IH s1).
Qed.

(** One failed attempt: [connect], the sleep, and the check of [closed]. *)
Definition failed_attempt (a : Attempt) : list Event := [LoopStep a; LoopStep a; LoopStep a].

Lemma failed_attempt_run a s :
  closed s = false -> loop s = Connecting -> a <> Succeeds ->
  exists s', run (failed_attempt a) s = Some s' /\ loop s' = Connecting /\
    closed s' = false /\ watchers s' = watchers s /\ conn_lost s' = conn_lost s.
Proof.
  intros Hc Hl Ha. destruct s as [c cur l]. simpl in Hc, Hl. subst.
  destruct a; [done|..]; by eexists.
Qed.

Lemma failed_attempts fs s :
  closed s = false -> loop s = Connecting -> Forall (fun a => a <> Succeeds) fs ->
  exists s', run (mjoin (failed_attempt <$> fs)) s = Some s' /\ loop s' = Connecting /\
    closed s' = false /\ watchers s' = watchers s /\ conn_lost s' = conn_lost s.
Proof.
  revert s. induction fs as [|a fs IH]; intros s Hc Hl Hf; [by exists s|].
  apply Forall_cons in Hf as [Ha Hf].
  destruct (failed_attempt_run a s Hc Hl Ha) as (s1 & E1 & Hl1 & Hc1 & Hw1 & Hd1).
  destruct (IH s1 Hc1 Hl1 Hf) as (s2 & E2 & ? & ? & ? & ?). exists s2.
  change (mjoin (failed_attempt <$> a :: fs))
    with (failed_attempt a ++ mjoin (failed_attempt <$> fs)).
  rewrite run_events_app, E1. split_and!; [exact E2|congruence..].
Qed.

Lemma successful_attempt s :
  closed s = false -> loop s = Connecting -> length (watchers s) ∉ conn_lost s ->
  exists s', run [LoopStep Succeeds; LoopStep Succeeds; LoopStep Succeeds] s = Some s' /\
    IsConnected s' = true /\ loop s' = AtReceive /\ current s' = Some (length (watchers s)) /\
    watchers s' !! length (watchers s) = Some Watching.
Proof.
  intros Hc Hl Hn. destruct s as [c cur l ws lost cl k]. simpl in Hc, Hl, Hn. subst. simpl.
  pose proof (bool_decide_eq_false_2 _ Hn) as E. unfold loop_step, IsConnected. simpl.
  rewrite E. simpl. eexists. split; [done|]. simpl. rewrite E.
  split_and!; [done..|]. by rewrite lookup_app_r, Nat.sub_diag.
Qed.

(** What makes a waiting loop wake up: the report of a watcher, or a call of [Reconnect]. *)
Definition wakes (w : list Event) (s : State) : Prop :=
  w = [CallReconnect; ReconnectSend] \/
  exists n, watchers s !! n = Some Sending /\ w = [WatcherSend n].

Lemma wakes_run w s :
  closed s = false -> loop s = AtReceive -> wakes w s ->
  exists s', run w s = Some s' /\ closed s' = false /\ loop s' = CheckClosed /\
    length (watchers s') = length (watchers s) /\ conn_lost s' = conn_lost s.
Proof.
  intros Hc Hl [->|(n & Hn & ->)].
  - destruct s as [c cur l ws lost cl k]. simpl in Hc, Hl. subst. by eexists.
  - simpl. rewrite Hn. simpl. eexists. split; [done|]. unfold signal. simpl. rewrite Hl. simpl.
    by rewrite length_insert.
Qed.

(** The loop's way back: it wakes up, sleeps, fails as in [fs], and connects. *)
Definition recovery (w : list Event) (fs : list Attempt) : list Event :=
  w ++ [LoopStep Succeeds; LoopStep Succeeds] ++ mjoin (failed_attempt <$> fs) ++
  [LoopStep Succeeds; LoopStep Succeeds; LoopStep Succeeds].

(** A loss that is reported while the loop waits is repaired: the signal wakes the loop,
    which sleeps, tries again after each of any number of failed attempts, whatever the way
    they fail, and after the first success is back in its receive with a client that is
    connected through a new connection with a watcher of its own. *)
Theorem loss_is_repaired s w fs :
  reachable s -> closed s = false -> loop s = AtReceive -> wakes w s ->
  Forall (fun a => a <> Succeeds) fs ->
  exists s', run (recovery w fs) s = Some s' /\
    IsConnected s' = true /\ loop s' = AtReceive /\ current s' = Some (length (watchers s)) /\
    watchers s' !! length (watchers s) = Some Watching.
Proof.
  intros [_ Hlost]%reachable_consistent Hc Hl Hw Hf. unfold recovery.
  destruct (wakes_run w s Hc Hl Hw) as (s0 & E0 & Hc0 & Hl0 & Hlen0 & Hd0).
  rewrite run_events_app, E0. cbn [mbind option_bind]. rewrite run_events_app.
  assert (run [LoopStep Succeeds; LoopStep Succeeds] s0 = Some (s0 <| loop := Connecting |>)) as ->.
  { simpl. unfold loop_step. rewrite Hl0. simpl. by rewrite Hc0. }
  cbn [mbind option_bind].
  destruct (failed_attempts fs (s0 <| loop := Connecting |>))
    as (s2 & E2 & Hl2 & Hc2 & Hw2 & Hd2); [done..|].
  rewrite run_events_app, E2. cbn [mbind option_bind].
  assert (length (watchers s2) = length (watchers s)) as Hlen by (rewrite Hw2; simpl; lia).
  rewrite <- Hlen. apply successful_attempt; [done..|].
  rewrite Hlen, Hd2. simpl. rewrite Hd0. intros Hin%Hlost. lia.
Qed.

(** While the loop waits in its receive no signal is lost: the send of a watcher that
    reports a closed connection, and of a call of [Reconnect], wakes it; on an open client
    the loop then sleeps the full reconnect delay before it connects.  At any other moment
    the send of [Reconnect] has no effect but to end the call. *)
Theorem signals_while_waiting s :
  closed s = false ->
  (loop s = AtReceive ->
     (forall n, watchers s !! n = Some Sending ->
        exists s', exec (WatcherSend n) s = Some s' /\ loop s' = CheckClosed) /\
     (forall a, exists s1 s2 s3, run [CallReconnect; ReconnectSend] s = Some s1 /\
        run [LoopStep a] s1 = Some s2 /\ loop s2 = Sleeping /\
        run [LoopStep a] s2 = Some s3 /\ loop s3 = Connecting /\ current s3 = current s)) /\
  (loop s <> AtReceive -> run [CallReconnect; ReconnectSend] s = Some s).
Proof.
  intros Hc. split.
  - intros Hl. split.
    + intros n Hn. simpl. rewrite Hn. eexists. split; [done|]. unfold signal. simpl. by rewrite Hl.
    + intros a. simpl. unfold Reconnect, signal, loop_step. rewrite Hc. simpl. rewrite Hl. simpl.
      rewrite ?Hc. do 3 eexists. by split_and!.
  - intros Hl. destruct s as [c cur l ws lost cl k]. simpl in *. subst. by destruct l.
Qed.

(** The current connection is gone, the loop waits, and nobody is left to wake it. *)
Definition stranded (s : State) : Prop :=
  closed s = false /\ IsConnected s = false /\ loop s = AtReceive /\ callers s = 0 /\
  Forall (eq WatcherGone) (watchers s).

Lemma stranded_step e s s' :
  stranded s -> e <> CallReconnect -> e <> CallClose -> exec e s = Some s' -> stranded s'.
Proof.
  intros (Hc & Hcon & Hl & Hca & Hw) H1 H2 He.
  assert (forall n x, watchers s !! n = Some x -> x = WatcherGone) as Hgone.
  { intros n x Hx. symmetry. by apply (Forall_lookup_1 _ _ n x Hw). }
  destruct e; simpl in He; try done.
  - case_bool_decide; simplify_eq/=. split_and!; try done. revert Hcon.
    unfold IsConnected. simpl. destruct (current s) as [m|]; [|done].
    repeat case_bool_decide; try done. set_solver.
  - case_bool_decide; simplify_eq/=. by split_and!.
  - unfold loop_step in He. by rewrite Hl in He.
  - destruct (watchers s !! n) as [x|] eqn:E; [|done]. by rewrite (Hgone n x E) in He.
  - destruct (watchers s !! n) as [x|] eqn:E; [|done]. by rewrite (Hgone n x E) in He.
  - destruct (watchers s !! n) as [x|] eqn:E; [|done]. by rewrite (Hgone n x E) in He.
  - by rewrite Hca in He.
Qed.

(** A connection is lost, the loop replaces it; the new one is lost after the loop has
    checked it and before it is back in its receive, and its watcher's signal is dropped. *)
Definition lost_wakeup : list Event :=
  [LoopStep Succeeds; LoseConn 0; WatcherError 0; WatcherSend 0; LoopStep Succeeds;
   LoopStep Succeeds; LoopStep Succeeds; LoopStep Succeeds; LoseConn 1; WatcherError 1;
   WatcherSend 1; LoopStep Succeeds].

(** C33: a wake-up can be lost: there is a run after which the current connection is gone, the
    loop waits and every watcher has exited; from then on no event other than a call of
    [Reconnect] or [Close] changes that, so the client stays disconnected for good. *)
Theorem wakeup_can_be_lost :
  exists s, run lost_wakeup initial = Some s /\ stranded s /\
    forall es s', Forall (fun e => e <> CallReconnect /\ e <> CallClose) es ->
      run es s = Some s' -> stranded s'.
Proof.
  eexists. split; [vm_compute; reflexivity|].
  match goal with |- stranded ?x /\ _ => assert (stranded x) as Hs end.
  { split_and!; [done|by_compute|done|done|]. repeat constructor. }
  split; [done|]. intros es. revert Hs. match goal with |- stranded ?x -> _ => generalize x end.
  induction es as [|e es IH]; intros s Hs s' Hf Hr; simpl in Hr; [by simplify_eq|].
  apply Forall_cons in Hf as [[H1 H2] Hf]. destruct (exec e s) as [s1|] eqn:E; [|done].
  eapply (IH s1); [by eapply stranded_step|done|done].
Qed.

(** Nobody will signal any more: the client is closed and no send is under way. *)
Definition quiet (s : State) : Prop :=
  closed s = true /\ loop s = AtReceive /\ callers s = 0 /\
  Forall (fun x => x <> Sending) (watchers s).

Lemma quiet_step e s s' : quiet s -> exec e s = Some s' -> quiet s'.
Proof.
  intros (Hc & Hl & Hca & Hw) E. destruct e; simpl in E.
  - case_bool_decide; simplify_eq/=. by split_and!.
  - case_bool_decide; simplify_eq/=. by split_and!.
  - unfold loop_step in E. by rewrite Hl in E.
  - destruct (watchers s !! n) as [[]|]; try done. case_bool_decide; [|done].
    rewrite Hc in E. simplify_eq/=. split_and!; try done. by apply Forall_insert.
  - destruct (watchers s !! n) as [[]|]; try done. rewrite Hc in E.
    case_match; simplify_eq/=. split_and!; try done. by apply Forall_insert.
  - destruct (watchers s !! n) as [[]|] eqn:En; try done.
    by apply (Forall_lookup_1 _ _ n _ Hw) in En.
  - simplify_eq/=. unfold Reconnect. by rewrite Hc.
  - by rewrite Hca in E.
  - simplify_eq/=. by split_and!.
Qed.

(** [Close] does not stop the reconnection loop: if it is called while the loop waits and
    no watcher or caller of [Reconnect] is about to signal, the loop's goroutine stays
    blocked in its receive for the rest of the process. *)
Theorem close_leaks_loop s :
  loop s = AtReceive -> callers s = 0 -> Forall (fun x => x <> Sending) (watchers s) ->
  forall es s', run (CallClose :: es) s = Some s' -> loop s' = AtReceive.
Proof.
  intros Hl Hca Hw es s' Hr. simpl in Hr.
  assert (quiet (Close s)) as Hq by done. revert Hq Hr. generalize (Close s). clear.
  induction es as [|e es IH]; intros t Hq Hr; simpl in Hr; [simplify_eq; apply Hq|].
  destruct (exec e t) as [t1|] eqn:E; [|done]. apply (IH t1); [by eapply quiet_step|done].
Qed.

(** ** Witnesses *)

(** The state a run of the model reaches. *)
Definition reached (es : list Event) : State := default initial (run es initial).

Lemma reached_reachable es :
  (if run es initial then true else false) = true -> reachable (reached es).
Proof.
  unfold reached. destruct (run es initial) as [s|] eqn:E; [|done]. intros _.
  by apply (run_rtc es).
Qed.

(** The first connection is lost and replaced, and the client is closed. *)
Definition repaired_and_closed : list Event :=
  [LoopStep Succeeds; LoseConn 0; WatcherError 0; WatcherSend 0; LoopStep Succeeds;
   LoopStep Succeeds; LoopStep FailsAfter; LoopStep Succeeds; LoopStep Succeeds;
   LoopStep Succeeds; LoopStep Succeeds; CallReconnect; LoopStep Succeeds; CallClose].

Lemma no_connection_after_close_witness :
  current (reached repaired_and_closed) = Some 1 /\
  exists s', run [ReconnectSend; LoopStep Succeeds] (reached repaired_and_closed) = Some s' /\
    loop s' = LoopGone /\ current s' = Some 1.
Proof.
  split; [by_compute|]. eexists. split; [vm_compute; reflexivity|]. split; [done|].
  apply (no_connection_after_close (reached repaired_and_closed))
    with (es := [ReconnectSend; LoopStep Succeeds]); [|by_compute|vm_compute; reflexivity].
  apply reached_reachable. vm_compute. reflexivity.
Defined.

Lemma signals_while_waiting_witness :
  exists s1 s2 s3,
    run [CallReconnect; ReconnectSend] (reached [LoopStep Succeeds]) = Some s1 /\
    run [LoopStep Succeeds] s1 = Some s2 /\ loop s2 = Sleeping /\
    run [LoopStep Succeeds] s2 = Some s3 /\ loop s3 = Connecting /\ current s3 = Some 0.
Proof.
  exact (proj2 (proj1 (signals_while_waiting (reached [LoopStep Succeeds]) eq_refl) eq_refl)
           Succeeds).
Defined.

Lemma close_leaks_loop_witness :
  forall es s', run (CallClose :: es) (reached [LoopStep Succeeds]) = Some s' ->
    loop s' = AtReceive.
Proof. apply close_leaks_loop; [by_compute|by_compute|]. repeat constructor. discriminate. Defined.

End Reconn.
