(* ===== verification/Publisher.v ===== *)
(** * The publisher with asynchronous confirms (internal/broker/publisher.go)

    The publisher is shared by concurrent [Publish] and [PublishBatchPipeline] calls and by
    the goroutines that process confirmations.  The model is an interleaving semantics: a
    call is a thread with a program counter [pc] whose steps are the source's critical
    sections, atomic operations, channel operations and calls to the AMQP library; [exec]
    performs one event of the system and [run] a schedule of events.

    Environment: the broker numbers the messages it accepts on a channel 1, 2, ... and
    gives a number one answer, ack or nack (the documented behaviour of publisher confirms);
    when it answers, when a send fails, when a channel dies, when the client reconnects and
    when a timer or context fires is up to the schedule.  Channels are identified by a handle,
    as the source identifies them by their address; that a new channel has an address of its
    own is assumed.  The publisher's [Close], which takes no lock, is one event.  The last
    fields of [Shared] are history: what the broker did, and which answers were delivered. *)

From stdpp Require Import base gmap gmultiset strings list fin_maps.
From Stdlib Require Import ZArith Lia.
From S2P Require Import Prelude Errors Values Amqp.
Import Err Val.
Local Open Scope kit_scope.

Module Pub.

(** ** Data *)

Abbreviation handle := nat.
Abbreviation chan_id := nat.

(** A result channel, [make(chan bool, 1)]. *)
Record Chan := { buf : option bool; is_closed : bool }.

Definition open_chan : Chan := {| buf := None; is_closed := false |}.

(** Everything the goroutines share: the client's fields, the publisher's fields, the
    channels they refer to, and the broker's side (ghost). *)
Record Shared := {
  (* Client *)
  closed : bool;
  channel : option handle;
  PublisherConfirms : bool;
  (* Publisher *)
  confirms : option handle;
  pending : gmap Z chan_id;
  deliveryTag : Z;
  done : chan_id;
  started : bool;
  channelID : option handle;
  (* Go channels *)
  chans : gmap chan_id Chan;
  closed_done : gset chan_id;
  next_id : chan_id;
  (* Broker *)
  opened : nat;
  sent : list (handle * nat);
  confirmed : list (handle * Z * bool);
  dead : gset handle;
  (* History: for which channel and number a result channel was made, and what was put in it *)
  registered : list (chan_id * option handle * Z);
  routed : list (chan_id * handle * Z * bool)
}.

#[export] Instance Shared_eta : Eta Shared := fun s =>
  {| closed := closed s; channel := channel s; PublisherConfirms := PublisherConfirms s;
     confirms := confirms s; pending := pending s; deliveryTag := deliveryTag s; done := done s;
     started := started s; channelID := channelID s; chans := chans s;
     closed_done := closed_done s; next_id := next_id s; opened := opened s; sent := sent s;
     confirmed := confirmed s; dead := dead s; registered := registered s; routed := routed s |}.

(** The outcome of a step that can panic: [None] stands for the panic. *)
Definition may_panic (A : Type) : Type := option A.

(** ** Construction and shutdown *)

(** The state before [NewPublisher]: a connected client, and no publisher fields set. *)
Definition client_state (confirmsEnabled : bool) : Shared :=
  {| closed := false; channel := Some 0%nat; PublisherConfirms := confirmsEnabled; confirms := None;
     pending := ∅; deliveryTag := 0; done := 0; started := false; channelID := None;
     chans := ∅; closed_done := ∅; next_id := 1; opened := 1; sent := []; confirmed := []; dead := ∅;
     registered := []; routed := [] |}.

(** [setupConfirms]; the boolean says whether a processor goroutine was started. *)
Definition setupConfirms (s : Shared) : Shared * bool :=
  match channel s with
  | None => (s, false)
  | Some ch => (s <| confirms := Some ch |> <| started := true |>, true)
  end.

Definition NewPublisher (s : Shared) : Shared * bool :=
  let d := next_id s in
  let none : gmap Z chan_id := ∅ in
  let s1 := s <| pending := none |> <| done := d |> <| next_id := S d |> in
  let s2 :=
    if PublisherConfirms s1 then
      match channel s1 with Some ch => s1 <| channelID := Some ch |> | None => s1 end
    else s1 in
  if PublisherConfirms s2 then setupConfirms s2 else (s2, false).

(** [close(ch)] of a channel used only for closing. *)
Definition close_signal (d : chan_id) (s : Shared) : may_panic Shared :=
  if bool_decide (d ∈ closed_done s) then None
  else let cd := {[d]} ∪ closed_done s in Some (s <| closed_done := cd |>).

Definition Close (s : Shared) : may_panic Shared :=
  if started s then
    s1 ← close_signal (done s) s; Some (s1 <| started := false |>)
  else Some s.

(** ** Critical sections *)

(** [close(resultChan)] for every pending entry; closing a closed channel panics. *)
Definition close_chan (c : chan_id) (m : gmap chan_id Chan) : may_panic (gmap chan_id Chan) :=
  match m !! c with
  | Some ch =>
      if is_closed ch then None else Some (<[c := {| buf := buf ch; is_closed := true |}]> m)
  | None => None
  end.

Fixpoint close_all (l : list (Z * chan_id)) (m : gmap chan_id Chan)
  : may_panic (gmap chan_id Chan) :=
  match l with
  | [] => Some m
  | (_, c) :: l' => m' ← close_chan c m; close_all l' m'
  end.

Definition clear_pending (s : Shared) : may_panic Shared :=
  m ← close_all (map_to_list (pending s)) (chans s);
  let none : gmap Z chan_id := ∅ in
  Some (s <| chans := m |> <| pending := none |>).

(** The locked section of [ensureConfirmsSetup]: whether a reset is needed, and the done
    channel to close after the lock is released. *)
Definition reset_section (currentChannelID : option handle) (s : Shared)
  : may_panic (Shared * option chan_id) :=
  if bool_decide (currentChannelID = channelID s) then Some (s, None)
  else
    let oldDone := done s in
    let s1 :=
      if started s then
        let d := next_id s in s <| done := d |> <| next_id := S d |> <| started := false |>
      else s in
    let s2 := s1 <| deliveryTag := 0%Z |> in
    s3 ← clear_pending s2;
    Some (s3 <| channelID := currentChannelID |>, Some oldDone).

(** The last section of [ensureConfirmsSetup]; the boolean says whether a processor was
    started. *)
Definition resetup (s : Shared) : Shared * bool := setupConfirms s.

(** [atomic.AddUint64(&p.deliveryTag, 1)] *)
Definition next_tag (s : Shared) : Shared * Z :=
  let t := uint64 (deliveryTag s + 1) in (s <| deliveryTag := t |>, t).

(** [resultChan := make(chan bool, 1)] and its registration under the lock. *)
Definition register (tag : Z) (s : Shared) : Shared * chan_id :=
  let c := next_id s in
  let m := <[c := open_chan]> (chans s) in
  let p := <[tag := c]> (pending s) in
  let r := registered s ++ [(c, channelID s, tag)] in
  (s <| chans := m |> <| pending := p |> <| next_id := S c |> <| registered := r |>, c).

Definition deregister (tag : Z) (s : Shared) : Shared :=
  let p := delete tag (pending s) in s <| pending := p |>.

(** [p.client.channel.PublishWithContext(...)] with success [ok]: the message goes out on
    the client's current channel, a nil channel panics. *)
Definition send (ok : bool) (mid : nat) (s : Shared) : may_panic Shared :=
  match channel s with
  | Some ch =>
      Some (if ok then let l := sent s ++ [(ch, mid)] in s <| sent := l |> else s)
  | None => None
  end.

(** The locked section of [processConfirmations] for a confirmation received from [from].
    The inner [None] is the send on a full result channel, which would block with the lock
    held. *)
Definition route (from : handle) (tag : Z) (ack : bool) (s : Shared) : may_panic (option Shared) :=
  match pending s !! tag with
  | None => Some (Some s)
  | Some c =>
      match chans s !! c with
      | None => None
      | Some ch =>
          if is_closed ch then None
          else match buf ch with
               | Some _ => Some None
               | None =>
                   let m := <[c := {| buf := Some ack; is_closed := true |}]> (chans s) in
                   let p := delete tag (pending s) in
                   let r := routed s ++ [(c, from, tag, ack)] in
                   Some (Some (s <| chans := m |> <| pending := p |> <| routed := r |>))
               end
      end
  end.

(** ** Threads *)

Record Message := { exchange : string; routingKey : string; mid : nat }.

Inductive Job :=
| JPublish (m : Message)
| JBatch (ms : list Message).

Inductive Outcome :=
| OPublish (err : option error)
| OBatch (messageErrors : list (option error)) (err : option error).

(** Progress of a batch: the tags, result channels and errors of the messages handled. *)
Record Batch := {
  deliveryTags : list Z;
  resultChans : list chan_id;
  messageErrors : list (option error)
}.

Definition no_batch : Batch := {| deliveryTags := []; resultChans := []; messageErrors := [] |}.

Inductive pc :=
| PStart
| PEnsure
| PReset (currentChannelID : option handle)
| PCloseDone (oldDone : chan_id)
| PResetup
| PCheck
| PPlain                                    (* confirms disabled *)
| PTag
| PRegister (tag : Z)
| PSend (tag : Z) (c : chan_id)
| PWait (tag : Z) (c : chan_id)
| PCleanup (tag : Z) (err : option error)   (* the deferred function *)
| BPlain (b : Batch)
| BTag (b : Batch)
| BRegister (b : Batch) (tag : Z)
| BSend (b : Batch) (tag : Z) (c : chan_id)
| BDelete (b : Batch) (tag : Z) (c : chan_id) (e : error)
| BClose (b : Batch) (tag : Z) (c : chan_id) (e : error)
| BWait (b : Batch) (i : nat)
| BTimeout (b : Batch) (i : nat)
| Returned (o : Outcome).

(** [ctx.Err()] of a finished context is one of two errors of package [context]. *)
Inductive CtxErr := Canceled | DeadlineExceeded.

Definition ctx_Err (e : CtxErr) : error :=
  match e with
  | Canceled => Foreign "context canceled" []
  | DeadlineExceeded => Foreign "context deadline exceeded" []
  end.

(** What the environment decides at a step. *)
Inductive Choice :=
| Go
| SendOk
| SendErr (e : error)
| Receive
| Timer
| CtxDone (e : CtxErr).

Definition publish_error (m : Message) (e : error) : error :=
  NewPublishError (exchange m) (routingKey m) (Some e).

(** A result for a call, in the shape of its function. *)
Definition fail_with (j : Job) (e : error) : Outcome :=
  match j with JPublish _ => OPublish (Some e) | JBatch _ => OBatch [] (Some e) end.

(** Message [i] is done sending; go on to the next one or start waiting. *)
Definition batch_next (ms : list Message) (b : Batch) : pc :=
  if bool_decide (length (messageErrors b) < length ms) then BTag b else BWait b 0.

Definition batch_push (tag : Z) (c : chan_id) (e : option error) (b : Batch) : Batch :=
  {| deliveryTags := deliveryTags b ++ [tag]; resultChans := resultChans b ++ [c];
     messageErrors := messageErrors b ++ [e] |}.

Definition batch_set (i : nat) (e : option error) (b : Batch) : Batch :=
  {| deliveryTags := deliveryTags b; resultChans := resultChans b;
     messageErrors := <[i := e]> (messageErrors b) |}.

(** A receive from a result channel: [Some (Some ack)], or [Some None] when it is closed
    and drained, or [None] while it would block. *)
Definition receive (c : chan_id) (s : Shared) : option (option bool * Shared) :=
  match chans s !! c with
  | Some {| buf := Some b; is_closed := cl |} =>
      let m := <[c := {| buf := None; is_closed := cl |}]> (chans s) in
      Some (Some b, s <| chans := m |>)
  | Some {| buf := None; is_closed := true |} => Some (None, s)
  | _ => None
  end.

(** The error a received value stands for. *)
Definition verdict (v : option bool) : option error :=
  match v with
  | None => Some (Sentinel ErrPublishConfirmTimeout)
  | Some false => Some (Sentinel ErrPublishNotConfirmed)
  | Some true => None
  end.

(** A step's result: the new state, the next point, and whether a processor was started. *)
Definition Next : Type := Shared * pc * bool.

(** Steps common to both calls: [ensureConfirmsSetup] and the checks on the client. *)
Definition prologue (j : Job) (p : pc) (s : Shared) : option (may_panic Next) :=
  match p with
  | PStart =>
      match j with
      | JBatch [] => Some (Some (s, Returned (OBatch [] None), false))
      | _ => Some (Some (s, PEnsure, false))
      end
  | PEnsure =>
      Some (Some (s, if PublisherConfirms s then PReset (channel s) else PCheck, false))
  | PReset id =>
      Some ('(s', old) ← reset_section id s;
            Some (s', match old with Some d => PCloseDone d | None => PCheck end, false))
  | PCloseDone d => Some (s' ← close_signal d s; Some (s', PResetup, false))
  | PResetup => let '(s', spawned) := resetup s in Some (Some (s', PCheck, spawned))
  | PCheck =>
      if closed s then Some (Some (s, Returned (fail_with j (Sentinel ErrClientClosed)), false))
      else match channel s with
           | None => Some (Some (s, Returned (fail_with j (Sentinel ErrNoChannel)), false))
           | Some _ =>
               Some (Some (s, match j with
                              | JPublish _ => if PublisherConfirms s then PTag else PPlain
                              | JBatch _ =>
                                  if PublisherConfirms s then BTag no_batch else BPlain no_batch
                              end, false))
           end
  | _ => None
  end.

(** The steps of [Publish] after the checks. *)
Definition publish_step (m : Message) (p : pc) (c : Choice) (s : Shared)
  : option (may_panic Next) :=
  match p, c with
  | PPlain, SendOk => Some (s' ← send true (mid m) s; Some (s', Returned (OPublish None), false))
  | PPlain, SendErr e =>
      Some (s' ← send false (mid m) s;
            Some (s', Returned (OPublish (Some (publish_error m e))), false))
  | PTag, Go => let '(s', tag) := next_tag s in Some (Some (s', PRegister tag, false))
  | PRegister tag, Go => let '(s', rc) := register tag s in Some (Some (s', PSend tag rc, false))
  | PSend tag rc, SendOk => Some (s' ← send true (mid m) s; Some (s', PWait tag rc, false))
  | PSend tag rc, SendErr e =>
      Some (s' ← send false (mid m) s;
            Some (s', PCleanup tag (Some (publish_error m e)), false))
  | PWait tag rc, Receive =>
      '(v, s') ← receive rc s;
      Some (Some (s', match verdict v with
                      | None => Returned (OPublish None)
                      | Some e => PCleanup tag (Some e)
                      end, false))
  | PWait tag rc, Timer =>
      Some (Some (s, PCleanup tag (Some (Sentinel ErrPublishConfirmTimeout)), false))
  | PWait tag rc, CtxDone e => Some (Some (s, PCleanup tag (Some (ctx_Err e)), false))
  | PCleanup tag err, Go => Some (Some (deregister tag s, Returned (OPublish err), false))
  | _, _ => None
  end.

(** The steps of [PublishBatchPipeline] after the checks. *)
Definition batch_step (ms : list Message) (p : pc) (c : Choice) (s : Shared)
  : option (may_panic Next) :=
  match p, c with
  | BPlain b, SendOk =>
      m ← ms !! length (messageErrors b);
      Some (s' ← send true (mid m) s; Some (s', BPlain (batch_push 0 0 None b), false))
  | BPlain b, SendErr e =>
      m ← ms !! length (messageErrors b);
      Some (s' ← send false (mid m) s;
            Some (s', BPlain (batch_push 0 0 (Some (publish_error m e)) b), false))
  | BPlain b, Go =>
      if bool_decide (length (messageErrors b) = length ms)
      then Some (Some (s, Returned (OBatch (messageErrors b) None), false)) else None
  | BTag b, Go => let '(s', tag) := next_tag s in Some (Some (s', BRegister b tag, false))
  | BRegister b tag, Go =>
      let '(s', rc) := register tag s in Some (Some (s', BSend b tag rc, false))
  | BSend b tag rc, SendOk =>
      m ← ms !! length (messageErrors b);
      Some (s' ← send true (mid m) s;
            Some (s', batch_next ms (batch_push tag rc None b), false))
  | BSend b tag rc, SendErr e =>
      m ← ms !! length (messageErrors b);
      Some (s' ← send false (mid m) s;
            Some (s', BDelete b tag rc (publish_error m e), false))
  | BDelete b tag rc e, Go => Some (Some (deregister tag s, BClose b tag rc e, false))
  | BClose b tag rc e, Go =>
      Some (m ← close_chan rc (chans s);
            Some (s <| chans := m |>, batch_next ms (batch_push tag rc (Some e) b), false))
  | BWait b i, Go =>
      match messageErrors b !! i with
      | None => Some (Some (s, Returned (OBatch (messageErrors b) None), false))
      | Some (Some _) => Some (Some (s, BWait b (S i), false))
      | Some None => None
      end
  | BWait b i, Receive =>
      match messageErrors b !! i with
      | Some None =>
          rc ← resultChans b !! i;
          '(v, s') ← receive rc s;
          Some (Some (s', BWait (batch_set i (verdict v) b) (S i), false))
      | _ => None
      end
  | BWait b i, Timer =>
      match messageErrors b !! i with
      | Some None =>
          Some (Some (s, BTimeout (batch_set i (Some (Sentinel ErrPublishConfirmTimeout)) b) i,
                      false))
      | _ => None
      end
  | BWait b i, CtxDone e =>
      match messageErrors b !! i with
      | Some None => Some (Some (s, Returned (OBatch (messageErrors b) (Some (ctx_Err e))), false))
      | _ => None
      end
  | BTimeout b i, Go =>
      tag ← deliveryTags b !! i; Some (Some (deregister tag s, BWait b (S i), false))
  | _, _ => None
  end.

(** One step of a call. *)
Definition thread_step (j : Job) (p : pc) (c : Choice) (s : Shared) : option (may_panic Next) :=
  match c, prologue j p s with
  | Go, Some r => Some r
  | _, _ =>
      match j with
      | JPublish m => publish_step m p c s
      | JBatch ms => batch_step ms p c s
      end
  end.

(** ** Confirmation processors *)

(** A goroutine running [processConfirmations]: about to evaluate the operands of its
    [select], blocked in it, with a confirmation in hand before the lock, with the news that
    its channel is closed before the lock, or gone. *)
Inductive Proc :=
| Loop
| Select (cf : option handle) (d : chan_id)
| Routing (from : handle) (tag : Z) (ack : bool)
| Closing
| Exited.

(** How many messages the broker has accepted on a channel. *)
Definition sent_on (ch : handle) (s : Shared) : nat :=
  length (filter (fun x => fst x = ch) (sent s)).

(** An answer that can arrive on a channel: the broker gives a number one answer, and every
    listener registered on the channel receives it. *)
Definition confirmable (ch : handle) (tag : Z) (ack : bool) (s : Shared) : Prop :=
  (1 <= tag <= Z.of_nat (sent_on ch s))%Z /\ (ch, tag, negb ack) ∉ confirmed s.

#[export] Instance confirmable_dec ch tag ack s : Decision (confirmable ch tag ack s).
Proof. unfold confirmable. solve_decision. Defined.

(** ** The system *)

Record System := {
  shared : Shared;
  threads : list (Job * pc);
  procs : list Proc;
  crashed : bool
}.

#[export] Instance System_eta : Eta System := fun s =>
  {| shared := shared s; threads := threads s; procs := procs s; crashed := crashed s |}.

Inductive Event :=
| Spawn (j : Job)
| Thread (i : nat) (c : Choice)
| ProcEnter (k : nat)
| ProcConfirm (k : nat) (tag : Z) (ack : bool)
| ProcRoute (k : nat)
| ProcClosed (k : nat)
| ProcClear (k : nat)
| ProcDone (k : nat)
| ChannelDies (ch : handle)
| Reconnected
| CloseClient
| ClosePublisher.

Definition spawn_if (b : bool) (ps : list Proc) : list Proc := if b then ps ++ [Loop] else ps.

Definition crash (y : System) : System := y <| crashed := true |>.

Definition with_shared (s : Shared) (y : System) : System := y <| shared := s |>.

(** One event; [None] when it is not enabled. *)
Definition exec (e : Event) (y : System) : option System :=
  let s := shared y in
  if crashed y then None else
  match e with
  | Spawn j => let l := threads y ++ [(j, PStart)] in Some (y <| threads := l |>)
  | Thread i c =>
      '(j, p) ← threads y !! i;
      r ← thread_step j p c s;
      Some match r with
           | None => crash y
           | Some (s', p', spawned) =>
               {| shared := s'; threads := <[i := (j, p')]> (threads y);
                  procs := spawn_if spawned (procs y); crashed := false |}
           end
  | ProcEnter k =>
      match procs y !! k with
      | Some Loop =>
          let ps := <[k := Select (confirms s) (done s)]> (procs y) in Some (y <| procs := ps |>)
      | _ => None
      end
  | ProcConfirm k tag ack =>
      match procs y !! k with
      | Some (Select (Some ch) _) =>
          if bool_decide (confirmable ch tag ack s) then
            let cf := confirmed s ++ [(ch, tag, ack)] in
            let ps := <[k := Routing ch tag ack]> (procs y) in
            Some (y <| shared := s <| confirmed := cf |> |> <| procs := ps |>)
          else None
      | _ => None
      end
  | ProcRoute k =>
      match procs y !! k with
      | Some (Routing ch tag ack) =>
          match route ch tag ack s with
          | None => Some (crash y)
          | Some None => None
          | Some (Some s') =>
              let ps := <[k := Loop]> (procs y) in
              Some (y <| shared := s' |> <| procs := ps |>)
          end
      | _ => None
      end
  | ProcClosed k =>
      match procs y !! k with
      | Some (Select (Some ch) _) =>
          if bool_decide (ch ∈ dead s) then
            let ps := <[k := Closing]> (procs y) in Some (y <| procs := ps |>)
          else None
      | _ => None
      end
  | ProcClear k =>
      match procs y !! k with
      | Some Closing =>
          match clear_pending s with
          | None => Some (crash y)
          | Some s' =>
              let ps := <[k := Exited]> (procs y) in
              Some (y <| shared := s' |> <| procs := ps |>)
          end
      | _ => None
      end
  | ProcDone k =>
      match procs y !! k with
      | Some (Select _ d) =>
          if bool_decide (d ∈ closed_done s) then
            let ps := <[k := Exited]> (procs y) in Some (y <| procs := ps |>)
          else None
      | _ => None
      end
  | ChannelDies ch =>
      let dd := {[ch]} ∪ dead s in Some (with_shared (s <| dead := dd |>) y)
  | Reconnected =>
      if closed s then None
      else let ch := opened s in
           Some (with_shared (s <| channel := Some ch |> <| opened := S ch |>) y)
  | CloseClient => Some (with_shared (s <| closed := true |>) y)
  | ClosePublisher =>
      Some match Close s with Some s' => with_shared s' y | None => crash y end
  end.

Fixpoint run (es : list Event) (y : System) : option System :=
  match es with
  | [] => Some y
  | e :: es' => y' ← exec e y; run es' y'
  end.

(** The system just after [NewPublisher]. *)
Definition initial (confirmsEnabled : bool) : System :=
  let '(s, spawned) := NewPublisher (client_state confirmsEnabled) in
  {| shared := s; threads := []; procs := spawn_if spawned []; crashed := false |}.

Definition reachable (confirmsEnabled : bool) (y : System) : Prop :=
  exists es, run es (initial confirmsEnabled) = Some y.

(** ** Runs *)

Definition msg (n : nat) : Message := {| exchange := "events"; routingKey := "order"; mid := n |}.

Definition go (i n : nat) : list Event := replicate n (Thread i Go).

(** A call up to the point where it sends its (first) message. *)
Definition up_to_send (i : nat) : list Event := go i 6.

Definition gone : error := Foreign "channel/connection is not open" [].

Definition send_one (i : nat) : list Event := up_to_send i ++ [Thread i SendOk].

Definition confirm_one (tag : Z) (ack : bool) : list Event :=
  [ProcEnter 0; ProcConfirm 0 tag ack; ProcRoute 0].

(** A message is published and acknowledged, then a batch of two, the second rejected. *)
Definition serial_demo : list Event :=
  [Spawn (JPublish (msg 1))] ++ send_one 0 ++ confirm_one 1 true ++
  [Thread 0 Receive; Spawn (JBatch [msg 2; msg 3])] ++ send_one 1 ++ go 1 2 ++
  [Thread 1 SendOk] ++ confirm_one 2 true ++ confirm_one 3 false ++
  [Thread 1 Receive; Thread 1 Receive; Thread 1 Go].

(** Its final state. *)
Definition final (b : bool) (es : list Event) : System :=
  match run es (initial b) with Some y => y | None => initial b end.

(** Whether the schedule can be run to its end. *)
Definition runs (b : bool) (es : list Event) : bool :=
  match run es (initial b) with Some _ => true | None => false end.

(** The processor blocked in its select after one message was sent. *)
Definition waiting_demo : list Event := [Spawn (JPublish (msg 1))] ++ send_one 0 ++ [ProcEnter 0].

(** A batch of one whose channel dies between its registration and its send. *)
Definition double_close : list Event :=
  [Spawn (JBatch [msg 1])] ++ up_to_send 0 ++
  [ChannelDies 0; ProcEnter 0; ProcClosed 0; ProcClear 0; Thread 0 (SendErr gone); Thread 0 Go].

End Pub.
