(* ===== verification/PublisherSafety.v ===== *)
(** * Safety and termination of the publisher

    An invariant of every reachable state of the publisher ([sys_ok]): result channels in the
    pending map are open, empty and registered once, every waiting call can only be answered
    under its own number, and a batch has one slot per message.  From it: the confirmation
    processor never blocks or panics, the causes of panics, and termination of every call.
    The invariant is parametric in what is known about the number of a sent message, so that
    [PublisherErrors] and [PublisherConfirms] can use it. *)

From stdpp Require Import base gmap strings list fin_maps.
From Stdlib Require Import ZArith Lia.
From S2P Require Import Prelude Errors Values Publisher.
Import Err Val Pub.
Local Open Scope kit_scope.

Module PubSafety.

(** ** What every step does to the state the others see *)

(** A processor has put [b] into result channel [c] as the answer to number [tag]. *)
Definition answered (s : Shared) (c : chan_id) (tag : Z) (b : bool) : Prop :=
  exists from, (c, from, tag, b) ∈ routed s.

(** Result channels in the pending map are open, empty and registered once; identifiers in
    use are below [next_id]. *)
Record wf_shared (s : Shared) : Prop := {
  pending_open : forall t c, pending s !! t = Some c -> chans s !! c = Some open_chan;
  pending_inj : forall t t' c, pending s !! t = Some c -> pending s !! t' = Some c -> t = t';
  chans_below : forall c ch, chans s !! c = Some ch -> (c < next_id s)%nat;
  client_connected : is_Some (channel s)
}.

(** Histories grow. *)
Lemma grows_refl {A} (l : list A) : exists k, l = l ++ k.
Proof. exists []. by rewrite app_nil_r. Qed.

Lemma grows_trans {A} (l1 l2 l3 : list A) :
  (exists k, l2 = l1 ++ k) -> (exists k, l3 = l2 ++ k) -> exists k, l3 = l1 ++ k.
Proof. intros [k1 ->] [k2 ->]. exists (k1 ++ k2). by rewrite app_assoc. Qed.

(** [s'] is a later state than [s]. *)
Record later (s s' : Shared) : Prop := {
  later_id : (next_id s <= next_id s')%nat;
  later_chans : forall c, is_Some (chans s !! c) -> is_Some (chans s' !! c);
  later_pending : forall t c, (c < next_id s)%nat ->
    pending s' !! t = Some c -> pending s !! t = Some c;
  later_buf : forall c ch' b, (c < next_id s)%nat ->
    chans s' !! c = Some ch' -> buf ch' = Some b ->
    (exists ch, chans s !! c = Some ch /\ buf ch = Some b) \/
    (exists t, pending s !! t = Some c /\ answered s' c t b);
  later_sent : exists l, sent s' = sent s ++ l;
  later_confirmed : exists l, confirmed s' = confirmed s ++ l;
  later_registered : exists l, registered s' = registered s ++ l;
  later_routed : exists l, routed s' = routed s ++ l;
  later_mode : PublisherConfirms s' = PublisherConfirms s
}.

Lemma later_refl s : later s s.
Proof. split; eauto using grows_refl. Qed.

Lemma answered_later s s' c t b :
  (exists l, routed s' = routed s ++ l) -> answered s c t b -> answered s' c t b.
Proof. intros [l Hl] [ch Hch]. exists ch. rewrite Hl. apply elem_of_app. by left. Qed.

Lemma later_trans s1 s2 s3 : later s1 s2 -> later s2 s3 -> later s1 s3.
Proof.
  intros [Hi1 Hc1 Hp1 Hb1 Hs1 Hcf1 Hr1 Ht1 Hm1] [Hi2 Hc2 Hp2 Hb2 Hs2 Hcf2 Hr2 Ht2 Hm2].
  split; eauto using grows_trans; try congruence; try lia.
  - intros t c Hlt Hp. apply Hp1; [done|]. apply Hp2; [lia|done].
  - intros c ch3 b Hlt Hc3 Hbuf.
    destruct (Hb2 c ch3 b) as [(ch2 & Hc & Hb)|(t & Ht & Ha)]; [lia|done|done| |].
    + destruct (Hb1 c ch2 b) as [?|(t & Ht & Ha)]; eauto using answered_later.
    + right. exists t. split; [by apply Hp1|done].
Qed.

(** A step that leaves the result channels and the pending map alone. *)
Lemma later_outside s s' :
  chans s' = chans s -> pending s' = pending s -> (next_id s <= next_id s')%nat ->
  (exists l, sent s' = sent s ++ l) -> (exists l, confirmed s' = confirmed s ++ l) ->
  registered s' = registered s -> routed s' = routed s ->
  PublisherConfirms s' = PublisherConfirms s -> later s s'.
Proof.
  intros Hc Hp Hn Hs Hcf Hr Ht Hm. split; rewrite ?Hc, ?Hp, ?Hr, ?Ht; eauto using grows_refl.
Qed.

Lemma wf_outside s s' :
  chans s' = chans s -> pending s' = pending s -> (next_id s <= next_id s')%nat ->
  is_Some (channel s') -> wf_shared s -> wf_shared s'.
Proof.
  intros Hc Hp Hn Hch [Ho Hi Hb _]. split; rewrite ?Hc, ?Hp; eauto.
  intros c ch Hl. specialize (Hb c ch Hl). lia.
Qed.

(** The same for a state that differs in no channel, map, counter or broker field. *)
Ltac outside :=
  first [apply later_outside | eapply wf_outside]; simpl;
  solve [done | lia | eauto using grows_refl].

(** *** Closing all pending channels *)

Lemma close_all_spec l m :
  NoDup (snd <$> l) ->
  (forall t c, (t, c) ∈ l -> m !! c = Some open_chan) ->
  exists m', close_all l m = Some m' /\
    (forall c, c ∈ (snd <$> l) -> m' !! c = Some {| buf := None; is_closed := true |}) /\
    (forall c, c ∉ (snd <$> l) -> m' !! c = m !! c).
Proof.
  revert m. induction l as [|[t c] l IH]; intros m Hnd Hm; simpl.
  { exists m. split_and!; [done| |done]. intros c Hc. by apply elem_of_nil in Hc. }
  rewrite fmap_cons in Hnd. apply NoDup_cons in Hnd as [Hni Hnd]. simpl in Hni.
  unfold close_chan. rewrite (Hm t c) by left. simpl.
  destruct (IH (<[c := {| buf := None; is_closed := true |}]> m) Hnd) as (m' & -> & Hin & Hout).
  { intros t' c' Hin. rewrite lookup_insert_ne; [by apply (Hm t'); right|].
    intros ->. apply Hni. by apply (list_elem_of_fmap_2 snd l (t', c')). }
  exists m'. split_and!; [done| |].
  - intros c' [->|Hc']%elem_of_cons; [|by apply Hin].
    rewrite Hout by done. by rewrite lookup_insert_eq.
  - intros c' [Hne Hc']%not_elem_of_cons. rewrite Hout, lookup_insert_ne by done. done.
Qed.

Lemma clear_pending_spec s :
  wf_shared s ->
  exists s', clear_pending s = Some s' /\ later s s' /\ wf_shared s' /\
    pending s' = ∅ /\ deliveryTag s' = deliveryTag s /\ channel s' = channel s /\
    sent s' = sent s /\ confirmed s' = confirmed s /\
    s' = s <| chans := chans s' |> <| pending := pending s' |>.
Proof.
  intros [Ho Hi Hb Hch]. unfold clear_pending.
  destruct (close_all_spec (map_to_list (pending s)) (chans s)) as (m' & E & Hin & Hout).
  { apply NoDup_fmap_2_strong; [|apply NoDup_map_to_list].
    intros [t c] [t' c'] H1%elem_of_map_to_list H2%elem_of_map_to_list Heq. simpl in Heq.
    subst c'. by rewrite (Hi t t' c). }
  { intros t c Ht%elem_of_map_to_list. eauto. }
  assert (forall c ch', m' !! c = Some ch' ->
            exists ch, chans s !! c = Some ch /\ buf ch' = buf ch) as Hback.
  { intros c ch' Hc. destruct (decide (c ∈ (snd <$> map_to_list (pending s)))) as [Hd|Hd].
    - rewrite Hin in Hc by done. injection Hc as <-.
      apply list_elem_of_fmap in Hd as ([t c'] & -> & Ht%elem_of_map_to_list).
      exists open_chan. split; [by apply (Ho t)|done].
    - rewrite Hout in Hc by done. by exists ch'. }
  rewrite E. simpl. eexists. split; [done|]. split_and!; try done.
  - split; simpl; try done; try apply grows_refl.
    + intros c Hc. destruct (decide (c ∈ (snd <$> map_to_list (pending s)))) as [Hd|Hd].
      * rewrite Hin by done. eauto.
      * by rewrite Hout.
    + intros c ch' b _ Hc Hbuf. left. destruct (Hback c ch' Hc) as (ch & Hs & Heq).
      exists ch. by rewrite <- Heq.
  - split; simpl; try done.
    intros c ch' Hc. destruct (Hback c ch' Hc) as (ch & Hs & _). by apply (Hb c ch).
Qed.

(** *** Routing a confirmation *)

Lemma route_spec ch tag ack s :
  wf_shared s ->
  exists s', route ch tag ack s = Some (Some s') /\ later s s' /\ wf_shared s' /\
    pending s' = delete tag (pending s) /\
    s' = s <| chans := chans s' |> <| pending := pending s' |> <| routed := routed s' |>.
Proof.
  intros Hwf. pose proof Hwf as [Ho Hi Hb Hch]. unfold route.
  destruct (pending s !! tag) as [c|] eqn:Ep.
  - rewrite (Ho tag c Ep). simpl. eexists. split; [done|]. split_and!; [| |done..].
    + split; simpl; eauto using grows_refl.
      * intros c' Hc'. rewrite lookup_insert_is_Some'. by right.
      * by intros t c' _ [_ Hp]%lookup_delete_Some.
      * intros c' ch' b Hlt Hc' Hbuf. destruct (decide (c = c')) as [<-|Hne].
        -- rewrite lookup_insert_eq in Hc'. injection Hc' as <-. simpl in Hbuf.
           injection Hbuf as ->. right. exists tag. split; [done|].
           exists ch. simpl. apply elem_of_app. right. by left.
        -- rewrite lookup_insert_ne in Hc' by done. left. eauto.
    + split; simpl; try done.
      * intros t c' [Hne Hp]%lookup_delete_Some. rewrite lookup_insert_ne; [by apply (Ho t)|].
        intros ->. by rewrite (Hi tag t c') in Hne.
      * intros t t' c' [_ H1]%lookup_delete_Some [_ H2]%lookup_delete_Some. eauto.
      * intros c' ch' [[<- _]|[_ Hc']]%lookup_insert_Some; eauto.
  - exists s. split_and!; [done|apply later_refl|done|by rewrite delete_id|by destruct s].
Qed.

(** *** Registering, deregistering, receiving *)

Lemma register_spec tag s :
  wf_shared s ->
  later s (register tag s).1 /\ wf_shared (register tag s).1 /\ (register tag s).2 = next_id s.
Proof.
  intros [Ho Hi Hb Hch]. unfold register. simpl.
  assert (chans s !! next_id s = None) as Hfresh.
  { destruct (chans s !! next_id s) eqn:E; [|done]. apply Hb in E. lia. }
  assert (forall t c, pending s !! t = Some c -> (c < next_id s)%nat) as Hlt by eauto.
  split_and!; [| |done].
  - split; simpl; try done; try lia; try apply grows_refl; try (by eexists).
    + intros c Hc. rewrite lookup_insert_is_Some'. by right.
    + intros t c Hl [[<- <-]|[_ Hp]]%lookup_insert_Some; [lia|done].
    + intros c ch' b Hl [[<- <-]|[_ Hc]]%lookup_insert_Some Hbuf; [lia|eauto].
  - split; simpl; try done.
    + intros t c [[<- <-]|[_ Hp]]%lookup_insert_Some; [by rewrite lookup_insert_eq|].
      rewrite lookup_insert_ne; [eauto|]. apply Hlt in Hp. lia.
    + intros t t' c [[<- <-]|[_ H1]]%lookup_insert_Some [[<- E]|[_ H2]]%lookup_insert_Some;
        eauto; subst; exfalso; naive_solver lia.
    + intros c ch [[<- <-]|[_ Hc]]%lookup_insert_Some; [lia|]. apply Hb in Hc. lia.
Qed.

Lemma deregister_spec tag s :
  wf_shared s -> later s (deregister tag s) /\ wf_shared (deregister tag s).
Proof.
  intros [Ho Hi Hb Hch]. unfold deregister. split; split; simpl; try done; eauto;
    try apply grows_refl.
  - by intros t c _ [_ Hp]%lookup_delete_Some.
  - intros t c [_ Hp]%lookup_delete_Some. eauto.
  - intros t t' c [_ H1]%lookup_delete_Some [_ H2]%lookup_delete_Some. eauto.
Qed.

(** Changing a result channel that nobody can confirm any more, without putting a value in. *)
Lemma chan_update_spec c ch ch' s :
  wf_shared s -> chans s !! c = Some ch -> (forall t, pending s !! t <> Some c) ->
  buf ch' = buf ch \/ buf ch' = None ->
  let m := <[c := ch']> (chans s) in
  later s (s <| chans := m |>) /\ wf_shared (s <| chans := m |>).
Proof.
  intros [Ho Hi Hb Hch] Hc Hnp Hbuf. split; split; simpl; try done; eauto;
    try apply grows_refl.
  - intros c' Hc'. rewrite lookup_insert_is_Some'. by right.
  - intros c' ch0 b _ [[<- <-]|[_ Hl]]%lookup_insert_Some Hb'; [|eauto].
    left. exists ch. split; [done|]. destruct Hbuf; congruence.
  - intros t c' Hp. rewrite lookup_insert_ne; [eauto|]. intros ->. by apply (Hnp t).
  - intros c' ch0 [[<- <-]|[_ Hl]]%lookup_insert_Some; eauto.
Qed.

(** What a receive sees: a value the broker's answer put there, or a closed channel. *)
Lemma receive_spec c s v s' :
  wf_shared s -> receive c s = Some (v, s') ->
  later s s' /\ wf_shared s' /\ (forall t, pending s !! t <> Some c) /\
  match v with
  | Some b => exists ch, chans s !! c = Some ch /\ buf ch = Some b
  | None => s' = s
  end.
Proof.
  intros Hwf Hr. unfold receive in Hr.
  destruct (chans s !! c) as [[[b|] cl]|] eqn:Ec; [| |done].
  - injection Hr as <- <-.
    assert (forall t, pending s !! t <> Some c) as Hnp.
    { intros t Ht. apply (pending_open s Hwf) in Ht. by rewrite Ec in Ht. }
    destruct (chan_update_spec c _ {| buf := None; is_closed := cl |} s Hwf Ec Hnp) as [H1 H2];
      [by right|].
    split_and!; eauto.
  - destruct cl; [|done]. injection Hr as <- <-. split_and!; try done.
    + apply later_refl.
    + intros t Ht. apply (pending_open s Hwf) in Ht. by rewrite Ec in Ht.
Qed.

Lemma close_chan_later c m s :
  wf_shared s -> (forall t, pending s !! t <> Some c) -> close_chan c (chans s) = Some m ->
  later s (s <| chans := m |>) /\ wf_shared (s <| chans := m |>).
Proof.
  intros Hwf Hnp Hc. unfold close_chan in Hc.
  destruct (chans s !! c) as [ch|] eqn:Ec; [|done].
  destruct (is_closed ch); [done|]. injection Hc as <-.
  apply (chan_update_spec c ch); auto.
Qed.

Lemma close_signal_later d s s' :
  wf_shared s -> close_signal d s = Some s' -> later s s' /\ wf_shared s'.
Proof.
  intros Hwf Hc. unfold close_signal in Hc. case_bool_decide; [done|]. injection Hc as <-.
  split; [outside|]. eapply wf_outside; simpl; eauto. apply Hwf.
Qed.

Lemma reset_section_spec id s :
  wf_shared s ->
  exists s' old, reset_section id s = Some (s', old) /\ later s s' /\ wf_shared s' /\
    channel s' = channel s /\ sent s' = sent s /\ confirmed s' = confirmed s.
Proof.
  intros Hwf. unfold reset_section. case_bool_decide.
  { exists s, None. split_and!; try done. apply later_refl. }
  set (s1 := if started s then _ else s). set (s2 := s1 <| deliveryTag := 0%Z |>).
  assert (wf_shared s2 /\ later s s2 /\ channel s2 = channel s /\ sent s2 = sent s /\
          confirmed s2 = confirmed s) as (Hwf2 & Hl & Hch & Hs & Hcf).
  { destruct Hwf. subst s2 s1. destruct (started s); simpl; (split_and!; [| |done..]);
      (eapply wf_outside + apply later_outside); simpl; eauto; try lia; try done;
      apply grows_refl. }
  destruct (clear_pending_spec s2 Hwf2) as (s3 & -> & Hl3 & Hwf3 & Hp & Ht & Hc3 & Hs3 & Hcf3 & _).
  simpl. do 2 eexists. split; [done|]. split_and!; simpl; try congruence.
  - apply (later_trans s s2); [done|]. apply (later_trans s2 s3); [done|outside].
  - eapply wf_outside; [..|apply Hwf3]; simpl; try done. apply Hwf3.
Qed.

(** ** Invariant of the calls *)

Section Invariant.
(** What is known about the number and the result channel a call uses for message [m] once
    the message is sent; it must survive later steps. *)
Context (own : Shared -> Message -> Z -> chan_id -> Prop).
Context (own_later : forall s s' m tag c, later s s' -> own s m tag c -> own s' m tag c).

(** Result channel [c] can only be answered as number [tag]. *)
Definition only_under (s : Shared) (tag : Z) (c : chan_id) : Prop :=
  is_Some (chans s !! c) /\ forall t, pending s !! t = Some c -> t = tag.

(** A value in [c] is the broker's answer to number [tag]. *)
Definition answer_in (s : Shared) (tag : Z) (c : chan_id) : Prop :=
  forall ch b, chans s !! c = Some ch -> buf ch = Some b -> answered s c tag b.

(** Registered as [tag], not yet sent; and sent. *)
Definition holds (s : Shared) (tag : Z) (c : chan_id) : Prop :=
  only_under s tag c /\ answer_in s tag c.

Definition waiting (s : Shared) (m : Message) (tag : Z) (c : chan_id) : Prop :=
  holds s tag c /\ own s m tag c.

(** What a returned error value says about the broker's answer. *)
Definition evidence (s : Shared) (m : Message) (e : option error) : Prop :=
  match e with
  | None => exists tag c, own s m tag c /\ answered s c tag true
  | Some (Sentinel ErrPublishNotConfirmed) =>
      exists tag c, own s m tag c /\ answered s c tag false
  | Some _ => True
  end.

(** Slot [j] of a batch whose first [i] messages have been waited for. *)
Definition slot (s : Shared) (ms : list Message) (b : Batch) (i j : nat) : Prop :=
  forall m e, ms !! j = Some m -> messageErrors b !! j = Some e ->
    exists tag c, deliveryTags b !! j = Some tag /\ resultChans b !! j = Some c /\
      if bool_decide (e = None /\ (i <= j)%nat) then waiting s m tag c else evidence s m e.

Definition sized (b : Batch) (n : nat) : Prop :=
  length (deliveryTags b) = n /\ length (resultChans b) = n /\ length (messageErrors b) = n.

(** A batch that has handled some messages and still has one to handle. *)
Definition sending (s : Shared) (ms : list Message) (b : Batch) : Prop :=
  exists n, (n < length ms)%nat /\ sized b n /\ forall j, slot s ms b 0 j.

Definition collecting (s : Shared) (ms : list Message) (b : Batch) (i : nat) : Prop :=
  sized b (length ms) /\ (i <= length ms)%nat /\ forall j, slot s ms b i j.

Definition batch_result (s : Shared) (ms : list Message) (es : list (option error)) : Prop :=
  length es = length ms /\
  (PublisherConfirms s = true -> forall j m e,
     ms !! j = Some m -> es !! j = Some e -> evidence s m e).

Definition pc_ok (s : Shared) (j : Job) (p : pc) : Prop :=
  match p, j with
  | PStart, _ => True
  | (PEnsure | PCheck | PReset _ | PCloseDone _ | PResetup), _ => j <> JBatch []
  | PPlain, JPublish _ => PublisherConfirms s = false
  | PTag, JPublish _ | PRegister _, JPublish _ => PublisherConfirms s = true
  | PSend tag c, JPublish _ => holds s tag c
  | PWait tag c, JPublish m => waiting s m tag c
  | PCleanup _ e, JPublish m => e <> None /\ evidence s m e
  | BPlain b, JBatch ms =>
      PublisherConfirms s = false /\ exists n, (n <= length ms)%nat /\ sized b n
  | BTag b, JBatch ms | BRegister b _, JBatch ms => sending s ms b
  | BSend b tag c, JBatch ms => sending s ms b /\ holds s tag c
  | BDelete b tag c e, JBatch ms => sending s ms b /\ only_under s tag c /\
      e <> Sentinel ErrPublishNotConfirmed
  | BClose b tag c e, JBatch ms => sending s ms b /\ is_Some (chans s !! c) /\
      (forall t, pending s !! t <> Some c) /\ e <> Sentinel ErrPublishNotConfirmed
  | BWait b i, JBatch ms => collecting s ms b i
  | BTimeout b i, JBatch ms => (i < length ms)%nat /\ collecting s ms b (S i)
  | Returned (OPublish e), JPublish m => PublisherConfirms s = true -> evidence s m e
  | Returned (OBatch es None), JBatch ms => batch_result s ms es
  | Returned (OBatch _ (Some _)), JBatch _ => True
  | _, _ => False
  end.

(** *** Stability under the steps of others *)

Section Stable.
Context (s s' : Shared) (Hl : later s s') (Hwf : wf_shared s).

Lemma below c : is_Some (chans s !! c) -> (c < next_id s)%nat.
Proof. intros [ch Hc]. by apply (chans_below s Hwf c ch). Qed.

Lemma answered_stable c t b : answered s c t b -> answered s' c t b.
Proof. apply answered_later, Hl. Qed.

Lemma only_under_stable tag c : only_under s tag c -> only_under s' tag c.
Proof.
  intros [Hc Hu]. split; [by apply (later_chans s s' Hl)|].
  intros t Ht. apply Hu, (later_pending s s' Hl); [by apply below|done].
Qed.

Lemma holds_stable tag c : holds s tag c -> holds s' tag c.
Proof.
  intros [Hu Ha]. split; [by apply only_under_stable|].
  intros ch' b Hc' Hb. destruct Hu as [Hc Hu].
  destruct (later_buf s s' Hl c ch' b) as [(ch & Hch & Hbuf)|(t & Ht & Hans)];
    [by apply below|done|done| |].
  - apply answered_stable. eauto.
  - by rewrite <- (Hu t).
Qed.

Lemma waiting_stable m tag c : waiting s m tag c -> waiting s' m tag c.
Proof. intros [Hh Ho]. split; [by apply holds_stable|by eapply own_later]. Qed.

Lemma evidence_stable m e : evidence s m e -> evidence s' m e.
Proof.
  destruct e as [[[]| | | | | | | |]|]; simpl; try done;
    intros (tag & c & Ho & Ha); exists tag, c; eauto using answered_stable.
Qed.

Lemma slot_stable ms b i j : slot s ms b i j -> slot s' ms b i j.
Proof.
  intros Hs m e Hm He. destruct (Hs m e Hm He) as (tag & c & Ht & Hc & Hk).
  exists tag, c. split_and!; [done..|].
  case_bool_decide; [by apply waiting_stable|by apply evidence_stable].
Qed.

Lemma sending_stable ms b : sending s ms b -> sending s' ms b.
Proof. intros (n & Hn & Hsz & Hs). exists n. eauto using slot_stable. Qed.

Lemma collecting_stable ms b i : collecting s ms b i -> collecting s' ms b i.
Proof. intros (Hsz & Hi & Hs). split_and!; eauto using slot_stable. Qed.

Lemma batch_result_stable ms es : batch_result s ms es -> batch_result s' ms es.
Proof.
  intros [Hlen He]. split; [done|]. rewrite (later_mode s s' Hl). eauto using evidence_stable.
Qed.

Lemma pc_ok_stable j p : pc_ok s j p -> pc_ok s' j p.
Proof.
  pose proof (later_mode s s' Hl) as Hm.
  destruct p as [| | | | | | | | | | |?|?|?|?|?|? ? ? ?|b tag c e|?|?|[?|? [?|]]], j;
    simpl; rewrite ?Hm; try done;
    try solve [intuition eauto using holds_stable, waiting_stable, evidence_stable,
      sending_stable, only_under_stable, collecting_stable, batch_result_stable].
  intros (Hs & Hc & Hp & He). split_and!; eauto using sending_stable.
  - by apply (later_chans s s' Hl).
  - intros t Ht. apply (Hp t), (later_pending s s' Hl); [by apply below|done].
Qed.

End Stable.

(** *** Steps of a call *)

Lemma send_spec ok n s :
  wf_shared s ->
  exists s', send ok n s = Some s' /\ later s s' /\ wf_shared s' /\
    chans s' = chans s /\ pending s' = pending s.
Proof.
  intros Hwf. destruct (client_connected s Hwf) as [ch Hch]. unfold send. rewrite Hch.
  eexists. split; [done|]. destruct ok; simpl.
  - split_and!; try done; [outside|]. eapply wf_outside; simpl; eauto.
  - split_and!; try done. apply later_refl.
Qed.

Lemma register_holds tag s :
  wf_shared s -> holds (register tag s).1 tag (register tag s).2.
Proof.
  intros [Ho Hi Hb Hch]. unfold register. simpl. split; [split; simpl|].
  - rewrite lookup_insert_eq. eauto.
  - intros t [[<- _]|[_ Hp]]%lookup_insert_Some; [done|].
    apply Ho, Hb in Hp. lia.
  - intros ch b Hc Hbuf. simpl in Hc. rewrite lookup_insert_eq in Hc. by injection Hc as <-.
Qed.

(** A verdict received from the channel of a waiting call is the broker's. *)
Lemma verdict_evidence s m tag c v s' :
  wf_shared s -> waiting s m tag c -> receive c s = Some (v, s') ->
  later s s' /\ wf_shared s' /\ evidence s' m (verdict v).
Proof.
  intros Hwf [[Hu Ha] Ho] Hr. destruct (receive_spec c s v s' Hwf Hr) as (Hl & Hwf' & _ & Hv).
  split_and!; try done. destruct v as [b|]; [|done]. destruct Hv as (ch & Hc & Hb).
  assert (answered s' c tag b) by (eapply answered_stable; eauto).
  destruct b; exists tag, c; eauto.
Qed.

(** The environment's part: a message that is sent gets the number its call uses. *)
Definition sends_own (j : Job) (p : pc) (c : Choice) (s' : Shared) : Prop :=
  match j, p, c with
  | JPublish m, PSend tag rc, SendOk => own s' m tag rc
  | JBatch ms, BSend b tag rc, SendOk =>
      forall m, ms !! length (messageErrors b) = Some m -> own s' m tag rc
  | _, _, _ => True
  end.

(** The goal of the step lemmas. *)
Definition step_ok (s : Shared) (j : Job) (s' : Shared) (p' : pc) : Prop :=
  later s s' /\ wf_shared s' /\ pc_ok s' j p'.

Lemma stay_ok s j p : wf_shared s -> pc_ok s j p -> step_ok s j s p.
Proof. intros. split_and!; try done. apply later_refl. Qed.

Lemma setupConfirms_spec s :
  wf_shared s -> later s (setupConfirms s).1 /\ wf_shared (setupConfirms s).1.
Proof.
  intros Hwf. unfold setupConfirms. destruct (client_connected s Hwf) as [ch ->].
  split; [outside|]. eapply wf_outside; simpl; eauto.
Qed.

Lemma sending_empty s ms : ms <> [] -> sending s ms no_batch.
Proof.
  intros Hne. exists 0%nat. split_and!; [destruct ms; simpl; [done|lia]|done|].
  intros j m e _ He. done.
Qed.

Lemma prologue_ok s j p s' p' sp :
  wf_shared s -> pc_ok s j p -> prologue j p s = Some (Some (s', p', sp)) ->
  step_ok s j s' p'.
Proof.
  intros Hwf Hok Hp. destruct p; try done; simpl in Hok, Hp.
  - destruct j as [m|[|m ms]]; injection Hp as <- <- <-; by apply stay_ok.
  - injection Hp as <- <- <-. apply stay_ok; [done|]. by destruct (PublisherConfirms s).
  - destruct (reset_section_spec currentChannelID s Hwf) as (s1 & old & E & Hl & Hwf1 & _).
    rewrite E in Hp. injection Hp as <- <- <-. split_and!; [done..|]. by destruct old.
  - destruct (close_signal oldDone s) as [s1|] eqn:E; [|done]. injection Hp as <- <- <-.
    destruct (close_signal_later _ _ _ Hwf E). by split_and!.
  - unfold resetup in Hp. destruct (setupConfirms_spec s Hwf).
    destruct (setupConfirms s) as [s1 b]. injection Hp as <- <- <-. by split_and!.
  - destruct (closed s); [injection Hp as <- <- <-; apply stay_ok; [done|by destruct j]|].
    destruct (client_connected s Hwf) as [ch Hch]. rewrite Hch in Hp.
    injection Hp as <- <- <-. apply stay_ok; [done|].
    destruct j as [m|ms]; destruct (PublisherConfirms s) eqn:Hc; simpl; try done.
    + apply sending_empty. naive_solver.
    + split; [done|]. exists 0%nat. split; [lia|done].
Qed.

Lemma next_tag_spec s : wf_shared s -> later s (next_tag s).1 /\ wf_shared (next_tag s).1.
Proof.
  intros Hwf. split; [outside|]. eapply wf_outside; simpl; eauto. apply Hwf.
Qed.

Lemma publish_step_ok m s p c s' p' sp :
  wf_shared s -> pc_ok s (JPublish m) p -> sends_own (JPublish m) p c s' ->
  publish_step m p c s = Some (Some (s', p', sp)) -> step_ok s (JPublish m) s' p'.
Proof.
  intros Hwf Hok Hown Hp. destruct p, c; try done; simpl in Hok, Hp, Hown.
  - destruct (send_spec true (mid m) s Hwf) as (s1 & E & Hl & Hwf1 & _).
    rewrite E in Hp. injection Hp as <- <- <-. split_and!; try done. simpl.
    by rewrite (later_mode s s1 Hl), Hok.
  - destruct (send_spec false (mid m) s Hwf) as (s1 & E & Hl & Hwf1 & _).
    rewrite E in Hp. injection Hp as <- <- <-. by split_and!.
  - injection Hp as <- <- <-. destruct (next_tag_spec s Hwf). by split_and!.
  - destruct (register_spec tag s Hwf) as (Hl & Hwf1 & _).
    pose proof (register_holds tag s Hwf).
    injection Hp as <- <- <-. by split; [|split].
  - destruct (send_spec true (mid m) s Hwf) as (s1 & E & Hl & Hwf1 & _).
    rewrite E in Hp. injection Hp as <- <- <-. split_and!; try done.
    split; [by eapply holds_stable|done].
  - destruct (send_spec false (mid m) s Hwf) as (s1 & E & Hl & Hwf1 & _).
    rewrite E in Hp. injection Hp as <- <- <-. by split_and!.
  - destruct (receive c0 s) as [[v s1]|] eqn:E; [|done].
    destruct (verdict_evidence s m tag c0 v s1 Hwf Hok E) as (Hl & Hwf1 & Hev).
    injection Hp as <- <- <-. split_and!; try done.
    destruct (verdict v) eqn:Ev; simpl; [split; [done|]|intros _]; done.
  - injection Hp as <- <- <-. by apply stay_ok.
  - injection Hp as <- <- <-. apply stay_ok; [done|]. by destruct e.
  - injection Hp as <- <- <-. destruct (deregister_spec tag s Hwf) as [Hl Hwf1].
    split_and!; try done. intros _. by eapply evidence_stable; [..|apply Hok].
Qed.

(** *** Steps of a batch *)

Lemma batch_push_ok s ms b m tag c e :
  sending s ms b -> ms !! length (messageErrors b) = Some m ->
  (if bool_decide (e = None) then waiting s m tag c else evidence s m e) ->
  pc_ok s (JBatch ms) (batch_next ms (batch_push tag c e b)).
Proof.
  intros (n & Hn & (H1 & H2 & H3) & Hs) Hm Hk.
  assert (sized (batch_push tag c e b) (S n)) as Hsz.
  { unfold sized. simpl. rewrite !length_app. simpl. lia. }
  assert (forall j, slot s ms (batch_push tag c e b) 0 j) as Hsl.
  { intros j m' e' Hm' He'. simpl in *. destruct (decide (j < n)%nat) as [Hj|Hj].
    - rewrite lookup_app_l in He' by lia. destruct (Hs j m' e' Hm' He') as (t' & c' & ? & ? & ?).
      exists t', c'. by rewrite !lookup_app_l by lia.
    - apply lookup_lt_Some in He' as Hlt. rewrite length_app in Hlt. simpl in Hlt.
      assert (j = n) as -> by lia. rewrite H3 in Hm. exists tag, c.
      rewrite lookup_app_r, H3, Nat.sub_diag in He' by lia. injection He' as <-.
      rewrite !lookup_app_r, H1, H2, Nat.sub_diag by lia. split_and!; try done.
      assert (m' = m) as -> by congruence.
      rewrite (bool_decide_ext _ (e = None)) by naive_solver lia. done. }
  unfold batch_next. destruct Hsz as (? & ? & Hlen). rewrite Hlen.
  clear Hk. case_bool_decide as Hc; simpl.
  - exists (S n). by split_and!.
  - unfold collecting. assert (length ms = S n) as -> by lia. by split_and!; [..|lia|].
Qed.

Lemma batch_set_ok s ms b i m v :
  collecting s ms b i -> ms !! i = Some m -> messageErrors b !! i = Some None ->
  evidence s m v -> collecting s ms (batch_set i v b) (S i).
Proof.
  intros ((H1 & H2 & H3) & Hi & Hs) Hm He Hev. apply lookup_lt_Some in Hm as Hlt.
  split_and!; [|lia|].
  { unfold sized. simpl. by rewrite length_insert. }
  intros j m' e' Hm' He'. simpl in *. destruct (decide (i = j)) as [<-|Hne].
  - rewrite list_lookup_insert_eq in He' by lia. injection He' as <-.
    assert (m' = m) as -> by congruence.
    destruct (Hs i m None Hm He) as (t & c & ? & ? & _). exists t, c. split_and!; try done.
    rewrite bool_decide_eq_false_2 by lia. done.
  - rewrite list_lookup_insert_ne in He' by done.
    destruct (Hs j m' e' Hm' He') as (t & c & ? & ? & Hk). exists t, c. split_and!; try done.
    rewrite (bool_decide_ext _ (e' = None /\ (i <= j)%nat)) by naive_solver lia. done.
Qed.

(** A message that already failed is skipped. *)
Lemma collecting_skip s ms b i e :
  collecting s ms b i -> messageErrors b !! i = Some (Some e) -> collecting s ms b (S i).
Proof.
  intros (Hsz & Hi & Hs) He. apply lookup_lt_Some in He as Hlt. pose proof Hsz as (_ & _ & H3).
  split_and!; [by apply Hsz..|lia|]. intros j m' e' Hm' He'.
  destruct (Hs j m' e' Hm' He') as (t & c & ? & ? & Hk). exists t, c. split_and!; try done.
  destruct (decide (i = j)) as [<-|Hne].
  - rewrite bool_decide_eq_false_2 in * by naive_solver. done.
  - rewrite (bool_decide_ext _ (e' = None /\ (i <= j)%nat)) by naive_solver lia. done.
Qed.

Lemma collecting_done s ms b i :
  collecting s ms b i -> messageErrors b !! i = None -> batch_result s ms (messageErrors b).
Proof.
  intros ((H1 & H2 & H3) & Hi & Hs) He. apply lookup_ge_None in He.
  split; [done|]. intros _ j m e Hm Hj. apply lookup_lt_Some in Hm as Hlt.
  destruct (Hs j m e Hm Hj) as (t & c & _ & _ & Hk).
  rewrite bool_decide_eq_false_2 in Hk by lia. done.
Qed.

(** The message a batch is about to send, and the one it waits for. *)
Lemma sending_next s ms b : sending s ms b -> is_Some (ms !! length (messageErrors b)).
Proof. intros (n & Hn & (_ & _ & ->) & _). by apply lookup_lt_is_Some. Qed.

Lemma collecting_current s ms b i :
  collecting s ms b i -> messageErrors b !! i = Some None ->
  exists m tag c, ms !! i = Some m /\ deliveryTags b !! i = Some tag /\
    resultChans b !! i = Some c /\ waiting s m tag c.
Proof.
  intros ((_ & _ & H3) & Hi & Hs) He. apply lookup_lt_Some in He as Hlt. rewrite H3 in Hlt.
  apply lookup_lt_is_Some in Hlt as [m Hm].
  destruct (Hs i m None Hm He) as (t & c & ? & ? & Hk). exists m, t, c. split_and!; try done.
  by rewrite bool_decide_eq_true_2 in Hk.
Qed.

(** The step of a send, with the two outcomes of the library call. *)
Lemma send_step {B} ok n s (k : Shared -> B) r :
  wf_shared s -> (s' ← send ok n s; Some (k s')) = Some r ->
  exists s', r = k s' /\ later s s' /\ wf_shared s'.
Proof.
  intros Hwf Hr. destruct (send_spec ok n s Hwf) as (s' & E & Hl & Hwf' & _).
  rewrite E in Hr. injection Hr as <-. eauto.
Qed.

Lemma batch_plain_ok ms s b c s' p' sp :
  wf_shared s -> pc_ok s (JBatch ms) (BPlain b) ->
  batch_step ms (BPlain b) c s = Some (Some (s', p', sp)) -> step_ok s (JBatch ms) s' p'.
Proof.
  intros Hwf (Hmode & n & Hn & Hsz) Hp.
  assert (forall e s1, ms !! length (messageErrors b) <> None -> later s s1 ->
    pc_ok s1 (JBatch ms) (BPlain (batch_push 0 0 e b))) as Hpush.
  { intros e s1 Hlt Hl. simpl. rewrite (later_mode s s1 Hl). split; [done|].
    destruct Hsz as (H1 & H2 & H3). exists (S n). split.
    - apply not_eq_None_Some, lookup_lt_is_Some in Hlt. lia.
    - unfold sized. simpl. rewrite !length_app. simpl. lia. }
  destruct c; try done; simpl in Hp.
  - case_bool_decide; [|done]. injection Hp as <- <- <-. apply stay_ok; [done|].
    split; [|by rewrite Hmode]. done.
  - destruct (ms !! _) as [m|]; [|done]. injection Hp as Hp.
    apply send_step in Hp as (s1 & [= -> -> ->] & Hl & Hwf1); [|done].
    split; [done|split; [done|]]. by apply Hpush.
  - destruct (ms !! _) as [m|]; [|done]. injection Hp as Hp.
    apply send_step in Hp as (s1 & [= -> -> ->] & Hl & Hwf1); [|done].
    split; [done|split; [done|]]. by apply Hpush.
Qed.

Lemma batch_send_ok ms s b tag rc c s' p' sp :
  wf_shared s -> pc_ok s (JBatch ms) (BSend b tag rc) ->
  sends_own (JBatch ms) (BSend b tag rc) c s' ->
  batch_step ms (BSend b tag rc) c s = Some (Some (s', p', sp)) -> step_ok s (JBatch ms) s' p'.
Proof.
  intros Hwf [Hsd Hh] Hown Hp. destruct (sending_next _ _ _ Hsd) as [m Hm].
  destruct c; try done; simpl in Hp; rewrite Hm in Hp; injection Hp as Hp;
    apply send_step in Hp as (s1 & [= -> -> ->] & Hl & Hwf1); try done;
    (split; [done|split; [done|]]).
  - eapply batch_push_ok; [by eapply sending_stable|done|]. simpl.
    split; [by eapply holds_stable|by apply Hown].
  - split; [by eapply sending_stable|]. split; [|done]. by eapply only_under_stable, Hh.
Qed.

(** A failed message of a batch: the registration is undone, then its channel is closed. *)
Lemma batch_fail_ok ms s p s' p' sp b tag rc e :
  wf_shared s -> p = BDelete b tag rc e \/ p = BClose b tag rc e -> pc_ok s (JBatch ms) p ->
  batch_step ms p Go s = Some (Some (s', p', sp)) -> step_ok s (JBatch ms) s' p'.
Proof.
  intros Hwf [->| ->] Hok Hp; simpl in Hp.
  - destruct Hok as (Hsd & Hu & He). injection Hp as <- <- <-.
    destruct (deregister_spec tag s Hwf) as [Hl Hwf1]. split; [done|split; [done|]].
    split; [by eapply sending_stable|]. split; [by apply (later_chans _ _ Hl), Hu|].
    split; [|done]. intros t Ht. simpl in Ht. apply lookup_delete_Some in Ht as [Hne Ht].
    by apply Hne, eq_sym, Hu.
  - destruct Hok as (Hsd & Hc & Hnp & He).
    destruct (close_chan rc (chans s)) as [m'|] eqn:E; [|done]. injection Hp as <- <- <-.
    destruct (close_chan_later _ _ _ Hwf Hnp E) as [Hl Hwf1]. split; [done|split; [done|]].
    destruct (sending_next _ _ _ Hsd) as [m Hm].
    eapply batch_push_ok; [by eapply sending_stable|done|]. simpl.
    by destruct e as [[]| | | | | | | |].
Qed.

Lemma batch_wait_ok ms s b i c s' p' sp :
  wf_shared s -> pc_ok s (JBatch ms) (BWait b i) ->
  batch_step ms (BWait b i) c s = Some (Some (s', p', sp)) -> step_ok s (JBatch ms) s' p'.
Proof.
  intros Hwf Hok Hp. destruct c; try done; simpl in Hp;
    destruct (messageErrors b !! i) as [[e'|]|] eqn:Ei; try done.
  - injection Hp as <- <- <-. apply stay_ok; [done|]. by eapply collecting_skip.
  - injection Hp as <- <- <-. apply stay_ok; [done|]. by eapply collecting_done.
  - destruct (collecting_current _ _ _ _ Hok Ei) as (m & tag & rc & Hm & _ & Hrc & Hw).
    rewrite Hrc in Hp. simpl in Hp. destruct (receive rc s) as [[v s1]|] eqn:E; [|done].
    destruct (verdict_evidence s m tag rc v s1 Hwf Hw E) as (Hl & Hwf1 & Hev).
    injection Hp as <- <- <-. split; [done|split; [done|]].
    by eapply batch_set_ok; [eapply collecting_stable|..].
  - destruct (collecting_current _ _ _ _ Hok Ei) as (m & tag & rc & Hm & _).
    injection Hp as <- <- <-. apply stay_ok; [done|]. split; [by eapply lookup_lt_Some|].
    by eapply batch_set_ok.
  - injection Hp as <- <- <-. by apply stay_ok.
Qed.

Lemma batch_step_ok ms s p c s' p' sp :
  wf_shared s -> pc_ok s (JBatch ms) p -> sends_own (JBatch ms) p c s' ->
  batch_step ms p c s = Some (Some (s', p', sp)) -> step_ok s (JBatch ms) s' p'.
Proof.
  intros Hwf Hok Hown Hp. destruct p; try done.
  - by eapply batch_plain_ok.
  - destruct c; try done. injection Hp as <- <- <-. destruct (next_tag_spec s Hwf).
    split; [done|split; [done|]]. by eapply sending_stable.
  - destruct c; try done. injection Hp as <- <- <-.
    destruct (register_spec tag s Hwf) as (Hl & Hwf1 & _).
    split; [done|split; [done|]]. split; [by eapply sending_stable|by apply register_holds].
  - by eapply batch_send_ok.
  - destruct c; try done. by eapply batch_fail_ok; [|left|..].
  - destruct c; try done. by eapply batch_fail_ok; [|right|..].
  - by eapply batch_wait_ok.
  - destruct Hok as [Hi Hcl]. destruct c; try done. simpl in Hp.
    destruct (deliveryTags b !! i) as [tag|] eqn:Et; [|done]. injection Hp as <- <- <-.
    destruct (deregister_spec tag s Hwf) as [Hl Hwf1]. split; [done|split; [done|]].
    by eapply collecting_stable.
Qed.

Lemma thread_step_ok j s p c s' p' sp :
  wf_shared s -> pc_ok s j p -> sends_own j p c s' ->
  thread_step j p c s = Some (Some (s', p', sp)) -> step_ok s j s' p'.
Proof.
  intros Hwf Hok Hown Hp. unfold thread_step in Hp.
  destruct c; try (destruct j; [by eapply publish_step_ok|by eapply batch_step_ok]).
  destruct (prologue j p s) as [[[[s1 p1] sp1]|]|] eqn:Epro.
  - injection Hp as -> -> ->. by eapply prologue_ok.
  - done.
  - destruct j; [by eapply publish_step_ok|by eapply batch_step_ok].
Qed.

(** *** The whole system *)

Definition sys_ok (y : System) : Prop :=
  wf_shared (shared y) /\ Forall (fun x => pc_ok (shared y) x.1 x.2) (threads y).

Lemma sys_ok_later y s' ps cr :
  sys_ok y -> later (shared y) s' -> wf_shared s' ->
  sys_ok {| shared := s'; threads := threads y; procs := ps; crashed := cr |}.
Proof.
  intros [Hwf Hts] Hl Hwf'. split; [done|]. simpl. eapply Forall_impl; [apply Hts|].
  intros [j p] Hp. by eapply pc_ok_stable.
Qed.

Definition event_own (e : Event) (y y' : System) : Prop :=
  match e with
  | Thread i c =>
      forall j p, threads y !! i = Some (j, p) -> sends_own j p c (shared y')
  | _ => True
  end.

Lemma exec_thread_ok i c y y' :
  sys_ok y -> event_own (Thread i c) y y' -> exec (Thread i c) y = Some y' -> sys_ok y'.
Proof.
  intros Hok Hown He. pose proof Hok as [Hwf Hts]. unfold exec in He.
  destruct (crashed y); [done|].
  destruct (threads y !! i) as [[j p]|] eqn:Ei; [|done]. simpl in He.
  destruct (thread_step j p c (shared y)) as [[[[s' p'] sp]|]|] eqn:Es; [| |done];
    injection He as <-; [|done].
  assert (pc_ok (shared y) j p) as Hp by (by apply (Forall_lookup_1 _ _ i _ Hts) in Ei).
  destruct (thread_step_ok j (shared y) p c s' p' sp Hwf Hp (Hown j p Ei) Es)
    as (Hl & Hwf' & Hp').
  destruct (sys_ok_later y s' [] false Hok Hl Hwf') as [_ Hts']. split; [done|]. simpl in *.
  by apply Forall_insert.
Qed.

Lemma exec_ok e y y' : sys_ok y -> event_own e y y' -> exec e y = Some y' -> sys_ok y'.
Proof.
  intros Hok Hown He. pose proof Hok as [Hwf Hts].
  destruct e; [|by eapply exec_thread_ok|..]; unfold exec in He;
    (destruct (crashed y) eqn:Ecr; [done|]).
  - injection He as <-. split; [done|]. simpl. by apply Forall_snoc.
  - destruct (procs y !! k) as [[]|]; [|done..]. by injection He as <-.
  - destruct (procs y !! k) as [[|[ch|] d| | |]|]; try done. case_bool_decide; [|done].
    injection He as <-. apply sys_ok_later; [done|outside|].
    eapply wf_outside; simpl; eauto. apply Hwf.
  - destruct (procs y !! k) as [[| |ch tag ack| |]|]; try done.
    destruct (route_spec ch tag ack (shared y) Hwf) as (s' & E & Hl & Hwf' & _).
    rewrite E in He. injection He as <-. by apply sys_ok_later.
  - destruct (procs y !! k) as [[|[ch|] d| | |]|]; try done. case_bool_decide; [|done].
    by injection He as <-.
  - destruct (procs y !! k) as [[]|]; try done.
    destruct (clear_pending_spec (shared y) Hwf) as (s' & E & Hl & Hwf' & _).
    rewrite E in He. injection He as <-. by apply sys_ok_later.
  - destruct (procs y !! k) as [[| cf d| | |]|]; try done. case_bool_decide; [|done].
    by injection He as <-.
  - injection He as <-. apply sys_ok_later; [done|outside|].
    eapply wf_outside; simpl; eauto. apply Hwf.
  - destruct (closed (shared y)); [done|]. injection He as <-.
    apply sys_ok_later; [done|outside|]. eapply wf_outside; simpl; eauto.
  - injection He as <-. apply sys_ok_later; [done|outside|].
    eapply wf_outside; simpl; eauto. apply Hwf.
  - injection He as <-. destruct (Close (shared y)) as [s'|] eqn:Ec; [|done].
    unfold Close in Ec. destruct (started (shared y)); [|injection Ec as <-; by destruct y].
    destruct (close_signal _ _) as [s1|] eqn:E1; [|done]. injection Ec as <-.
    destruct (close_signal_later _ _ _ Hwf E1) as [Hl1 Hwf1]. apply sys_ok_later; [done|..].
    + apply (later_trans _ s1); [done|outside].
    + eapply wf_outside; simpl; eauto. apply Hwf1.
Qed.

Lemma initial_ok b : sys_ok (initial b).
Proof. destruct b; (split; [split; simpl; eauto; done|by apply Forall_nil]). Qed.

End Invariant.

(** ** All runs *)

(** Nothing known about which message a number stands for. *)
Definition any_number (s : Shared) (m : Message) (tag : Z) (c : chan_id) : Prop := True.

Lemma pub_run_app es1 es2 y : run (es1 ++ es2) y = y' ← run es1 y; run es2 y'.
Proof.
  revert y. induction es1 as [|e es1 IH]; intros y; simpl; [done|].
  by destruct (exec e y); simpl.
Qed.

Lemma run_ok es y y' : sys_ok any_number y -> run es y = Some y' -> sys_ok any_number y'.
Proof.
  revert y. induction es as [|e es IH]; intros y Hok Hr; simpl in Hr; [by simplify_eq|].
  destruct (exec e y) as [y1|] eqn:Ee; [|done]. apply (IH y1); [|done].
  eapply exec_ok; [done..| |done]. destruct e; try done. intros j p _.
  by destruct j, p, c.
Qed.

Lemma reachable_ok b y : reachable b y -> sys_ok any_number y.
Proof. intros [es Hr]. eapply run_ok; [|done]. apply initial_ok. Qed.

(** C1: in every reachable state a confirmation processor that holds a confirmation or the
    news that its channel is closed can run its locked section to the end: it neither panics
    nor blocks on a full result channel with the publisher's lock held, because result
    channels in the pending map are always open and empty.  Afterwards the number, or the
    whole map, is gone from the pending map, and the processor is in its loop again, or has
    exited. *)
Theorem processor_never_blocks b y k p :
  reachable b y -> crashed y = false -> procs y !! k = Some p ->
  match p with
  | Routing _ tag _ => exists y', exec (ProcRoute k) y = Some y' /\ crashed y' = false /\
      pending (shared y') = delete tag (pending (shared y)) /\ procs y' !! k = Some Loop
  | Closing => exists y', exec (ProcClear k) y = Some y' /\ crashed y' = false /\
      pending (shared y') = ∅ /\ procs y' !! k = Some Exited
  | _ => True
  end.
Proof.
  intros [Hwf _]%reachable_ok Hcr Hk. pose proof (lookup_lt_Some _ _ _ Hk) as Hlt.
  destruct p as [| |ch tag ack| |]; try done; unfold exec; rewrite Hcr, Hk.
  - destruct (route_spec ch tag ack (shared y) Hwf) as (s' & -> & _ & _ & Hp & _).
    eexists. split_and!; [done..|]. simpl. by apply list_lookup_insert_eq.
  - destruct (clear_pending_spec (shared y) Hwf) as (s' & -> & _ & _ & Hp & _).
    eexists. split_and!; [done..|]. simpl. by apply list_lookup_insert_eq.
Qed.

Lemma send_no_panic {B} ok n s (k : Shared -> B) :
  wf_shared s -> (s' ← send ok n s; Some (k s')) <> None.
Proof. intros Hwf. by destruct (send_spec ok n s Hwf) as (s' & -> & _). Qed.

(** The two panicking points of a call. *)
Lemma thread_panic j p c s :
  wf_shared s -> pc_ok any_number s j p -> thread_step j p c s = Some None ->
  c = Go /\
  ((exists d, p = PCloseDone d /\ d ∈ closed_done s) \/
   (exists ms bt tag rc er ch, j = JBatch ms /\ p = BClose bt tag rc er /\
      chans s !! rc = Some ch /\ is_closed ch = true)).
Proof.
  intros Hwf Hok Hp.
  destruct p, j, c; simpl in Hp; try done; unfold thread_step in Hp; simpl in Hp;
    try (repeat split_match; done);
    try (by apply (inj Some), send_no_panic in Hp);
    try (by destruct (ms !! _); [apply (inj Some), send_no_panic in Hp|]).
  1-2: by destruct (reset_section_spec currentChannelID s Hwf) as (? & ? & E & _); rewrite E in Hp.
  1-2: split; [done|]; left; exists oldDone; split; [done|]; unfold close_signal in Hp;
    by case_bool_decide.
  - by destruct (receive c0 s) as [[]|].
  - split; [done|]. right. destruct Hok as (_ & [ch Hc] & _).
    do 6 eexists. split_and!; [done..|]. unfold close_chan in Hp. rewrite Hc in Hp.
    by destruct (is_closed ch).
  - destruct (messageErrors b !! i) as [[]|]; try done. destruct (resultChans b !! i); [|done].
    simpl in Hp. by destruct (receive _ s) as [[]|].
  - by destruct (deliveryTags b !! i).
Qed.

(** C19: what can bring the process down: in every reachable state the only panicking steps
    are closing a done channel a second time (in [ensureConfirmsSetup] or [Close]) and
    closing, for a batch message whose send failed, a result channel that the processor has
    already closed.  No step dereferences a nil channel, and no result channel in the
    pending map is ever closed twice. *)
Theorem panic_causes b y e y' :
  reachable b y -> exec e y = Some y' -> crashed y' = true ->
  (exists i j d, e = Thread i Go /\ threads y !! i = Some (j, PCloseDone d) /\
     d ∈ closed_done (shared y)) \/
  (exists i ms bt tag c er ch, e = Thread i Go /\
     threads y !! i = Some (JBatch ms, BClose bt tag c er) /\
     chans (shared y) !! c = Some ch /\ is_closed ch = true) \/
  (e = ClosePublisher /\ started (shared y) = true /\
     done (shared y) ∈ closed_done (shared y)).
Proof.
  intros Hr He Hcr. destruct (reachable_ok b y Hr) as [Hwf Hts]. unfold exec in He.
  destruct (crashed y) eqn:Hy; [done|]. destruct e.
  - solve [simplify_eq/=; congruence].
  - destruct (threads y !! i) as [[j p]|] eqn:Ei; [|done]. simpl in He.
    destruct (thread_step j p c (shared y)) as [[[[s' p'] sp]|]|] eqn:Es; [solve [simplify_eq/=; congruence]| |done].
    apply (Forall_lookup_1 _ _ i _ Hts) in Ei as Hp.
    destruct (thread_panic j p c (shared y) Hwf Hp Es) as [-> [(d & -> & Hd)|Hc]].
    + left. by exists i, j, d.
    + right; left. destruct Hc as (ms & bt & tag & c & er & ch & -> & -> & ? & ?).
      by exists i, ms, bt, tag, c, er, ch.
  - repeat split_match; solve [simplify_eq/=; congruence].
  - repeat split_match; solve [simplify_eq/=; congruence].
  - destruct (procs y !! k) as [[| |ch tag ack| |]|]; try done.
    destruct (route_spec ch tag ack (shared y) Hwf) as (s' & E & _).
    rewrite E in He. solve [simplify_eq/=; congruence].
  - repeat split_match; solve [simplify_eq/=; congruence].
  - destruct (procs y !! k) as [[]|]; try done.
    destruct (clear_pending_spec (shared y) Hwf) as (s' & E & _).
    rewrite E in He. solve [simplify_eq/=; congruence].
  - repeat split_match; solve [simplify_eq/=; congruence].
  - solve [simplify_eq/=; congruence].
  - repeat split_match; solve [simplify_eq/=; congruence].
  - solve [simplify_eq/=; congruence].
  - right; right. unfold Close, close_signal in He.
    destruct (started (shared y)) eqn:Hst; [|solve [simplify_eq/=; congruence]]. split_and!; try done.
    case_bool_decide; [done|]. solve [simplify_eq/=; congruence].
Qed.

(** ** Termination of calls *)

Definition messages (j : Job) : nat := match j with JPublish _ => 1 | JBatch ms => length ms end.

(** An upper bound on the steps a call still takes. *)
Definition rank (j : Job) (p : pc) : nat :=
  let n := messages j in
  let left (b : Batch) := 5 * (n - length (messageErrors b)) + 2 * n + 1 in
  match p with
  | PStart => 7 * n + 7
  | PEnsure => 7 * n + 6
  | PReset _ => 7 * n + 5
  | PCloseDone _ => 7 * n + 4
  | PResetup => 7 * n + 3
  | PCheck => 7 * n + 2
  | PTag => 5
  | PRegister _ => 4
  | PSend _ _ => 3
  | PWait _ _ => 2
  | PPlain | PCleanup _ _ => 1
  | BPlain b => (n - length (messageErrors b)) + 1
  | BTag b => left b
  | BRegister b _ => left b - 1
  | BSend b _ _ => left b - 2
  | BDelete b _ _ _ => left b - 3
  | BClose b _ _ _ => left b - 4
  | BWait b i => 2 * (n - i) + 1
  | BTimeout b i => 2 * (n - i)
  | Returned _ => 0
  end.

Lemma rank_batch_next ms tag c e b :
  length (messageErrors b) < length ms ->
  rank (JBatch ms) (batch_next ms (batch_push tag c e b))
  < 5 * (length ms - length (messageErrors b)) + 2 * length ms + 1 - 4.
Proof.
  intros Hlt. unfold batch_next. case_bool_decide as Hn; simpl in *;
    rewrite length_app in *; simpl in *; lia.
Qed.

Lemma batch_rank ms p c s s' p' sp :
  pc_ok any_number s (JBatch ms) p -> batch_step ms p c s = Some (Some (s', p', sp)) ->
  rank (JBatch ms) p' < rank (JBatch ms) p.
Proof.
  intros Hok Hp.
  assert (forall b m, ms !! length (messageErrors b) = Some m ->
            length (messageErrors b) < length ms) as Hlt by eauto using lookup_lt_Some.
  destruct p, c; try done; simpl in Hp.
  - case_bool_decide; [|done]. injection Hp as <- <- <-. simpl. lia.
  - destruct (ms !! _) as [m|] eqn:Em; [|done]. apply Hlt in Em. simpl in Hp.
    destruct (send _ _ _); [|done]. injection Hp as <- <- <-. simpl. rewrite length_app. simpl. lia.
  - destruct (ms !! _) as [m|] eqn:Em; [|done]. apply Hlt in Em. simpl in Hp.
    destruct (send _ _ _); [|done]. injection Hp as <- <- <-. simpl. rewrite length_app. simpl. lia.
  - injection Hp as <- <- <-. simpl. lia.
  - injection Hp as <- <- <-. destruct Hok as (n & Hn & (_ & _ & H3) & _). simpl. lia.
  - destruct (ms !! _) as [m|] eqn:Em; [|done]. apply Hlt in Em. simpl in Hp.
    destruct (send _ _ _); [|done]. injection Hp as <- <- <-.
    eapply Nat.lt_trans; [by apply rank_batch_next|]. simpl. lia.
  - destruct (ms !! _) as [m|] eqn:Em; [|done]. apply Hlt in Em. simpl in Hp.
    destruct (send _ _ _); [|done]. injection Hp as <- <- <-. simpl. lia.
  - injection Hp as <- <- <-. destruct Hok as ((n & Hn & (_ & _ & H3) & _) & _). simpl. lia.
  - destruct (close_chan _ _); [|done]. injection Hp as <- <- <-.
    destruct Hok as ((n & Hn & (_ & _ & H3) & _) & _). apply rank_batch_next. lia.
  - destruct Hok as ((_ & _ & H3) & Hi & _).
    destruct (messageErrors b !! i) as [[e|]|] eqn:Ei; [|done|]; injection Hp as <- <- <-;
      [apply lookup_lt_Some in Ei|]; simpl; lia.
  - destruct Hok as ((_ & _ & H3) & Hi & _).
    destruct (messageErrors b !! i) as [[e|]|] eqn:Ei; try done. apply lookup_lt_Some in Ei.
    destruct (resultChans b !! i); [|done]. simpl in Hp. destruct (receive _ _) as [[]|]; [|done].
    injection Hp as <- <- <-. simpl. lia.
  - destruct Hok as ((_ & _ & H3) & Hi & _).
    destruct (messageErrors b !! i) as [[e|]|] eqn:Ei; try done. injection Hp as <- <- <-.
    apply lookup_lt_Some in Ei. simpl. lia.
  - destruct (messageErrors b !! i) as [[|]|]; try done. injection Hp as <- <- <-. simpl. lia.
  - destruct Hok as [Hi _]. destruct (deliveryTags b !! i); [|done].
    injection Hp as <- <- <-. simpl. lia.
Qed.

Lemma publish_rank m p c s s' p' sp :
  publish_step m p c s = Some (Some (s', p', sp)) -> rank (JPublish m) p' < rank (JPublish m) p.
Proof.
  intros Hp. destruct p, c; try done; simpl in Hp; try (destruct (send _ _ _); [|done]);
    try (injection Hp as <- <- <-; simpl; lia).
  destruct (receive _ _) as [[v s1]|]; [|done]. injection Hp as <- <- <-.
  destruct (verdict v); simpl; lia.
Qed.

Lemma prologue_rank j p s s' p' sp :
  prologue j p s = Some (Some (s', p', sp)) -> rank j p' < rank j p.
Proof.
  intros Hp. destruct p; try done; simpl in Hp.
  - destruct j as [m|[|m ms]]; injection Hp as <- <- <-; simpl; lia.
  - injection Hp as <- <- <-. destruct (PublisherConfirms s); simpl; lia.
  - destruct (reset_section _ _) as [[s1 [d|]]|]; [..|done]; injection Hp as <- <- <-; simpl; lia.
  - destruct (close_signal _ _); [|done]. injection Hp as <- <- <-. simpl; lia.
  - destruct (resetup s). injection Hp as <- <- <-. simpl; lia.
  - destruct (closed s); [injection Hp as <- <- <-; simpl; lia|].
    destruct (channel s); injection Hp as <- <- <-; [|simpl; lia].
    destruct j, (PublisherConfirms s); simpl; lia.
Qed.

Lemma thread_rank j p c s s' p' sp :
  pc_ok any_number s j p -> thread_step j p c s = Some (Some (s', p', sp)) ->
  rank j p' < rank j p.
Proof.
  intros Hok Hp. unfold thread_step in Hp.
  destruct c; try (destruct j; [by eapply publish_rank|by eapply batch_rank]).
  destruct (prologue j p s) as [r|] eqn:Ep.
  - injection Hp as ->. by eapply prologue_rank.
  - destruct j; [by eapply publish_rank|by eapply batch_rank].
Qed.

(** Some own step is always possible: at the latest the timer fires. *)
Lemma thread_progress j p s :
  pc_ok any_number s j p -> (forall o, p <> Returned o) ->
  exists c r, thread_step j p c s = Some r.
Proof.
  intros Hok Hp. destruct p; try (by exists Go; eexists; unfold thread_step; simpl);
    try (by destruct j; [|exists Go; eexists]); try (by destruct j; [exists Go; eexists|]).
  - exists Go. by destruct j as [m|[|m ms]]; eexists.
  - exists Go. unfold thread_step. simpl. destruct (resetup s). by eexists.
  - exists Go. unfold thread_step. simpl. destruct (closed s); [|destruct (channel s)]; by eexists.
  - destruct j; [|done]. exists SendOk. by eexists.
  - destruct j; [|done]. exists SendOk. by eexists.
  - destruct j; [|done]. exists Timer. by eexists.
  - destruct j as [|ms]; [done|]. destruct Hok as (_ & n & Hn & (_ & _ & H3)).
    destruct (decide (n = length ms)) as [->|Hne].
    + exists Go. eexists. unfold thread_step. simpl. by rewrite bool_decide_eq_true_2.
    + destruct (lookup_lt_is_Some_2 ms (length (messageErrors b))) as [m Hm]; [lia|].
      exists SendOk. eexists. unfold thread_step. simpl. by rewrite Hm.
  - destruct j as [|ms]; [done|]. destruct Hok as [Hsd _].
    destruct (sending_next _ _ _ _ Hsd) as [m Hm].
    exists SendOk. eexists. unfold thread_step. simpl. by rewrite Hm.
  - destruct j as [|ms]; [done|]. unfold thread_step. simpl.
    destruct (messageErrors b !! i) as [[e|]|] eqn:Ei;
      [exists Go|exists Timer|exists Go]; simpl; rewrite ?Ei; by eexists.
  - destruct j as [|ms]; [done|]. destruct Hok as [Hi ((H1 & _) & _)].
    destruct (lookup_lt_is_Some_2 (deliveryTags b) i) as [tag Ht]; [lia|].
    exists Go. unfold thread_step. simpl. rewrite Ht. by eexists.
  - by destruct (Hp o).
Qed.

Lemma exec_others e y y' i x :
  (forall c, e <> Thread i c) -> threads y !! i = Some x -> exec e y = Some y' ->
  threads y' !! i = Some x.
Proof.
  intros Hne Hi He. unfold exec in He. destruct (crashed y); [done|].
  destruct e as [j|k c| | | | | | | | | |]; try (repeat split_match; simplify_eq/=; done).
  - injection He as <-. simpl. by apply lookup_app_l_Some.
  - assert (k <> i) by (intros ->; by apply (Hne c)). destruct (threads y !! k) as [[j p]|]; [|done]. simpl in He.
    destruct (thread_step j p c (shared y)) as [[[[s' p'] sp]|]|]; simplify_eq/=; [|done].
    by rewrite list_lookup_insert_ne.
Qed.

(** A call keeps its job. *)
Lemma exec_job e y y' i j p :
  threads y !! i = Some (j, p) -> exec e y = Some y' -> exists p', threads y' !! i = Some (j, p').
Proof.
  intros Hi He. destruct e as [j0|k c| | | | | | | | | |];
    try (exists p; eapply exec_others; eauto; done).
  destruct (decide (k = i)) as [->|Hne]; [|exists p; eapply exec_others; eauto; congruence].
  unfold exec in He. destruct (crashed y); [done|]. rewrite Hi in He. simpl in He.
  destruct (thread_step j p c (shared y)) as [[[[s' p'] sp]|]|]; simplify_eq/=; [|eauto].
  exists p'. apply list_lookup_insert_eq. eauto using lookup_lt_Some.
Qed.

Lemma run_job es y y' i j p :
  threads y !! i = Some (j, p) -> run es y = Some y' -> exists p', threads y' !! i = Some (j, p').
Proof.
  revert y p. induction es as [|e es IH]; intros y p Hi Hr; simpl in Hr; [by simplify_eq; eauto|].
  destruct (exec e y) as [y1|] eqn:Ee; [|done].
  destruct (exec_job e y y1 i j p Hi Ee) as [p1 H1]. by eapply IH.
Qed.

(** The slots of a returned batch. *)
Lemma returned_batch_slots b y i ms es :
  reachable b y -> threads y !! i = Some (JBatch ms, Returned (OBatch es None)) ->
  length es = length ms.
Proof. intros [_ Hts]%reachable_ok Hi. by apply (Forall_lookup_1 _ _ i _ Hts) in Hi as [? _]. Qed.

(** C11: every call returns: in a reachable state a call that has not returned always has a
    step of its own it can take (at the latest, its timer), every step of its own lowers a
    bound that starts at seven steps per message plus seven, and no step of another
    goroutine, of the broker or of the client moves it. *)
Theorem calls_return b y i j p :
  reachable b y -> crashed y = false -> threads y !! i = Some (j, p) ->
  (p = PStart -> rank j p = 7 * messages j + 7) /\
  ((forall o, p <> Returned o) -> exists c y', exec (Thread i c) y = Some y') /\
  (forall c y', exec (Thread i c) y = Some y' -> crashed y' = false ->
     exists p', threads y' !! i = Some (j, p') /\ rank j p' < rank j p) /\
  (forall e y', (forall c, e <> Thread i c) -> exec e y = Some y' ->
     threads y' !! i = Some (j, p)).
Proof.
  intros [Hwf Hts]%reachable_ok Hcr Hi. apply (Forall_lookup_1 _ _ i _ Hts) in Hi as Hp.
  split_and!.
  - by intros ->.
  - intros Hnr. destruct (thread_progress j p (shared y) Hp Hnr) as (c & r & Hr).
    exists c. eexists. unfold exec. rewrite Hcr, Hi. simpl. by rewrite Hr.
  - intros c y' He Hcr'. unfold exec in He. rewrite Hcr, Hi in He. simpl in He.
    destruct (thread_step j p c (shared y)) as [[[[s' p'] sp]|]|] eqn:Es; simplify_eq/=.
    exists p'. rewrite list_lookup_insert_eq by eauto using lookup_lt_Some.
    split; [done|]. by eapply thread_rank.
  - intros e y' Hne He. by eapply exec_others.
Qed.

(** ** Witnesses *)

Lemma final_reachable b es : runs b es = true -> reachable b (final b es).
Proof. unfold runs, final. intros Hr. exists es. by destruct (run es (initial b)). Qed.

Lemma processor_never_blocks_witness :
  let y := final true (waiting_demo ++ [ProcConfirm 0 1 true]) in
  exists y', exec (ProcRoute 0) y = Some y' /\ crashed y' = false /\
    pending (shared y') = delete 1%Z (pending (shared y)) /\ procs y' !! 0%nat = Some Loop.
Proof.
  assert (runs true (waiting_demo ++ [ProcConfirm 0 1 true]) = true) as Hr
    by (vm_compute; reflexivity).
  apply (processor_never_blocks true (final true (waiting_demo ++ [ProcConfirm 0 1 true])) 0
           (Routing 0 1 true) (final_reachable _ _ Hr)); vm_compute; reflexivity.
Defined.

Lemma calls_return_witness :
  exists c y', exec (Thread 0 c) (final true waiting_demo) = Some y'.
Proof.
  assert (runs true waiting_demo = true) as Hr by (vm_compute; reflexivity).
  assert (threads (final true waiting_demo) !! 0%nat = Some (JPublish (msg 1), PWait 1 2)) as Hi
    by (vm_compute; reflexivity).
  refine (proj1 (proj2 (calls_return true _ 0 _ _ (final_reachable _ _ Hr) _ Hi)) _);
    [vm_compute; reflexivity|done].
Defined.

Lemma panic_causes_witness :
  let y := final true double_close in
  exists y', exec (Thread 0 Go) y = Some y' /\ crashed y' = true /\
  ((exists i j d, Thread 0 Go = Thread i Go /\ threads y !! i = Some (j, PCloseDone d) /\
     d ∈ closed_done (shared y)) \/
  (exists i ms bt tag c er ch, Thread 0 Go = Thread i Go /\
     threads y !! i = Some (JBatch ms, BClose bt tag c er) /\
     chans (shared y) !! c = Some ch /\ is_closed ch = true) \/
  (Thread 0 Go = ClosePublisher /\ started (shared y) = true /\
     done (shared y) ∈ closed_done (shared y))).
Proof.
  assert (runs true double_close = true) as Hr by (vm_compute; reflexivity).
  assert (exec (Thread 0 Go) (final true double_close) = Some (crash (final true double_close)))
    as He by (vm_compute; reflexivity).
  exists (crash (final true double_close)). split; [exact He|]. split; [reflexivity|].
  exact (panic_causes true _ (Thread 0 Go) _ (final_reachable _ _ Hr) He eq_refl).
Defined.

End PubSafety.
