(* ===== verification/PublisherSteps.v ===== *)
(** * What a step of a publishing call does

    The program counters of [Publisher] have some twenty points, but a step does one of nine
    things to the state the goroutines share.  [kind] lists them; the invariants about
    numbers, channels and histories are by cases on it. *)

From stdpp Require Import base gmap strings list fin_maps.
From Stdlib Require Import ZArith Lia.
From S2P Require Import Prelude Errors Values Publisher PublisherSafety.
Import Err Val Pub PubSafety.
Local Open Scope kit_scope.

Module PubSteps.

(** ** Points of a call *)

Definition at_tag (p : pc) : bool := match p with PTag | BTag _ => true | _ => false end.

Definition at_register (p : pc) : option Z :=
  match p with PRegister t | BRegister _ t => Some t | _ => None end.

Definition at_send (p : pc) : option (Z * chan_id) :=
  match p with PSend t c | BSend _ t c => Some (t, c) | _ => None end.

(** The number a call has taken but not yet sent its message under. *)
Definition taken (p : pc) : option Z :=
  match p with
  | PRegister t | PSend t _ | BRegister _ t | BSend _ t _ => Some t
  | _ => None
  end.

(** The message a call sends next. *)
Definition next_message (j : Job) (p : pc) : option Message :=
  match j, p with
  | JPublish m, (PPlain | PSend _ _) => Some m
  | JBatch ms, (BPlain b | BSend b _ _) => ms !! length (messageErrors b)
  | _, _ => None
  end.

(** The client's side of the state. *)
Definition client_side (s : Shared) : bool * option handle * bool * nat * gset handle :=
  (closed s, channel s, PublisherConfirms s, opened s, dead s).

(** What a reset of [ensureConfirmsSetup] leaves. *)
Record reset_to (id : option handle) (s s' : Shared) : Prop := {
  reset_pending : pending s' = ∅;
  reset_tag : deliveryTag s' = 0%Z;
  reset_channelID : channelID s' = id;
  reset_next : (next_id s <= next_id s')%nat;
  reset_client : client_side s' = client_side s;
  reset_confirms : confirms s' = confirms s;
  reset_sent : sent s' = sent s;
  reset_confirmed : confirmed s' = confirmed s;
  reset_registered : registered s' = registered s;
  reset_routed : routed s' = routed s
}.

(** ** Kinds of steps *)

Inductive kind (j : Job) (p p' : pc) (c : Choice) (s : Shared) : Shared -> bool -> Prop :=
| KLocal m :
    at_tag p = false -> taken p = None -> taken p' = None ->
    (forall id, p' = PReset id -> id = channel s) ->
    kind j p p' c s (s <| chans := m |>) false
| KReset id s' d :
    p = PReset id -> id <> channelID s -> p' = PCloseDone d -> reset_to id s s' ->
    kind j p p' c s s' false
| KClose d cd :
    p = PCloseDone d -> p' = PResetup -> kind j p p' c s (s <| closed_done := cd |>) false
| KSetup h :
    p = PResetup -> p' = PCheck -> channel s = Some h ->
    kind j p p' c s (s <| confirms := Some h |> <| started := true |>) true
| KTag :
    at_tag p = true -> at_register p' = Some (next_tag s).2 -> kind j p p' c s (next_tag s).1 false
| KRegister t :
    at_register p = Some t -> at_send p' = Some (t, next_id s) ->
    kind j p p' c s (register t s).1 false
| KSend m h l :
    next_message j p = Some m -> channel s = Some h -> taken p' = None ->
    (forall id, p' <> PReset id) -> l = sent s ++ [(h, mid m)] ->
    kind j p p' c s (s <| sent := l |>) false
| KFail e :
    c = SendErr e -> is_Some (at_send p) -> taken p' = None -> (forall id, p' <> PReset id) -> kind j p p' c s s false
| KDelete t :
    at_tag p = false -> taken p = None -> taken p' = None -> (forall id, p' <> PReset id) ->
    kind j p p' c s (deregister t s) false.

Lemma receive_chans c s v s' : receive c s = Some (v, s') -> exists m, s' = s <| chans := m |>.
Proof.
  unfold receive. intros Hr.
  destruct (chans s !! c) as [[[b|] []]|]; try done; injection Hr as <- <-; eauto;
    exists (chans s); by destruct s.
Qed.

Lemma local_same j p p' c s :
  at_tag p = false -> taken p = None -> taken p' = None ->
  (forall id, p' = PReset id -> id = channel s) -> kind j p p' c s s false.
Proof.
  intros H1 H2 H3 H4. assert (s = s <| chans := chans s |>) as E by (by destruct s).
  rewrite E at 2. by apply KLocal.
Qed.

(** The reset of [ensureConfirmsSetup], field by field. *)
Lemma reset_kind id s s' old :
  wf_shared s -> reset_section id s = Some (s', old) ->
  (id = channelID s /\ s' = s /\ old = None) \/
  (id <> channelID s /\ old = Some (done s) /\ reset_to id s s').
Proof.
  intros Hwf E. unfold reset_section in E. case_bool_decide as Hid.
  { left. by injection E as <- <-. }
  right. revert E. set (s1 := if started s then _ else s). set (s2 := s1 <| deliveryTag := 0%Z |>).
  assert (wf_shared s2 /\ (next_id s <= next_id s2)%nat) as [Hwf2 Hn].
  { pose proof (client_connected s Hwf). subst s2 s1. destruct (started s); simpl;
      (split; [apply (wf_outside s)|]); simpl; try done; lia. }
  assert (client_side s2 = client_side s /\ confirms s2 = confirms s /\ sent s2 = sent s /\
    confirmed s2 = confirmed s /\ registered s2 = registered s /\ routed s2 = routed s /\
    deliveryTag s2 = 0%Z) as (?&?&?&?&?&?&?) by (subst s2 s1; destruct (started s); split_and!; reflexivity).
  destruct (clear_pending_spec s2 Hwf2) as (s3 & -> & _ & _ & Hp & Ht & _ & _ & _ & Heq).
  intros [= <- <-]. split_and!; [done..|].
  clearbody s2. rewrite Heq. split; unfold client_side in *; simpl; try congruence; lia.
Qed.

Lemma resetup_with h s :
  channel s = Some h -> resetup s = (s <| confirms := Some h |> <| started := true |>, true).
Proof. intros Hh. unfold resetup, setupConfirms. destruct s. simpl in *. by subst. Qed.

Lemma prologue_kind j p s s' p' sp :
  wf_shared s -> prologue j p s = Some (Some (s', p', sp)) -> kind j p p' Go s s' sp.
Proof.
  intros Hwf Hp. destruct p; simpl in Hp; try done.
  - destruct j as [m|[|m ms]]; injection Hp as <- <- <-; by apply local_same.
  - injection Hp as <- <- <-. apply local_same; [done..|by destruct (PublisherConfirms s)|].
    intros id. destruct (PublisherConfirms s); by intros [= <-].
  - destruct (reset_section _ s) as [[s1 old]|] eqn:E; [|done]. injection Hp as <- <- <-.
    destruct (reset_kind _ _ _ _ Hwf E) as [(_ & -> & ->)|(? & -> & ?)];
      [by apply local_same|by eapply KReset].
  - unfold close_signal in Hp. case_bool_decide; [done|]. injection Hp as <- <- <-.
    by eapply KClose.
  - destruct (client_connected s Hwf) as [h Hh]. rewrite (resetup_with h s Hh) in Hp.
    injection Hp as <- <- <-. by apply (KSetup j PResetup PCheck Go s h).
  - destruct (closed s); [injection Hp as <- <- <-; by apply local_same|].
    destruct (channel s); injection Hp as <- <- <-; [|by apply local_same].
    destruct j, (PublisherConfirms s); by apply local_same.
Qed.

Lemma send_with ok n s s' :
  send ok n s = Some s' -> exists h, channel s = Some h /\
    s' = if ok then s <| sent := sent s ++ [(h, n)] |> else s.
Proof.
  unfold send. intros Hs. destruct s as [? [h|]]; simpl in Hs; [|done]. injection Hs as <-.
  exists h. by destruct ok.
Qed.

(** A send, numbered or not. *)
Lemma send_kind j p p' m c s s' :
  next_message j p = Some m -> taken p' = None -> (forall id, p' <> PReset id) ->
  at_tag p = false -> is_Some (at_send p) \/ taken p = None ->
  (exists e, c = SendErr e /\ send false (mid m) s = Some s') \/ send true (mid m) s = Some s' ->
  kind j p p' c s s' false.
Proof.
  intros Hm Ht Hr Hg Hp [(e & -> & Hs)|Hs]; destruct (send_with _ _ _ _ Hs) as (h & Hh & ->);
    [|by eapply (KSend j p p' c s m h)].
  destruct Hp as [?|?]; [by eapply KFail|apply local_same; try done].
  intros id ->. by destruct (Hr id).
Qed.

Lemma batch_next_plain ms b :
  taken (batch_next ms b) = None /\ forall id, batch_next ms b <> PReset id.
Proof. unfold batch_next. by case_bool_decide. Qed.

Lemma publish_kind m p c s s' p' sp :
  publish_step m p c s = Some (Some (s', p', sp)) -> kind (JPublish m) p p' c s s' sp.
Proof.
  intros Hp. destruct p, c; try done; simpl in Hp;
    try (destruct (send _ _ _) eqn:Es; [|done]; injection Hp as <- <- <-;
         eapply (send_kind _ _ _ m); simpl; eauto; done).
  - injection Hp as <- <- <-. by apply KTag.
  - injection Hp as <- <- <-. by apply KRegister.
  - destruct (receive _ _) as [[v s1]|] eqn:Er; [|done]. injection Hp as <- <- <-.
    apply receive_chans in Er as [x ->]. apply KLocal; try done; by destruct (verdict v).
  - injection Hp as <- <- <-. by apply local_same.
  - injection Hp as <- <- <-. by apply local_same.
  - injection Hp as <- <- <-. by apply KDelete.
Qed.

Lemma batch_kind ms p c s s' p' sp :
  batch_step ms p c s = Some (Some (s', p', sp)) -> kind (JBatch ms) p p' c s s' sp.
Proof.
  intros Hp. destruct p, c; try done; simpl in Hp;
    try (destruct (ms !! _) as [m|] eqn:Em; [|done]; simpl in Hp;
         destruct (send _ _ _) eqn:Es; [|done]; injection Hp as <- <- <-;
         eapply (send_kind _ _ _ m); simpl; eauto; try done; apply batch_next_plain).
  - case_bool_decide; [|done]. injection Hp as <- <- <-. by apply local_same.
  - injection Hp as <- <- <-. by apply KTag.
  - injection Hp as <- <- <-. by apply KRegister.
  - injection Hp as <- <- <-. by apply KDelete.
  - destruct (close_chan _ _); [|done]. injection Hp as <- <- <-.
    apply KLocal; try done; [apply batch_next_plain|].
    intros id E. by apply batch_next_plain in E.
  - destruct (messageErrors b !! i) as [[e|]|]; [|done|]; injection Hp as <- <- <-;
      by apply local_same.
  - destruct (messageErrors b !! i) as [[e|]|]; try done.
    destruct (resultChans b !! i); [|done]. simpl in Hp.
    destruct (receive _ _) as [[v s1]|] eqn:Er; [|done]. injection Hp as <- <- <-.
    apply receive_chans in Er as [x ->]. by apply KLocal.
  - destruct (messageErrors b !! i) as [[e|]|]; try done. injection Hp as <- <- <-.
    by apply local_same.
  - destruct (messageErrors b !! i) as [[e0|]|]; try done. injection Hp as <- <- <-.
    by apply local_same.
  - destruct (deliveryTags b !! i); [|done]. injection Hp as <- <- <-. by apply KDelete.
Qed.

(** Every step of a call is of one of the kinds. *)
Lemma thread_kind j p c s s' p' sp :
  wf_shared s -> thread_step j p c s = Some (Some (s', p', sp)) -> kind j p p' c s s' sp.
Proof.
  intros Hwf Hp. unfold thread_step in Hp.
  destruct c; try (destruct j; [by eapply publish_kind|by eapply batch_kind]).
  destruct (prologue j p s) as [r|] eqn:Ep.
  - injection Hp as ->. by apply prologue_kind.
  - destruct j; [by eapply publish_kind|by eapply batch_kind].
Qed.

(** ** Kinds of events *)

(** What processors and the environment leave alone, a reconnection apart. *)
Record quiet (s s' : Shared) : Prop := {
  quiet_channel : channel s' = channel s;
  quiet_mode : PublisherConfirms s' = PublisherConfirms s;
  quiet_confirms : confirms s' = confirms s;
  quiet_tag : deliveryTag s' = deliveryTag s;
  quiet_id : channelID s' = channelID s;
  quiet_next : next_id s' = next_id s;
  quiet_opened : opened s' = opened s;
  quiet_sent : sent s' = sent s;
  quiet_registered : registered s' = registered s
}.

(** What an event other than a step of a call does to the shared state and the processors. *)
Inductive action (s : Shared) (ps : list Proc) : Event -> Shared -> list Proc -> Prop :=
| AEnter k :
    ps !! k = Some Loop ->
    action s ps (ProcEnter k) s (<[k := Select (confirms s) (done s)]> ps)
| AConfirm k ch d tag ack s' :
    ps !! k = Some (Select (Some ch) d) -> confirmable ch tag ack s -> quiet s s' ->
    pending s' = pending s -> routed s' = routed s ->
    confirmed s' = confirmed s ++ [(ch, tag, ack)] ->
    action s ps (ProcConfirm k tag ack) s' (<[k := Routing ch tag ack]> ps)
| ARoute k ch tag ack s' :
    ps !! k = Some (Routing ch tag ack) -> quiet s s' -> confirmed s' = confirmed s ->
    pending s' = delete tag (pending s) ->
    routed s' = routed s \/
      (exists c, pending s !! tag = Some c /\ routed s' = routed s ++ [(c, ch, tag, ack)]) ->
    action s ps (ProcRoute k) s' (<[k := Loop]> ps)
| AStop e k p s' :
    p = Closing \/ p = Exited -> quiet s s' -> confirmed s' = confirmed s ->
    routed s' = routed s -> pending s' = pending s \/ pending s' = ∅ ->
    action s ps e s' (<[k := p]> ps)
| AOther e s' :
    quiet s s' -> confirmed s' = confirmed s -> routed s' = routed s -> pending s' = pending s ->
    action s ps e s' ps
| AReconnect s0 :
    quiet s s0 -> confirmed s0 = confirmed s -> routed s0 = routed s -> pending s0 = pending s ->
    action s ps Reconnected (s0 <| channel := Some (opened s) |> <| opened := S (opened s) |>) ps.

Lemma route_action ch tag ack s :
  wf_shared s ->
  exists s', route ch tag ack s = Some (Some s') /\ quiet s s' /\ confirmed s' = confirmed s /\
    pending s' = delete tag (pending s) /\
    (routed s' = routed s \/
     exists c, pending s !! tag = Some c /\ routed s' = routed s ++ [(c, ch, tag, ack)]).
Proof.
  intros Hwf. unfold route. destruct (pending s !! tag) as [c|] eqn:Ep.
  - rewrite (pending_open s Hwf tag c Ep). simpl. eexists. split; [done|].
    split_and!; [by split|done..|]. right. by exists c.
  - exists s. split_and!; [done|by split|done| |by left]. by rewrite delete_id.
Qed.

(** Every event is a new call, a step of a call, one of these actions, or a panic. *)
Inductive event_cases (y : System) : Event -> System -> Prop :=
| ECrash e : event_cases y e (crash y)
| ESpawn j l :
    l = threads y ++ [(j, PStart)] -> event_cases y (Spawn j)
      {| shared := shared y; threads := l; procs := procs y; crashed := false |}
| EThread i c j p p' s' sp :
    threads y !! i = Some (j, p) -> thread_step j p c (shared y) = Some (Some (s', p', sp)) ->
    kind j p p' c (shared y) s' sp ->
    event_cases y (Thread i c)
      {| shared := s'; threads := <[i := (j, p')]> (threads y); procs := spawn_if sp (procs y);
         crashed := false |}
| EAction e s' ps' :
    action (shared y) (procs y) e s' ps' ->
    event_cases y e {| shared := s'; threads := threads y; procs := ps'; crashed := false |}.

Lemma exec_cases e y y' :
  wf_shared (shared y) -> exec e y = Some y' -> event_cases y e y'.
Proof.
  intros Hwf He. unfold exec in He. destruct (crashed y) eqn:Ecr; [done|]. destruct e.
  - injection He as <-. by apply ESpawn.
  - destruct (threads y !! i) as [[j p]|] eqn:Ei; [|done]. simpl in He.
    destruct (thread_step j p c (shared y)) as [[[[s' p'] sp]|]|] eqn:Es; [| |done];
      injection He as <-; [|apply ECrash]. eapply EThread; eauto. by apply thread_kind.
  - destruct (procs y !! k) as [[]|] eqn:Ek; [|done..]. injection He as <-.
    by apply EAction, AEnter.
  - destruct (procs y !! k) as [[|[ch|] d| | |]|] eqn:Ek; try done.
    case_bool_decide; [|done]. injection He as <-. apply EAction. by eapply AConfirm.
  - destruct (procs y !! k) as [[| |ch tag ack| |]|] eqn:Ek; try done.
    destruct (route_action ch tag ack (shared y) Hwf) as (s' & E & ? & ? & ? & ?).
    rewrite E in He. injection He as <-. apply EAction. by eapply ARoute.
  - destruct (procs y !! k) as [[|[ch|] d| | |]|]; try done. case_bool_decide; [|done].
    injection He as <-. apply EAction, AStop; auto; by split.
  - destruct (procs y !! k) as [[]|]; try done. unfold clear_pending in He.
    destruct (clear_pending_spec (shared y) Hwf) as (s' & E & _). unfold clear_pending in E.
    destruct (close_all _ _) as [m|]; [|done]. simpl in He. injection He as <-.
    apply EAction, AStop; simpl; auto; by split.
  - destruct (procs y !! k) as [[|cf d| | |]|]; try done. case_bool_decide; [|done].
    injection He as <-. apply EAction, AStop; auto; by split.
  - injection He as <-. unfold with_shared. rewrite Ecr. by apply EAction, AOther.
  - destruct (closed (shared y)); [done|]. injection He as <-. unfold with_shared. rewrite Ecr.
    pose (s0 := (shared y) <| closed := false |>).
    apply EAction, (AReconnect (shared y) (procs y) s0); [by split|done..].
  - injection He as <-. unfold with_shared. rewrite Ecr. by apply EAction, AOther.
  - injection He as <-. destruct (Close (shared y)) as [s'|] eqn:Ec; [|apply ECrash].
    unfold with_shared. rewrite Ecr. unfold Close, close_signal in Ec.
    destruct (started (shared y)); [case_bool_decide; [done|]|]; injection Ec as <-;
      by apply EAction, AOther.
Qed.

(** ** Invariants of all runs *)

(** A property that every event keeps, in states that satisfy the general invariant. *)
Lemma run_invariant (P : System -> Prop) b es y :
  (forall e y y', sys_ok any_number y -> P y -> exec e y = Some y' -> P y') ->
  P (initial b) -> run es (initial b) = Some y -> P y.
Proof.
  intros Hstep. generalize (initial_ok any_number b). generalize (initial b).
  induction es as [|e es IH]; intros y0 Hok H0 Hr; simpl in Hr; [by simplify_eq|].
  destruct (exec e y0) as [y1|] eqn:E; [|done]. apply (IH y1); [|by eapply Hstep|done].
  apply (run_ok [e] y0); [done|]. simpl. by rewrite E.
Qed.

(** *** Channels in use *)

(** Only channels that were opened are in use. *)
Record opened_only (y : System) : Prop := {
  oo_channel : forall h, channel (shared y) = Some h -> (h < opened (shared y))%nat;
  oo_id : forall h, channelID (shared y) = Some h -> (h < opened (shared y))%nat;
  oo_sent : Forall (fun x => x.1 < opened (shared y))%nat (sent (shared y));
  oo_confirmed : Forall (fun x => x.1.1 < opened (shared y))%nat (confirmed (shared y));
  oo_calls : Forall (fun x => forall h, x.2 = PReset (Some h) -> (h < opened (shared y))%nat) (threads y)
}.

(** A step of a call that leaves channel numbers alone, or uses the current one. *)
Definition uses_channel (p p' : pc) (s s' : Shared) : Prop :=
  client_side s' = client_side s /\ confirmed s' = confirmed s /\
  (channelID s' = channelID s \/ p = PReset (channelID s')) /\
  (sent s' = sent s \/ exists h n, channel s = Some h /\ sent s' = sent s ++ [(h, n)]) /\
  (forall h, p' = PReset h -> h = channel s).

Lemma kind_uses j p p' c s s' sp : kind j p p' c s s' sp -> uses_channel p p' s s'.
Proof.
  intros Hk. unfold uses_channel, client_side.
  destruct Hk as [m|id s' d -> _ -> Hr|d cd -> ->|h -> -> _|_ H|t _ H|m h l _ ? _ H ->|e _ _ _ H|
                  t _ _ _ H]; simpl.
  - split_and!; auto.
  - destruct Hr. subst. split_and!; auto; done.
  - split_and!; auto; done.
  - split_and!; auto; done.
  - split_and!; auto. by destruct p'.
  - split_and!; auto. by destruct p'.
  - split_and!; eauto. intros id E. by apply H in E.
  - split_and!; auto. intros id E. by apply H in E.
  - split_and!; auto. intros id E. by apply H in E.
Qed.

Lemma thread_uses j p c s s' p' sp :
  wf_shared s -> thread_step j p c s = Some (Some (s', p', sp)) -> uses_channel p p' s s'.
Proof. intros Hwf Hp. eapply kind_uses. by apply thread_kind. Qed.

Lemma sent_on_pos ch s : (0 < sent_on ch s)%nat <-> exists n, (ch, n) ∈ sent s.
Proof.
  unfold sent_on. split.
  - destruct (filter _ (sent s)) as [|[h n] l] eqn:Ef; simpl; [lia|]. intros _.
    assert ((h, n) ∈ filter (fun x => fst x = ch) (sent s)) as Hx by (rewrite Ef; by left).
    apply list_elem_of_filter in Hx as [<- Hx]. eauto.
  - intros [n Hn]. assert ((ch, n) ∈ filter (fun x => fst x = ch) (sent s)) as Hx
      by (by apply list_elem_of_filter).
    destruct (filter _ (sent s)); simpl; [by apply elem_of_nil in Hx|lia].
Qed.

Lemma confirmable_opened ch tag ack s n :
  confirmable ch tag ack s -> Forall (fun x => x.1 < n)%nat (sent s) -> (ch < n)%nat.
Proof.
  intros [[H1 H2] _] Hs. destruct (proj1 (sent_on_pos ch s)) as [x Hx]; [lia|].
  by apply (proj1 (Forall_forall _ _) Hs) in Hx.
Qed.

Lemma opened_only_frame y s' ps cr :
  opened_only y -> quiet (shared y) s' ->
  Forall (fun x => x.1.1 < opened (shared y))%nat (confirmed s') ->
  opened_only {| shared := s'; threads := threads y; procs := ps; crashed := cr |}.
Proof.
  intros [Hc Hi Hs Hcf Ht] [Ec _ _ _ Ei _ Eo Es _] Ecf.
  split; simpl; rewrite ?Eo, ?Ec, ?Ei, ?Es; done.
Qed.

Lemma opened_only_thread y s' ps cr i j p p' :
  opened_only y -> threads y !! i = Some (j, p) -> uses_channel p p' (shared y) s' ->
  opened_only {| shared := s'; threads := <[i := (j, p')]> (threads y); procs := ps; crashed := cr |}.
Proof.
  intros [Hc Hi Hs Hcf Ht] Hlk (Ecl & Ecf & Eid & Es & Ep).
  injection Ecl as _ Ec _ Eo _. split; simpl; rewrite ?Eo, ?Ec, ?Ecf; [done| |..|].
  - intros h Hh. destruct Eid as [E|E]; [apply Hi; congruence|].
    rewrite Hh in E. exact (Forall_lookup_1 _ _ _ _ Ht Hlk h E).
  - destruct Es as [->|(h & n & Eh & ->)]; [done|]. apply Forall_app; split; [done|].
    apply Forall_singleton. by apply Hc.
  - done.
  - apply Forall_insert; [done|]. intros h Hh. simpl in Hh. apply Hc. by rewrite <- (Ep _ Hh).
Qed.

Lemma opened_only_exec e y y' :
  sys_ok any_number y -> opened_only y -> exec e y = Some y' -> opened_only y'.
Proof.
  intros [Hwf _] Ho He. pose proof Ho as [Hc Hi Hs Hcf Ht].
  destruct (exec_cases e y y' Hwf He) as [e|j l ->|i c j p p' s' sp Hlk _ Hk|e s' ps' Ha].
  - by split.
  - split; try done. by apply Forall_snoc.
  - eapply opened_only_thread; eauto using kind_uses.
  - destruct Ha as [k _|k ch d tag ack s' _ Hok Hq _ _ E|k ch tag ack s' _ Hq E _ _|
                    e k p s' _ Hq E _ _|e s' Hq E _ _|s0 Hq E _ _];
      try (apply opened_only_frame; [done..|by rewrite E]).
    + by apply opened_only_frame.
    + apply opened_only_frame; [done..|]. rewrite E. apply Forall_snoc. split; [done|].
      by eapply confirmable_opened.
    + destruct Hq as [_ _ _ _ Ei _ _ Es _]. split; simpl; rewrite ?Ei, ?Es, ?E.
      * intros h [= <-]. lia.
      * intros h Hh. specialize (Hi h Hh). lia.
      * eapply Forall_impl; [exact Hs|]. simpl. lia.
      * eapply Forall_impl; [exact Hcf|]. simpl. lia.
      * eapply Forall_impl; [exact Ht|]. simpl. intros x Hx h Eh. specialize (Hx h Eh). lia.
Qed.

Lemma opened_only_run b es y : run es (initial b) = Some y -> opened_only y.
Proof.
  apply run_invariant; [apply opened_only_exec|]. destruct b; split; simpl; try done;
    (intros h [= <-]; lia) || apply Forall_nil_2.
Qed.

(** *** Answers come from the broker *)

(** What processors hold, and what they have delivered, the broker has said. *)
Record truthful (y : System) : Prop := {
  tr_routing : forall k ch t b, procs y !! k = Some (Routing ch t b) ->
    (ch, t, b) ∈ confirmed (shared y);
  tr_routed : forall c ch t b, (c, ch, t, b) ∈ routed (shared y) ->
    (ch, t, b) ∈ confirmed (shared y)
}.

Lemma kind_routed j p p' c s s' sp : kind j p p' c s s' sp -> routed s' = routed s.
Proof. destruct 1 as [|id s' d _ _ _ []| | | | | | |]; done. Qed.

Lemma spawn_if_routing sp ps k ch t b :
  spawn_if sp ps !! k = Some (Routing ch t b) -> ps !! k = Some (Routing ch t b).
Proof.
  destruct sp; [|done]. simpl. intros [Hk|[_ Hk]]%lookup_app_Some; [done|].
  by apply list_lookup_singleton_Some in Hk as [_ ?].
Qed.

Lemma truthful_frame y s' ts ps cr :
  truthful y -> (exists l, confirmed s' = confirmed (shared y) ++ l) ->
  (forall k ch t b, ps !! k = Some (Routing ch t b) ->
     procs y !! k = Some (Routing ch t b) \/ (ch, t, b) ∈ confirmed s') ->
  (forall c ch t b, (c, ch, t, b) ∈ routed s' ->
     (c, ch, t, b) ∈ routed (shared y) \/ (ch, t, b) ∈ confirmed (shared y)) ->
  truthful {| shared := s'; threads := ts; procs := ps; crashed := cr |}.
Proof.
  intros [Hp Hr] [l Hl] Hps Hrt. split; simpl.
  - intros k ch t b [Hk|Hk]%Hps; [|done]. rewrite Hl. apply elem_of_app. left. eauto.
  - intros c ch t b Hin. rewrite Hl. apply elem_of_app. left.
    destruct (Hrt _ _ _ _ Hin) as [?|?]; eauto.
Qed.

Lemma truthful_exec e y y' :
  sys_ok any_number y -> truthful y -> exec e y = Some y' -> truthful y'.
Proof.
  intros [Hwf _] Ht He. pose proof Ht as [Hp Hr].
  assert (forall k q k' ch t b, <[k := q]> (procs y) !! k' = Some (Routing ch t b) ->
    procs y !! k' = Some (Routing ch t b) \/ q = Routing ch t b) as Hins.
  { intros k q k' ch t b [(_ & -> & _)|[_ H]]%list_lookup_insert_Some; auto. }
  destruct (exec_cases e y y' Hwf He) as [e|j l ->|i c j p p' s' sp Hlk _ Hk|e s' ps' Ha].
  - by split.
  - by split.
  - destruct (kind_uses _ _ _ _ _ _ _ Hk) as (_ & Ec & _).
    apply (truthful_frame y); rewrite ?Ec; eauto using grows_refl, spawn_if_routing.
    rewrite (kind_routed _ _ _ _ _ _ _ Hk). auto.
  - destruct Ha as [k Hlk|k ch d tag ack s' Hlk _ _ _ Er E|k ch tag ack s' Hlk _ E _ Er|
                    e k p s' Hq _ E Er _|e s' _ E Er _|s0 _ E Er _];
      apply (truthful_frame y); simpl; rewrite ?E, ?Er; eauto using grows_refl.
    + intros k' ch t b [?|?]%Hins; [by left|done].
    + intros k' ch' t b [?|[= <- <- <-]]%Hins; [by left|right]. apply elem_of_app. right. by left.
    + intros k' ch' t b [?|?]%Hins; [by left|done].
    + destruct Er as [->|(c & _ & ->)]; [auto|].
      intros c' ch' t b [?|[= _ <- <- <-]%list_elem_of_singleton]%elem_of_app; eauto.
    + intros k' ch' t b [?|?]%Hins; [by left|]. by destruct Hq; subst.
Qed.

Lemma truthful_run b es y : run es (initial b) = Some y -> truthful y.
Proof.
  apply run_invariant; [apply truthful_exec|]. destruct b; split; simpl; try done;
    intros; try (by apply elem_of_nil in H).
  by apply list_lookup_singleton_Some in H as [_ ?].
Qed.

End PubSteps.
