(* ===== verification/PublisherErrors.v ===== *)
(** * The errors of a publishing call

    A type for the values that [Publish] and [PublishBatchPipeline] return: which errors a
    caller has to expect, and in which place.  It is an invariant of the interleaving model,
    by cases on the point where a call is. *)

From stdpp Require Import base gmap strings list fin_maps.
From Stdlib Require Import ZArith Lia.
From S2P Require Import Prelude Errors Values Publisher PublisherSafety PublisherSteps.
Import Err Val Pub PubSafety PubSteps.
Local Open Scope kit_scope.

Module PubErrors.

(** What can become of a message: nil, the two confirmation errors, or the error of its
    send, wrapped with the message's exchange and routing key. *)
Definition message_error (m : Message) (e : option error) : Prop :=
  match e with
  | None => True
  | Some e =>
      e = Sentinel ErrPublishConfirmTimeout \/ e = Sentinel ErrPublishNotConfirmed \/
      exists cause, e = publish_error m cause
  end.

Definition context_error (e : error) : Prop := exists c, e = ctx_Err c.

(** One slot per message, for the messages handled so far. *)
Definition slots (ms : list Message) (es : list (option error)) : Prop :=
  forall k e, es !! k = Some e -> exists m, ms !! k = Some m /\ message_error m e.

(** The type of a returned value. *)
Definition outcome_typed (j : Job) (o : Outcome) : Prop :=
  match j, o with
  | JPublish m, OPublish e =>
      message_error m e \/ e = Some (Sentinel ErrClientClosed) \/
      exists e', e = Some e' /\ context_error e'
  | JBatch ms, OBatch es None => length es = length ms /\ slots ms es
  | JBatch ms, OBatch es (Some e) =>
      (e = Sentinel ErrClientClosed /\ es = []) \/
      (context_error e /\ length es = length ms /\ slots ms es)
  | _, _ => False
  end.

(** The type of a call under way. *)
Definition typed (j : Job) (p : pc) : Prop :=
  match p, j with
  | PCleanup _ e, JPublish m => outcome_typed j (OPublish e)
  | (BPlain b | BTag b | BRegister b _ | BSend b _ _ | BWait b _ | BTimeout b _), JBatch ms =>
      slots ms (messageErrors b)
  | (BDelete b _ _ e | BClose b _ _ e), JBatch ms =>
      slots ms (messageErrors b) /\
      exists m cause, ms !! length (messageErrors b) = Some m /\ e = publish_error m cause
  | Returned o, _ => outcome_typed j o
  | _, _ => True
  end.

Lemma slots_nil ms : slots ms [].
Proof. intros k e. by rewrite lookup_nil. Qed.

Lemma slots_push ms es m e :
  slots ms es -> ms !! length es = Some m -> message_error m e -> slots ms (es ++ [e]).
Proof.
  intros Hs Hm He k e' Hk. apply lookup_snoc_Some in Hk as [[_ Hk]|[-> <-]]; eauto.
Qed.

Lemma slots_set ms es i e :
  slots ms es -> (forall m, message_error m e) -> slots ms (<[i := e]> es).
Proof.
  intros Hs He k e' Hk. apply list_lookup_insert_Some in Hk as [(-> & <- & Hlt)|[_ Hk]]; [|auto].
  apply lookup_lt_is_Some_2 in Hlt as [e0 He0]. destruct (Hs _ _ He0) as (m & Hm & _). eauto.
Qed.

Lemma verdict_typed m v : message_error m (verdict v).
Proof. destruct v as [[]|]; simpl; auto. Qed.

Lemma batch_next_typed ms b :
  slots ms (messageErrors b) -> typed (JBatch ms) (batch_next ms b).
Proof. unfold batch_next. by case_bool_decide. Qed.

(** *** Every step keeps the type *)

Lemma prologue_typed j p s s' p' sp :
  wf_shared s -> prologue j p s = Some (Some (s', p', sp)) -> typed j p'.
Proof.
  intros [_ _ _ [h Hh]] Hp. destruct p; simpl in Hp; try done.
  - destruct j as [m|[|m ms]]; simplify_eq; done.
  - simplify_eq. by case_match.
  - destruct (reset_section _ s) as [[s1 [d|]]|]; by simplify_eq/=.
  - destruct (close_signal _ s); by simplify_eq/=.
  - destruct (resetup s). by simplify_eq.
  - rewrite Hh in Hp. destruct (closed s); simplify_eq; [destruct j; simpl; auto|].
    destruct j, (PublisherConfirms s'); simpl; auto using slots_nil.
Qed.

Lemma publish_typed m s p c s' p' sp :
  typed (JPublish m) p -> publish_step m p c s = Some (Some (s', p', sp)) ->
  typed (JPublish m) p'.
Proof.
  intros Ht Hp. destruct p, c; simpl in Hp; try done; simplify_eq; simpl; auto.
  all: try (destruct (send _ _ s); simplify_eq/=; eauto 6; fail).
  - destruct (receive _ s) as [[v s1]|]; [|done]. simpl in Hp. simplify_eq.
    pose proof (verdict_typed m v). by destruct (verdict v); simpl; auto.
  - right; right. eexists. split; [done|]. by eexists.
Qed.

(** The steps that send a message of a batch. *)
Lemma batch_send_typed ms s b p c s' p' sp :
  (exists tag rc, p = BSend b tag rc) \/ p = BPlain b ->
  slots ms (messageErrors b) -> batch_step ms p c s = Some (Some (s', p', sp)) -> c <> Go ->
  typed (JBatch ms) p'.
Proof.
  intros Hpc Hs Hp Hc.
  assert (exists m, ms !! length (messageErrors b) = Some m) as [m Hm].
  { destruct Hpc as [(tag & rc & ->)| ->], c; simpl in Hp; try done;
      destruct (ms !! length (messageErrors b)); eauto; done. }
  assert (forall tag rc e, message_error m e -> slots ms (messageErrors (batch_push tag rc e b)))
    as Hpush by (intros tag rc e He; by apply (slots_push ms _ m)).
  destruct Hpc as [(tag & rc & ->)| ->], c; simpl in Hp; try done; rewrite Hm in Hp;
    simpl in Hp; destruct (send _ _ s); simplify_eq/=.
  - apply batch_next_typed. by apply Hpush.
  - by eauto.
  - exact (Hpush 0%Z 0%nat None I).
  - apply (Hpush 0%Z 0%nat). simpl. eauto.
Qed.

Lemma batch_typed ms s p c s' p' sp :
  pc_ok any_number s (JBatch ms) p -> typed (JBatch ms) p ->
  batch_step ms p c s = Some (Some (s', p', sp)) -> typed (JBatch ms) p'.
Proof.
  intros Hok Ht Hp. destruct p; try (by destruct c).
  - destruct c; [|by eapply batch_send_typed; [right; eauto|exact Ht|exact Hp|done]..].
    simpl in Hp. case_bool_decide; by simplify_eq.
  - destruct c; try done. by simplify_eq/=.
  - destruct c; try done. by simplify_eq/=.
  - destruct c; [done|by eapply batch_send_typed; [left; eauto|exact Ht|exact Hp|done]..].
  - destruct c; try done. by simplify_eq/=.
  - destruct c; try done. simpl in Hp. destruct (close_chan _ _); [|done]. simplify_eq/=.
    destruct Ht as [Hs (m & cause & Hm & ->)]. apply batch_next_typed.
    apply (slots_push ms _ m); [done|done|]. simpl. eauto.
  - destruct Hok as [(_ & _ & Hlen) _]. simpl in Ht. destruct c; simpl in Hp; try done;
      destruct (messageErrors b !! i) as [[]|] eqn:Ei; simplify_eq/=; try done.
    + destruct (resultChans b !! i); [|done]. simpl in Hp.
      destruct (receive _ s) as [[v s1]|]; [|done]. simplify_eq/=.
      apply slots_set; [done|]. intros m. apply verdict_typed.
    + apply slots_set; [done|]. by left.
    + right. split; [by eexists|done].
  - destruct c; try done. simpl in Hp. destruct (deliveryTags b !! i); [|done]. by simplify_eq/=.
Qed.

Lemma thread_typed j p c s s' p' sp :
  wf_shared s -> pc_ok any_number s j p -> typed j p ->
  thread_step j p c s = Some (Some (s', p', sp)) -> typed j p'.
Proof.
  intros Hwf Hok Ht Hp. unfold thread_step in Hp.
  assert (match j with JPublish m => publish_step m p c s | JBatch ms => batch_step ms p c s end
          = Some (Some (s', p', sp)) -> typed j p') as Hrest.
  { destruct j; [by apply publish_typed|by apply batch_typed]. }
  destruct c; try (by apply Hrest).
  destruct (prologue j p s) as [r|] eqn:E; [|by apply Hrest]. simplify_eq.
  by apply (prologue_typed j p s s' p' sp).
Qed.

Lemma exec_typed e y y' :
  sys_ok any_number y -> Forall (fun x => typed x.1 x.2) (threads y) -> exec e y = Some y' ->
  Forall (fun x => typed x.1 x.2) (threads y').
Proof.
  intros [Hwf Hts] Hf He. unfold exec in He. destruct (crashed y); [done|].
  destruct e as [j|i c| | | | | | | | | |]; try (repeat split_match; simplify_eq/=; done).
  - injection He as <-. simpl. apply Forall_app. by repeat constructor.
  - destruct (threads y !! i) as [[j p]|] eqn:Ei; [|done]. simpl in He.
    destruct (thread_step j p c (shared y)) as [[[[s' p'] sp]|]|] eqn:Es; [| |done];
      injection He as <-; [|done]. simpl. apply Forall_insert; [done|].
    eapply thread_typed; [done|exact (Forall_lookup_1 _ _ _ _ Hts Ei)|
                          exact (Forall_lookup_1 _ _ _ _ Hf Ei)|exact Es].
Qed.

(** C13: the errors of a publishing call have a type.  A [Publish] returns nil, one of the two
    confirmation errors, the error of its send wrapped in a [PublishError] with its own
    exchange and routing key, [ErrClientClosed] or the error of its context; never
    [ErrNoChannel], since a client that was created once always has a channel.  A batch
    returns a slot of that kind for every message, at the message's own index; when the call
    as a whole fails, it is with the error of its context and all its slots, or with
    [ErrClientClosed] and none. *)
Theorem returned_errors b y i j o :
  reachable b y -> threads y !! i = Some (j, Returned o) -> outcome_typed j o.
Proof.
  intros [es Hr] Hi. apply (run_invariant (fun y => Forall (fun x => typed x.1 x.2) (threads y)))
    in Hr; [exact (Forall_lookup_1 _ _ _ _ Hr Hi)| |destruct b; by constructor].
  intros e y0 y1 Hok Hf He. by eapply exec_typed.
Qed.

(** The batch of [serial_demo], whose second message the broker rejected. *)
Lemma returned_errors_witness :
  slots [msg 2; msg 3] [None; Some (Sentinel ErrPublishNotConfirmed)].
Proof.
  apply (returned_errors true (final true serial_demo) 1 (JBatch [msg 2; msg 3])
           (OBatch [None; Some (Sentinel ErrPublishNotConfirmed)] None)).
  - apply final_reachable. vm_compute. reflexivity.
  - vm_compute. reflexivity.
Defined.

(** ** What the errors say about the broker *)

(** The broker has answered [b] to some number of some channel. *)
Definition told_some (s : Shared) (b : bool) : Prop :=
  exists ch tag, (ch, tag, b) ∈ confirmed s.

(** Nil needs an acknowledgement and [ErrPublishNotConfirmed] a rejection. *)
Definition founded (s : Shared) (e : option error) : Prop :=
  (e = None -> told_some s true) /\
  (e = Some (Sentinel ErrPublishNotConfirmed) -> told_some s false).

Lemma evidence_founded y m e :
  truthful y -> evidence any_number (shared y) m e -> founded (shared y) e.
Proof.
  intros [_ Ht] He. assert (forall c t b, answered (shared y) c t b -> told_some (shared y) b) as Ha.
  { intros c t b [ch Hc]. exists ch, t. eauto. }
  split; intros ->; destruct He as (tag & c & _ & Hc); eauto.
Qed.

(** C20: a batch call that returns without a fatal error returns one error slot per message,
    whatever happened to the messages; and with confirms enabled a slot is nil, or a
    [Publish] call returns nil, only if the broker acknowledged a number, and is
    [ErrPublishNotConfirmed] only if the broker rejected one. *)
Theorem results_reflect_answers b y i j o :
  reachable b y -> threads y !! i = Some (j, Returned o) ->
  match j, o with
  | JPublish m, OPublish e => PublisherConfirms (shared y) = true -> founded (shared y) e
  | JBatch ms, OBatch es None =>
      length es = length ms /\
      (PublisherConfirms (shared y) = true -> forall k e, es !! k = Some e -> founded (shared y) e)
  | JBatch _, OBatch _ (Some _) => True
  | _, _ => False
  end.
Proof.
  intros Hr Hi. pose proof (reachable_ok b y Hr) as [_ Hts]. destruct Hr as [es Hr].
  pose proof (truthful_run b es y Hr) as Ht. apply (Forall_lookup_1 _ _ i _ Hts) in Hi.
  destruct j as [m|ms], o as [e|es' [er|]]; simpl in Hi; try done.
  - eauto using evidence_founded.
  - destruct Hi as [Hlen Hsl]. split; [done|]. intros Hm k e He.
    destruct (lookup_lt_is_Some_2 ms k) as [m Hk]; [rewrite <- Hlen; eauto using lookup_lt_Some|].
    eauto using evidence_founded.
Qed.

(** The rejected message of [serial_demo]'s batch. *)
Lemma results_reflect_answers_witness : told_some (shared (final true serial_demo)) false.
Proof.
  assert (runs true serial_demo = true) as Hr by (vm_compute; reflexivity).
  assert (threads (final true serial_demo) !! 1%nat = Some (JBatch [msg 2; msg 3],
    Returned (OBatch [None; Some (Sentinel ErrPublishNotConfirmed)] None))) as Hi
    by (vm_compute; reflexivity).
  refine (proj2 (proj2 (results_reflect_answers true _ 1 _ _ (final_reachable _ _ Hr) Hi) _ 1%nat _ _)
            eq_refl); reflexivity || (vm_compute; reflexivity).
Defined.

End PubErrors.
