(* ===== verification/PublisherConfirms.v ===== *)
(** * Which message a confirmation answers

    The publisher counts its messages and the broker counts them again; a confirmation names
    its message only as long as the two agree.  [orderly] lists what must not happen for that,
    across any number of reconnections: a call takes a number while another has one it has not
    sent under, a numbered send fails, the client reconnects between the check of the channel
    and the send, a call resets for a channel that the client has left, and an answer of an old
    channel is handed on while its number is in use again.  Without these events confirmations
    reach the call whose message they answer.  The next file has a run for each of them in which
    they do not. *)

From stdpp Require Import base gmap strings list fin_maps.
From Stdlib Require Import ZArith Lia.
From S2P Require Import Prelude Errors Values Publisher PublisherSafety PublisherSteps.
Import Err Val Pub PubSafety PubSteps.
Local Open Scope kit_scope.

Module PubConfirms.

(** ** Orderly runs *)

(** No call holds a number it has not sent under. *)
Definition idle (y : System) : bool :=
  forallb (fun x => bool_decide (taken x.2 = None)) (threads y).

(** The broker's count on the client's channel. *)
Definition current (s : Shared) : nat :=
  match channel s with Some h => sent_on h s | None => 0 end.

Definition orderly (e : Event) (y : System) : bool :=
  let s := shared y in
  match e with
  | Reconnected => idle y
  | ProcRoute k =>
      match procs y !! k with
      | Some (Routing ch tag _) =>
          bool_decide (channelID s = Some ch) || bool_decide (pending s !! tag = None)
      | _ => true
      end
  | Thread i c =>
      match threads y !! i, c with
      | Some (_, PReset id), _ => bool_decide (id = channel s) || bool_decide (id = channelID s)
      | Some (_, (PTag | BTag _)), _ =>
          idle y && bool_decide (channelID s = channel s) &&
          (Z.of_nat (current s) <? 2 ^ 64 - 1)%Z
      | Some (_, (PSend _ _ | BSend _ _ _)), SendErr _ => false
      | _, _ => true
      end
  | _ => true
  end.

Fixpoint run_orderly (es : list Event) (y : System) : option System :=
  match es with
  | [] => Some y
  | e :: es' => if orderly e y then y' ← exec e y; run_orderly es' y' else None
  end.

(** ** Counting *)

Definition none_held (ts : list (Job * pc)) : Prop :=
  forall k x, ts !! k = Some x -> taken x.2 = None.

(** Call [i] alone holds a number, [t]. *)
Definition held_by (ts : list (Job * pc)) (i : nat) (t : Z) : Prop :=
  (exists x, ts !! i = Some x /\ taken x.2 = Some t) /\
  forall k x, k <> i -> ts !! k = Some x -> taken x.2 = None.

(** The counter [d] and the number [n] of messages the broker has agree. *)
Definition agree (ts : list (Job * pc)) (d : Z) (n : nat) : Prop :=
  (none_held ts /\ d = Z.of_nat n) \/ (exists i, held_by ts i d /\ d = (Z.of_nat n + 1)%Z).

(** They agree on a channel the publisher has noticed; on another nothing is sent. *)
Definition counted (ts : list (Job * pc)) (s : Shared) : Prop :=
  if decide (channelID s = channel s) then agree ts (deliveryTag s) (current s)
  else none_held ts /\ current s = 0%nat.

Lemma idle_spec y : idle y = true <-> none_held (threads y).
Proof.
  unfold idle. rewrite <- Is_true_true, forallb_True, Forall_lookup.
  split; intros H i x Hx; specialize (H i x Hx); [by apply bool_decide_unpack in H|].
  by apply bool_decide_pack.
Qed.

Section Threads.
Context (ts : list (Job * pc)) (i : nat) (j : Job) (p p' : pc).
Context (Hi : ts !! i = Some (j, p)).

Lemma lookup_stepped k x :
  <[i := (j, p')]> ts !! k = Some x -> (k = i /\ x = (j, p')) \/ (k <> i /\ ts !! k = Some x).
Proof. intros [(<- & -> & _)|[? ?]]%list_lookup_insert_Some; [by left|by right]. Qed.

Lemma lookup_self : <[i := (j, p')]> ts !! i = Some (j, p').
Proof. apply list_lookup_insert_eq. eauto using lookup_lt_Some. Qed.

Lemma none_held_step : none_held ts -> taken p' = None -> none_held (<[i := (j, p')]> ts).
Proof. intros Hn Hp k x [[-> ->]|[_ Hx]]%lookup_stepped; eauto. Qed.

(** The call that holds a number is the holder. *)
Lemma agree_holder d n t :
  agree ts d n -> taken p = Some t -> held_by ts i t /\ d = t /\ t = (Z.of_nat n + 1)%Z.
Proof.
  intros [[Hn _]|(k & Hk & Hd)] Hp; [apply Hn in Hi; simpl in Hi; congruence|].
  pose proof Hk as [(x & Hx & Hxd) Ho].
  destruct (decide (i = k)) as [<-|Hne]; [|apply (Ho i) in Hi; simpl in Hi; congruence].
  assert (x = (j, p)) as -> by congruence. simpl in Hxd. assert (d = t) as -> by congruence. done.
Qed.

Lemma agree_keep d n : taken p' = taken p -> agree ts d n -> agree (<[i := (j, p')]> ts) d n.
Proof.
  intros Hp [[Hn ->]|(k & [(x & Hx & Hk) Ho] & Hd)].
  - left. split; [|done]. apply none_held_step; [done|]. rewrite Hp. by apply (Hn i (j, p)).
  - right. exists k. split; [|done]. split.
    + destruct (decide (k = i)) as [->|Hne]; [|exists x; by rewrite list_lookup_insert_ne].
      exists (j, p'). split; [by apply lookup_self|]. simpl. rewrite Hp. by simplify_eq/=.
    + intros k' x' Hk' [[-> ->]|[_ Hx']]%lookup_stepped; [|eauto].
      simpl. rewrite Hp. by apply (Ho i (j, p)).
Qed.

Lemma agree_take n t :
  none_held ts -> taken p' = Some t -> t = (Z.of_nat n + 1)%Z ->
  agree (<[i := (j, p')]> ts) t n.
Proof.
  intros Hn Hp Ht. right. exists i. split; [|done].
  split; [exists (j, p'); by rewrite lookup_self|].
  intros k x Hk [[-> ->]|[_ Hx]]%lookup_stepped; [done|eauto].
Qed.

Lemma agree_send d n t :
  agree ts d n -> taken p = Some t -> taken p' = None -> agree (<[i := (j, p')]> ts) d (S n).
Proof.
  intros Hag Hp Hp'. destruct (agree_holder d n t Hag Hp) as ([_ Ho] & -> & ->).
  left. split; [|lia]. intros k x [[-> ->]|[Hk Hx]]%lookup_stepped; eauto.
Qed.

End Threads.

(** What a step of a call in an orderly run satisfies. *)
Definition proper (ts : list (Job * pc)) (p : pc) (c : Choice) (s : Shared) : Prop :=
  (forall id, p = PReset id -> id = channel s \/ id = channelID s) /\
  (at_tag p = true ->
     none_held ts /\ channelID s = channel s /\ (Z.of_nat (current s) < 2 ^ 64 - 1)%Z) /\
  (is_Some (at_send p) -> forall e, c <> SendErr e).

Lemma orderly_thread y i j p c :
  orderly (Thread i c) y = true -> threads y !! i = Some (j, p) ->
  proper (threads y) p c (shared y).
Proof.
  intros Ho Hi. simpl in Ho. rewrite Hi in Ho. split_and!.
  - intros id ->. apply orb_true_iff in Ho as [?%bool_decide_eq_true|?%bool_decide_eq_true]; auto.
  - rewrite <- idle_spec. intros Hp. assert (idle y && bool_decide
      (channelID (shared y) = channel (shared y)) && (Z.of_nat (current (shared y)) <? 2 ^ 64 - 1)%Z
      = true) as [[? ?%bool_decide_eq_true]%andb_true_iff ?%Z.ltb_lt]%andb_true_iff; [|done].
    by destruct p.
  - intros [x Hx] e ->. by destruct p.
Qed.

Lemma taken_at_send p t c : at_send p = Some (t, c) -> taken p = Some t.
Proof. destruct p; by intros [= -> ->]. Qed.

Lemma taken_at_register p t : at_register p = Some t -> taken p = Some t.
Proof. by destruct p. Qed.

(** With confirms enabled every send is numbered. *)
Lemma next_numbered own s j p m :
  pc_ok own s j p -> PublisherConfirms s = true -> next_message j p = Some m ->
  exists t c, at_send p = Some (t, c).
Proof.
  intros Hok Hm Hn. destruct j, p; simpl in *; try done; eauto; try congruence.
  destruct Hok as [Hok _]. congruence.
Qed.

Lemma current_snoc h n s l :
  channel s = Some h -> l = sent s ++ [(h, n)] -> current (s <| sent := l |>) = S (current s).
Proof.
  intros Hh ->. unfold current, sent_on. simpl. rewrite Hh, filter_app, length_app. simpl.
  rewrite filter_cons_True by done. simpl. lia.
Qed.

Lemma counted_thread ts i j p p' c s s' sp :
  ts !! i = Some (j, p) -> (forall m, next_message j p = Some m -> is_Some (at_send p)) ->
  kind j p p' c s s' sp -> proper ts p c s -> counted ts s -> counted (<[i := (j, p')]> ts) s'.
Proof.
  intros Hi Hnum Hk (Hreset & Htag & Hfail) Hc. unfold counted in *.
  assert (taken p' = taken p -> if decide (channelID s = channel s)
    then agree (<[i := (j, p')]> ts) (deliveryTag s) (current s)
    else none_held (<[i := (j, p')]> ts) /\ current s = 0%nat) as Hsame.
  { intros Ht. destruct (decide _); [by eapply agree_keep|]. destruct Hc as [Hn ?].
    split; [|done]. eapply none_held_step; [done|]. rewrite Ht. by apply (Hn i (j, p)). }
  destruct Hk as [m _ Hp Hp' _|id s' d -> Hid -> Hr|d cd -> ->|h -> -> _|Hp Hp'|t Hp Hp'|
                  m h l Hm Hh Hp' _ Hl|e -> Hs _ _|t _ Hp Hp' _]; try (apply Hsame; simpl; congruence).
  - destruct Hr as [_ -> -> _ Hcl _ Hs _ _ _]. injection Hcl as _ Hch _ _ _.
    unfold current, sent_on. rewrite Hch, Hs. destruct (Hreset id eq_refl) as [->|]; [|done].
    rewrite decide_False in Hc by done. destruct Hc as [Hn Hz].
    rewrite decide_True by done. left. split; [by eapply none_held_step|].
    unfold current, sent_on in Hz. by rewrite Hz.
  - destruct (Htag Hp) as (Hn & Hid & Hlt). rewrite decide_True in * by done. simpl in *.
    destruct Hc as [[_ Hd]|(k & [(x & Hx & Hk) _] & _)]; [|apply Hn in Hx; congruence].
    eapply agree_take; [done..|by apply taken_at_register|].
    change (current _) with (current s). rewrite Hd, uint64_id by lia. done.
  - apply Hsame. destruct p'; simplify_eq/=; by rewrite (taken_at_register _ _ Hp).
  - destruct (Hnum m Hm) as [[t rc] Ht]. apply taken_at_send in Ht. simpl.
    destruct (decide (channelID s = channel s)); [|destruct Hc as [Hn _]; apply Hn in Hi; simpl in Hi; congruence].
    rewrite (current_snoc h (mid m) s l Hh Hl). by eapply agree_send.
  - by destruct (Hfail Hs e).
Qed.

(** ** Registrations *)

(** The pending map is a part of the registrations on the channel the publisher knows, a result
    channel is registered once, and receives answers of the channel and number it was
    registered for. *)
Record registry (s : Shared) : Prop := {
  reg_pending : forall t c, pending s !! t = Some c -> (c, channelID s, t) ∈ registered s;
  reg_unique : forall c h t h' t', (c, h, t) ∈ registered s -> (c, h', t') ∈ registered s ->
    h = h' /\ t = t';
  reg_below : forall c h t, (c, h, t) ∈ registered s -> (c < next_id s)%nat;
  reg_routed : forall c ch t b, (c, ch, t, b) ∈ routed s -> (c, Some ch, t) ∈ registered s
}.

Lemma registry_frame s s' :
  (forall t c, pending s' !! t = Some c -> pending s !! t = Some c /\ channelID s' = channelID s) ->
  registered s' = registered s -> (next_id s <= next_id s')%nat -> routed s' = routed s ->
  registry s -> registry s'.
Proof.
  intros Hp Hr Hn Ht [H1 H2 H3 H4]. split; rewrite ?Hr, ?Ht; eauto.
  - intros t c [Hpt ->]%Hp. eauto.
  - intros c h t Hc. specialize (H3 _ _ _ Hc). lia.
Qed.

Lemma registry_register t s : registry s -> registry (register t s).1.
Proof.
  intros [H1 H2 H3 H4]. split; simpl.
  - intros t' c [[<- <-]|[_ Hp]]%lookup_insert_Some; apply elem_of_app; [right; by left|eauto].
  - intros c h u h' u' [Ha|Ha]%elem_of_app [Hb|Hb]%elem_of_app; [eauto|..];
      rewrite ?list_elem_of_singleton in *; simplify_eq; try done;
      [apply H3 in Ha|apply H3 in Hb]; lia.
  - intros c h u [Ha|Ha]%elem_of_app; [apply H3 in Ha; lia|].
    apply list_elem_of_singleton in Ha. simplify_eq. lia.
  - intros c ch u b Hc. apply elem_of_app. left. eauto.
Qed.

Lemma registry_kind j p p' c s s' sp :
  kind j p p' c s s' sp -> registry s -> registry s'.
Proof.
  intros Hk Hr. destruct Hk as [m|id s' d _ _ _ []|d cd|h|_ _|t|m h l|e|t];
    try (by apply registry_frame with s; auto).
  - apply registry_frame with s; try done. intros t rc. by rewrite reset_pending0, lookup_empty.
  - by apply registry_register.
  - apply registry_frame with s; try done. simpl. by intros u rc [_ ?]%lookup_delete_Some.
Qed.

Lemma registry_action s ps e s' ps' :
  action s ps e s' ps' ->
  (forall k ch tag ack, e = ProcRoute k -> ps !! k = Some (Routing ch tag ack) ->
     channelID s = Some ch \/ pending s !! tag = None) ->
  registry s -> registry s'.
Proof.
  intros Ha He Hr.
  assert (forall s', quiet s s' -> routed s' = routed s ->
    (forall t c, pending s' !! t = Some c -> pending s !! t = Some c) -> registry s') as Hframe.
  { intros s1 [_ _ _ _ Hi Hn _ _ Hg] Ht Hp. apply registry_frame with s; auto.
    by rewrite Hn. }
  destruct Ha as [k|k ch d tag ack s' _ _ Hq Hp Ht _|k ch tag ack s' Hk Hq _ Hp Ht|
                  e k p s' _ Hq _ Ht Hp|e s' Hq _ Ht Hp|s0 Hq _ Ht Hp]; [done|..].
  - apply Hframe; try done. by rewrite Hp.
  - destruct Ht as [Ht|(c & Hc & Ht)].
    { apply Hframe; try done. rewrite Hp. by intros t c [_ ?]%lookup_delete_Some. }
    destruct (He k ch tag ack eq_refl Hk) as [Hid|]; [|congruence].
    destruct Hq as [_ _ _ _ Hi Hn _ _ Hg], Hr as [H1 H2 H3 H4].
    split; rewrite ?Hi, ?Hn, ?Hg, ?Hp, ?Ht; eauto.
    + intros t c' [_ ?]%lookup_delete_Some. eauto.
    + intros c' ch' t b [?|[= -> -> -> ->]%list_elem_of_singleton]%elem_of_app; [eauto|].
      rewrite <- Hid. eauto.
  - apply Hframe; try done. by destruct Hp as [->| ->].
  - apply Hframe; try done. by rewrite Hp.
  - specialize (Hframe s0 Hq Ht). rewrite Hp in Hframe. destruct Hframe as [H1 H2 H3 H4]; [done|].
    by split.
Qed.

(** ** The invariant *)

Record in_order (y : System) : Prop := {
  io_mode : PublisherConfirms (shared y) = true;
  io_count : counted (threads y) (shared y);
  io_registry : registry (shared y);
  io_send : forall i j p t c, threads y !! i = Some (j, p) -> at_send p = Some (t, c) ->
    (c, channelID (shared y), t) ∈ registered (shared y)
}.

Lemma kind_register j p p' c s s' sp :
  kind j p p' c s s' sp ->
  PublisherConfirms s' = PublisherConfirms s /\
  (exists l, registered s' = registered s ++ l) /\
  (channelID s' = channelID s \/ exists id, p = PReset id /\ id <> channelID s) /\
  (forall t rc, at_send p' = Some (t, rc) -> (rc, channelID s', t) ∈ registered s').
Proof.
  assert (forall q, taken q = None -> forall t rc, at_send q <> Some (t, rc)) as Hq
    by (by intros []).
  destruct 1 as [m _ _ Hp|id s' d -> Hid -> []|d cd -> ->|h -> -> _|_ Hp|t _ Hp|m h l _ _ Hp|
                 e _ _ Hp|t _ _ Hp]; simpl; eauto using grows_refl;
    try (split_and!; eauto using grows_refl; intros u rc Hu; solve [discriminate|by apply Hq in Hu]).
  - injection reset_client0 as _ _ -> _ _. rewrite reset_registered0. split_and!; eauto using grows_refl; done.
  - split_and!; eauto using grows_refl. by destruct p'.
  - split_and!; eauto. rewrite Hp. intros u rc [= <- <-]. apply elem_of_app. right. by left.
Qed.

Lemma in_order_thread y i j p p' c s' sp :
  sys_ok any_number y -> in_order y -> threads y !! i = Some (j, p) ->
  proper (threads y) p c (shared y) -> kind j p p' c (shared y) s' sp ->
  in_order {| shared := s'; threads := <[i := (j, p')]> (threads y);
              procs := spawn_if sp (procs y); crashed := false |}.
Proof.
  intros [_ Hts] [Hm Hc Hr Hs] Hi Hp Hk.
  destruct (kind_register _ _ _ _ _ _ _ Hk) as (Hm' & [l Hl] & Hid & Hsend).
  split; simpl; [congruence| |by eapply registry_kind|].
  - eapply counted_thread; [done| |done..]. intros m Hn.
    destruct (next_numbered _ _ _ _ _ (Forall_lookup_1 _ _ _ _ Hts Hi) Hm Hn) as (t & rc & E).
    by exists (t, rc).
  - intros k j' q t rc [[_ [= -> ->]]|[Hne Hk']]%lookup_stepped Hq; [eauto|].
    destruct Hid as [->|(id & -> & Hid)]; [rewrite Hl; apply elem_of_app; left; eauto|exfalso].
    destruct Hp as (Hreset & _). destruct (Hreset id eq_refl) as [->|]; [|done].
    unfold counted in Hc. rewrite decide_False in Hc by done. destruct Hc as [Hn _].
    apply Hn in Hk'. simpl in Hk'. apply taken_at_send in Hq. congruence.
Qed.

(** A reconnection while no number is held. *)
Lemma counted_reconnect ts s s' :
  none_held ts -> (forall h, channelID s = Some h -> (h < opened s)%nat) ->
  Forall (fun x => x.1 < opened s)%nat (sent s) ->
  channel s' = Some (opened s) -> channelID s' = channelID s -> sent s' = sent s ->
  counted ts s'.
Proof.
  intros Hn Hid Hs Ec Ei Es. unfold counted, current. rewrite Ec, Ei.
  rewrite decide_False; [|intros E; apply Hid in E; lia]. split; [done|].
  destruct (sent_on (opened s) s') eqn:E; [done|].
  destruct (proj1 (sent_on_pos (opened s) s')) as [x Hx]; [lia|].
  rewrite Es in Hx. apply (proj1 (Forall_forall _ _) Hs) in Hx. simpl in Hx. lia.
Qed.

Lemma in_order_frame y s' ps cr :
  in_order y -> quiet (shared y) s' -> registry s' ->
  in_order {| shared := s'; threads := threads y; procs := ps; crashed := cr |}.
Proof.
  intros [Hm Hc _ Hs] [Ec Em _ Et Ei _ _ Es Er] Hr. split; simpl; [congruence| |done|].
  - unfold counted, current, sent_on in *. by rewrite Ec, Et, Ei, Es.
  - rewrite Ei, Er. exact Hs.
Qed.

Lemma in_order_exec e y y' :
  sys_ok any_number y -> opened_only y -> in_order y -> orderly e y = true ->
  exec e y = Some y' -> in_order y'.
Proof.
  intros Hok Hoo Hio Ho He. pose proof Hio as [Hm Hc Hr Hs].
  destruct (exec_cases e y y' (proj1 Hok) He) as [e|j l ->|i c j p p' s' sp Hlk _ Hk|e s' ps' Ha].
  - by split.
  - split; simpl; try done.
    + unfold counted in *. destruct (decide _).
      * destruct Hc as [[Hn Hd]|(k & [(x & Hx & Hk) Hx'] & Hd)].
        -- left. split; [|done]. intros k x [Hx|[_ Hx]]%lookup_app_Some; [eauto|].
           by apply list_lookup_singleton_Some in Hx as [_ <-].
        -- right. exists k. split; [|done]. split; [exists x; by rewrite (lookup_app_l_Some _ _ _ x)|].
           intros k' x' Hk' [Hy|[_ Hy]]%lookup_app_Some; [eauto|].
           by apply list_lookup_singleton_Some in Hy as [_ <-].
      * destruct Hc as [Hn Hz]. split; [|done]. intros k x [Hx|[_ Hx]]%lookup_app_Some; [eauto|].
        by apply list_lookup_singleton_Some in Hx as [_ <-].
    + intros i j' p t c [Hx|[_ Hx]]%lookup_app_Some Hp; [eauto|].
      by apply list_lookup_singleton_Some in Hx as [_ [= <- <-]].
  - eapply in_order_thread; eauto using orderly_thread.
  - assert (registry s') as Hr'.
    { eapply registry_action; [done| |done]. intros k ch tag ack -> Hk. simpl in Ho.
      rewrite Hk in Ho. by apply orb_true_iff in Ho as
        [?%bool_decide_eq_true|?%bool_decide_eq_true]; auto. }
    destruct Ha; try (by apply in_order_frame).
    destruct H as [Ec Em _ Et Ei _ _ Es Er]. destruct Hoo as [_ Hid Hsent _ _].
    simpl in Ho. apply idle_spec in Ho. split; simpl; [congruence| |done|rewrite Ei, Er; exact Hs].
    by eapply (counted_reconnect _ (shared y)).
Qed.

(** ** The number of a message *)

(** What the broker received on channel [h], in order. *)
Definition log_of (h : handle) (s : Shared) : list (handle * nat) :=
  filter (fun x => fst x = h) (sent s).

(** Result channel [c] is registered for number [tag] of a channel, on which [m] is the message
    with that number. *)
Definition broker_number (s : Shared) (m : Message) (tag : Z) (c : chan_id) : Prop :=
  exists h, (c, Some h, tag) ∈ registered s /\ (1 <= tag)%Z /\
    log_of h s !! Z.to_nat (tag - 1) = Some (h, mid m).

Lemma broker_number_later s s' m tag c :
  later s s' -> broker_number s m tag c -> broker_number s' m tag c.
Proof.
  intros Hl (h & Hr & Ht & Hs). exists h. destruct (later_sent _ _ Hl) as [l Es].
  destruct (later_registered _ _ Hl) as [r Er]. unfold log_of in *.
  split_and!; [|done|].
  - rewrite Er. apply elem_of_app. by left.
  - rewrite Es, filter_app. by apply lookup_app_l_Some.
Qed.

Lemma log_of_snoc h n s l :
  l = sent s ++ [(h, n)] -> log_of h (s <| sent := l |>) !! sent_on h s = Some (h, n).
Proof.
  intros ->. unfold log_of, sent_on. simpl. rewrite filter_app, filter_cons_True by done.
  by apply list_lookup_middle.
Qed.

(** The call that sends under the number it holds. *)
Lemma held_number y i j p t rc h m l :
  in_order y -> threads y !! i = Some (j, p) -> at_send p = Some (t, rc) ->
  channel (shared y) = Some h -> l = sent (shared y) ++ [(h, mid m)] ->
  broker_number ((shared y) <| sent := l |>) m t rc.
Proof.
  intros [_ Hc _ Hs] Hi Hp Hh Hl. pose proof (Hs i j p t rc Hi Hp) as Hr.
  apply taken_at_send in Hp. unfold counted in Hc. destruct (decide _) as [Hid|].
  2: { destruct Hc as [Hn _]. apply Hn in Hi. simpl in Hi. congruence. }
  destruct (agree_holder _ i j p Hi _ _ t Hc Hp) as (_ & _ & ->). unfold current in *.
  rewrite Hh in *. rewrite Hid in Hr. exists h. split_and!; [done|lia|].
  replace (Z.to_nat _) with (sent_on h (shared y)) by lia. by apply log_of_snoc.
Qed.

(** The step that sends gives the message the number its call took. *)
Lemma in_order_own e y y' :
  wf_shared (shared y) -> in_order y -> exec e y = Some y' -> event_own broker_number e y y'.
Proof.
  intros Hwf Hio He. destruct e as [|i c| | | | | | | | | |]; try done. intros j p Hi.
  unfold exec in He. destruct (crashed y); [done|]. rewrite Hi in He. simpl in He.
  assert (forall n, exists s', send true n (shared y) = Some s') as Hsend.
  { intros n. destruct (send_spec true n (shared y) Hwf) as (s' & E & _). eauto. }
  destruct j as [m|ms], p, c; try done; unfold thread_step in He; simpl in He; [|intros m Hm];
    try rewrite Hm in He; simpl in He; destruct (Hsend (mid m)) as [s' Es]; rewrite Es in He;
    injection He as <-; destruct (send_with _ _ _ _ Es) as (h & Hh & ->); by eapply held_number.
Qed.

(** ** Confirmations in orderly runs *)

Lemma run_orderly_ok es y y' :
  sys_ok any_number y /\ opened_only y /\ truthful y /\ in_order y /\ sys_ok broker_number y ->
  run_orderly es y = Some y' -> truthful y' /\ in_order y' /\ sys_ok broker_number y'.
Proof.
  revert y. induction es as [|e es IH]; intros y (Hok & Hoo & Ht & Hio & Hb) Hr; simpl in Hr;
    [by simplify_eq|].
  destruct (orderly e y) eqn:Ho; [|done]. destruct (exec e y) as [y1|] eqn:Ee; [|done].
  apply (IH y1); [|done]. split_and!.
  - apply (run_ok [e] y); [done|]. simpl. by rewrite Ee.
  - by eapply opened_only_exec.
  - by eapply truthful_exec.
  - by eapply in_order_exec.
  - eapply exec_ok; eauto using broker_number_later. eapply in_order_own; eauto. apply Hok.
Qed.

Lemma initial_in_order : in_order (initial true).
Proof.
  split; simpl; try done.
  - unfold counted. rewrite decide_True by done. left. split; [|done]. by intros k x Hx.
  - split; simpl; try done; intros c h u; intros; by apply elem_of_nil in H.
Qed.

(** The broker's answer [ack] to message [m]: at the position [n] where [m] is in a channel's
    log, the answer to number [n + 1] of that channel. *)
Definition told (s : Shared) (m : Message) (ack : bool) : Prop :=
  exists h n, log_of h s !! n = Some (h, mid m) /\ (h, Z.of_nat n + 1, ack)%Z ∈ confirmed s.

Definition honest (s : Shared) (m : Message) (e : option error) : Prop :=
  (e = None -> told s m true) /\ (e = Some (Sentinel ErrPublishNotConfirmed) -> told s m false).

Definition honest_outcome (s : Shared) (j : Job) (o : Outcome) : Prop :=
  match j, o with
  | JPublish m, OPublish e => honest s m e
  | JBatch ms, OBatch es None =>
      forall k m, ms !! k = Some m -> exists e, es !! k = Some e /\ honest s m e
  | _, _ => True
  end.

Lemma evidence_honest y m e :
  truthful y -> registry (shared y) -> evidence broker_number (shared y) m e ->
  honest (shared y) m e.
Proof.
  intros [_ Ht] [_ Hu _ Hr] He.
  assert (forall tag c b, broker_number (shared y) m tag c -> answered (shared y) c tag b ->
    told (shared y) m b) as Htold.
  { intros tag c b (h & Hreg & Hpos & Hlog) [ch Hch].
    destruct (Hu c (Some h) tag (Some ch) tag) as [[= <-] _]; [done|eauto|].
    exists h, (Z.to_nat (tag - 1)). split; [done|].
    rewrite Z2Nat.id, Z.sub_add by lia. eauto. }
  split; intros ->; destruct He as (tag & c & ? & ?); eauto.
Qed.

Lemma orderly_honest es y i j o :
  run_orderly es (initial true) = Some y -> threads y !! i = Some (j, Returned o) ->
  honest_outcome (shared y) j o.
Proof.
  intros Hr Hi. apply run_orderly_ok in Hr as (Ht & Hio & [_ Hts]).
  2: { split_and!; [apply initial_ok|by apply (opened_only_run true [])|
         by apply (truthful_run true [])|apply initial_in_order|apply initial_ok]. }
  apply (Forall_lookup_1 _ _ i _ Hts) in Hi. destruct Hio as [Hm _ Hreg _].
  destruct j as [m|ms], o as [e|es' [er|]]; simpl in Hi; try done.
  - apply evidence_honest; auto.
  - destruct Hi as [Hlen Hsl]. intros k m Hk.
    destruct (lookup_lt_is_Some_2 es' k) as [e He]; [rewrite Hlen; eauto using lookup_lt_Some|].
    exists e. split; [done|]. apply evidence_honest; eauto.
Qed.

(** C2: confirmations reach the call whose message they answer, on the first connection and
    after any number of reconnections.  In an orderly run (no call takes a number while another
    has one it has not sent under, no numbered send fails, the client does not reconnect between
    the check of the channel and a send, no call resets for a channel the client has left, and
    no answer of an old channel is handed on while its number is in use again) [Publish] returns
    nil only for a message whose own position in the log of its channel was acknowledged, returns
    [ErrPublishNotConfirmed] only for one whose position was rejected, and the slots of a batch
    that returns without a fatal error say the same of each of its messages. *)
Theorem orderly_confirms es y i j o :
  run_orderly es (initial true) = Some y -> threads y !! i = Some (j, Returned o) ->
  honest_outcome (shared y) j o.
Proof. apply orderly_honest. Qed.

(** A message is acknowledged, the client reconnects, and a batch on the new channel has its
    first message acknowledged and its second rejected; the old processor stops in between. *)
Definition orderly_demo : list Event :=
  [Spawn (JPublish (msg 1))] ++ send_one 0 ++ confirm_one 1 true ++
  [Thread 0 Receive; ProcEnter 0; ChannelDies 0; Reconnected; Spawn (JBatch [msg 2; msg 3])] ++
  go 1 8 ++ [Thread 1 SendOk; ProcDone 0] ++ go 1 2 ++
  [Thread 1 SendOk; ProcEnter 1; ProcConfirm 1 1 true; ProcRoute 1; ProcEnter 1;
   ProcConfirm 1 2 false; ProcRoute 1; Thread 1 Receive; Thread 1 Receive; Thread 1 Go].

Lemma orderly_confirms_witness :
  told (shared (final true orderly_demo)) (msg 3) false.
Proof.
  assert (run_orderly orderly_demo (initial true) = Some (final true orderly_demo)) as Hr
    by (vm_compute; reflexivity).
  assert (threads (final true orderly_demo) !! 1%nat = Some (JBatch [msg 2; msg 3],
    Returned (OBatch [None; Some (Sentinel ErrPublishNotConfirmed)] None))) as Hi
    by (vm_compute; reflexivity).
  destruct (orderly_confirms orderly_demo _ 1 _ _ Hr Hi 1%nat (msg 3) eq_refl) as (e & He & Hh).
  injection He as <-. exact (proj2 Hh eq_refl).
Defined.

(** ** The first connection *)

(** An event of a serialised run on one connection: no call takes a number while another
    has one it has not sent under, numbered sends succeed, the client does not reconnect,
    and fewer than [2^64 - 1] messages are sent. *)
Definition serial (e : Event) (y : System) : bool :=
  match e with
  | Reconnected => false
  | Thread i c =>
      match threads y !! i, c with
      | Some (_, (PTag | BTag _)), _ =>
          idle y && (Z.of_nat (length (sent (shared y))) <? 2 ^ 64 - 1)%Z
      | Some (_, (PSend _ _ | BSend _ _ _)), SendErr _ => false
      | _, _ => true
      end
  | _ => true
  end.

Fixpoint run_serial (es : list Event) (y : System) : option System :=
  match es with
  | [] => Some y
  | e :: es' => if serial e y then y' ← exec e y; run_serial es' y' else None
  end.

Definition proc_on (h : handle) (q : Proc) : Prop :=
  match q with Select cf _ => cf = Some h | Routing ch _ _ => ch = h | _ => True end.

(** Everything is on channel 0. *)
Record first_channel (y : System) : Prop := {
  fc_channel : channel (shared y) = Some 0%nat;
  fc_id : channelID (shared y) = Some 0%nat;
  fc_confirms : confirms (shared y) = Some 0%nat;
  fc_procs : Forall (proc_on 0) (procs y);
  fc_reset : Forall (fun x => forall id, x.2 = PReset id -> id = Some 0%nat) (threads y);
  fc_sent : Forall (fun x => x.1 = 0%nat) (sent (shared y))
}.

Lemma first_channel_thread y i j p p' c s' sp :
  first_channel y -> threads y !! i = Some (j, p) -> kind j p p' c (shared y) s' sp ->
  first_channel {| shared := s'; threads := <[i := (j, p')]> (threads y);
                   procs := spawn_if sp (procs y); crashed := false |}.
Proof.
  intros [Hc Hid Hcf Hps Hr Hs] Hi Hk.
  destruct (kind_uses _ _ _ _ _ _ _ Hk) as (Hcl & _ & _ & Hsent & Hreset).
  injection Hcl as _ Hch _ _ _.
  assert (channelID s' = Some 0%nat /\ confirms s' = Some 0%nat) as [Hid' Hcf'].
  { destruct Hk as [| id s' d -> Hne -> _| |h _ _ Hh| | | | |]; simpl; try done.
    - by rewrite (Forall_lookup_1 _ _ _ _ Hr Hi id eq_refl), Hid in Hne.
    - split; congruence. }
  split; simpl; try done; try congruence.
  - destruct sp; [|done]. by apply Forall_snoc.
  - apply Forall_insert; [done|]. intros id Hp. simpl in Hp. by rewrite (Hreset id Hp).
  - destruct Hsent as [->|(h & n & Hh & ->)]; [done|]. apply Forall_snoc. split; [done|].
    simpl. congruence.
Qed.

Lemma first_channel_exec e y y' :
  wf_shared (shared y) -> first_channel y -> e <> Reconnected -> exec e y = Some y' ->
  first_channel y'.
Proof.
  intros Hwf Hf Hne He. pose proof Hf as [Hc Hid Hcf Hps Hr Hs].
  assert (forall s' ps cr, quiet (shared y) s' -> Forall (proc_on 0) ps ->
    first_channel {| shared := s'; threads := threads y; procs := ps; crashed := cr |}) as Hframe.
  { intros s' ps cr [Ec _ Ecf _ Ei _ _ Es _] Hps'. split; simpl; try congruence. }
  destruct (exec_cases e y y' Hwf He) as [e|j l ->|i c j p p' s' sp Hlk _ Hk|e s' ps' Ha].
  - by split.
  - split; simpl; try done. by apply Forall_snoc.
  - by eapply first_channel_thread.
  - destruct Ha as [k|k ch d tag ack s' Hk|k ch tag ack s'|e k p s' Hp|e s'|s0];
      try (apply Hframe; [done|]; try apply Forall_insert; try done).
    + apply (Forall_lookup_1 _ _ _ _ Hps) in Hk. by injection Hk.
    + by destruct Hp; subst.
Qed.

Lemma serial_orderly e y : first_channel y -> serial e y = true -> orderly e y = true.
Proof.
  intros [Hc Hid _ Hps Hr _] He. destruct e as [| i c | | |k| | | | | | |]; simpl in *; try done.
  - destruct (threads y !! i) as [[j p]|] eqn:Ei; [|done].
    assert (current (shared y) <= length (sent (shared y)))%nat as Hle.
    { unfold current, sent_on. rewrite Hc. apply length_filter. }
    assert (forall id, p = PReset id -> id = Some 0%nat) as Hp
      by exact (Forall_lookup_1 _ _ _ _ Hr Ei).
    rewrite Hc, Hid. destruct p; try done; try (rewrite (Hp _ eq_refl)); try done;
      apply andb_true_iff in He as [-> ?%Z.ltb_lt]; apply Z.ltb_lt; lia.
  - destruct (procs y !! k) as [[| |ch tag ack| |]|] eqn:Ek; try done.
    apply (Forall_lookup_1 _ _ _ _ Hps) in Ek. simpl in Ek. subst ch. by rewrite Hid.
Qed.

Lemma run_serial_orderly es y y' :
  sys_ok any_number y -> first_channel y -> run_serial es y = Some y' ->
  run_orderly es y = Some y' /\ first_channel y'.
Proof.
  revert y. induction es as [|e es IH]; intros y Hok Hf Hr; simpl in *; [by simplify_eq|].
  destruct (serial e y) eqn:Hs; [|done]. rewrite (serial_orderly e y Hf Hs).
  destruct (exec e y) as [y1|] eqn:Ee; [|done]. apply (IH y1); [| |done].
  - apply (run_ok [e] y); [done|]. simpl. by rewrite Ee.
  - eapply first_channel_exec; [apply Hok|done| |done]. by intros ->.
Qed.

Lemma first_log y : first_channel y -> log_of 0 (shared y) = sent (shared y).
Proof.
  intros [_ _ _ _ _ Hs]. unfold log_of. induction Hs as [|x l Hx _ IH]; [done|].
  by rewrite filter_cons_True, IH.
Qed.

Lemma first_told y m ack :
  first_channel y -> told (shared y) m ack ->
  exists n, sent (shared y) !! n = Some (0%nat, mid m) /\
    (0%nat, Z.of_nat n + 1, ack)%Z ∈ confirmed (shared y).
Proof.
  intros Hf (h & n & Hlog & Hc). exists n.
  assert ((h, mid m) ∈ log_of h (shared y)) as Hin by eauto using list_elem_of_lookup_2.
  apply list_elem_of_filter in Hin as [_ Hin].
  apply (proj1 (Forall_forall _ _) (fc_sent y Hf)) in Hin. simpl in Hin. subst h.
  by rewrite first_log in Hlog.
Qed.

(** On the first connection it is enough that publishing is serialised: if no call takes
    a number while another has one it has not sent under and no numbered send fails, then
    [Publish] returns nil only for a message whose own position in the broker's log was
    acknowledged, returns [ErrPublishNotConfirmed] only for one whose position was rejected,
    and the slots of a batch that returns without a fatal error say the same of each message. *)
Theorem serialised_confirms es y i j o :
  run_serial es (initial true) = Some y -> threads y !! i = Some (j, Returned o) ->
  let told (m : Message) (ack : bool) :=
    exists n, sent (shared y) !! n = Some (0%nat, mid m) /\
      (0%nat, Z.of_nat n + 1, ack)%Z ∈ confirmed (shared y) in
  let honest (m : Message) (e : option error) :=
    (e = None -> told m true) /\ (e = Some (Sentinel ErrPublishNotConfirmed) -> told m false) in
  match j, o with
  | JPublish m, OPublish e => honest m e
  | JBatch ms, OBatch es None =>
      forall k m, ms !! k = Some m -> exists e, es !! k = Some e /\ honest m e
  | _, _ => True
  end.
Proof.
  intros Hr Hi. apply run_serial_orderly in Hr as [Hr Hf]; [|apply initial_ok|].
  2: { by split; simpl; try done; repeat constructor. }
  pose proof (orderly_honest es y i j o Hr Hi) as Hh.
  assert (forall m e, honest (shared y) m e -> (e = None -> exists n,
      sent (shared y) !! n = Some (0%nat, mid m) /\
      (0%nat, Z.of_nat n + 1, true)%Z ∈ confirmed (shared y)) /\
    (e = Some (Sentinel ErrPublishNotConfirmed) -> exists n,
      sent (shared y) !! n = Some (0%nat, mid m) /\
      (0%nat, Z.of_nat n + 1, false)%Z ∈ confirmed (shared y))) as Hfirst.
  { intros m e [H1 H2]. split; intros ->; eauto using first_told. }
  destruct j as [m|ms], o as [e|es' [er|]]; simpl in *; auto.
  intros k m Hk. destruct (Hh k m Hk) as (e & He & ?). eauto.
Qed.

Lemma serialised_confirms_witness :
  let y := final true serial_demo in
  exists n, sent (shared y) !! n = Some (0%nat, 1%nat) /\
    (0%nat, Z.of_nat n + 1, true)%Z ∈ confirmed (shared y).
Proof.
  assert (run_serial serial_demo (initial true) = Some (final true serial_demo)) as Hr
    by (vm_compute; reflexivity).
  assert (threads (final true serial_demo) !! 0%nat = Some (JPublish (msg 1), Returned (OPublish None)))
    as Hi by (vm_compute; reflexivity).
  exact (proj1 (serialised_confirms serial_demo _ 0 _ (OPublish None) Hr Hi) eq_refl).
Defined.

End PubConfirms.
