(* ===== verification/PublisherHazards.v ===== *)
(** * Runs in which confirmations go astray

    One run of the model for each condition of [orderly]: it breaks that condition at one event
    and keeps the others, and a call returns a result that is not about its own message.  Then
    runs in which a call waits in vain, and runs that panic. *)

From stdpp Require Import base gmap strings list fin_maps.
From Stdlib Require Import ZArith Lia.
From S2P Require Import Prelude Errors Values Publisher PublisherSafety PublisherSteps PublisherConfirms.
Import Err Val Pub PubSafety PubSteps PubConfirms.
Local Open Scope kit_scope.

Module PubHazards.

(** ** Misrouted confirmations *)

(** Two concurrent calls: the first takes number 1, the second takes number 2 and sends
    before the first does. *)
Definition overtaking : list Event :=
  [Spawn (JPublish (msg 1)); Spawn (JPublish (msg 2))] ++ up_to_send 0 ++ send_one 1 ++
  [Thread 0 SendOk] ++ confirm_one 1 true ++ confirm_one 2 false ++
  [Thread 0 Receive; Thread 1 Receive; Thread 1 Go].

(** Taking a number and sending are not one atomic step, so two concurrent calls can get
    each other's confirmation: the broker acknowledges message 2 and rejects message 1; the
    call that published message 1 returns nil and the other [ErrPublishNotConfirmed]. *)
Theorem concurrent_confirms_swapped :
  exists y, run overtaking (initial true) = Some y /\
    sent (shared y) = [(0, 2); (0, 1)]%nat /\
    confirmed (shared y) = [(0%nat, 1%Z, true); (0%nat, 2%Z, false)] /\
    threads y = [(JPublish (msg 1), Returned (OPublish None));
      (JPublish (msg 2), Returned (OPublish (Some (Sentinel ErrPublishNotConfirmed))))].
Proof. eexists. vm_compute. by split_and!. Qed.

(** A failed send, then a successful one. *)
Definition after_failure : list Event :=
  [Spawn (JPublish (msg 1))] ++ up_to_send 0 ++ [Thread 0 (SendErr gone); Thread 0 Go] ++
  [Spawn (JPublish (msg 2))] ++ send_one 1 ++ [ProcEnter 0].

(** A send that fails uses up a number the broker never sees: on the same channel the
    next message, accepted by the broker as its number 1, is waited for under number 2.  The
    broker can acknowledge number 1 and that call still waits; it cannot send number 2; the
    call ends with [ErrPublishConfirmTimeout] although its message was acknowledged. *)
Theorem failed_send_desynchronises :
  exists y y' y'', run after_failure (initial true) = Some y /\
    sent (shared y) = [(0, 2)]%nat /\
    threads y !! 1%nat = Some (JPublish (msg 2), PWait 2 3) /\
    (forall ack, exec (ProcConfirm 0 2 ack) y = None) /\
    run [ProcConfirm 0 1 true; ProcRoute 0] y = Some y' /\
    exec (Thread 1 Receive) y' = None /\
    run [Thread 1 Timer; Thread 1 Go] y' = Some y'' /\
    threads y'' !! 1%nat =
      Some (JPublish (msg 2), Returned (OPublish (Some (Sentinel ErrPublishConfirmTimeout)))).
Proof.
  exists (final true after_failure),
    (final true (after_failure ++ [ProcConfirm 0 1 true; ProcRoute 0])),
    (final true (after_failure ++
      [ProcConfirm 0 1 true; ProcRoute 0; Thread 1 Timer; Thread 1 Go])).
  split_and!; vm_compute; reflexivity.
Qed.

(** A batch whose channel dies between the registration of a message and its send brings
    the process down: the confirmation processor closes the result channel, the send fails,
    and [close(resultChan)] closes it again. *)
Theorem batch_double_close_panics :
  exists y, run (double_close ++ [Thread 0 Go]) (initial true) = Some y /\ crashed y = true.
Proof. eexists. vm_compute. by split. Qed.

(** Publishing after [Close] and a reconnection brings the process down: [Close] leaves
    its done channel in place, and [ensureConfirmsSetup] closes it a second time. *)
Theorem publish_after_close_panics :
  exists y, run ([ClosePublisher; Reconnected; Spawn (JPublish (msg 1))] ++ go 0 4)
      (initial true) = Some y /\ crashed y = true.
Proof. eexists. vm_compute. by split. Qed.

(** A call waits under number 1 when another call notices a reconnection and resets. *)
Definition stale_cleanup : list Event :=
  [Spawn (JPublish (msg 1))] ++ send_one 0 ++
  [Reconnected; Spawn (JPublish (msg 2))] ++ go 1 8 ++ [Thread 1 SendOk] ++
  [Thread 0 Receive; Thread 0 Go; ProcEnter 1; ProcConfirm 1 1 true; ProcRoute 1].

(** The deferred cleanup deletes by number, not by channel: after a reset the cleanup of
    a call of the old connection removes the new registration of the same number, and the
    broker's acknowledgement on the new channel then reaches nobody. *)
Theorem stale_cleanup_drops_registration :
  exists y, run stale_cleanup (initial true) = Some y /\
    sent (shared y) = [(0, 1); (1, 2)]%nat /\
    confirmed (shared y) = [(1%nat, 1%Z, true)] /\
    threads y !! 1%nat = Some (JPublish (msg 2), PWait 1 4) /\
    exec (Thread 1 Receive) y = None.
Proof. eexists. vm_compute. by split_and!. Qed.

(** A call gives up waiting, the client reconnects, and the next call sets up confirms on
    the new channel while the old processor still has an answer of the old channel. *)
Definition stale_answer : list Event :=
  [Spawn (JPublish (msg 1))] ++ send_one 0 ++
  [ProcEnter 0; Reconnected; Thread 0 Timer; Thread 0 Go; Spawn (JPublish (msg 2))] ++ go 1 8 ++
  [Thread 1 SendOk; ProcConfirm 0 1 true; ProcRoute 0; Thread 1 Receive].

(** Numbers start again on a new channel, and the pending map does not say which channel a
    number belongs to: an answer of the old channel that its processor takes after the reset
    goes to the call that has the same number on the new one.  Here calls follow one another,
    yet the second returns nil for a message that the broker has not acknowledged. *)
Theorem stale_answer_acknowledges :
  exists y, run stale_answer (initial true) = Some y /\
    sent (shared y) = [(0, 1); (1, 2)]%nat /\
    confirmed (shared y) = [(0%nat, 1%Z, true)] /\
    threads y !! 1%nat = Some (JPublish (msg 2), Returned (OPublish None)).
Proof. eexists. vm_compute. by split_and!. Qed.

(** ** Every condition is needed *)

(** The events of a run that are not orderly. *)
Fixpoint disorder (es : list Event) (y : System) : list Event :=
  match es with
  | [] => []
  | e :: es' =>
      (if orderly e y then [] else [e]) ++
      match exec e y with Some y' => disorder es' y' | None => [] end
  end.

(** [told] can be decided: the answer is among those the broker gave. *)
Lemma told_confirmed s m ack :
  told s m ack <-> Exists (fun x => x.2 = ack /\ (1 <= x.1.2)%Z /\
    log_of x.1.1 s !! Z.to_nat (x.1.2 - 1) = Some (x.1.1, mid m)) (confirmed s).
Proof.
  rewrite Exists_exists. split.
  - intros (h & n & Hlog & Hc). exists (h, Z.of_nat n + 1, ack)%Z. simpl.
    split_and!; [done|done|lia|]. by replace (Z.to_nat _) with n by lia.
  - intros ([[h t] a] & Hin & <- & Ht & Hlog). simpl in *. exists h, (Z.to_nat (t - 1)).
    split; [done|]. by rewrite Z2Nat.id, Z.sub_add by lia.
Qed.

#[export] Instance told_dec s m ack : Decision (told s m ack).
Proof.
  destruct (decide (Exists (fun x => x.2 = ack /\ (1 <= x.1.2)%Z /\
    log_of x.1.1 s !! Z.to_nat (x.1.2 - 1) = Some (x.1.1, mid m)) (confirmed s))) as [H|H].
  - left. exact (proj2 (told_confirmed s m ack) H).
  - right. exact (fun Ht => H (proj1 (told_confirmed s m ack) Ht)).
Defined.

(** Running [es] breaks order at [e] only, and call [i], a [Publish], returns nil although the
    broker has not acknowledged its message. *)
Definition misleads (es : list Event) (e : Event) (i : nat) : Prop :=
  exists y m, run es (initial true) = Some y /\ disorder es (initial true) = [e] /\
    threads y !! i = Some (JPublish m, Returned (OPublish None)) /\ ~ told (shared y) m true.

(** After a failed send the counter is one ahead: the broker rejects its number 1, the second
    call's message, and acknowledges number 2, the third's. *)
Definition ahead : list Event :=
  after_failure ++ [Spawn (JPublish (msg 3))] ++ send_one 2 ++
  [ProcConfirm 0 1 false; ProcRoute 0] ++ confirm_one 2 true ++ [Thread 1 Receive].

(** The client reconnects after a call took its number; its message is number 1 of the new
    channel, and so is the next call's. *)
Definition between_number_and_send : list Event :=
  [Spawn (JPublish (msg 1))] ++ up_to_send 0 ++ [Reconnected; Thread 0 SendOk] ++
  [Spawn (JPublish (msg 2))] ++ go 1 8 ++
  [Thread 1 SendOk; ProcEnter 1; ProcConfirm 1 1 true; ProcRoute 1; Thread 1 Receive].

(** The same just before a call takes its number. *)
Definition between_check_and_number : list Event :=
  [Spawn (JPublish (msg 1))] ++ go 0 4 ++ [Reconnected] ++ go 0 2 ++ [Thread 0 SendOk] ++
  [Spawn (JPublish (msg 2))] ++ go 1 8 ++
  [Thread 1 SendOk; ProcEnter 1; ProcConfirm 1 1 true; ProcRoute 1; Thread 1 Receive].

(** A call reads the channel, the client reconnects, and another call resets and publishes on
    the new channel; the first then resets for the channel it read, and the next call, which
    finds the wrong channel, resets once more: its number is 1 again, the broker's is 2. *)
Definition stale_reset : list Event :=
  [Spawn (JPublish (msg 1))] ++ go 0 2 ++ [Reconnected; Spawn (JPublish (msg 2))] ++ go 1 8 ++
  [Thread 1 SendOk] ++ go 0 3 ++ [Spawn (JPublish (msg 3))] ++ go 2 8 ++
  [Thread 2 SendOk; ProcEnter 2; ProcConfirm 2 1 true; ProcRoute 2; Thread 2 Receive].

(** C5: none of the conditions of an orderly run can be dropped: for each of them there is a run
    that breaks it once and keeps the others, in which a [Publish] returns nil although the
    broker has not acknowledged its message.  They are: two calls with numbers they have not
    sent under, a numbered send that fails, a reconnection between the number and the send,
    a number taken on a channel that is no longer the client's, a reset for a channel that is no
    longer the client's, and an answer of the old channel handed on after a reset. *)
Theorem conditions_needed :
  misleads overtaking (Thread 1 Go) 0 /\
  misleads ahead (Thread 0 (SendErr gone)) 1 /\
  misleads between_number_and_send Reconnected 1 /\
  misleads between_check_and_number (Thread 0 Go) 1 /\
  misleads stale_reset (Thread 0 Go) 2 /\
  misleads stale_answer (ProcRoute 0) 1.
Proof.
  split_and!; eexists _, _; (split; [vm_compute; reflexivity|]);
    (split; [vm_compute; reflexivity|]); (split; [vm_compute; reflexivity|]);
    refine (bool_decide_eq_false_1 _ _); vm_compute; reflexivity.
Qed.

End PubHazards.
