(* ===== verification/PublisherApi.v ===== *)
(** * The publisher as its clients see it

    The retry handler, the consumer and the event bus call the publisher through this
    interface.  A message is handed over with the contents of its header map at that moment.
    The interface promises one thing: a batch that reports no fatal error reports exactly
    one error slot per message.  [from_system] shows that the concurrent publisher of
    [Publisher] keeps that promise, whatever the scheduler and the broker do. *)

From stdpp Require Import base gmap strings list fin_maps.
From Stdlib Require Import ZArith Lia.
From S2P Require Import Prelude Errors Values Publisher PublisherSafety.
Import Err Val.

Module PubApi.

(** [broker.PublishMessage], with the header contents. *)
Record PublishMessage := {
  Exchange : string;
  RoutingKey : string;
  Message : Publishing;
  Headers : Table
}.

(** [broker.PublishMessage{}] *)
Definition zero_message : PublishMessage :=
  {| Exchange := ""; RoutingKey := ""; Message := empty_publishing; Headers := ∅ |}.

Class Publisher := {
  PWorld : Type;
  Publish : PublishMessage -> PWorld -> option error * PWorld;
  PublishBatchPipeline :
    list PublishMessage -> PWorld -> (list (option error) * option error) * PWorld;
  pipeline_one_slot : forall ms pw es pw',
    PublishBatchPipeline ms pw = ((es, None), pw') -> length es = length ms
}.

(** ** The concurrent publisher keeps the promise *)

Section FromSystem.
Context (confirms : bool).
(** What happens while a call runs: the schedule from its start to its return. *)
Context (schedule : Pub.System -> Pub.Job -> list Pub.Event).

(** The state of the publisher, as the schedule that led to it. *)
Definition History : Type := list Pub.Event.

Definition system (h : History) : Pub.System := Pub.final confirms h.

(** A call that does not come back within its schedule. *)
Definition no_return : error := Foreign "call did not return" [].

(** Start a call, run the schedule, and look whether it has returned. *)
Definition call (j : Pub.Job) (h : History) : Pub.Outcome * History :=
  let h' := h ++ Pub.Spawn j :: schedule (system h) j in
  if Pub.runs confirms h' then
    (match Pub.threads (system h') !! length (Pub.threads (system h)) with
     | Some (_, Pub.Returned o) => o
     | _ => Pub.fail_with j no_return
     end, h')
  else (Pub.fail_with j no_return, h).

(** A message in the publisher's model: its identity is all that matters there. *)
Definition to_model (n : nat) (m : PublishMessage) : Pub.Message :=
  {| Pub.exchange := Exchange m; Pub.routingKey := RoutingKey m; Pub.mid := n |}.

Definition publish_call (m : PublishMessage) (h : History) : option error * History :=
  let '(o, h') := call (Pub.JPublish (to_model (length (Pub.threads (system h))) m)) h in
  (match o with Pub.OPublish e => e | Pub.OBatch _ _ => Some no_return end, h').

Definition batch_call (ms : list PublishMessage) (h : History)
  : (list (option error) * option error) * History :=
  let '(o, h') := call (Pub.JBatch (imap to_model ms)) h in
  (match o with Pub.OBatch es e => (es, e) | Pub.OPublish _ => ([], Some no_return) end, h').

Lemma call_slots ms h es h' :
  call (Pub.JBatch ms) h = (Pub.OBatch es None, h') -> length es = length ms.
Proof.
  unfold call, system, Pub.final, Pub.runs. rewrite PubSafety.pub_run_app.
  destruct (Pub.run h (Pub.initial confirms)) as [y|] eqn:Ey; simpl; [|by intros [= ? ?]].
  destruct (Pub.exec (Pub.Spawn _) y) as [y1|] eqn:E1; simpl; [|by intros [= ? ?]].
  destruct (Pub.run _ y1) as [z|] eqn:Ez; simpl; [|by intros [= ? ?]].
  assert (Pub.threads y1 !! length (Pub.threads y) = Some (Pub.JBatch ms, Pub.PStart)) as H1.
  { unfold Pub.exec in E1. destruct (Pub.crashed y); [done|]. injection E1 as <-. simpl.
    by apply list_lookup_middle. }
  destruct (PubSafety.run_job _ _ _ _ _ _ H1 Ez) as [p Hp]. rewrite Hp.
  destruct p; try (by intros [= ? ?]). intros [= -> _].
  eapply (PubSafety.returned_batch_slots confirms); [|done].
  exists (h ++ Pub.Spawn (Pub.JBatch ms) :: schedule y (Pub.JBatch ms)).
  rewrite PubSafety.pub_run_app, Ey. simpl. by rewrite E1.
Qed.

(** The concurrent publisher as an instance of the interface. *)
#[refine] Definition from_system : Publisher :=
  {| PWorld := History; Publish := publish_call; PublishBatchPipeline := batch_call;
     pipeline_one_slot := _ |}.
Proof.
  intros ms y es y' Hc. unfold batch_call in Hc.
  destruct (call (Pub.JBatch (imap to_model ms)) y) as [o y1] eqn:E.
  destruct o as [|es' e]; [done|]. injection Hc as -> -> ->.
  apply call_slots in E. by rewrite E, length_imap.
Defined.

End FromSystem.

(** ** Concrete publishers *)

(** Accepts every message. *)
#[refine] Definition accepting : Publisher :=
  {| PWorld := unit; Publish := fun _ _ => (None, tt);
     PublishBatchPipeline := fun ms _ => ((replicate (length ms) None, None), tt) |}.
Proof. intros ms pw es pw' [= <- _]. apply length_replicate. Defined.

(** Refuses the messages with routing key [bad]. *)
Definition refused : error := Foreign "refused" [].

Definition refuses (bad : string) (m : PublishMessage) : option error :=
  if String.eqb (RoutingKey m) bad then Some refused else None.

#[refine] Definition choosy (bad : string) : Publisher :=
  {| PWorld := unit; Publish := fun m _ => (refuses bad m, tt);
     PublishBatchPipeline := fun ms _ => ((refuses bad <$> ms, None), tt) |}.
Proof. intros ms pw es pw' [= <- _]. apply length_fmap. Defined.

End PubApi.
