(* ===== verification/PublisherRuns.v ===== *)
(** * Calls on a new connection, and after closing

    What a single [Publish] call does when the client has a channel the publisher does not
    know yet, and when the publisher and the client were closed.  The client's part of these
    histories is in [System]. *)

From stdpp Require Import base gmap strings list fin_maps.
From Stdlib Require Import ZArith Lia.
From S2P Require Import Prelude Errors Values Publisher PublisherSafety PublisherSteps.
Import Err Val Pub PubSafety PubSteps.
Local Open Scope kit_scope.

Module PubRuns.

(** ** Calls that nobody interrupts *)

(** The steps [cs] of one call, alone. *)
Fixpoint solo (j : Job) (cs : list Choice) (s : Shared) (p : pc) (ps : list Proc)
  : option (Shared * pc * list Proc) :=
  match cs with
  | [] => Some (s, p, ps)
  | c :: cs' =>
      match thread_step j p c s with
      | Some (Some (s', p', sp)) => solo j cs' s' p' (spawn_if sp ps)
      | _ => None
      end
  end.

Lemma run_events_cons e es y y1 : exec e y = Some y1 -> run (e :: es) y = run es y1.
Proof. intros E. simpl. by rewrite E. Qed.

Lemma solo_run i j cs y s p ps s' p' ps' :
  crashed y = false -> shared y = s -> procs y = ps -> threads y !! i = Some (j, p) ->
  solo j cs s p ps = Some (s', p', ps') ->
  run (Thread i <$> cs) y =
    Some {| shared := s'; threads := <[i := (j, p')]> (threads y); procs := ps';
            crashed := false |}.
Proof.
  revert y s p ps. induction cs as [|c cs IH]; intros y s p ps Hcr <- <- Hi Hs; simpl in Hs.
  - injection Hs as <- <- <-. simpl. destruct y as [s ts ps cr]. simpl in *. subst cr.
    by rewrite list_insert_id.
  - destruct (thread_step j p c (shared y)) as [[[[s1 p1] sp]|]|] eqn:E; [|done..].
    rewrite fmap_cons. erewrite run_events_cons.
    2: { unfold exec. rewrite Hcr, Hi. simpl. by rewrite E. }
    erewrite IH; [..|exact Hs]; simpl; [|done..|].
    + by rewrite list_insert_insert_eq.
    + apply list_lookup_insert_eq. by eapply lookup_lt_Some.
Qed.

(** ** The first call on a new channel *)

(** What two states of the publisher have in common that differ in its own bookkeeping. *)
Definition same_client (s s' : Shared) : Prop :=
  closed s' = closed s /\ channel s' = channel s /\ PublisherConfirms s' = PublisherConfirms s /\
  closed_done s' = closed_done s /\ sent s' = sent s /\ confirmed s' = confirmed s /\
  opened s' = opened s /\ dead s' = dead s.

Lemma reset_section_new id s :
  wf_shared s -> channelID s <> id ->
  exists s', reset_section id s = Some (s', Some (done s)) /\ wf_shared s' /\
    pending s' = ∅ /\ deliveryTag s' = 0%Z /\ channelID s' = id /\ same_client s s'.
Proof.
  intros Hwf Hid. unfold reset_section. rewrite bool_decide_eq_false_2 by congruence.
  set (s1 := if started s then _ else s). set (s2 := s1 <| deliveryTag := 0%Z |>).
  assert (wf_shared s2 /\ same_client s s2) as [Hwf2 Hsame].
  { destruct Hwf. subst s2 s1. destruct (started s); simpl; (split; [|done]); by outside. }
  destruct (clear_pending_spec s2 Hwf2) as (s3 & E & _ & Hwf3 & Hp & Ht & Hc3 & Hs3 & Hcf3 & Heq).
  rewrite E. simpl. eexists. split; [done|]. simpl.
  split_and!; [by eapply wf_outside; [..|exact Hwf3]; simpl; eauto; apply Hwf3|done|done|done|].
  destruct Hsame as (H1 & H2 & H3 & H4 & H5 & H6 & H7 & H8). rewrite Heq. by split_and!.
Qed.

(** The choices of a [Publish] that sets up confirms again, up to its wait. *)
Definition reconnecting_publish : list Choice := [Go; Go; Go; Go; Go; Go; Go; Go; SendOk].

(** A state on the way from the reset to the send: the client's fields, and everything else
    that matters as it was in [s0]. *)
Definition ready (h : handle) (s0 s : Shared) : Prop :=
  closed s = false /\ channel s = Some h /\ PublisherConfirms s = true /\ deliveryTag s = 0%Z /\
  pending s = pending s0 /\ chans s = chans s0 /\ next_id s = next_id s0 /\
  sent s = sent s0 /\ confirmed s = confirmed s0.

(** The same once the number is taken. *)
Definition ready_but_tag (h : handle) (s0 s : Shared) : Prop :=
  channel s = Some h /\ pending s = pending s0 /\ chans s = chans s0 /\
  next_id s = next_id s0 /\ sent s = sent s0 /\ confirmed s = confirmed s0.

Lemma solo_cons j c cs s p ps s1 p1 sp :
  thread_step j p c s = Some (Some (s1, p1, sp)) ->
  solo j (c :: cs) s p ps = solo j cs s1 p1 (spawn_if sp ps).
Proof. intros E. cbn [solo]. by rewrite E. Qed.

Lemma ready_close m h s0 s d :
  ready h s0 s -> d ∉ closed_done s ->
  exists s', thread_step (JPublish m) (PCloseDone d) Go s = Some (Some (s', PResetup, false)) /\
    ready h s0 s'.
Proof.
  intros Hr Hd. cbn [thread_step prologue]. unfold close_signal.
  rewrite bool_decide_eq_false_2 by done. eexists. split; [reflexivity|]. exact Hr.
Qed.

Lemma ready_setup m h s0 s :
  ready h s0 s ->
  exists s', thread_step (JPublish m) PResetup Go s = Some (Some (s', PCheck, true)) /\
    ready h s0 s' /\ confirms s' = Some h.
Proof.
  intros Hr. cbn [thread_step prologue]. unfold resetup, setupConfirms.
  destruct (channel s) as [h'|] eqn:E; [|destruct Hr as (_ & Hr & _); congruence].
  assert (h' = h) as -> by (destruct Hr as (_ & Hr & _); congruence).
  eexists. split; [reflexivity|]. split; [|done]. unfold ready in *. simpl. tauto.
Qed.

Lemma ready_check m h s0 s :
  ready h s0 s -> thread_step (JPublish m) PCheck Go s = Some (Some (s, PTag, false)).
Proof.
  intros (Hc & Hch & Hm & _). cbn [thread_step prologue]. by rewrite Hc, Hch, Hm.
Qed.

(** Numbering, registration and the send, one by one. *)
Lemma tag_step m h s0 s :
  ready h s0 s ->
  exists s', thread_step (JPublish m) PTag Go s = Some (Some (s', PRegister 1, false)) /\
    ready_but_tag h s0 s' /\ confirms s' = confirms s.
Proof.
  intros (_ & Hch & _ & Ht & Hp & Hcs & Hn & Hs & Hcf).
  exists (next_tag s).1. cbn [thread_step prologue publish_step]. unfold next_tag. rewrite Ht.
  by split_and!.
Qed.

Lemma register_step m t s :
  exists s', thread_step (JPublish m) (PRegister t) Go s =
      Some (Some (s', PSend t (next_id s), false)) /\
    confirms s' = confirms s /\ channel s' = channel s /\ sent s' = sent s /\
    confirmed s' = confirmed s /\ pending s' = <[t := next_id s]> (pending s) /\
    chans s' = <[next_id s := open_chan]> (chans s) /\ next_id s' = S (next_id s).
Proof. exists (register t s).1. by split_and!. Qed.

Lemma send_step_ok m t c h s :
  channel s = Some h ->
  exists s', thread_step (JPublish m) (PSend t c) SendOk s = Some (Some (s', PWait t c, false)) /\
    sent s' = sent s ++ [(h, mid m)] /\ channel s' = channel s /\ confirms s' = confirms s /\
    confirmed s' = confirmed s /\ pending s' = pending s /\ chans s' = chans s /\
    next_id s' = next_id s.
Proof.
  intros Hh. cbn [thread_step prologue publish_step].
  destruct (send true (mid m) s) as [s'|] eqn:E; [|unfold send in E; by destruct (channel s)].
  exists s'. destruct (send_with _ _ _ _ E) as (h' & Hh' & ->).
  rewrite Hh in Hh'. injection Hh' as <-. by split_and!.
Qed.

(** The three together, from a ready state. *)
Lemma ready_send m h s0 s ps :
  ready h s0 s ->
  exists s', solo (JPublish m) [Go; Go; SendOk] s PTag ps = Some (s', PWait 1 (next_id s0), ps) /\
    confirms s' = confirms s /\ pending s' = <[1%Z := next_id s0]> (pending s0) /\
    chans s' = <[next_id s0 := open_chan]> (chans s0) /\ next_id s' = S (next_id s0) /\
    channel s' = Some h /\ sent s' = sent s0 ++ [(h, mid m)] /\ confirmed s' = confirmed s0.
Proof.
  intros Hr. destruct (tag_step m h s0 s Hr) as (s1 & E1 & (Hc1 & Hp1 & Hcs1 & Hn1 & Hs1 & Hf1) & Hcf1).
  destruct (register_step m 1 s1) as (s2 & E2 & Hcf2 & Hc2 & Hs2 & Hf2 & Hp2 & Hcs2 & Hn2).
  destruct (send_step_ok m 1 (next_id s1) h s2) as (s3 & E3 & Hs3 & Hc3 & Hcf3 & Hf3 & Hp3 & Hcs3 & Hn3);
    [congruence|].
  exists s3. rewrite (solo_cons _ _ _ _ _ _ _ _ _ E1), (solo_cons _ _ _ _ _ _ _ _ _ E2).
  rewrite (solo_cons _ _ _ _ _ _ _ _ _ E3), Hn1. split; [done|]. split_and!; congruence.
Qed.

(** The steps after the reset: confirms are set up on the new channel, and the message is
    numbered, registered and sent. *)
Lemma after_reset_runs m s h d ps :
  closed s = false -> channel s = Some h -> PublisherConfirms s = true -> deliveryTag s = 0%Z ->
  d ∉ closed_done s ->
  exists s', solo (JPublish m) [Go; Go; Go; Go; Go; SendOk] s (PCloseDone d) ps =
      Some (s', PWait 1 (next_id s), ps ++ [Loop]) /\
    confirms s' = Some h /\ pending s' = <[1%Z := next_id s]> (pending s) /\
    chans s' = <[next_id s := open_chan]> (chans s) /\ next_id s' = S (next_id s) /\
    channel s' = Some h /\ sent s' = sent s ++ [(h, mid m)] /\ confirmed s' = confirmed s.
Proof.
  intros Hcl Hch Hm Ht Hd. assert (ready h s s) as Hr by done.
  destruct (ready_close m h s s d Hr Hd) as (s1 & E1 & Hr1).
  destruct (ready_setup m h s s1 Hr1) as (s2 & E2 & Hr2 & Hcf).
  destruct (ready_send m h s s2 (ps ++ [Loop]) Hr2) as (s3 & E3 & Hcf3 & Hrest).
  exists s3. rewrite (solo_cons _ _ _ _ _ _ _ _ _ E1), (solo_cons _ _ _ _ _ _ _ _ _ E2).
  rewrite (solo_cons _ _ _ _ _ _ _ _ _ (ready_check m h s s2 Hr2)). cbn [spawn_if].
  split; [exact E3|]. split; [congruence|exact Hrest].
Qed.

(** What such a call leaves behind: its message is number one and registered, and there is
    a new processor for the new channel. *)
Lemma reconnecting_publish_runs m s h ps :
  wf_shared s -> PublisherConfirms s = true -> closed s = false -> channel s = Some h ->
  channelID s <> Some h -> done s ∉ closed_done s ->
  exists s' c, solo (JPublish m) reconnecting_publish s PStart ps =
      Some (s', PWait 1 c, ps ++ [Loop]) /\
    wf_shared s' /\ confirms s' = Some h /\ pending s' !! 1%Z = Some c /\
    sent s' = sent s ++ [(h, mid m)] /\ confirmed s' = confirmed s.
Proof.
  intros Hwf Hm Hcl Hch Hid Hd.
  destruct (reset_section_new (Some h) s Hwf Hid)
    as (s1 & E1 & Hwf1 & Hp1 & Ht1 & _ & Hc & Hch1 & Hm1 & Hcd & Hs1 & Hcf1 & _).
  assert (solo (JPublish m) reconnecting_publish s PStart ps =
          solo (JPublish m) [Go; Go; Go; Go; Go; SendOk] s1 (PCloseDone (done s)) ps) as ->.
  { unfold reconnecting_publish. cbn [solo thread_step prologue spawn_if]. rewrite Hm, Hch.
    cbn [solo thread_step prologue spawn_if]. by rewrite E1. }
  destruct (after_reset_runs m s1 h (done s) ps) as
    (s' & E & Hcf & Hp & Hcs & Hn & Hch' & Hs & Hcd'); [congruence..|].
  exists s', (next_id s1). split; [done|]. split_and!; [|done| | |congruence].
  - destruct (register_spec 1 s1 Hwf1) as (_ & Hwf2 & _).
    eapply wf_outside; [..|exact Hwf2]; simpl; rewrite ?Hcs, ?Hp, ?Hn, ?Hch'; eauto.
  - rewrite Hp. apply lookup_insert_eq.
  - congruence.
Qed.

(** The broker's acknowledgement of number one reaches the call. *)
Lemma acknowledged_runs y i k j m c h :
  crashed y = false -> wf_shared (shared y) -> j = JPublish m ->
  threads y !! i = Some (j, PWait 1 c) -> procs y !! k = Some Loop ->
  confirms (shared y) = Some h -> pending (shared y) !! 1%Z = Some c ->
  (h, mid m) ∈ sent (shared y) -> (h, 1%Z, false) ∉ confirmed (shared y) ->
  exists y', run [ProcEnter k; ProcConfirm k 1 true; ProcRoute k; Thread i Receive] y = Some y' /\
    threads y' = <[i := (j, Returned (OPublish None))]> (threads y) /\ crashed y' = false /\
    confirmed (shared y') = confirmed (shared y) ++ [(h, 1%Z, true)] /\
    sent (shared y') = sent (shared y).
Proof.
  intros Hcr Hwf -> Hi Hk Hcf Hp Hs Hn. pose proof (pending_open _ Hwf _ _ Hp) as Hopen.
  assert (confirmable h 1 true (shared y)) as Hok.
  { split; [|done]. split; [lia|]. assert (0 < sent_on h (shared y))%nat; [|lia].
    apply sent_on_pos. eauto. }
  erewrite run_events_cons by (unfold exec; rewrite Hcr, Hk; reflexivity).
  erewrite run_events_cons.
  2: { unfold exec. cbn [crashed shared procs]. rewrite ?Hcr.
       rewrite list_lookup_insert_eq by eauto using lookup_lt_Some. rewrite Hcf.
       rewrite bool_decide_eq_true_2 by done. reflexivity. }
  erewrite run_events_cons.
  2: { unfold exec. cbn [crashed shared procs]. rewrite ?Hcr.
       rewrite list_lookup_insert_eq by (rewrite length_insert; eauto using lookup_lt_Some).
       unfold route. cbn [pending chans]. rewrite Hp, Hopen. reflexivity. }
  erewrite run_events_cons.
  2: { unfold exec. cbn [crashed shared threads]. rewrite ?Hcr, Hi. simpl.
       unfold receive. cbn [chans]. rewrite lookup_insert_eq. reflexivity. }
  simpl. eexists. split; [done|]. by split_and!.
Qed.

(** A call alone on a new channel, from its start to its return. *)
Definition publish_on_new (i k : nat) (m : Message) : list Event :=
  Spawn (JPublish m) :: (Thread i <$> reconnecting_publish) ++
  [ProcEnter k; ProcConfirm k 1 true; ProcRoute k; Thread i Receive].

(** Such a call succeeds. *)
Lemma publish_on_new_runs m y h :
  crashed y = false -> wf_shared (shared y) -> PublisherConfirms (shared y) = true ->
  closed (shared y) = false -> channel (shared y) = Some h -> channelID (shared y) <> Some h ->
  done (shared y) ∉ closed_done (shared y) -> (h, 1%Z, false) ∉ confirmed (shared y) ->
  exists y', run (publish_on_new (length (threads y)) (length (procs y)) m) y = Some y' /\
    threads y' = threads y ++ [(JPublish m, Returned (OPublish None))] /\ crashed y' = false /\
    sent (shared y') = sent (shared y) ++ [(h, mid m)] /\
    confirmed (shared y') = confirmed (shared y) ++ [(h, 1%Z, true)].
Proof.
  intros Hcr Hwf Hm Hcl Hch Hid Hd Hn. unfold publish_on_new.
  set (i := length (threads y)).
  set (y0 := {| shared := shared y; threads := threads y ++ [(JPublish m, PStart)];
                procs := procs y; crashed := false |}).
  rewrite (run_events_cons _ _ y y0) by (unfold exec; by rewrite Hcr).
  destruct (reconnecting_publish_runs m (shared y) h (procs y) Hwf Hm Hcl Hch Hid Hd)
    as (s' & c & Hsolo & Hwf' & Hcf & Hp & Hs & Hcf').
  rewrite pub_run_app.
  rewrite (solo_run i (JPublish m) reconnecting_publish y0 (shared y) PStart (procs y)
             s' (PWait 1 c) (procs y ++ [Loop])); [|done..| |done].
  2: { simpl. by rewrite lookup_app_r, Nat.sub_diag by lia. }
  cbn [mbind option_bind].
  match goal with |- context [run _ ?y1] => set (y1' := y1) end.
  destruct (acknowledged_runs y1' i (length (procs y)) (JPublish m) m c h)
    as (y' & E & Ht & Hcr' & Hcf1 & Hs1); subst y1'; simpl in *; try done.
  - rewrite list_lookup_insert_eq; [done|]. rewrite length_app. simpl. lia.
  - by rewrite lookup_app_r, Nat.sub_diag by lia.
  - rewrite Hs. apply elem_of_app. right. by left.
  - congruence.
  - exists y'. split; [exact E|]. split_and!; [|done|congruence..].
    rewrite Ht, list_insert_insert_eq. unfold i.
    rewrite insert_app_r_alt, Nat.sub_diag by lia. done.
Qed.

(** ** Calls on a closed publisher *)

(** A call on a closed client whose channel the publisher knows. *)
Lemma closed_publish_runs m s ps :
  closed s = true -> PublisherConfirms s = true -> channelID s = channel s ->
  solo (JPublish m) [Go; Go; Go; Go] s PStart ps =
    Some (s, Returned (OPublish (Some (Sentinel ErrClientClosed))), ps).
Proof.
  intros Hcl Hm Hid. cbn [solo thread_step prologue spawn_if]. rewrite Hm.
  cbn [solo thread_step prologue spawn_if]. unfold reset_section.
  rewrite bool_decide_eq_true_2 by done. cbn [mbind option_bind solo thread_step prologue spawn_if].
  rewrite Hcl. done.
Qed.

(** A call that finds a new channel after [Close] closed the done channel: its fourth step
    closes it again. *)
Lemma closed_publish_panics m s ps :
  wf_shared s -> PublisherConfirms s = true -> channelID s <> channel s ->
  done s ∈ closed_done s ->
  exists s', solo (JPublish m) [Go; Go; Go] s PStart ps = Some (s', PCloseDone (done s), ps) /\
    thread_step (JPublish m) (PCloseDone (done s)) Go s' = Some None.
Proof.
  intros Hwf Hm Hid Hd.
  destruct (reset_section_new (channel s) s Hwf Hid)
    as (s1 & E1 & _ & _ & _ & _ & _ & _ & _ & Hcd & _).
  exists s1. split.
  - cbn [solo thread_step prologue spawn_if]. rewrite Hm. cbn [solo thread_step prologue spawn_if].
    by rewrite E1.
  - simpl. unfold close_signal. by rewrite Hcd, bool_decide_eq_true_2.
Qed.

(** A call on a closed client, with confirms disabled. *)
Lemma closed_plain_runs m s ps :
  closed s = true -> PublisherConfirms s = false ->
  solo (JPublish m) [Go; Go; Go] s PStart ps =
    Some (s, Returned (OPublish (Some (Sentinel ErrClientClosed))), ps).
Proof.
  intros Hcl Hm. cbn [solo thread_step prologue spawn_if]. rewrite Hm.
  cbn [solo thread_step prologue spawn_if]. by rewrite Hcl.
Qed.

Section Call.
Context (m : Message) (y : System).
Hypothesis running : crashed y = false.

Let i : nat := length (threads y).
Let y0 : System :=
  {| shared := shared y; threads := threads y ++ [(JPublish m, PStart)]; procs := procs y;
     crashed := false |}.

Lemma call_starts : exec (Spawn (JPublish m)) y = Some y0.
Proof. unfold exec. by rewrite running. Qed.

Lemma call_at : threads y0 !! i = Some (JPublish m, PStart).
Proof. simpl. by rewrite lookup_app_r, Nat.sub_diag by (unfold i; lia). Qed.

(** A call that returns after the steps [cs]. *)
Lemma call_returns cs s' o ps' :
  solo (JPublish m) cs (shared y) PStart (procs y) = Some (s', Returned o, ps') ->
  exists y', run (Spawn (JPublish m) :: (Thread i <$> cs)) y = Some y' /\
    crashed y' = false /\ threads y' !! i = Some (JPublish m, Returned o).
Proof.
  intros E. rewrite (run_events_cons _ _ y y0 call_starts).
  rewrite (solo_run i (JPublish m) cs y0 (shared y) PStart (procs y) _ _ _
             eq_refl eq_refl eq_refl call_at E).
  eexists. split; [done|]. split; [done|]. apply list_lookup_insert_eq.
  eapply lookup_lt_Some, call_at.
Qed.

(** A call that finds a new channel when the done channel is closed already: its fourth step
    panics. *)
Lemma call_panics :
  wf_shared (shared y) -> PublisherConfirms (shared y) = true ->
  channelID (shared y) <> channel (shared y) -> done (shared y) ∈ closed_done (shared y) ->
  exists y', run (Spawn (JPublish m) :: go i 4) y = Some y' /\ crashed y' = true.
Proof.
  intros Hwf Hm Hid Hd. rewrite (run_events_cons _ _ y y0 call_starts).
  destruct (closed_publish_panics m (shared y) (procs y) Hwf Hm Hid Hd) as (s' & E & Hp).
  change (go i 4) with ((Thread i <$> [Go; Go; Go]) ++ [Thread i Go]).
  rewrite pub_run_app.
  rewrite (solo_run i (JPublish m) [Go; Go; Go] y0 (shared y) PStart (procs y) _ _ _
             eq_refl eq_refl eq_refl call_at E).
  cbn [mbind option_bind run]. unfold exec. cbn [crashed threads shared].
  rewrite list_lookup_insert_eq by (eapply lookup_lt_Some, call_at). cbn [mbind option_bind].
  rewrite Hp. eexists. by split.
Qed.

End Call.

(** The steps of a call that is refused because the client is closed. *)
Definition refused_steps (confirms : bool) : nat := if confirms then 4 else 3.

(** A call alone after the publisher and the client were closed. *)
Lemma closed_call m y :
  crashed y = false -> wf_shared (shared y) -> closed (shared y) = true ->
  (PublisherConfirms (shared y) = true -> done (shared y) ∈ closed_done (shared y)) ->
  let i := length (threads y) in
  exists y', run (Spawn (JPublish m) :: go i (refused_steps (PublisherConfirms (shared y)))) y =
      Some y' /\
    if PublisherConfirms (shared y) && bool_decide (channelID (shared y) <> channel (shared y))
    then crashed y' = true
    else crashed y' = false /\ threads y' !! i =
           Some (JPublish m, Returned (OPublish (Some (Sentinel ErrClientClosed)))).
Proof.
  intros Hcr Hwf Hcl Hd i. destruct (PublisherConfirms (shared y)) eqn:Hm; simpl.
  - case_bool_decide as Hid; [by apply call_panics; auto|].
    by apply (call_returns m y Hcr [Go; Go; Go; Go] _ _ _ (closed_publish_runs m _ _ Hcl Hm Hid)).
  - by apply (call_returns m y Hcr [Go; Go; Go] _ _ _ (closed_plain_runs m _ _ Hcl Hm)).
Qed.

End PubRuns.
