(* ===== verification/System.v ===== *)
(** * Client and publisher together

    [Reconnect] follows the goroutines around the client's connection and [Publisher] those
    around its channel.  This file joins the two machines of one bus: an event of the client
    carries the changes of the client's fields that the publisher can see, a new channel
    after a connection attempt, the death of a channel, [Close].  [connect] holds the
    client's lock from its beginning to its end, so a publisher sees a connection attempt as
    one step, and after one that fails late it sees a channel that is closed already. *)

From stdpp Require Import base gmap strings list fin_maps relations.
From Stdlib Require Import ZArith Lia.
From S2P Require Import Prelude Errors Values Reconnect Publisher PublisherSafety PublisherSteps PublisherRuns.
Import Err Val.
Local Open Scope kit_scope.

Module Sys.

(** The client's machine, the publisher's, and the channel that each connection was opened
    with. *)
Record State := {
  cl : Reconn.State;
  pb : Pub.System;
  handles : list Pub.handle
}.

Inductive Event :=
| Client (e : Reconn.Event)
| Publisher (e : Pub.Event).

(** An attempt of the loop that gets past [c.channel = ch]. *)
Definition attempts (e : Reconn.Event) (c : Reconn.State) : option Reconn.Attempt :=
  match e, Reconn.loop c, Reconn.closed c with
  | Reconn.LoopStep a, Reconn.Connecting, false =>
      match a with Reconn.FailsBefore => None | _ => Some a end
  | _, _, _ => None
  end.

(** What the publisher sees of an event of the client. *)
Definition effects (e : Reconn.Event) (s : State) : list Pub.Event :=
  match e with
  | Reconn.LoseConn n | Reconn.LoseChannel n =>
      match handles s !! n with Some h => [Pub.ChannelDies h] | None => [] end
  | Reconn.CallClose =>
      Pub.CloseClient ::
      match Pub.channel (Pub.shared (pb s)) with Some h => [Pub.ChannelDies h] | None => [] end
  | _ =>
      match attempts e (cl s) with
      | Some Reconn.Succeeds => [Pub.Reconnected]
      | Some _ => [Pub.Reconnected; Pub.ChannelDies (Pub.opened (Pub.shared (pb s)))]
      | None => []
      end
  end.

Definition new_handles (e : Reconn.Event) (s : State) : list Pub.handle :=
  match attempts e (cl s) with
  | Some Reconn.Succeeds => handles s ++ [Pub.opened (Pub.shared (pb s))]
  | _ => handles s
  end.

(** The events that are not the client's: those of calls, of processors, and the
    publisher's [Close]. *)
Definition own_event (e : Pub.Event) : bool :=
  match e with
  | Pub.ChannelDies _ | Pub.Reconnected | Pub.CloseClient => false
  | _ => true
  end.

(** One event; none is possible once a panic has ended the process. *)
Definition exec (e : Event) (s : State) : option State :=
  match e with
  | Client e =>
      if Pub.crashed (pb s) then None else
      c ← Reconn.exec e (cl s);
      p ← Pub.run (effects e s) (pb s);
      Some {| cl := c; pb := p; handles := new_handles e s |}
  | Publisher e =>
      if own_event e then
        p ← Pub.exec e (pb s); Some {| cl := cl s; pb := p; handles := handles s |}
      else None
  end.

Fixpoint run (es : list Event) (s : State) : option State :=
  match es with
  | [] => Some s
  | e :: es' => s' ← exec e s; run es' s'
  end.

(** A bus just after [NewEventBus]. *)
Definition initial (confirmsEnabled : bool) : State :=
  {| cl := Reconn.initial; pb := Pub.initial confirmsEnabled; handles := [0%nat] |}.

Definition reachable (b : bool) (s : State) : Prop := exists es, run es (initial b) = Some s.

(** [EventBus.Close] *)
Definition bus_close : list Event := [Publisher Pub.ClosePublisher; Client Reconn.CallClose].

(** [EventBus.Reconnect] on an open client, a call up to its end. *)
Definition bus_reconnect : list Event :=
  [Client Reconn.CallReconnect; Client Reconn.ReconnectSend].

(** ** The parts of a run *)

(** The two machines agree about the client. *)
Record agree (s : State) : Prop := {
  ag_closed : Pub.closed (Pub.shared (pb s)) = Reconn.closed (cl s);
  ag_length : length (handles s) = length (Reconn.watchers (cl s));
  ag_current : forall n, Reconn.current (cl s) = Some n ->
    Pub.channel (Pub.shared (pb s)) = handles s !! n;
  ag_gone : Reconn.current (cl s) = None \/ Reconn.closed (cl s) = true ->
    exists h, Pub.channel (Pub.shared (pb s)) = Some h /\ h ∈ Pub.dead (Pub.shared (pb s));
  ag_lost : forall n h, n ∈ Reconn.conn_lost (cl s) ∪ Reconn.chan_lost (cl s) ->
    handles s !! n = Some h -> h ∈ Pub.dead (Pub.shared (pb s));
  ag_known : forall n, n ∈ Reconn.conn_lost (cl s) ∪ Reconn.chan_lost (cl s) ->
    (n < length (handles s))%nat
}.

Lemma bus_run_app es1 es2 s : run (es1 ++ es2) s = s' ← run es1 s; run es2 s'.
Proof.
  revert s. induction es1 as [|e es1 IH]; intros s; simpl; [done|].
  destruct (exec e s); simpl; [apply IH|done].
Qed.

(** The client's events and the publisher's events of a run are runs of the components. *)
Lemma exec_parts e s s' :
  exec e s = Some s' ->
  (exists es, Reconn.run es (cl s) = Some (cl s')) /\
  (exists es, Pub.run es (pb s) = Some (pb s')).
Proof.
  destruct e as [e|e]; simpl; intros He.
  - destruct (Pub.crashed (pb s)); [done|].
    destruct (Reconn.exec e (cl s)) as [c|] eqn:Ec; [|done]. simpl in He.
    destruct (Pub.run (effects e s) (pb s)) as [p|] eqn:Ep; [|done]. injection He as <-.
    split; [exists [e]; simpl; by rewrite Ec|by exists (effects e s)].
  - destruct (own_event e); [|done]. destruct (Pub.exec e (pb s)) as [p|] eqn:Ep; [|done].
    injection He as <-. split; [by exists []|]. exists [e]. simpl. by rewrite Ep.
Qed.

Lemma run_parts es s s' :
  run es s = Some s' ->
  (exists es, Reconn.run es (cl s) = Some (cl s')) /\
  (exists es, Pub.run es (pb s) = Some (pb s')).
Proof.
  revert s. induction es as [|e es IH]; intros s Hr; simpl in Hr.
  { simplify_eq. split; by exists []. }
  destruct (exec e s) as [s1|] eqn:E; [|done].
  destruct (exec_parts e s s1 E) as [[es1 H1] [es2 H2]]. destruct (IH s1 Hr) as [[es3 H3] [es4 H4]].
  split.
  - exists (es1 ++ es3). by rewrite Reconn.run_events_app, H1.
  - exists (es2 ++ es4). by rewrite PubSafety.pub_run_app, H2.
Qed.

Lemma reachable_parts b s :
  reachable b s -> Reconn.reachable (cl s) /\ Pub.reachable b (pb s).
Proof.
  intros [es Hr]. destruct (run_parts es _ _ Hr) as [[es1 H1] [es2 H2]].
  split; [by apply (Reconn.run_rtc es1)|by exists es2].
Qed.

(** *** The client's fields *)

Lemma own_exec_client e y y' :
  PubSafety.wf_shared (Pub.shared y) -> own_event e = true -> Pub.exec e y = Some y' ->
  PubSteps.client_side (Pub.shared y') = PubSteps.client_side (Pub.shared y).
Proof.
  intros Hwf Ho He. unfold Pub.exec in He. destruct (Pub.crashed y); [done|].
  destruct e; try done.
  - by injection He as <-.
  - destruct (Pub.threads y !! i) as [[j p]|]; [|done]. simpl in He.
    destruct (Pub.thread_step j p c (Pub.shared y)) as [[[[s' p'] sp]|]|] eqn:Es; [| |done];
      injection He as <-; [|done].
    by destruct (PubSteps.thread_uses _ _ _ _ _ _ _ Hwf Es).
  - destruct (Pub.procs y !! k) as [[]|]; [|done..]. by injection He as <-.
  - destruct (Pub.procs y !! k) as [[|[ch|] d| | |]|]; try done. case_bool_decide; [|done].
    by injection He as <-.
  - destruct (Pub.procs y !! k) as [[| |ch tag ack| |]|]; try done.
    destruct (PubSafety.route_spec ch tag ack (Pub.shared y) Hwf) as (s' & E & _ & _ & _ & Hs').
    rewrite E in He. injection He as <-. simpl. by rewrite Hs'.
  - destruct (Pub.procs y !! k) as [[|[ch|] d| | |]|]; try done. case_bool_decide; [|done].
    by injection He as <-.
  - destruct (Pub.procs y !! k) as [[]|]; try done.
    destruct (PubSafety.clear_pending_spec (Pub.shared y) Hwf)
      as (s' & E & _ & _ & _ & _ & _ & _ & _ & Hs').
    rewrite E in He. injection He as <-. simpl. by rewrite Hs'.
  - destruct (Pub.procs y !! k) as [[|cf d| | |]|]; try done. case_bool_decide; [|done].
    by injection He as <-.
  - injection He as <-. destruct (Pub.Close (Pub.shared y)) as [s'|] eqn:Ec; [|done].
    unfold Pub.Close, Pub.close_signal in Ec.
    destruct (Pub.started (Pub.shared y)); [case_bool_decide; [done|]|]; by injection Ec as <-.
Qed.

(** What the client's machine contributes to the agreement. *)
Definition view (c : Reconn.State)
  : bool * option nat * nat * gset nat * gset nat :=
  (Reconn.closed c, Reconn.current c, length (Reconn.watchers c), Reconn.conn_lost c,
   Reconn.chan_lost c).

Lemma agree_same s c p :
  agree s -> view c = view (cl s) ->
  PubSteps.client_side (Pub.shared p) = PubSteps.client_side (Pub.shared (pb s)) ->
  agree {| cl := c; pb := p; handles := handles s |}.
Proof.
  intros [H1 H2 H3 H4 H5 H6] [= V1 V2 V3 V4 V5] [= P1 P2 _ _ P5].
  split; simpl; rewrite ?V1, ?V2, ?V3, ?V4, ?V5, ?P1, ?P2, ?P5; done.
Qed.

(** The client's events that change its connections or close it. *)
Definition changes (e : Reconn.Event) (c : Reconn.State) : bool :=
  match e with
  | Reconn.LoseConn _ | Reconn.LoseChannel _ | Reconn.CallClose => true
  | _ => match attempts e c with Some _ => true | None => false end
  end.

Lemma view_signal c : view (Reconn.signal c) = view c.
Proof. unfold Reconn.signal. by destruct (Reconn.loop c). Qed.

Lemma view_kept e c c' : changes e c = false -> Reconn.exec e c = Some c' -> view c' = view c.
Proof.
  intros Hn He. destruct e; simpl in Hn, He; try done.
  - unfold Reconn.loop_step in He. unfold attempts in Hn.
    destruct c as [[] cu [] ws co ch k], a; simplify_eq/=; try done; by case_match; simplify_eq/=.
  - case_match; [|done]. case_match; try done. case_bool_decide; simplify_eq/=.
    unfold view. simpl. by rewrite length_insert.
  - case_match; [|done]. case_match; try done. case_match; simplify_eq/=.
    unfold view. simpl. by rewrite length_insert.
  - case_match; [|done]. case_match; try done. simplify_eq/=. rewrite view_signal.
    unfold view. simpl. by rewrite length_insert.
  - simplify_eq/=. by destruct c as [[] cu lp ws co ch k].
  - destruct (Reconn.callers c); simplify_eq/=. by rewrite view_signal.
Qed.

Lemma no_effects e s :
  changes e (cl s) = false -> effects e s = [] /\ new_handles e s = handles s.
Proof.
  intros Hn. unfold effects, new_handles. destruct e; try done. unfold changes in Hn.
  by destruct (attempts _ (cl s)).
Qed.

(** A connection, or its channel, is lost. *)
Lemma agree_lose s n c p :
  agree s -> (n < length (handles s))%nat ->
  Reconn.closed c = Reconn.closed (cl s) -> Reconn.current c = Reconn.current (cl s) ->
  length (Reconn.watchers c) = length (Reconn.watchers (cl s)) ->
  Reconn.conn_lost c ∪ Reconn.chan_lost c ⊆
    {[n]} ∪ (Reconn.conn_lost (cl s) ∪ Reconn.chan_lost (cl s)) ->
  Pub.crashed (pb s) = false ->
  Pub.run (match handles s !! n with Some h => [Pub.ChannelDies h] | None => [] end) (pb s)
    = Some p ->
  agree {| cl := c; pb := p; handles := handles s |}.
Proof.
  intros [H1 H2 H3 H4 H5 H6] Hn E1 E2 E3 Hl Hcr Hp.
  destruct (lookup_lt_is_Some_2 (handles s) n Hn) as [h Eh]. rewrite Eh in Hp.
  simpl in Hp. unfold Pub.exec in Hp. rewrite Hcr in Hp. injection Hp as <-.
  split; simpl; rewrite ?E1, ?E2, ?E3; try done.
  - intros Hc. destruct (H4 Hc) as (h' & Eh' & Hd). exists h'. split; [done|].
    apply elem_of_union. by right.
  - intros m h' Hm Em. apply Hl, elem_of_union in Hm as [->%elem_of_singleton|Hm].
    + rewrite Eh in Em. injection Em as ->.
      apply elem_of_union. left. by apply elem_of_singleton.
    + apply elem_of_union. right. by apply (H5 m).
  - intros m Hm. apply Hl, elem_of_union in Hm as [->%elem_of_singleton|Hm]; auto.
Qed.

(** A connection attempt that assigns the channel. *)
Lemma agree_attempt s a c p :
  agree s -> Pub.crashed (pb s) = false ->
  attempts (Reconn.LoopStep a) (cl s) = Some a -> Reconn.loop_step a (cl s) = Some c ->
  Pub.run (effects (Reconn.LoopStep a) s) (pb s) = Some p ->
  agree {| cl := c; pb := p; handles := new_handles (Reconn.LoopStep a) s |}.
Proof.
  intros Hag Hcr Ha Hl Hp. pose proof Hag as [H1 H2 H3 H4 H5 H6].
  unfold effects in Hp. unfold new_handles. rewrite Ha in Hp |- *. unfold attempts in Ha.
  unfold Reconn.loop_step in Hl. destruct (Reconn.loop (cl s)); try done.
  destruct (Reconn.closed (cl s)) eqn:Ec; [done|].
  destruct a; [|done|]; injection Hl as <-; simpl in Hp; unfold Pub.exec in Hp;
    rewrite Hcr, H1 in Hp; simpl in Hp; rewrite ?Hcr in Hp; injection Hp as <-; split; simpl;
    try done; try congruence.
  - rewrite !length_app. simpl. lia.
  - intros n [= <-]. by rewrite <- H2, lookup_app_r, Nat.sub_diag by lia.
  - intros [?|?]; congruence.
  - intros n h Hn Hh. apply (H5 n h); [done|]. rewrite lookup_app_l in Hh; auto.
  - intros n Hn. rewrite length_app. specialize (H6 n Hn). lia.
  - intros _. eexists. split; [done|]. apply elem_of_union. left.
    by apply elem_of_singleton.
  - intros n h Hn Hh. apply elem_of_union. right. by apply (H5 n h).
Qed.

(** [Close] of the client closes the channel it holds. *)
Lemma agree_close s p :
  agree s -> is_Some (Pub.channel (Pub.shared (pb s))) -> Pub.crashed (pb s) = false ->
  Pub.run (effects Reconn.CallClose s) (pb s) = Some p ->
  agree {| cl := Reconn.Close (cl s); pb := p; handles := handles s |}.
Proof.
  intros [H1 H2 H3 H4 H5 H6] [h Eh] Hcr Hp. simpl in Hp. unfold Pub.exec in Hp.
  rewrite Hcr, Eh in Hp. simpl in Hp.
  unfold Pub.exec in Hp. simpl in Hp. rewrite ?Hcr in Hp; injection Hp as <-.
  split; simpl; [done|done|by rewrite <- Eh| | |done].
  - intros _. exists h. split; [done|]. apply elem_of_union. left. by apply elem_of_singleton.
  - intros n h' Hn Hh. apply elem_of_union. right. by apply (H5 n).
Qed.

Lemma agree_client e s s' :
  agree s -> is_Some (Pub.channel (Pub.shared (pb s))) -> exec (Client e) s = Some s' -> agree s'.
Proof.
  intros Hag Hch He. simpl in He. destruct (Pub.crashed (pb s)) eqn:Hcr; [done|].
  destruct (Reconn.exec e (cl s)) as [c|] eqn:Ec; [|done]. simpl in He.
  destruct (Pub.run (effects e s) (pb s)) as [p|] eqn:Ep; [|done]. injection He as <-.
  destruct (changes e (cl s)) eqn:Ech.
  2: { destruct (no_effects e s Ech) as [E1 E2]. rewrite E1 in Ep. injection Ep as <-.
       rewrite E2. apply agree_same; [done|by apply (view_kept e)|done]. }
  pose proof (ag_length s Hag) as Hlen.
  destruct e; simpl in Ech; try done.
  - simpl in Ec. case_bool_decide; [|done]. injection Ec as <-.
    eapply agree_lose; [done|by rewrite Hlen|try done..|done|exact Ep]. simpl. clear. set_solver.
  - simpl in Ec. case_bool_decide; [|done]. injection Ec as <-.
    eapply agree_lose; [done|by rewrite Hlen|try done..|done|exact Ep]. simpl. clear. set_solver.
  - apply agree_attempt; [done..| |done|done]. unfold attempts in Ech |- *.
    destruct (Reconn.loop (cl s)), (Reconn.closed (cl s)), a; done.
  - injection Ec as <-. by apply agree_close.
Qed.

Lemma agree_run b es s : run es (initial b) = Some s -> agree s.
Proof.
  assert (forall es s0 s, Pub.reachable b (pb s0) -> agree s0 -> run es s0 = Some s -> agree s)
    as Hgen.
  { clear. induction es as [|e es IH]; intros s0 s Hr Hag Hrun; simpl in Hrun;
      [by simplify_eq|].
    destruct (exec e s0) as [s1|] eqn:E; [|done].
    assert (Pub.reachable b (pb s1)) as Hr1.
    { destruct Hr as [es0 Hr]. destruct (exec_parts e s0 s1 E) as [_ [es1 H1]].
      exists (es0 ++ es1). by rewrite PubSafety.pub_run_app, Hr. }
    apply (IH s1); [done| |done].
    destruct (PubSafety.reachable_ok b _ Hr) as [Hwf _].
    destruct e as [e|e]; [eapply agree_client; eauto; apply Hwf|].
    simpl in E. destruct (own_event e) eqn:Eo; [|done].
    destruct (Pub.exec e (pb s0)) as [p|] eqn:Ep; [|done]. injection E as <-.
    apply agree_same; [done|done|]. by eapply own_exec_client. }
  apply Hgen; [by exists []|]. destruct b; split; simpl; try done; try (by intros [?|?]);
    try (intros n Hn; set_solver); try (intros n h Hn; set_solver); intros n [= <-]; done.
Qed.

(** C14: the two machines are one system: the client's part of every run is a run of the
    reconnection machine and the publisher's part a run of the publisher's, so the theorems
    about each hold of the bus; they agree on whether the client is closed; the channel that
    publishers find is the one opened with the newest connection while the client reports
    that it is connected, and a channel that is closed already when it does not. *)
Theorem client_and_publisher_agree b s :
  reachable b s ->
  Reconn.reachable (cl s) /\ Pub.reachable b (pb s) /\
  Pub.closed (Pub.shared (pb s)) = Reconn.closed (cl s) /\
  if Reconn.IsConnected (cl s)
  then exists n h, Reconn.current (cl s) = Some n /\ S n = length (handles s) /\
    handles s !! n = Some h /\ Pub.channel (Pub.shared (pb s)) = Some h
  else exists h, Pub.channel (Pub.shared (pb s)) = Some h /\ h ∈ Pub.dead (Pub.shared (pb s)).
Proof.
  intros Hr. pose proof (reachable_parts b s Hr) as [Hc Hp].
  destruct Hr as [es Hr]. pose proof (agree_run b es s Hr) as [H1 H2 H3 H4 H5 H6].
  destruct (Reconn.reachable_consistent _ Hc) as [Hcur Hlost].
  destruct (PubSafety.reachable_ok b _ Hp) as [[_ _ _ [h Hh]] _].
  split_and!; [done..|]. unfold Reconn.IsConnected.
  destruct (Reconn.current (cl s)) as [n|] eqn:En; [|by apply H4; left].
  specialize (H3 n eq_refl). specialize (Hcur n eq_refl).
  case_bool_decide as Hn; simpl.
  - exists h. split; [done|]. apply (H5 n); [set_solver|congruence].
  - destruct (Reconn.closed (cl s)) eqn:Ec; simpl; [by apply H4; right|].
    exists n, h. split_and!; [done|lia|congruence|done].
Qed.

(** ** Recovery *)

(** The publisher's own fields, which the client's events leave alone. *)
Definition publisher_side (y : Pub.System) :=
  let s := Pub.shared y in
  (Pub.threads y, Pub.procs y, Pub.done s, Pub.closed_done s, Pub.started s, Pub.channelID s,
   Pub.sent s, Pub.confirmed s, Pub.PublisherConfirms s).

(** What the client's events do to a bus: they leave the publisher's own fields alone, and
    the channels they open are new ones. *)
Definition moved (s s' : State) : Prop :=
  publisher_side (pb s') = publisher_side (pb s) /\ Pub.crashed (pb s') = false /\
  (Pub.opened (Pub.shared (pb s)) <= Pub.opened (Pub.shared (pb s')))%nat /\
  exists hs, handles s' = handles s ++ hs /\
    Forall (fun h => Pub.opened (Pub.shared (pb s)) <= h)%nat hs.

Lemma moved_refl s : Pub.crashed (pb s) = false -> moved s s.
Proof. intros Hcr. unfold moved. split_and!; [done..|]. exists []. by rewrite app_nil_r. Qed.

Lemma moved_trans s1 s2 s3 : moved s1 s2 -> moved s2 s3 -> moved s1 s3.
Proof.
  intros (E1 & _ & H1 & hs1 & Eh1 & F1) (E2 & Hcr & H2 & hs2 & Eh2 & F2).
  split_and!; [congruence|done|lia|]. exists (hs1 ++ hs2). rewrite Eh2, Eh1, app_assoc.
  split; [done|]. apply Forall_app. split; [done|]. eapply Forall_impl; [exact F2|].
  simpl. lia.
Qed.

(** The publisher's machine takes every step of the client. *)
Definition takes (y y' : Pub.System) : Prop :=
  publisher_side y' = publisher_side y /\ Pub.crashed y' = false /\
  (Pub.opened (Pub.shared y) <= Pub.opened (Pub.shared y'))%nat.

Lemma takes_refl y : Pub.crashed y = false -> takes y y.
Proof. by intros Hcr. Qed.

Lemma takes_event e y :
  Pub.crashed y = false -> own_event e = false ->
  (e = Pub.Reconnected -> Pub.closed (Pub.shared y) = false) ->
  exists y', Pub.exec e y = Some y' /\ takes y y'.
Proof.
  intros Hcr Ho Hc. unfold Pub.exec. rewrite Hcr. destruct e; try done.
  - eexists. split; [done|]. by split_and!.
  - rewrite (Hc eq_refl). eexists. split; [done|]. split_and!; [done|done|simpl; lia].
  - eexists. split; [done|]. by split_and!.
Qed.

Lemma takes_effects e s :
  agree s -> Pub.crashed (pb s) = false ->
  exists p, Pub.run (effects e s) (pb s) = Some p /\ takes (pb s) p.
Proof.
  intros Hag Hcr.
  assert (forall e1 : Pub.Event, own_event e1 = false -> e1 <> Pub.Reconnected ->
    exists p, Pub.run [e1] (pb s) = Some p /\ takes (pb s) p) as H1.
  { intros e1 Ho Hne. destruct (takes_event e1 (pb s) Hcr Ho) as (y & E & Hy); [done|].
    exists y. simpl. by rewrite E. }
  assert (forall h, exists p, Pub.run (Pub.CloseClient :: match h with
    | Some h => [Pub.ChannelDies h] | None => [] end) (pb s) = Some p /\ takes (pb s) p) as H2.
  { intros [h|]; [|by apply H1]. simpl. unfold Pub.exec. rewrite Hcr. simpl.
    unfold Pub.exec. simpl. rewrite Hcr. eexists. split; [done|]. by split_and!. }
  assert (exists p, Pub.run [] (pb s) = Some p /\ takes (pb s) p) as H0.
  { exists (pb s). split; [done|]. by apply takes_refl. }
  unfold effects. destruct e; try done; try apply H2;
    try (destruct (handles s !! n); [by apply H1|done]).
  destruct (attempts (Reconn.LoopStep a) (cl s)) as [a'|] eqn:Ea; [|done].
  assert (Pub.closed (Pub.shared (pb s)) = false) as Hc.
  { rewrite (ag_closed s Hag). unfold attempts in Ea.
    destruct (Reconn.loop (cl s)), (Reconn.closed (cl s)); done. }
  destruct a'; simpl; unfold Pub.exec; rewrite Hcr, Hc; simpl; unfold Pub.exec; simpl;
    rewrite ?Hcr; (eexists; split; [done|]; split_and!; [done|done|simpl; lia]).
Qed.

(** An event of the client is an event of the bus. *)
Lemma lift_client e c s :
  agree s -> Pub.crashed (pb s) = false -> Reconn.exec e (cl s) = Some c ->
  exists s', exec (Client e) s = Some s' /\ cl s' = c /\ moved s s'.
Proof.
  intros Hag Hcr He. simpl. rewrite Hcr, He. simpl.
  destruct (takes_effects e s Hag Hcr) as (p & Ep & Hs & Hcr' & Ho). rewrite Ep. simpl.
  eexists. split; [done|]. split; [done|]. split_and!; [done..|]. simpl. unfold new_handles.
  destruct (attempts e (cl s)) as [[]|]; try (exists []; by rewrite app_nil_r).
  eexists. split; [done|]. by apply Forall_singleton.
Qed.

Lemma lift_clients b es c s :
  reachable b s -> Pub.crashed (pb s) = false -> Reconn.run es (cl s) = Some c ->
  exists s', run (Client <$> es) s = Some s' /\ cl s' = c /\ moved s s' /\ reachable b s'.
Proof.
  revert s. induction es as [|e es IH]; intros s Hr Hcr He; simpl in He.
  - injection He as <-. exists s. split_and!; [done..|by apply moved_refl|done].
  - destruct (Reconn.exec e (cl s)) as [c1|] eqn:E; [|done]. pose proof Hr as [es0 Hes0].
    destruct (lift_client e c1 s) as (s1 & E1 & <- & Hm);
      [by eapply agree_run|done|done|].
    assert (reachable b s1) as Hr1.
    { exists (es0 ++ [Client e]). rewrite bus_run_app, Hes0. simpl. simpl in E1. by rewrite E1. }
    destruct (IH s1 Hr1 (proj1 (proj2 Hm)) He) as (s2 & E2 & Hc2 & Hm2 & Hr2).
    exists s2. split_and!; [|done|by eapply moved_trans|done].
    rewrite fmap_cons. cbn [run]. rewrite E1. exact E2.
Qed.

(** The publisher's events are events of the bus. *)
Lemma lift_publisher es s p :
  Forall (fun e => own_event e = true) es -> Pub.run es (pb s) = Some p ->
  run (Publisher <$> es) s = Some {| cl := cl s; pb := p; handles := handles s |}.
Proof.
  revert s. induction es as [|e es IH]; intros s Hf Hr; simpl in Hr.
  - injection Hr as <-. by destruct s.
  - apply Forall_cons in Hf as [He Hf]. destruct (Pub.exec e (pb s)) as [p1|] eqn:E; [|done].
    rewrite fmap_cons. cbn [run exec]. rewrite He, E. simpl. by apply (IH {| pb := p1 |}).
Qed.

(** The channel of a connection made since [s]. *)
Lemma newest_channel b s s' hs :
  reachable b s -> reachable b s' -> handles s' = handles s ++ hs ->
  Reconn.current (cl s') = Some (length (Reconn.watchers (cl s))) ->
  exists h, Pub.channel (Pub.shared (pb s')) = Some h /\ h ∈ hs.
Proof.
  intros [es Hr] Hr' Eh Hcur. pose proof (ag_length s (agree_run b es s Hr)) as Hlen.
  pose proof Hr' as [_ Hp]%reachable_parts. destruct Hr' as [es' Hr'].
  destruct (PubSafety.reachable_ok b _ Hp) as [[_ _ _ [h Hh]] _].
  pose proof (ag_current s' (agree_run b es' s' Hr') _ Hcur) as Hlk.
  exists h. split; [done|]. rewrite Hh, Eh, <- Hlen, lookup_app_r, Nat.sub_diag in Hlk by lia.
  by eapply list_elem_of_lookup_2.
Qed.

(** C9: the bus recovers from a lost connection.  Take any reachable state of a bus with
    confirms enabled that is open and whose loop waits at its receive.  When a watcher reports
    the loss or the application calls [Reconnect], after any number of failed attempts and one
    that succeeds the client is connected to a channel just opened, the loop waits again, and
    calls that were in progress are where they were.  The next [Publish] then sets up confirms
    on that channel, sends its message there as the channel's first, and returns nil when the
    broker acknowledges it; unless the publisher's done channel is closed already, which two
    overlapping resets can bring about: then it panics. *)
Theorem service_recovers b s w fs m :
  reachable b s -> Pub.crashed (pb s) = false ->
  Pub.PublisherConfirms (Pub.shared (pb s)) = true ->
  Reconn.closed (cl s) = false -> Reconn.loop (cl s) = Reconn.AtReceive ->
  Reconn.wakes w (cl s) ->
  Forall (fun a => a <> Reconn.Succeeds) fs ->
  let i := length (Pub.threads (pb s)) in
  exists s1 h, run (Client <$> Reconn.recovery w fs) s = Some s1 /\
    Reconn.IsConnected (cl s1) = true /\ Reconn.loop (cl s1) = Reconn.AtReceive /\
    Pub.channel (Pub.shared (pb s1)) = Some h /\ (Pub.opened (Pub.shared (pb s)) <= h)%nat /\
    Pub.threads (pb s1) = Pub.threads (pb s) /\
    if bool_decide (Pub.done (Pub.shared (pb s)) ∈ Pub.closed_done (Pub.shared (pb s)))
    then exists s', run (Publisher <$> Pub.Spawn (Pub.JPublish m) :: Pub.go i 4) s1 = Some s' /\
      Pub.crashed (pb s') = true
    else exists s',
      run (Publisher <$> PubRuns.publish_on_new i (length (Pub.procs (pb s))) m) s1 = Some s' /\
      Pub.threads (pb s') =
        Pub.threads (pb s) ++ [(Pub.JPublish m, Pub.Returned (Pub.OPublish None))] /\
      Pub.sent (Pub.shared (pb s')) = Pub.sent (Pub.shared (pb s)) ++ [(h, Pub.mid m)] /\
      Pub.crashed (pb s') = false.
Proof.
  intros Hr Hcr Hm Hc Hl Hn Hf i. pose proof Hr as [Hrc [es0 Hrp]]%reachable_parts.
  destruct (PubSteps.opened_only_run b es0 _ Hrp) as [_ Hid _ Hconf _].
  destruct (Reconn.loss_is_repaired (cl s) w fs Hrc Hc Hl Hn Hf) as (c & Ec & Hi & Hlc & Hcur & _).
  destruct (lift_clients b (Reconn.recovery w fs) c s Hr Hcr Ec)
    as (s1 & E1 & <- & (Hps & Hcr1 & Ho & hs & Eh & Hhs) & Hr1).
  injection Hps as Et Ep Ed Ecd Es Eid Esent Econf Em.
  destruct (reachable_parts b s1 Hr1) as [_ Hrp1].
  destruct (PubSafety.reachable_ok b _ Hrp1) as [Hwf1 _].
  destruct (newest_channel b s s1 hs Hr Hr1 Eh Hcur) as (h & Hch & Hin).
  pose proof (proj1 (Forall_forall _ _) Hhs h Hin) as Hge. simpl in Hge.
  destruct Hr1 as [es1 Hr1]. pose proof (ag_closed _ (agree_run b es1 s1 Hr1)) as Hcl1.
  assert (Pub.channelID (Pub.shared (pb s1)) <> Some h) as Hne by (rewrite Eid; intros Hx%Hid; lia).
  exists s1, h. split_and!; [done..|]. unfold i. rewrite <- Ed, <- Ecd, <- Et, <- Ep, <- Esent.
  rewrite <- Em in Hm. case_bool_decide as Hd.
  - destruct (PubRuns.call_panics m (pb s1) Hcr1 Hwf1 Hm) as (y & Ey & Hy); [by rewrite Hch|done|].
    eexists. split; [apply lift_publisher; [repeat constructor|exact Ey]|done].
  - destruct (PubRuns.publish_on_new_runs m (pb s1) h) as (y & Ey & Ht & Hcry & Hs & _); try done.
    + rewrite Hcl1. revert Hi. unfold Reconn.IsConnected. rewrite Hcur.
      by destruct (Reconn.closed (cl s1)); rewrite ?andb_false_r.
    + rewrite Econf. intros Hx%(proj1 (Forall_forall _ _) Hconf). simpl in Hx. lia.
    + eexists. split; [apply lift_publisher; [|exact Ey]|done].
      unfold PubRuns.publish_on_new. repeat constructor.
Qed.

(** ** After closing the bus *)

(** A [Publish] on a closed bus, alone. *)
Definition late_publish (confirms : bool) (i : nat) (m : Pub.Message) : list Event :=
  Publisher <$> Pub.Spawn (Pub.JPublish m) :: Pub.go i (PubRuns.refused_steps confirms).

(** The state after [EventBus.Close]. *)
Lemma bus_close_runs b s :
  reachable b s -> Pub.crashed (pb s) = false ->
  (Pub.started (Pub.shared (pb s)) = true ->
   Pub.done (Pub.shared (pb s)) ∉ Pub.closed_done (Pub.shared (pb s))) ->
  exists s', run bus_close s = Some s' /\ reachable b s' /\
    Pub.crashed (pb s') = false /\ Reconn.closed (cl s') = true /\
    Pub.closed (Pub.shared (pb s')) = true /\
    Pub.channel (Pub.shared (pb s')) = Pub.channel (Pub.shared (pb s)) /\
    Pub.channelID (Pub.shared (pb s')) = Pub.channelID (Pub.shared (pb s)) /\
    Pub.PublisherConfirms (Pub.shared (pb s')) = Pub.PublisherConfirms (Pub.shared (pb s)) /\
    (Pub.started (Pub.shared (pb s)) = true ->
     Pub.done (Pub.shared (pb s')) ∈ Pub.closed_done (Pub.shared (pb s'))) /\
    Pub.threads (pb s') = Pub.threads (pb s).
Proof.
  intros [es Hr] Hcr Hd.
  assert (exists s', run bus_close s = Some s' /\
    Pub.crashed (pb s') = false /\ Reconn.closed (cl s') = true /\
    Pub.closed (Pub.shared (pb s')) = true /\
    Pub.channel (Pub.shared (pb s')) = Pub.channel (Pub.shared (pb s)) /\
    Pub.channelID (Pub.shared (pb s')) = Pub.channelID (Pub.shared (pb s)) /\
    Pub.PublisherConfirms (Pub.shared (pb s')) = Pub.PublisherConfirms (Pub.shared (pb s)) /\
    (Pub.started (Pub.shared (pb s)) = true ->
     Pub.done (Pub.shared (pb s')) ∈ Pub.closed_done (Pub.shared (pb s'))) /\
    Pub.threads (pb s') = Pub.threads (pb s)) as (s' & E & H).
  { destruct s as [c [sh ts ps cr] hs]. simpl in Hcr, Hd. subst cr.
    unfold bus_close. cbn [run exec own_event]. unfold Pub.exec.
    cbn [Pub.crashed Pub.shared pb]. unfold Pub.Close, Pub.close_signal.
    destruct (Pub.started sh) eqn:Est;
      [rewrite bool_decide_eq_false_2 by auto|]; simpl;
      destruct (Pub.channel sh) eqn:Ech; simpl; (eexists; split; [reflexivity|]); simpl;
      rewrite ?Ech, ?Est; split_and!; try done;
      intros _; apply elem_of_union; left; by apply elem_of_singleton. }
  exists s'. split; [done|]. split; [|done]. exists (es ++ bus_close). by rewrite bus_run_app, Hr.
Qed.


(** ** Witnesses *)

(** The state a run reaches. *)
Definition reached (es : list Event) : State := default (initial true) (run es (initial true)).

Lemma bus_reached es :
  is_Some (run es (initial true)) -> reachable true (reached es).
Proof. unfold reached. intros [s E]. rewrite E. by exists es. Qed.

Local Ltac by_is_Some := eexists; vm_compute; reflexivity.

Local Ltac by_not_elem :=
  match goal with |- _ ∉ ?S => replace S with (∅ : gset nat) by (vm_compute; reflexivity) end;
  apply not_elem_of_empty.

(** A message is sent, the connection is lost, and its watcher is about to say so. *)
Definition loss_reported : list Event :=
  [Client (Reconn.LoopStep Reconn.Succeeds)] ++
  (Publisher <$> Pub.Spawn (Pub.JPublish (Pub.msg 1)) :: Pub.send_one 0) ++
  [Client (Reconn.LoseConn 0); Client (Reconn.WatcherError 0)].

(** The same, and the connection is replaced. *)
Definition loss_repaired : list Event := loss_reported ++ (Client <$> Reconn.recovery [Reconn.WatcherSend 0] []).

Lemma client_and_publisher_agree_witness :
  Pub.closed (Pub.shared (pb (reached loss_reported))) = Reconn.closed (cl (reached loss_reported)) /\
  exists h, Pub.channel (Pub.shared (pb (reached loss_reported))) = Some h /\
    h ∈ Pub.dead (Pub.shared (pb (reached loss_reported))).
Proof.
  destruct (client_and_publisher_agree true (reached loss_reported)) as (_ & _ & H1 & H2).
  - apply bus_reached. by_is_Some.
  - split; [exact H1|]. exact H2.
Defined.

(** Two calls notice two reconnections, and the second resets before the first has set up
    confirms again: it finds the processor stopped, keeps the done channel and closes it. *)
Definition resets_overlap : list Event :=
  [Client (Reconn.LoopStep Reconn.Succeeds)] ++
  (Client <$> [Reconn.CallReconnect; Reconn.ReconnectSend] ++ replicate 3 (Reconn.LoopStep Reconn.Succeeds)) ++
  (Publisher <$> Pub.Spawn (Pub.JPublish (Pub.msg 1)) :: Pub.go 0 4) ++
  (Client <$> replicate 2 (Reconn.LoopStep Reconn.Succeeds) ++ [Reconn.CallReconnect; Reconn.ReconnectSend] ++
     replicate 5 (Reconn.LoopStep Reconn.Succeeds)) ++
  (Publisher <$> Pub.Spawn (Pub.JPublish (Pub.msg 2)) :: Pub.go 1 5 ++ Pub.go 0 1).

(** After a loss that is reported the bus recovers; after overlapping resets a reconnection
    brings the next [Publish] to a panic, although nobody has closed the bus. *)
Lemma service_recovers_witness :
  (exists s1 s' h,
     run (Client <$> Reconn.recovery [Reconn.WatcherSend 0]
                       [Reconn.FailsBefore; Reconn.FailsAfter]) (reached loss_reported) = Some s1 /\
     run (Publisher <$> PubRuns.publish_on_new 1 1 (Pub.msg 2)) s1 = Some s' /\
     Pub.threads (pb s') = Pub.threads (pb (reached loss_reported)) ++
       [(Pub.JPublish (Pub.msg 2), Pub.Returned (Pub.OPublish None))] /\
     Pub.sent (Pub.shared (pb s')) =
       Pub.sent (Pub.shared (pb (reached loss_reported))) ++ [(h, 2%nat)]) /\
  exists s1 s',
    run (Client <$> Reconn.recovery [Reconn.CallReconnect; Reconn.ReconnectSend] [])
      (reached resets_overlap) = Some s1 /\
    run (Publisher <$> Pub.Spawn (Pub.JPublish (Pub.msg 3)) :: Pub.go 2 4) s1 = Some s' /\
    Pub.crashed (pb s') = true.
Proof.
  split.
  - destruct (service_recovers true (reached loss_reported) [Reconn.WatcherSend 0]
      [Reconn.FailsBefore; Reconn.FailsAfter] (Pub.msg 2)) as (s1 & h & E & _ & _ & _ & _ & _ & H).
    + apply bus_reached. by_is_Some.
    + vm_compute. reflexivity.
    + vm_compute. reflexivity.
    + vm_compute. reflexivity.
    + vm_compute. reflexivity.
    + right. exists 0%nat. split; [vm_compute; reflexivity|reflexivity].
    + repeat constructor; discriminate.
    + rewrite bool_decide_eq_false_2 in H by by_not_elem.
      destruct H as (s' & E' & Ht & Hs & _). exists s1, s', h. by split_and!.
  - destruct (service_recovers true (reached resets_overlap)
      [Reconn.CallReconnect; Reconn.ReconnectSend] [] (Pub.msg 3))
      as (s1 & h & E & _ & _ & _ & _ & _ & H).
    + apply bus_reached. by_is_Some.
    + vm_compute. reflexivity.
    + vm_compute. reflexivity.
    + vm_compute. reflexivity.
    + vm_compute. reflexivity.
    + left. reflexivity.
    + constructor.
    + rewrite bool_decide_eq_true_2 in H
        by (apply (bool_decide_eq_true_1 _); vm_compute; reflexivity).
      destruct H as (s' & E' & Hc). exists s1, s'. split; [exact E|]. split; [exact E'|exact Hc].
Defined.


End Sys.
