(* ===== verification/Retry.v ===== *)
(** * Retrying failed messages (internal/broker/retry.go)

    The publisher is seen through the interface of [PublisherApi].  [World] is the state that
    code which publishes works on: the heap of header maps, the publisher's own world, and a
    log of everything handed to it. *)

From stdpp Require Import base gmap strings list fin_maps.
From Stdlib Require Import ZArith Lia.
From S2P Require Import Prelude Errors Values Router PublisherApi.
Import Err Val PubApi.
Local Open Scope Z_scope.
Local Open Scope kit_scope.
Local Arguments deref : simpl never.
Local Arguments map_set : simpl never.

Module Retry.

(** A message handed to the publisher and its answer. *)
Record Outgoing := { o_Message : PublishMessage; o_Error : option error }.

Section Retry.
Context {P : Publisher} {G : GoImpl}.

Record World := { heap : Heap; pworld : PWorld; outgoing : list Outgoing }.

(** What the publisher is given: the header map is read when it is handed over. *)
Definition handed (h : Heap) (exchange routingKey : string) (msg : Publishing) : PublishMessage :=
  {| Exchange := exchange; RoutingKey := routingKey; Message := msg;
     Headers := deref h (p_Headers msg) |}.

Local Arguments handed : simpl never.

(** [publisher.Publish(ctx, exchange, routingKey, msg)] *)
Definition publish (exchange routingKey : string) (msg : Publishing) : M World (option error) :=
  fun w =>
    let m := handed (heap w) exchange routingKey msg in
    let '(err, pw) := Publish m (pworld w) in
    (err, {| heap := heap w; pworld := pw;
             outgoing := outgoing w ++ [{| o_Message := m; o_Error := err |}] |}).

Definition with_heap {B} (f : Heap -> B * Heap) : M World B := fun w =>
  let '(b, h) := f (heap w) in
  (b, {| heap := h; pworld := pworld w; outgoing := outgoing w |}).

(** ** The handler *)

Record Handler := { maxRetries : Z }.

Definition NewHandler (maxRetries : Z) : Handler := {| maxRetries := maxRetries |}.

Definition ShouldRetry (h : Handler) (hp : Heap) (delivery : Delivery) : bool * Z :=
  let retryCount := Msg.GetRetryCount hp {| Msg.Delivery := delivery |} in
  if maxRetries h <=? retryCount then (false, retryCount) else (true, retryCount).

(** [headers := delivery.Headers; if headers == nil { headers = amqp.Table{} }] *)
Definition headers_or_new (delivery : Delivery) : M World loc :=
  match d_Headers delivery with
  | Some l => mret l
  | None => with_heap (alloc ∅)
  end.

Definition retry_publishing (delivery : Delivery) (headers : loc) (now : Z) : Publishing :=
  {| p_Headers := Some headers;
     p_ContentType := d_ContentType delivery;
     p_ContentEncoding := "";
     p_DeliveryMode := Persistent;
     p_Priority := d_Priority delivery;
     p_CorrelationId := d_CorrelationId delivery;
     p_ReplyTo := d_ReplyTo delivery;
     p_Expiration := d_Expiration delivery;
     p_MessageId := d_MessageId delivery;
     p_Timestamp := now;
     p_Type := d_Type delivery;
     p_UserId := d_UserId delivery;
     p_AppId := d_AppId delivery;
     p_Body := d_Body delivery |}.

(** What [Retry] does before it publishes: the check of the count, the header map and the
    message.  [now] is the reading of [time.Now()]. *)
Definition prepare (now : Z) (delivery : Delivery) (h : Handler) : M World (error + Publishing) :=
  w ← get;
  let '(shouldRetry, retryCount) := ShouldRetry h (heap w) delivery in
  if negb shouldRetry then mret (inl (Sentinel ErrMaxRetriesExceeded))
  else
    let retryCount := int64 (retryCount + 1) in
    headers ← headers_or_new delivery;
    with_heap (fun hp => (tt, map_set headers Msg.CountHeader (AInt retryCount) hp));;
    mret (inr (retry_publishing delivery headers now)).

Definition Retry (now : Z) (delivery : Delivery) (h : Handler) : M World (option error) :=
  r ← prepare now delivery h;
  match r with
  | inl e => mret (Some e)
  | inr msg => publish (d_Exchange delivery) (d_RoutingKey delivery) msg
  end.

(** ** Properties *)

(** The retry count of a delivery. *)
Abbreviation count hp d := (Msg.GetRetryCount hp {| Msg.Delivery := d |}).

Lemma ShouldRetry_eq h hp d :
  ShouldRetry h hp d = (count hp d <? maxRetries h, count hp d).
Proof. unfold ShouldRetry. case_match; f_equal; bool_lia. Qed.

(** The header map [Retry] publishes: the delivery's own, or a new one. *)
Definition retry_headers (hp : Heap) (d : Delivery) : loc :=
  match d_Headers d with Some l => l | None => next hp end.

Lemma prepare_exhausted now d h w :
  maxRetries h <= count (heap w) d ->
  prepare now d h w = (inl (Sentinel ErrMaxRetriesExceeded), w).
Proof.
  intros Hge. unfold prepare. run_m. rewrite ShouldRetry_eq.
  by rewrite (proj2 (Z.ltb_ge _ _)) by done.
Qed.

Lemma Retry_exhausted now d h w :
  maxRetries h <= count (heap w) d ->
  Retry now d h w = (Some (Sentinel ErrMaxRetriesExceeded), w).
Proof. intros Hge. unfold Retry. cbv [mbind M_bind]. by rewrite prepare_exhausted. Qed.

(** The message a retry of [d] with count [n] hands over. *)
Definition retry_message (hp : Heap) (d : Delivery) (n now : Z) : PublishMessage :=
  {| Exchange := d_Exchange d; RoutingKey := d_RoutingKey d;
     Message := retry_publishing d (retry_headers hp d) now;
     Headers := <[Msg.CountHeader := AInt n]> (deref hp (d_Headers d)) |}.

(** The message that is prepared, with its header map in the heap. *)
Lemma prepare_message now d h w :
  count (heap w) d < maxRetries h ->
  let msg := retry_publishing d (retry_headers (heap w) d) now in
  exists hp,
    handed hp (d_Exchange d) (d_RoutingKey d) msg =
      retry_message (heap w) d (int64 (count (heap w) d + 1)) now /\
    deref hp (Some (retry_headers (heap w) d)) =
      <[Msg.CountHeader := AInt (int64 (count (heap w) d + 1))]> (deref (heap w) (d_Headers d)) /\
    prepare now d h w =
      (inr msg, {| heap := hp; pworld := pworld w; outgoing := outgoing w |}).
Proof.
  intros Hlt. set (l := retry_headers (heap w) d). set (n := int64 _). intros msg.
  set (hp0 := match d_Headers d with Some _ => heap w | None => snd (alloc ∅ (heap w)) end).
  set (hp := map_set l Msg.CountHeader (AInt n) hp0).
  assert (deref hp (Some l) = <[Msg.CountHeader := AInt n]> (deref (heap w) (d_Headers d))) as Hd.
  { unfold hp. rewrite deref_set_eq. unfold hp0, l, retry_headers. destruct (d_Headers d); simpl; [done|].
    pose proof (deref_alloc_eq ∅ (heap w)) as Ha. simpl in Ha. by rewrite Ha. }
  exists hp. split_and!; [unfold handed, retry_message; simpl; by rewrite Hd|done|].
  unfold prepare. run_m. rewrite ShouldRetry_eq, (proj2 (Z.ltb_lt _ _)) by done. simpl.
  assert (headers_or_new d w =
    (l, {| heap := hp0; pworld := pworld w; outgoing := outgoing w |})) as ->; [|done].
  unfold headers_or_new, with_heap, hp0, l, retry_headers. destruct (d_Headers d); [|done].
  by destruct w.
Qed.

(** What a retry publishes, and that it goes through the delivery's own header map. *)
Lemma Retry_publishes now d h w :
  count (heap w) d < maxRetries h ->
  let m := retry_message (heap w) d (int64 (count (heap w) d + 1)) now in
  exists hp pw err, Publish m (pworld w) = (err, pw) /\
    deref hp (Some (retry_headers (heap w) d)) = Headers m /\
    Retry now d h w =
      (err, {| heap := hp; pworld := pw;
               outgoing := outgoing w ++ [{| o_Message := m; o_Error := err |}] |}).
Proof.
  intros Hlt m. destruct (prepare_message now d h w Hlt) as (hp & Hm & Hd & E).
  destruct (Publish m (pworld w)) as [err pw] eqn:Ep. exists hp, pw, err.
  split_and!; [done..|]. unfold Retry. cbv [mbind M_bind]. rewrite E. unfold publish. simpl.
  rewrite Hm. fold m. by rewrite Ep.
Qed.

(** C24: a message whose retry count has reached the limit is not published and [Retry] says
    [ErrMaxRetriesExceeded]; any other is published exactly once, to the exchange and with
    the routing key it was delivered with, its headers those of the delivery with the count
    one higher, persistent, with the delivery's body and properties, and [Retry] returns
    what the publisher answered. *)
Theorem Retry_spec now d h w :
  in_int64 (maxRetries h) -> in_int64 (count (heap w) d) ->
  let '(err, w') := Retry now d h w in
  let n := count (heap w) d in
  (maxRetries h <= n -> err = Some (Sentinel ErrMaxRetriesExceeded) /\ w' = w) /\
  (n < maxRetries h ->
   exists o, outgoing w' = outgoing w ++ [o] /\ o_Error o = err /\
     Exchange (o_Message o) = d_Exchange d /\ RoutingKey (o_Message o) = d_RoutingKey d /\
     Headers (o_Message o) =
       <[Msg.CountHeader := AInt (n + 1)]> (deref (heap w) (d_Headers d)) /\
     let m := Message (o_Message o) in
     p_DeliveryMode m = Persistent /\ p_Timestamp m = now /\ p_Body m = d_Body d /\
     p_ContentType m = d_ContentType d /\ p_CorrelationId m = d_CorrelationId d /\
     p_MessageId m = d_MessageId d /\ p_Type m = d_Type d /\ p_Priority m = d_Priority d /\
     p_Expiration m = d_Expiration d /\ p_ReplyTo m = d_ReplyTo d /\
     p_AppId m = d_AppId d /\ p_UserId m = d_UserId d).
Proof.
  intros Hm Hn. destruct (Retry now d h w) as [err w'] eqn:E. split; intros Hc.
  - rewrite Retry_exhausted in E by done. by injection E as <- <-.
  - destruct (Retry_publishes now d h w Hc) as (hp & pw & err' & _ & _ & E').
    rewrite E' in E. injection E as <- <-. simpl. eexists. split; [done|]. simpl.
    rewrite int64_id by (unfold in_int64 in *; lia). by split_and!.
Qed.

(** Not every property survives a retry: the content encoding of the delivery is dropped
    and the count is written into the delivery's own header map, so whoever still holds the
    delivery sees the incremented count. *)
Theorem Retry_drops_encoding now d h w l :
  d_Headers d = Some l -> count (heap w) d < maxRetries h ->
  let w' := snd (Retry now d h w) in
  (exists o, outgoing w' = outgoing w ++ [o] /\ p_ContentEncoding (Message (o_Message o)) = "") /\
  count (heap w') d = int64 (count (heap w) d + 1).
Proof.
  intros Hl Hc. destruct (Retry_publishes now d h w Hc) as (hp & pw & err & _ & Hd & ->).
  simpl. split; [by eexists|]. unfold retry_headers in Hd. rewrite Hl in Hd.
  eapply (Msg.GetRetryCount_int _ {| Msg.Delivery := d |}); simpl.
  - rewrite Hl, Hd. simpl. apply lookup_insert_eq.
  - done.
Qed.

End Retry.

(** ** Witnesses *)

Definition demo_world : @World accepting :=
  @Build_World accepting (demo_heap {[Msg.CountHeader := AInt32 1]}) tt [].

Lemma Retry_spec_witness :
  let w' := snd (Retry (P := accepting) (G := amd64) 5 (demo_delivery (Some 0%nat) "x")
                   (NewHandler 3) demo_world) in
  exists o, outgoing w' = [o] /\ Headers (o_Message o) = {[Msg.CountHeader := AInt 2]}.
Proof.
  destruct (Retry_spec (P := accepting) (G := amd64) 5 (demo_delivery (Some 0%nat) "x")
    (NewHandler 3) demo_world) as [_ H]; [by_compute|by_compute|].
  destruct H as (o & Ho & _ & _ & _ & Hh & _); [reflexivity|].
  exists o. split; [exact Ho|]. rewrite Hh. vm_compute. reflexivity.
Defined.

Lemma Retry_drops_encoding_witness :
  let w' := snd (Retry (P := accepting) (G := amd64) 5 (demo_delivery (Some 0%nat) "x")
                   (NewHandler 3) demo_world) in
  Msg.GetRetryCount (G := amd64) (heap w') (demo_ctx (Some 0%nat) "x") = 2.
Proof.
  exact (proj2 (Retry_drops_encoding (P := accepting) (G := amd64) 5
    (demo_delivery (Some 0%nat) "x") (NewHandler 3) demo_world 0 eq_refl eq_refl)).
Defined.

End Retry.
