(* ===== verification/Consumer.v ===== *)
(** * Consuming messages (internal/broker/consumer.go)

    [process] is the body of a worker's loop for one delivery: the trace id is put into the
    delivery's headers, the circuit breaker is asked, the handler for the message type is
    looked up and called, and the delivery is settled.  The handler is the caller's code: a
    parameter that may do anything to the world, including settling the delivery itself and
    writing to its header map; the fields of the context it is given stay as they are.
    Log lines are kept as [Log] values.  Readings of the clock, the fresh trace id, the outcome
    of the final [Ack] and the text of a decoding error come from an [Env]. *)

From stdpp Require Import base gmap strings list fin_maps.
From Stdlib Require Import ZArith Lia.
From S2P Require Import Prelude CircuitBreaker Errors Json Values Router Config Amqp Client PublisherApi Retry.
Import Err Val PubApi.
Local Open Scope Z_scope.
Local Open Scope kit_scope.
Local Arguments deref : simpl never.
Local Arguments map_set : simpl never.

Module Cons.

(** ** State *)

(** Log lines, with their data. *)
Inductive Log :=
| LUnmarshalFailed (worker : Z) (err trace : string)
| LReceived (worker : Z) (trace type : string) (event : option (list (string * Json.json)))
| LRejected (worker : Z) (state : CB.State) (trace : string)
| LNoHandler (worker : Z) (type trace : string)
| LHandlerError (warn : bool) (worker : Z) (trace : string) (err : string)
| LMaxRetries (worker : Z) (trace : string)
| LRetryFailed (worker : Z) (err trace : string)
| LRequeued (worker : Z) (trace : string) (retry_count : Z)
| LAckFailed (worker : Z) (err trace : string).

(** What the environment supplies while a delivery is processed. *)
Record Env := {
  uuid : string;
  t_allow : Z; t_allow' : Z;
  t_fail : Z; t_fail' : Z;
  t_retry : Z;
  t_success : Z;
  ack_error : option error;
  unmarshal_error : string
}.

Section Consumer.
Context {P : Publisher} {G : GoImpl}.

Record World := {
  base : Retry.World;
  breaker : option CB.CircuitBreaker;
  settled : list Msg.Settle;
  logs : list Log
}.

#[export] Instance World_eta : Eta World := fun w =>
  {| base := base w; breaker := breaker w; settled := settled w; logs := logs w |}.

Definition log (l : Log) : M World unit :=
  modify (fun w => let ls := logs w ++ [l] in w <| logs := ls |>).

Definition settle (s : Msg.Settle) : M World unit :=
  modify (fun w => let ss := settled w ++ [s] in w <| settled := ss |>).

Definition on_base {B} (m : M Retry.World B) : M World B := fun w =>
  let '(b, bs) := m (base w) in (b, w <| base := bs |>).

(** An operation on the breaker, if there is one. *)
Definition on_breaker (f : CB.CircuitBreaker -> CB.CircuitBreaker) : M World unit :=
  modify (fun w => let cb := f <$> breaker w in w <| breaker := cb |>).

(** ** The consumer *)

(** The breaker [NewConsumer] creates; its callback is set and only logs. *)
Definition NewConsumer (cfg : Cfg.Config) (now : Z) : option CB.CircuitBreaker :=
  if Cfg.CircuitBreakerEnabled cfg then
    Some (CB.New {| CB.MaxFailures := Cfg.CircuitBreakerMaxFailures cfg;
                    CB.ResetTimeout := Cfg.CircuitBreakerResetTimeout cfg;
                    CB.HalfOpenMaxRequests := Cfg.CircuitBreakerHalfOpenRequests cfg;
                    CB.OnStateChange := true |} now)
  else None.

Definition GetCircuitBreakerMetrics (w : World) : option CB.Metrics := CB.GetMetrics <$> breaker w.

Definition ResetCircuitBreaker (now : Z) : M World bool :=
  w ← get;
  match breaker w with
  | None => mret false
  | Some _ => on_breaker (fun cb => fst (CB.Reset now cb));; mret true
  end.

(** [c.circuitBreaker == nil || c.circuitBreaker.AllowRequest()] *)
Definition allowed (env : Env) : M World bool := fun w =>
  match breaker w with
  | None => (true, w)
  | Some cb =>
      let '(b, cb', _) := CB.AllowRequest (t_allow env) (t_allow' env) cb in
      (b, w <| breaker := Some cb' |>)
  end.

(** The state shown in the log line of a rejected message. *)
Definition breaker_state (w : World) : CB.State :=
  match breaker w with Some cb => CB.GetState cb | None => CB.StateClosed end.

Definition trace_header : string := "trace_id".

(** [delivery.Headers = l] on the worker's copy of the struct. *)
Definition set_headers (l : loc) (d : Delivery) : Delivery :=
  {| d_Headers := Some l; d_ContentType := d_ContentType d;
     d_ContentEncoding := d_ContentEncoding d; d_DeliveryMode := d_DeliveryMode d;
     d_Priority := d_Priority d; d_CorrelationId := d_CorrelationId d; d_ReplyTo := d_ReplyTo d;
     d_Expiration := d_Expiration d; d_MessageId := d_MessageId d; d_Timestamp := d_Timestamp d;
     d_Type := d_Type d; d_UserId := d_UserId d; d_AppId := d_AppId d;
     d_DeliveryTag := d_DeliveryTag d; d_Exchange := d_Exchange d;
     d_RoutingKey := d_RoutingKey d; d_Body := d_Body d |}.

(** A delivery without a trace id gets one, in a new header map if it has none. *)
Definition add_trace (env : Env) (delivery : Delivery) : M World (string * Delivery) :=
  headers ← on_base (Retry.headers_or_new delivery);
  let traceID := uuid env in
  on_base (Retry.with_heap (fun h => (tt, map_set headers trace_header (AString traceID) h)));;
  mret (traceID, set_headers headers delivery).

Definition ensure_trace (env : Env) (delivery : Delivery) : M World (string * Delivery) :=
  w ← get;
  match deref (Retry.heap (base w)) (d_Headers delivery) !! trace_header with
  | Some (AString traceID) => mret (traceID, delivery)
  | _ => add_trace env delivery
  end.

(** The body is decoded into a map for the log only; an error is logged and ignored. *)
Definition log_received (workerID : Z) (env : Env) (traceID : string) (delivery : Delivery)
  : M World unit :=
  let '(bodyJSON, err) := Json.unmarshal_map (d_Body delivery) in
  (if err then log (LUnmarshalFailed workerID (unmarshal_error env) traceID) else mret tt);;
  log (LReceived workerID traceID (d_Type delivery) bodyJSON).

(** The start of an iteration: the trace id and the log lines. *)
Definition take_delivery (workerID : Z) (env : Env) (delivery : Delivery)
  : M World (string * Delivery) :=
  '(traceID, delivery) ← ensure_trace env delivery;
  log_received workerID env traceID delivery;;
  mret (traceID, delivery).

(** [HandlerService.Execute]: nil or an error, and any effect on the world. *)
Definition HandlerService : Type := Msg.MessageContext -> M World (option error).

Section Worker.
Context (router : Router.Router HandlerService) (maxRetries : Z).

(** The handler failed with [err]. *)
Definition handle_failure (workerID : Z) (env : Env) (traceID : string) (delivery : Delivery)
    (ctx : Msg.MessageContext) (err : error) : M World unit :=
  w ← get;
  log (LHandlerError (IsExpectedRetry (Some err)) workerID
         (Msg.GetTraceID (Retry.heap (base w)) ctx) (Error err));;
  on_breaker (fun cb => fst (CB.RecordFailure (t_fail env) (t_fail' env) cb));;
  retryErr ← on_base (Retry.Retry (t_retry env) delivery (Retry.NewHandler maxRetries));
  if Is retryErr ErrMaxRetriesExceeded then
    log (LMaxRetries workerID traceID);; settle (Msg.Nack false ctx)
  else match retryErr with
  | Some e => log (LRetryFailed workerID (Error e) traceID);; settle (Msg.Nack false ctx)
  | None =>
      w ← get;
      let retryCount := int64 (Msg.GetRetryCount (Retry.heap (base w)) ctx + 1) in
      log (LRequeued workerID traceID retryCount);; settle (Msg.Ack ctx)
  end.

(** The handler succeeded. *)
Definition handle_success (workerID : Z) (env : Env) (traceID : string)
    (ctx : Msg.MessageContext) : M World unit :=
  settle (Msg.Ack ctx);;
  match ack_error env with
  | Some e => log (LAckFailed workerID (Error e) traceID)
  | None => mret tt
  end;;
  on_breaker (fun cb => fst (CB.RecordSuccess (t_success env) cb)).

(** A message the breaker let through. *)
Definition serve (workerID : Z) (env : Env) (traceID : string) (delivery : Delivery)
    (ctx : Msg.MessageContext) : M World unit :=
  match Router.GetHandler (Msg.GetType ctx) router with
  | None =>
      log (LNoHandler workerID (Msg.GetType ctx) traceID);;
      settle (Msg.Ack ctx)
  | Some serviceHandler =>
      err ← serviceHandler ctx;
      match err with
      | Some err => handle_failure workerID env traceID delivery ctx err
      | None => handle_success workerID env traceID ctx
      end
  end.

(** One iteration of the worker's loop. *)
Definition process (workerID : Z) (env : Env) (delivery : Delivery) : M World unit :=
  '(traceID, delivery) ← take_delivery workerID env delivery;
  let ctx := {| Msg.Delivery := delivery |} in
  ok ← allowed env;
  if negb ok then
    w ← get;
    log (LRejected workerID (breaker_state w) traceID);;
    settle (Msg.Nack false ctx)
  else serve workerID env traceID delivery ctx.

(** Deliveries processed one after the other, each with its environment. *)
Fixpoint process_all (l : list (Z * Env * Delivery)) : M World unit :=
  match l with
  | [] => mret tt
  | (workerID, env, d) :: l' => process workerID env d;; process_all l'
  end.

End Worker.

(** ** Lemmas *)

Abbreviation hp w := (Retry.heap (base w)).
Abbreviation count h d := (Msg.GetRetryCount h {| Msg.Delivery := d |}).
Abbreviation sentout w := (Retry.outgoing (base w)).

(** Two deliveries that differ at most in the header map they refer to. *)
Definition same_message (d d' : Delivery) : Prop :=
  d_DeliveryTag d' = d_DeliveryTag d /\ d_Exchange d' = d_Exchange d /\
  d_RoutingKey d' = d_RoutingKey d /\ d_Body d' = d_Body d /\ d_Type d' = d_Type d.

(** [m] leaves a delivery whose headers are those of [d] with the trace id set. *)
Definition traced (d : Delivery) (w : World) (r : (string * Delivery) * World) : Prop :=
  exists trace d' l bs, r = ((trace, d'), w <| base := bs |>) /\
    same_message d d' /\ d_Headers d' = Some l /\
    deref (Retry.heap bs) (Some l) = <[trace_header := AString trace]> (deref (hp w) (d_Headers d)) /\
    Retry.outgoing bs = sentout w /\ Retry.pworld bs = Retry.pworld (base w).

Lemma add_trace_spec env d w : traced d w (add_trace env d w).
Proof.
  unfold add_trace, on_base, Retry.headers_or_new, Retry.with_heap. run_m.
  destruct (d_Headers d) as [l|] eqn:Hd; simpl; do 4 eexists; (split; [done|]); simpl;
    (split_and!; [done..| |done|done]); rewrite deref_set_eq; [by rewrite Hd|].
  rewrite Hd. pose proof (deref_alloc_eq ∅ (hp w)) as Ha. simpl in Ha. by rewrite Ha.
Qed.

Lemma ensure_trace_spec env d w : traced d w (ensure_trace env d w).
Proof.
  unfold ensure_trace. run_m.
  destruct (deref (hp w) (d_Headers d) !! trace_header) as [v|] eqn:E;
    [|apply add_trace_spec]. destruct v; try apply add_trace_spec.
  destruct (d_Headers d) as [l|] eqn:Hl; [|unfold deref in E; by rewrite lookup_empty in E].
  exists s, d, l, (base w). split; [by destruct w|]. split_and!; try done.
  by rewrite Hl, insert_id.
Qed.

(** The lines logged for a delivery before the breaker is asked. *)
Definition received_lines (workerID : Z) (env : Env) (trace : string) (d : Delivery) : list Log :=
  let '(event, err) := Json.unmarshal_map (d_Body d) in
  (if err then [LUnmarshalFailed workerID (unmarshal_error env) trace] else []) ++
  [LReceived workerID trace (d_Type d) event].

(** [take_delivery] sets the trace id and logs these lines. *)
Lemma take_delivery_spec workerID env d w :
  exists trace d' l bs,
    take_delivery workerID env d w = ((trace, d'),
      {| base := bs; breaker := breaker w; settled := settled w;
         logs := logs w ++ received_lines workerID env trace d |}) /\
    same_message d d' /\ d_Headers d' = Some l /\
    deref (Retry.heap bs) (Some l) = <[trace_header := AString trace]> (deref (hp w) (d_Headers d)) /\
    Retry.outgoing bs = sentout w /\ Retry.pworld bs = Retry.pworld (base w).
Proof.
  destruct (ensure_trace_spec env d w) as (trace & d' & l & bs & E & Hsame & Hrest).
  exists trace, d', l, bs. split; [|done]. pose proof Hsame as (_ & _ & _ & Hb & Ht).
  unfold take_delivery, log_received, received_lines, log. cbv [mbind M_bind]. rewrite E, Hb, Ht.
  destruct (Json.unmarshal_map (d_Body d)) as [event []]; run_m; simpl; by rewrite <- ?app_assoc.
Qed.

(** Resetting the breaker leaves the rest of the world alone. *)
Lemma reset_world now w :
  base (snd (ResetCircuitBreaker now w)) = base w /\
  settled (snd (ResetCircuitBreaker now w)) = settled w /\
  breaker (snd (ResetCircuitBreaker now w)) = (fst ∘ CB.Reset now) <$> breaker w.
Proof. unfold ResetCircuitBreaker. run_m. by destruct (breaker w) eqn:E; rewrite ?E. Qed.

Lemma reset_settled now w : settled (snd (ResetCircuitBreaker now w)) = settled w.
Proof. apply reset_world. Qed.

(** The breaker's answer does not touch anything else. *)
Lemma allowed_spec env w : exists ok cb, allowed env w = (ok, w <| breaker := cb |>) /\
  (breaker w = None -> ok = true /\ cb = None).
Proof.
  unfold allowed. destruct (breaker w) as [cb|] eqn:E.
  - destruct (CB.AllowRequest _ _ _) as [[ok cb'] ev]. by exists ok, (Some cb').
  - exists true, None. split; [|done]. destruct w. simpl in *. by subst.
Qed.

(** A failed message is acknowledged exactly when the publisher took it again. *)
Lemma handle_failure_spec maxRetries wid env trace d ctx err w :
  let w' := snd (handle_failure maxRetries wid env trace d ctx err w) in
  let '(re, bs) := Retry.Retry (t_retry env) d (Retry.NewHandler maxRetries) (base w) in
  base w' = bs /\
  breaker w' = (fun cb => fst (CB.RecordFailure (t_fail env) (t_fail' env) cb)) <$> breaker w /\
  settled w' = settled w ++ [match re with None => Msg.Ack ctx | Some _ => Msg.Nack false ctx end].
Proof.
  unfold handle_failure, log, on_breaker, on_base, settle. run_m.
  destruct (Retry.Retry _ _ _ _) as [[e|] bs]; simpl; [|done].
  destruct (search _ e); done.
Qed.

Lemma handle_failure_requeued maxRetries wid env trace d ctx err w bs :
  Retry.Retry (t_retry env) d (Retry.NewHandler maxRetries) (base w) = (None, bs) ->
  logs (snd (handle_failure maxRetries wid env trace d ctx err w)) = logs w ++
    [LHandlerError (IsExpectedRetry (Some err)) wid (Msg.GetTraceID (hp w) ctx) (Error err)] ++
    [LRequeued wid trace (int64 (Msg.GetRetryCount (Retry.heap bs) ctx + 1))].
Proof.
  intros Hr. unfold handle_failure, log, on_breaker, on_base, settle. run_m.
  rewrite Hr. simpl. by rewrite <- app_assoc.
Qed.

(** The handler does not settle deliveries. *)
Definition polite (h : HandlerService) : Prop :=
  forall ctx w, settled (snd (h ctx w)) = settled w.

Definition type_of (d : Delivery) : string := Msg.GetType {| Msg.Delivery := d |}.

(** After the handler failed and left world [w1], the message was handed to the publisher
    again and accepted. *)
Definition republished (d : Delivery) (w1 w' : World) : Prop :=
  exists o, sentout w' = sentout w1 ++ [o] /\ Retry.o_Error o = None /\
    Exchange (Retry.o_Message o) = d_Exchange d /\ RoutingKey (Retry.o_Message o) = d_RoutingKey d /\
    p_Body (Message (Retry.o_Message o)) = d_Body d.

Lemma Retry_accepted now d maxRetries bs bs' :
  Retry.Retry now d (Retry.NewHandler maxRetries) bs = (None, bs') ->
  exists o, Retry.outgoing bs' = Retry.outgoing bs ++ [o] /\ Retry.o_Error o = None /\
    Exchange (Retry.o_Message o) = d_Exchange d /\ RoutingKey (Retry.o_Message o) = d_RoutingKey d /\
    p_Body (Message (Retry.o_Message o)) = d_Body d.
Proof.
  intros Hr. destruct (Z.lt_ge_cases (count (Retry.heap bs) d) maxRetries) as [Hlt|Hge].
  - destruct (Retry.Retry_publishes now d (Retry.NewHandler maxRetries) bs Hlt)
      as (h & pw & e & _ & _ & E).
    rewrite E in Hr. injection Hr as -> <-. simpl. eexists. by split_and!.
  - by rewrite Retry.Retry_exhausted in Hr.
Qed.

(** Why a delivery may be acknowledged, or rejected, by its handler. *)
Definition ack_reason (h : option HandlerService) (d : Delivery) (w' : World) : Prop :=
  h = None \/
  (exists f ctx w0 r w1, h = Some f /\ same_message d (Msg.Delivery ctx) /\
     f ctx w0 = (r, w1) /\ (r = None \/ republished d w1 w')).

Definition handler_failed (h : option HandlerService) (d : Delivery) : Prop :=
  exists f ctx w1 e, h = Some f /\ same_message d (Msg.Delivery ctx) /\ fst (f ctx w1) = Some e.

Lemma serve_settles router maxRetries wid env trace d d' w :
  (forall t h, Router.GetHandler t router = Some h -> polite h) -> same_message d d' ->
  let w' := snd (serve router maxRetries wid env trace d' {| Msg.Delivery := d' |} w) in
  let handler := Router.GetHandler (type_of d) router in
  (settled w' = settled w ++ [Msg.CallAck (d_DeliveryTag d)] /\ ack_reason handler d w') \/
  (settled w' = settled w ++ [Msg.CallNack (d_DeliveryTag d) false] /\ handler_failed handler d).
Proof.
  intros Hpol Hsame. pose proof Hsame as (Htag & Hex & Hrk & Hbody & _).
  set (ctx := {| Msg.Delivery := d' |}). unfold serve.
  replace (type_of d) with (Msg.GetType ctx) by (unfold Msg.GetType, type_of; simpl; by rewrite Hbody).
  destruct (Router.GetHandler (Msg.GetType ctx) router) as [f|] eqn:Eh; simpl.
  2: { left. unfold log, settle. run_m. unfold Msg.Ack. simpl. rewrite Htag. split; [done|by left]. }
  unfold mbind, M_bind. pose proof (Hpol _ _ Eh ctx w) as Hp.
  destruct (f ctx w) as [[e|] w1] eqn:Ef; simpl in Hp.
  - pose proof (handle_failure_spec maxRetries wid env trace d' ctx e w1) as Hf. simpl in Hf.
    destruct (Retry.Retry _ _ _ _) as [[re|] bs] eqn:Er; destruct Hf as (Hb & _ & ->); rewrite Hp.
    + right. unfold Msg.Nack. simpl. rewrite Htag. split; [done|].
      exists f, ctx, w, e. by rewrite Ef.
    + left. unfold Msg.Ack. simpl. rewrite Htag. split; [done|]. right.
      exists f, ctx, w, (Some e), w1. split_and!; try done. right.
      destruct (Retry_accepted _ _ _ _ _ Er) as (o & Ho & He & H1 & H2 & H3).
      exists o. rewrite Hb, <- Hex, <- Hrk, <- Hbody. by split_and!.
  - left. split.
    + unfold handle_success, settle, log, on_breaker. run_m. unfold Msg.Ack. simpl.
      destruct (ack_error env); simpl; by rewrite Hp, Htag.
    + right. exists f, ctx, w, None, w1. by split_and!; [..|left].
Qed.


(** ** Messages whose handler always fails *)

Definition failing (e : error) : HandlerService := fun _ => mret (Some e).

Lemma count_eq h h' d d' :
  deref h (d_Headers d) !! Msg.CountHeader = deref h' (d_Headers d') !! Msg.CountHeader ->
  count h d = count h' d'.
Proof.
  unfold Msg.GetRetryCount. simpl.
  destruct (d_Headers d), (d_Headers d'); try done; intros Heq.
  - by rewrite Heq.
  - unfold deref at 2 in Heq. rewrite lookup_empty in Heq. by rewrite Heq.
  - unfold deref at 1 in Heq. rewrite lookup_empty in Heq. by rewrite <- Heq.
Qed.

(** One round of a message whose handler fails, without a breaker. *)
Lemma failing_round router maxRetries wid env d w e :
  breaker w = None -> Router.GetHandler (type_of d) router = Some (failing e) ->
  in_int64 maxRetries -> in_int64 (count (hp w) d) ->
  let w' := snd (process router maxRetries wid env d w) in
  let n := count (hp w) d in
  breaker w' = None /\
  (maxRetries <= n ->
     sentout w' = sentout w /\
     settled w' = settled w ++ [Msg.CallNack (d_DeliveryTag d) false]) /\
  (n < maxRetries -> (forall m pw, fst (Publish m pw) = None) ->
     exists o trace, sentout w' = sentout w ++ [o] /\ Retry.o_Error o = None /\
       Headers (Retry.o_Message o) !! Msg.CountHeader = Some (AInt (n + 1)) /\
       p_Body (Message (Retry.o_Message o)) = d_Body d /\
       settled w' = settled w ++ [Msg.CallAck (d_DeliveryTag d)] /\
       last (logs w') = Some (LRequeued wid trace (int64 (n + 2)))).
Proof.
  intros Hb Hh Hmax Hn. unfold process. run_m.
  destruct (take_delivery_spec wid env d w) as (trace & d' & l & bs & -> & Hsame & Hl & Hd & Ho & _).
  pose proof Hsame as (Htag & _ & _ & Hbody & _).
  unfold allowed. simpl. rewrite Hb. simpl.
  assert (count (Retry.heap bs) d' = count (hp w) d) as Hc.
  { apply count_eq. rewrite Hl, Hd. by apply lookup_insert_ne. }
  unfold serve. replace (Msg.GetType _) with (type_of d)
    by (unfold Msg.GetType, type_of; simpl; by rewrite Hbody).
  rewrite Hh. unfold mbind, M_bind, failing, mret, M_ret.
  set (w1 := {| base := bs; breaker := None; settled := settled w;
                logs := logs w ++ received_lines wid env trace d |}).
  pose proof (handle_failure_spec maxRetries wid env trace d' {| Msg.Delivery := d' |} e w1) as Hf.
  simpl in Hf. destruct (Z.lt_ge_cases (count (hp w) d) maxRetries) as [Hlt|Hge].
  - rewrite <- Hc in Hlt.
    destruct (Retry.Retry_publishes (t_retry env) d' (Retry.NewHandler maxRetries) bs Hlt)
      as (h & pw & er & Hpub & Hh' & E).
    pose proof (handle_failure_requeued maxRetries wid env trace d' {| Msg.Delivery := d' |} e w1) as Hlog.
    simpl in Hlog. rewrite E in Hf, Hlog. destruct Hf as (Hb' & Hcb & Hs). rewrite Hc in *.
    split_and!; [done|lia|]. intros _ Hacc.
    assert (er = None) as -> by (apply (f_equal fst) in Hpub; by rewrite Hacc in Hpub).
    specialize (Hlog _ eq_refl). rewrite Hb', Hs, Hlog. simpl.
    assert (int64 (count (hp w) d + 1) = count (hp w) d + 1) as Hi
      by (apply int64_id; unfold in_int64 in *; lia).
    eexists _, trace. split_and!; [by rewrite Ho|done|simpl; rewrite Hi; apply lookup_insert_eq|
      done|unfold Msg.Ack; simpl; by rewrite Htag|].
    rewrite last_app. simpl. do 3 f_equal.
    rewrite (Msg.GetRetryCount_int _ _ (AInt (count (hp w) d + 1)) (count (hp w) d + 1));
      [by rewrite <- Z.add_assoc|simpl|done].
    unfold Retry.retry_headers in Hh'. rewrite Hl in *. rewrite Hh', Hi. apply lookup_insert_eq.
  - rewrite Retry.Retry_exhausted in Hf by (simpl; lia). destruct Hf as (Hb' & Hcb & Hs).
    split_and!; [done| |lia]. intros _. rewrite Hb', Hs. unfold Msg.Nack. simpl. by rewrite Htag.
Qed.

(** *** The life of a message through the broker *)

Section Life.
Context (router : Router.Router HandlerService) (maxRetries : Z).
(** What a header value becomes when it travels through the broker, and the environment of
    each round. *)
Context (wire : any -> any) (envs : nat -> Env).

(** A published message comes back as a delivery with a header map of its own. *)
Definition redeliver (tag : Z) (o : Retry.Outgoing) : M World Delivery :=
  l ← on_base (Retry.with_heap (alloc (wire <$> Headers (Retry.o_Message o))));
  let m := Message (Retry.o_Message o) in
  mret {| d_Headers := Some l; d_ContentType := p_ContentType m;
          d_ContentEncoding := p_ContentEncoding m; d_DeliveryMode := p_DeliveryMode m;
          d_Priority := p_Priority m; d_CorrelationId := p_CorrelationId m;
          d_ReplyTo := p_ReplyTo m; d_Expiration := p_Expiration m;
          d_MessageId := p_MessageId m; d_Timestamp := p_Timestamp m; d_Type := p_Type m;
          d_UserId := p_UserId m; d_AppId := p_AppId m; d_DeliveryTag := tag;
          d_Exchange := Exchange (Retry.o_Message o);
          d_RoutingKey := RoutingKey (Retry.o_Message o);
          d_Body := p_Body m |}.

(** Process a delivery, then the message it was republished as, and so on; the result is
    the number of times the message was processed. *)
Fixpoint life (fuel : nat) (wid : Z) (d : Delivery) : M World nat :=
  match fuel with
  | O => mret 0%nat
  | S fuel' =>
      before ← get;
      process router maxRetries wid (envs fuel) d;;
      after ← get;
      match drop (length (sentout before)) (sentout after) with
      | o :: _ =>
          d' ← redeliver (d_DeliveryTag d + 1) o;
          n ← life fuel' wid d';
          mret (S n)
      | [] => mret 1%nat
      end
  end.

(** The delivery a republished message comes back as. *)
Lemma redeliver_spec tag o w c :
  Headers (Retry.o_Message o) !! Msg.CountHeader = Some (AInt c) -> Msg.as_int (wire (AInt c)) = Some c ->
  exists d' w', redeliver tag o w = (d', w') /\ count (hp w') d' = c /\ d_DeliveryTag d' = tag /\
    d_Body d' = p_Body (Message (Retry.o_Message o)) /\ breaker w' = breaker w /\
    settled w' = settled w /\ sentout w' = sentout w.
Proof.
  intros Ho Hw. unfold redeliver, on_base, Retry.with_heap. run_m.
  do 2 eexists. split; [done|]. simpl. split_and!; try done.
  apply (Msg.GetRetryCount_int _ _ (wire (AInt c))); [|done]. simpl.
  pose proof (deref_alloc_eq (wire <$> Headers (Retry.o_Message o)) (hp w)) as Ha. simpl in Ha. rewrite Ha.
  by rewrite lookup_fmap, Ho.
Qed.

Lemma life_S fuel wid d w :
  life (S fuel) wid d w =
  let w1 := snd (process router maxRetries wid (envs (S fuel)) d w) in
  match drop (length (sentout w)) (sentout w1) with
  | o :: _ =>
      let '(d', w2) := redeliver (d_DeliveryTag d + 1) o w1 in
      let '(n, w3) := life fuel wid d' w2 in (S n, w3)
  | [] => (1%nat, w1)
  end.
Proof.
  simpl. unfold mbind, M_bind, get. destruct (process _ _ _ _ d w) as [[] w1]. simpl.
  by destruct (drop _ _).
Qed.

(** The acknowledgements of the rounds, the first one apart. *)
Lemma acks_cons tag n :
  (fun k => Msg.CallAck (tag + Z.of_nat k)) <$> seq 0 (S n) =
  Msg.CallAck tag :: ((fun k => Msg.CallAck (tag + 1 + Z.of_nat k)) <$> seq 0 n).
Proof.
  simpl. f_equal; [f_equal; lia|]. rewrite <- fmap_S_seq, <- list_fmap_compose.
  apply list_fmap_ext. intros i x _. simpl. f_equal. lia.
Qed.

(** C7: without a circuit breaker, a message whose handler always fails is processed exactly
    [MaxRetries + 1] times: starting from retry count [c], it is republished and acknowledged
    [MaxRetries - c] times and then rejected without requeue, and nothing is sent after that,
    provided the publisher accepts every copy and integer headers keep their value on the wire.
    (With a breaker, or when a copy is refused, the message is rejected earlier.) *)
Theorem failing_message_bounded fuel wid d w e c :
  breaker w = None -> Router.GetHandler (type_of d) router = Some (failing e) ->
  (forall m pw, fst (Publish m pw) = None) ->
  (forall z, 0 <= z <= maxRetries -> Msg.as_int (wire (AInt z)) = Some z) ->
  0 <= maxRetries <= int64_max -> count (hp w) d = c -> 0 <= c <= maxRetries ->
  maxRetries - c < Z.of_nat fuel ->
  let '(n, w') := life fuel wid d w in
  Z.of_nat n = maxRetries - c + 1 /\
  length (sentout w') = (length (sentout w) + (n - 1))%nat /\
  settled w' = settled w ++
    ((fun k => Msg.CallAck (d_DeliveryTag d + Z.of_nat k)) <$> seq 0 (n - 1)) ++
    [Msg.CallNack (d_DeliveryTag d + Z.of_nat (n - 1)) false].
Proof.
  revert d w c. induction fuel as [|fuel IH]; intros d w c Hb Hh Hacc Hwire Hmax Hc Hr Hf; [lia|].
  assert (in_int64 maxRetries /\ in_int64 c) as [Hm Hci]
    by (unfold in_int64, int64_min, int64_max in *; lia).
  rewrite <- Hc in Hci.
  pose proof (failing_round router maxRetries wid (envs (S fuel)) d w e Hb Hh Hm Hci) as Hround.
  rewrite life_S. destruct (process router maxRetries wid (envs (S fuel)) d w) as [[] w1].
  cbv zeta. simpl snd.
  rewrite Hc in Hround. simpl in Hround. destruct Hround as (Hb1 & Hlast & Hmore).
  destruct (Z.lt_ge_cases c maxRetries) as [Hlt|Hge].
  - destruct (Hmore Hlt Hacc) as (o & trace & Ho & _ & Hcnt & Hbody & Hs & _).
    rewrite Ho, drop_app_length.
    destruct (redeliver_spec (d_DeliveryTag d + 1) o w1 (c + 1) Hcnt (Hwire (c + 1) ltac:(lia)))
      as (d' & w2 & -> & Hc2 & Htag & Hb2 & Hbr & Hs2 & Ho2).
    specialize (IH d' w2 (c + 1)).
    destruct (life fuel wid d' w2) as [n w3]. cbv beta iota.
    destruct IH as (Hn & Hlen & Hset); try done; try lia.
    { by rewrite Hbr. }
    { rewrite <- Hh. f_equal. unfold type_of, Msg.GetType. simpl. by rewrite Hb2, Hbody. }
    split_and!; [lia| |].
    + rewrite Hlen, Ho2, Ho, length_app. simpl. lia.
    + destruct n as [|n]; [lia|].
      replace (S (S n) - 1)%nat with (S n) by lia. replace (S n - 1)%nat with n in Hset by lia.
      rewrite acks_cons, Hset, Hs2, Hs, Htag, <- app_assoc.
      replace (d_DeliveryTag d + 1 + Z.of_nat n) with (d_DeliveryTag d + Z.of_nat (S n)) by lia.
      done.
  - destruct (Hlast Hge) as [Ho Hs]. rewrite Ho, drop_all. simpl.
    split_and!; [lia|by rewrite Ho; lia|]. rewrite Hs. simpl. by rewrite Z.add_0_r.
Qed.

End Life.

(** The log line of a successful retry is off by one: [Retry] has already written the new
    count [n + 1] into the header map that the message context shares, so reading it again
    and adding one reports [n + 2]. *)
Theorem requeue_log_counts_twice router maxRetries wid env d w e :
  breaker w = None -> Router.GetHandler (type_of d) router = Some (failing e) ->
  in_int64 maxRetries -> in_int64 (count (hp w) d) -> count (hp w) d < maxRetries ->
  (forall m pw, fst (Publish m pw) = None) ->
  let w' := snd (process router maxRetries wid env d w) in
  exists o trace, last (sentout w') = Some o /\
    Headers (Retry.o_Message o) !! Msg.CountHeader = Some (AInt (count (hp w) d + 1)) /\
    last (logs w') = Some (LRequeued wid trace (int64 (count (hp w) d + 2))).
Proof.
  intros Hb Hh Hm Hn Hlt Hacc.
  destruct (failing_round router maxRetries wid env d w e Hb Hh Hm Hn) as (_ & _ & Hmore).
  destruct (Hmore Hlt Hacc) as (o & trace & Ho & _ & Hc & _ & _ & Hl).
  exists o, trace. by rewrite Ho, last_snoc.
Qed.

(** A handler in the style of the documentation's examples: it acknowledges the message and
    returns the result. *)
Definition acking : HandlerService := fun ctx => settle (Msg.Ack ctx);; mret None.

(** C27: a handler that acknowledges its message itself and succeeds, as the documentation's
    examples do, makes the worker acknowledge the same delivery tag a second time, whenever the
    breaker (if there is one) lets the message through. *)
Theorem acking_handler_settles_twice router maxRetries wid env d w :
  fst (allowed env w) = true -> Router.GetHandler (type_of d) router = Some acking ->
  settled (snd (process router maxRetries wid env d w)) =
  settled w ++ [Msg.CallAck (d_DeliveryTag d); Msg.CallAck (d_DeliveryTag d)].
Proof.
  intros Hb Hh. unfold process. run_m.
  destruct (take_delivery_spec wid env d w) as (trace & d' & l & bs & -> & Hsame & _).
  pose proof Hsame as (Htag & _ & _ & Hbody & _). set (w1 := Build_World _ _ _ _).
  assert (exists cb, allowed env w1 = (true, w1 <| breaker := cb |>)) as [cb ->].
  { unfold allowed in *. simpl. destruct (breaker w) as [cb|]; [|by exists None].
    destruct (CB.AllowRequest _ _ _) as [[ok cb'] ev]. simpl in Hb. subst ok. by eexists. }
  simpl. unfold serve. replace (Msg.GetType _) with (type_of d)
    by (unfold Msg.GetType, type_of; simpl; by rewrite Hbody).
  rewrite Hh. unfold acking, handle_success, settle, log, on_breaker. run_m.
  unfold Msg.Ack. simpl. rewrite Htag. destruct (ack_error env); simpl; by rewrite <- app_assoc.
Qed.

(** A half-open breaker that has admitted its probes rejects whatever comes. *)
Lemma exhausted_rejects router maxRetries wid env d w cb :
  breaker w = Some cb -> CB.state cb = CB.StateHalfOpen ->
  CB.halfOpenRequests cb = CB.HalfOpenMaxRequests (CB.config cb) ->
  let w' := snd (process router maxRetries wid env d w) in
  breaker w' = Some cb /\ settled w' = settled w ++ [Msg.CallNack (d_DeliveryTag d) false].
Proof.
  intros Hb Hs Hr. unfold process. run_m.
  destruct (take_delivery_spec wid env d w) as (trace & d' & l & bs & -> & Hsame & _).
  unfold allowed. simpl. rewrite Hb. unfold CB.AllowRequest. rewrite Hs, Hr, Z.ltb_irrefl. simpl.
  unfold log, settle. run_m. unfold Msg.Nack. simpl. by rewrite (proj1 Hsame).
Qed.

Lemma process_all_cons router maxRetries wid env d l w :
  snd (process_all router maxRetries ((wid, env, d) :: l) w) =
  snd (process_all router maxRetries l (snd (process router maxRetries wid env d w))).
Proof. simpl. run_m. by destruct (process router maxRetries wid env d w) as [[] w1]. Qed.

(** An admitted message without a handler is acknowledged, and no outcome is recorded. *)
Lemma unrouted_admitted router maxRetries wid env d w cb :
  breaker w = Some cb -> fst (fst (CB.AllowRequest (t_allow env) (t_allow' env) cb)) = true ->
  Router.GetHandler (type_of d) router = None ->
  let w' := snd (process router maxRetries wid env d w) in
  breaker w' = Some (fst (CB.apply (CB.OpAllow (t_allow env) (t_allow' env)) cb)) /\
  settled w' = settled w ++ [Msg.CallAck (d_DeliveryTag d)].
Proof.
  intros Hb Ha Hh. unfold process. run_m.
  destruct (take_delivery_spec wid env d w) as (trace & d' & l & bs & -> & Hsame & _).
  pose proof Hsame as (Htag & _ & _ & Hbody & _). unfold allowed. simpl. rewrite Hb.
  destruct (CB.AllowRequest _ _ _) as [[ok cb'] ev]. simpl in *. subst ok. simpl.
  unfold serve. replace (Msg.GetType _) with (type_of d)
    by (unfold Msg.GetType, type_of; simpl; by rewrite Hbody).
  rewrite Hh. unfold log, settle. run_m. unfold Msg.Ack. simpl. by rewrite Htag.
Qed.

Definition acks_of (l : list (Z * Env * Delivery)) : list Msg.Settle :=
  (fun x => Msg.CallAck (d_DeliveryTag x.2)) <$> l.

Definition nacks_of (l : list (Z * Env * Delivery)) : list Msg.Settle :=
  (fun x => Msg.CallNack (d_DeliveryTag x.2) false) <$> l.

Definition exhausted (cb : CB.CircuitBreaker) : Prop :=
  CB.state cb = CB.StateHalfOpen /\ CB.halfOpenRequests cb = CB.HalfOpenMaxRequests (CB.config cb).

(** As many messages without a handler as there are probes left use them up. *)
Lemma unrouted_exhaust router maxRetries l w cb :
  breaker w = Some cb -> CB.wf cb -> CB.state cb = CB.StateHalfOpen ->
  Z.of_nat (length l) = CB.HalfOpenMaxRequests (CB.config cb) - CB.halfOpenRequests cb ->
  Forall (fun x => Router.GetHandler (type_of x.2) router = None) l ->
  let w' := snd (process_all router maxRetries l w) in
  settled w' = settled w ++ acks_of l /\ exists cb', breaker w' = Some cb' /\ exhausted cb'.
Proof.
  revert w cb. induction l as [|[[wid env] d] l IH]; intros w cb Hb Hwf Hst Hlen Hl.
  { simpl in *. split; [by rewrite app_nil_r|]. exists cb. split; [done|]. split; [done|lia]. }
  apply Forall_cons in Hl as [Hd Hl]. cbv zeta. rewrite process_all_cons.
  cbn [length] in Hlen.
  assert (CB.AllowRequest (t_allow env) (t_allow' env) cb =
    (true, CB.set_counters (CB.failures cb) (CB.successes cb)
             (int64 (CB.halfOpenRequests cb + 1)) cb, [])) as Ha.
  { unfold CB.AllowRequest. rewrite Hst. by rewrite (proj2 (Z.ltb_lt _ _)) by lia. }
  destruct (unrouted_admitted router maxRetries wid env d w cb Hb) as [Hb' Hs']; [by rewrite Ha|done|].
  pose proof (CB.apply_wf (CB.OpAllow (t_allow env) (t_allow' env)) cb Hwf) as Hwf'.
  edestruct IH as [Hs Hx]; [exact Hb'|done| | |done|].
  - simpl. by rewrite Ha.
  - assert (int64 (CB.halfOpenRequests cb + 1) = CB.halfOpenRequests cb + 1) as Hi.
    { apply (int64_succ_lt _ (CB.HalfOpenMaxRequests (CB.config cb))); [|lia|].
      - destruct Hwf as [_ Hw]. unfold CB.counters_ok in Hw. rewrite Hst in Hw. lia.
      - destruct Hwf as [(_ & _ & Hc) _]. unfold in_int64, int64_min, int64_max in *. lia. }
    simpl. rewrite Ha. simpl. rewrite Hi. lia.
  - split; [|done]. by rewrite Hs, Hs', <- app_assoc.
Qed.

(** Then every message is rejected. *)
Lemma exhausted_rejects_all router maxRetries l w cb :
  breaker w = Some cb -> exhausted cb ->
  let w' := snd (process_all router maxRetries l w) in
  breaker w' = Some cb /\ settled w' = settled w ++ nacks_of l.
Proof.
  revert w. induction l as [|[[wid env] d] l IH]; intros w Hb Hx; cbv zeta.
  { simpl. by rewrite app_nil_r. }
  rewrite process_all_cons. pose proof Hx as [Hst Hr].
  destruct (exhausted_rejects router maxRetries wid env d w cb Hb Hst Hr) as [Hb' Hs'].
  destruct (IH _ Hb' Hx) as [Hb2 Hs2]. split; [done|]. by rewrite Hs2, Hs', <- app_assoc.
Qed.

(** C39: messages without a handler use up the probes of a breaker without ever recording an
    outcome.  Whatever the configuration, once the timeout of an open breaker (well-formed, as
    every reachable one is) has passed, [HalfOpenMaxRequests + 1] messages of types nobody
    handles, processed one after the other, are acknowledged and leave the breaker half-open with
    no probe left; every message processed after them, whatever its type, its handlers and the
    time, is rejected without requeue, and the breaker does not change any more. *)
Theorem unrouted_messages_wedge_breaker router maxRetries first l w cb :
  breaker w = Some cb -> CB.wf cb -> CB.state cb = CB.StateOpen ->
  CB.lastStateChangeTime cb + CB.ResetTimeout (CB.config cb) <= t_allow first.1.2 ->
  Z.of_nat (length l) = CB.HalfOpenMaxRequests (CB.config cb) ->
  Forall (fun x => Router.GetHandler (type_of x.2) router = None) (first :: l) ->
  let w' := snd (process_all router maxRetries (first :: l) w) in
  settled w' = settled w ++ acks_of (first :: l) /\
  CB.state <$> breaker w' = Some CB.StateHalfOpen /\
  forall router' maxRetries' later,
    let w'' := snd (process_all router' maxRetries' later w') in
    breaker w'' = breaker w' /\ settled w'' = settled w' ++ nacks_of later.
Proof.
  intros Hb Hwf Hst Ht Hlen [Hf Hl]%Forall_cons. destruct first as [[wid env] d]. cbv zeta.
  rewrite process_all_cons.
  destruct (CB.allow_expired (t_allow env) (t_allow' env) cb Hwf Hst Ht) as (Hs1 & Hh1 & _ & Hc1 & Ha).
  destruct (unrouted_admitted router maxRetries wid env d w cb Hb) as [Hb' Hs']; [|done|].
  { simpl in Ha. by destruct (CB.AllowRequest _ _ _) as [[ok cb'] ev]; simplify_eq/=. }
  edestruct (unrouted_exhaust router maxRetries l) as (Hs & cb' & Hb2 & Hx);
    [exact Hb'|by apply CB.apply_wf|done|by rewrite Hh1, Hc1, Z.sub_0_r|done|].
  split_and!; [by rewrite Hs, Hs', <- app_assoc|rewrite Hb2; simpl; f_equal; by destruct Hx|].
  intros router' maxRetries' later. rewrite Hb2. by apply exhausted_rejects_all.
Qed.

End Consumer.

(** ** Starting the workers *)

Section Start.
Context {A : Amqp.Amqp}.

(** The result and the ids of the worker goroutines started. *)
Definition Consume (queue : string) (workers : Z) : M Client.Sys (option error * list Z) :=
  c ← gets Client.client;
  if Client.closed c then mret (Some (Sentinel ErrClientClosed), [])
  else match Client.channel c with
  | None => mret (Some (Sentinel ErrNoChannel), [])
  | Some ch =>
      r ← Client.on_st (Amqp.perform (Amqp.Consume ch queue));
      match r with
      | inl e => mret (Some (NewConsumeError queue (Some e)), [])
      | inr _ => mret (None, Z.of_nat <$> seq 0 (Z.to_nat workers))
      end
  end.

End Start.

(** ** Witnesses and runs *)

Definition env_at (t : Z) : Env :=
  {| uuid := "u"; t_allow := t; t_allow' := t; t_fail := t; t_fail' := t; t_retry := t;
     t_success := t; ack_error := None; unmarshal_error := "invalid character" |}.

Definition demo_world (cb : option CB.CircuitBreaker) (headers : Table) : @World accepting :=
  @Build_World accepting
    (@Retry.Build_World accepting (demo_heap headers) tt []) cb [] [].

(** The body {"type":"order"}. *)
Definition order_body : string :=
  let q := String Json.quote "" in
  "{" +:+ q +:+ "type" +:+ q +:+ ":" +:+ q +:+ "order" +:+ q +:+ "}".

Definition order : Delivery := demo_delivery (Some 0%nat) order_body.

(** A router with one handler, for type order. *)
Definition routes (h : @HandlerService accepting)
  : Router.Router (@HandlerService accepting) :=
  Router.Handle "order" (Some h) Router.NewRouter.

Definition boom : error := Foreign "boom" [].


Lemma failing_message_bounded_witness :
  fst (life (G := amd64) (routes (failing boom)) 3 (fun v => v) (fun _ => env_at 1) 5 0 order
         (demo_world None ∅)) = 4%nat.
Proof.
  pose proof (failing_message_bounded (G := amd64) (routes (failing boom)) 3 (fun v => v)
    (fun _ => env_at 1) 5 0 order (demo_world None ∅) boom 0 eq_refl eq_refl
    (fun _ _ => eq_refl) (fun z _ => eq_refl) ltac:(unfold int64_max; lia) eq_refl
    ltac:(lia) ltac:(lia)) as H.
  destruct (life _ _ _ _ _ _ _ _) as [n w']. destruct H as [H _]. simpl. lia.
Defined.

Lemma requeue_log_counts_twice_witness :
  let w' := snd (process (G := amd64) (routes (failing boom)) 3 0 (env_at 1) order (demo_world None ∅)) in
  exists o trace, last (Retry.outgoing (base w')) = Some o /\
    Headers (Retry.o_Message o) !! Msg.CountHeader = Some (AInt 1) /\
    last (logs w') = Some (LRequeued 0 trace 2).
Proof.
  destruct (requeue_log_counts_twice (G := amd64) (routes (failing boom)) 3 0 (env_at 1) order
    (demo_world None ∅) boom) as (o & trace & H1 & H2 & H3); try reflexivity; try by_compute.
  exists o, trace. split; [exact H1|]. split; [exact H2|exact H3].
Defined.

Lemma acking_handler_settles_twice_witness :
  settled (snd (process (G := amd64) (routes acking) 3 0 (env_at 1) order (demo_world None ∅))) =
  [Msg.CallAck 7; Msg.CallAck 7].
Proof. apply (acking_handler_settles_twice (G := amd64)); reflexivity. Defined.

(** The breaker [CB.demo_open] opened at time 4; at 14 its timeout has passed, and three
    messages of a type nobody handles arrive. *)
Definition unrouted : list (Z * Env * Delivery) :=
  (fun t => (0, env_at t, demo_delivery (Some 0%nat) "{}")) <$> [14; 15; 16].

Definition after_unrouted : @World accepting :=
  snd (process_all (G := amd64) (routes (fun _ => mret None)) 3 unrouted
         (demo_world (Some CB.demo_open) ∅)).

Lemma unrouted_messages_wedge_breaker_witness :
  settled after_unrouted = [Msg.CallAck 7; Msg.CallAck 7; Msg.CallAck 7] /\
  settled (snd (process_all (G := amd64) (routes (fun _ => mret None)) 3 [(0, env_at 1000, order)]
                  after_unrouted)) =
    [Msg.CallAck 7; Msg.CallAck 7; Msg.CallAck 7; Msg.CallNack 7 false].
Proof.
  destruct (unrouted_messages_wedge_breaker (G := amd64) (routes (fun _ => mret None)) 3
    (0, env_at 14, demo_delivery (Some 0%nat) "{}")
    ((fun t => (0, env_at t, demo_delivery (Some 0%nat) "{}")) <$> [15; 16])
    (demo_world (Some CB.demo_open) ∅) CB.demo_open) as (H1 & _ & H2).
  - reflexivity.
  - by_compute.
  - vm_compute. reflexivity.
  - vm_compute. discriminate.
  - vm_compute. reflexivity.
  - repeat constructor; vm_compute; reflexivity.
  - split; [exact H1|]. destruct (H2 (routes (fun _ => mret None)) 3 [(0, env_at 1000, order)]) as [_ H3].
    etransitivity; [exact H3|]. vm_compute. reflexivity.
Defined.

(** [Consume] checks the client before asking the broker: a closed client or one without
    a channel gets its error and no call is made; a refused call is reported with the queue's
    name; otherwise exactly [workers] workers are started, numbered from zero. *)
Theorem Consume_spec {A : Amqp.Amqp} queue workers s :
  let '(r, s') := Consume queue workers s in
  let c := Client.client s in
  let calls (l : list Amqp.Call) := Amqp.trace (Client.st s') = Amqp.trace (Client.st s) ++ l in
  match Client.closed c, Client.channel c with
  | true, _ => r = (Some (Sentinel ErrClientClosed), []) /\ s' = s
  | false, None => r = (Some (Sentinel ErrNoChannel), []) /\ s' = s
  | false, Some ch =>
      calls [Amqp.Consume ch queue] /\
      match fst (Amqp.answer (Amqp.Consume ch queue) (Amqp.world (Client.st s))) with
      | inl e => r = (Some (NewConsumeError queue (Some e)), [])
      | inr _ => r.1 = None /\ length r.2 = Z.to_nat workers /\
                 forall i w, r.2 !! i = Some w -> w = Z.of_nat i
      end
  end.
Proof.
  unfold Consume. run_m. destruct (Client.closed (Client.client s)); [done|].
  destruct (Client.channel (Client.client s)) as [ch|]; [|done].
  unfold Client.on_st, Amqp.perform. destruct (Amqp.answer _ _) as [[e|q] w] eqn:E; simpl; [done|].
  split; [done|]. split_and!; [done|by rewrite length_fmap, length_seq|].
  intros i x Hx. rewrite list_lookup_fmap in Hx.
  destruct (seq 0 (Z.to_nat workers) !! i) as [k|] eqn:Ek; [|done].
  apply lookup_seq in Ek as [-> _]. by injection Hx as <-.
Qed.

End Cons.
