(* ===== verification/Workers.v ===== *)
(** * Concurrent workers (internal/broker/consumer.go)

    The goroutines that [Consume] starts share the channel of deliveries, the circuit breaker
    and the publisher.  A worker is a program counter [pc]; its steps are the points of the
    loop body at which it touches shared state: the header map, the breaker (each operation
    is one critical section), the handler, the retry handler with its publication, and the
    settlement.  [exec] performs one event of the system.  A handler's effect, and a retry's,
    happens at one moment; how long it takes before and after is up to the schedule. *)

From stdpp Require Import base gmap strings list fin_maps relations.
From Stdlib Require Import ZArith Lia.
From S2P Require Import Prelude CircuitBreaker Errors Values Router PublisherApi Retry Consumer.
Import Err Val PubApi Cons.
Local Open Scope Z_scope.
Local Open Scope kit_scope.

Module Workers.

(** Replacing one element of a list, seen through a function to lists. *)
Lemma bind_insert {A B} (f : A -> list B) l i x :
  l !! i = Some x ->
  exists rest, l ≫= f ≡ₚ f x ++ rest /\ forall y, <[i := y]> l ≫= f ≡ₚ f y ++ rest.
Proof.
  intros Hi. exists ((take i l ++ drop (S i) l) ≫= f). split.
  - rewrite <- (take_drop_middle l i x Hi) at 1. rewrite !bind_app. simpl.
    apply Permutation_app_swap_app.
  - intros y. rewrite insert_take_drop by eauto using lookup_lt_Some. rewrite !bind_app. simpl.
    apply Permutation_app_swap_app.
Qed.

(** One component of several gains [new] and settles [t]; the account of all still balances. *)
Lemma insert_account {A B} (f r : A -> list B) l i x y t new ts :
  l !! i = Some x -> r y = r x ++ new -> t ++ f y ≡ₚ f x ++ new ->
  ts ++ (l ≫= f) ≡ₚ l ≫= r -> (ts ++ t) ++ (<[i := y]> l ≫= f) ≡ₚ <[i := y]> l ≫= r.
Proof.
  intros Hi Hr Hf Hp. destruct (bind_insert f _ _ _ Hi) as (rest & E1 & E2).
  destruct (bind_insert r _ _ _ Hi) as (rest' & E1' & E2'). rewrite E1, E1' in Hp.
  rewrite E2, E2', Hr, <- !app_assoc, (app_assoc t), Hf, <- !app_assoc.
  rewrite (Permutation_app_comm new rest'), (app_assoc _ rest'), <- Hp, <- !app_assoc.
  do 2 apply Permutation_app_head. apply Permutation_app_comm.
Qed.

Inductive pc :=
| Idle                                                   (* range deliveries *)
| Trace (delivery : Delivery)
| Allow (traceID : string) (delivery : Delivery)
| Reject (traceID : string) (delivery : Delivery)
| Execute (traceID : string) (delivery : Delivery)
| Failed (traceID : string) (delivery : Delivery) (err : error)
| Retrying (traceID : string) (delivery : Delivery)
| Settling (traceID : string) (delivery : Delivery) (retryErr : option error)
| Succeeded (traceID : string) (delivery : Delivery)
| Recording
| Gone.

Section Workers.
Context {P : Publisher} {G : GoImpl}.
Context (router : Router.Router HandlerService) (maxRetries : Z).

(** ** One worker *)

(** One step of a worker that has a delivery. *)
Definition work (workerID : Z) (env : Env) (p : pc) : M World pc :=
  match p with
  | Idle | Gone => mret p
  | Trace d =>
      '(traceID, d) ← take_delivery workerID env d;
      mret (Allow traceID d)
  | Allow traceID d =>
      ok ← allowed env;
      mret (if (ok : bool) then Execute traceID d else Reject traceID d)
  | Reject traceID d =>
      w ← get;
      log (LRejected workerID (breaker_state w) traceID);;
      settle (Msg.Nack false {| Msg.Delivery := d |});;
      mret Idle
  | Execute traceID d =>
      let ctx := {| Msg.Delivery := d |} in
      match Router.GetHandler (Msg.GetType ctx) router with
      | None =>
          log (LNoHandler workerID (Msg.GetType ctx) traceID);;
          settle (Msg.Ack ctx);;
          mret Idle
      | Some serviceHandler =>
          err ← serviceHandler ctx;
          mret match err with
               | Some err => Failed traceID d err
               | None => Succeeded traceID d
               end
      end
  | Failed traceID d err =>
      w ← get;
      log (LHandlerError (IsExpectedRetry (Some err)) workerID
             (Msg.GetTraceID (Retry.heap (base w)) {| Msg.Delivery := d |}) (Error err));;
      on_breaker (fun cb => fst (CB.RecordFailure (t_fail env) (t_fail' env) cb));;
      mret (Retrying traceID d)
  | Retrying traceID d =>
      retryErr ← on_base (Retry.Retry (t_retry env) d (Retry.NewHandler maxRetries));
      mret (Settling traceID d retryErr)
  | Settling traceID d retryErr =>
      let ctx := {| Msg.Delivery := d |} in
      (if Is retryErr ErrMaxRetriesExceeded then
         log (LMaxRetries workerID traceID);; settle (Msg.Nack false ctx)
       else match retryErr with
       | Some e => log (LRetryFailed workerID (Error e) traceID);; settle (Msg.Nack false ctx)
       | None =>
           w ← get;
           let retryCount := int64 (Msg.GetRetryCount (Retry.heap (base w)) ctx + 1) in
           log (LRequeued workerID traceID retryCount);; settle (Msg.Ack ctx)
       end);;
      mret Idle
  | Succeeded traceID d =>
      settle (Msg.Ack {| Msg.Delivery := d |});;
      match ack_error env with
      | Some e => log (LAckFailed workerID (Error e) traceID)
      | None => mret tt
      end;;
      mret Recording
  | Recording =>
      on_breaker (fun cb => fst (CB.RecordSuccess (t_success env) cb));;
      mret Idle
  end.

(** [n] steps of a worker that nobody interrupts. *)
Fixpoint alone (n : nat) (workerID : Z) (env : Env) (p : pc) : M World pc :=
  match n with
  | O => mret p
  | S n' => p' ← work workerID env p; alone n' workerID env p'
  end.

(** ** The system *)

Record System := {
  world : World;
  deliveries : list Delivery;     (* the channel's contents *)
  is_open : bool;
  workers : list pc;
  arrived : list Delivery         (* everything the broker has delivered *)
}.

Inductive Event :=
| Arrive (d : Delivery)
| CloseDeliveries
| Take (i : nat)
| Exit (i : nat)
| Work (i : nat) (env : Env).

Definition set_worker (i : nat) (p : pc) (y : System) : System :=
  {| world := world y; deliveries := deliveries y; is_open := is_open y;
     workers := <[i := p]> (workers y); arrived := arrived y |}.

(** Whether a worker has a delivery, or an outcome to record. *)
Definition busy (p : pc) : bool := match p with Idle | Gone => false | _ => true end.

Definition exec (e : Event) (y : System) : option System :=
  match e with
  | Arrive d =>
      if is_open y then
        Some {| world := world y; deliveries := deliveries y ++ [d]; is_open := true;
                workers := workers y; arrived := arrived y ++ [d] |}
      else None
  | CloseDeliveries =>
      if is_open y then
        Some {| world := world y; deliveries := deliveries y; is_open := false;
                workers := workers y; arrived := arrived y |}
      else None
  | Take i =>
      match workers y !! i, deliveries y with
      | Some Idle, d :: ds =>
          Some {| world := world y; deliveries := ds; is_open := is_open y;
                  workers := <[i := Trace d]> (workers y); arrived := arrived y |}
      | _, _ => None
      end
  | Exit i =>
      match workers y !! i, deliveries y, is_open y with
      | Some Idle, [], false => Some (set_worker i Gone y)
      | _, _, _ => None
      end
  | Work i env =>
      p ← workers y !! i;
      if busy p then
        let '(p', w) := work (Z.of_nat i) env p (world y) in
        Some {| world := w; deliveries := deliveries y; is_open := is_open y;
                workers := <[i := p']> (workers y); arrived := arrived y |}
      else None
  end.

Fixpoint run (es : list Event) (y : System) : option System :=
  match es with
  | [] => Some y
  | e :: es' => y' ← exec e y; run es' y'
  end.

(** [workers] goroutines just started, in world [w]. *)
Definition initial (workers : nat) (w : World) : System :=
  {| world := w; deliveries := []; is_open := true; workers := replicate workers Idle;
     arrived := [] |}.

(** ** A worker that is not interrupted *)

(** A worker that is not interrupted does exactly what [Cons.process] says: within six
    steps it is back at its receive with the same effect on the world. *)
Theorem alone_is_process workerID env d w :
  exists n, (n <= 6)%nat /\
    alone n workerID env (Trace d) w =
      (Idle, snd (process router maxRetries workerID env d w)).
Proof.
  unfold process. cbv [mbind M_bind].
  destruct (take_delivery workerID env d w) as [[trace d'] w1] eqn:Et.
  destruct (allowed env w1) as [[] w2] eqn:Ea; simpl.
  2: { exists 3%nat. split; [lia|]. cbv [alone work mbind M_bind mret M_ret]. rewrite Et, Ea.
       by run_m. }
  unfold serve. destruct (Router.GetHandler _ router) as [h|] eqn:Eh.
  2: { exists 3%nat. split; [lia|]. cbv [alone work mbind M_bind mret M_ret]. rewrite Et, Ea, Eh.
       by run_m. }
  cbv [mbind M_bind]. destruct (h _ w2) as [[e|] w3] eqn:Ex.
  - exists 6%nat. split; [lia|]. cbv [alone work mbind M_bind mret M_ret]. rewrite Et, Ea, Eh, Ex.
    unfold handle_failure, log, on_breaker, on_base, settle. run_m.
    destruct (Retry.Retry _ _ _ _) as [[re|] bs]; simpl; [|done]. by destruct (search _ re).
  - exists 5%nat. split; [lia|]. cbv [alone work mbind M_bind mret M_ret]. rewrite Et, Ea, Eh, Ex.
    unfold handle_success, log, on_breaker, settle. run_m. by destruct (ack_error env).
Qed.

(** ** Conservation of deliveries *)

(** The delivery a worker has not settled yet. *)
Definition owes (p : pc) : list Z :=
  match p with
  | Trace d | Allow _ d | Reject _ d | Execute _ d | Failed _ d _ | Retrying _ d
  | Settling _ d _ | Succeeded _ d => [d_DeliveryTag d]
  | Idle | Recording | Gone => []
  end.

Definition settle_tag (s : Msg.Settle) : Z :=
  match s with Msg.CallAck t | Msg.CallNack t _ => t end.

(** The deliveries acknowledged among settlements. *)
Definition acked (ss : list Msg.Settle) : list Z :=
  ss ≫= (fun s => match s with Msg.CallAck t => [t] | Msg.CallNack _ _ => [] end).

(** What the worker's step acknowledges: a success, a type without handler, a retry. *)
Definition acknowledges (p : pc) : list Z :=
  match p with
  | Succeeded _ d | Settling _ d None => [d_DeliveryTag d]
  | Execute _ d =>
      match Router.GetHandler (type_of d) router with None => [d_DeliveryTag d] | Some _ => [] end
  | _ => []
  end.

Definition requeues (s : Msg.Settle) : bool :=
  match s with Msg.CallNack _ r => r | Msg.CallAck _ => false end.

Hypothesis polite_handlers : forall t h, Router.GetHandler t router = Some h -> polite h.

Local Ltac settles_one :=
  eexists; split_and!; [reflexivity|reflexivity|by repeat constructor|reflexivity].

(** A step settles the delivery the worker owes, or passes it on; what it acknowledges. *)
Lemma work_owes workerID env p w p' w' :
  work workerID env p w = (p', w') ->
  exists ss, settled w' = settled w ++ ss /\ owes p = (settle_tag <$> ss) ++ owes p' /\
    Forall (fun s => requeues s = false) ss /\ acked ss = acknowledges p.
Proof.
  intros Hw. destruct p; simpl in Hw; cbv [mbind M_bind mret M_ret] in Hw.
  - injection Hw as <- <-. exists []. by rewrite app_nil_r.
  - destruct (take_delivery_spec workerID env delivery w) as (t & d' & l & bs & E & Hsame & _).
    rewrite E in Hw. injection Hw as <- <-. exists []. simpl. rewrite app_nil_r.
    by rewrite (proj1 Hsame).
  - destruct (allowed_spec env w) as (ok & cb & E & _). rewrite E in Hw. injection Hw as <- <-.
    exists []. simpl. rewrite app_nil_r. by destruct ok.
  - unfold log, settle in Hw. run_m. injection Hw as <- <-. settles_one.
  - simpl. unfold type_of. destruct (Router.GetHandler _ router) as [h|] eqn:Eh.
    + pose proof (polite_handlers _ _ Eh {| Msg.Delivery := delivery |} w) as Hp.
      destruct (h _ w) as [r w1]. injection Hw as <- <-. exists []. simpl in *.
      rewrite app_nil_r, Hp. by destruct r.
    + unfold log, settle in Hw. run_m. injection Hw as <- <-. settles_one.
  - unfold log, on_breaker in Hw. run_m. injection Hw as <- <-. exists [].
    by rewrite app_nil_r.
  - unfold on_base in Hw. destruct (Retry.Retry _ _ _ _) as [r bs]. injection Hw as <- <-.
    exists []. by rewrite app_nil_r.
  - unfold log, settle in Hw. run_m. destruct retryErr as [e|]; simpl in Hw;
      [destruct (search _ e)|]; injection Hw as <- <-; settles_one.
  - unfold log, settle in Hw. run_m. destruct (ack_error env); injection Hw as <- <-; settles_one.
  - unfold on_breaker in Hw. run_m. injection Hw as <- <-. exists []. by rewrite app_nil_r.
  - injection Hw as <- <-. exists []. by rewrite app_nil_r.
Qed.

(** The deliveries of a group of workers that are not settled. *)
Definition unsettled (y : System) : list Z :=
  (workers y ≫= owes) ++ (d_DeliveryTag <$> deliveries y).

(** What one event adds to the settlements and to the arrivals. *)
Lemma exec_account e y y' :
  exec e y = Some y' ->
  exists ss new, settled (world y') = settled (world y) ++ ss /\ arrived y' = arrived y ++ new /\
    (settle_tag <$> ss) ++ unsettled y' ≡ₚ unsettled y ++ (d_DeliveryTag <$> new) /\
    Forall (fun s => requeues s = false) ss.
Proof.
  intros He. unfold unsettled. destruct e; simpl in He.
  - destruct (is_open y); [|done]. injection He as <-. exists [], [d]. simpl.
    rewrite app_nil_r, fmap_app, <- !app_assoc. by split_and!.
  - destruct (is_open y); [|done]. injection He as <-. exists [], []. simpl.
    rewrite !app_nil_r. by split_and!.
  - destruct (workers y !! i) as [[]|] eqn:Ei; try done.
    destruct (deliveries y) as [|d ds] eqn:Ed; [done|]. injection He as <-. exists [], []. simpl.
    rewrite !app_nil_r. split_and!; [done..| |done].
    destruct (bind_insert owes _ _ _ Ei) as (rest & E1 & E2). rewrite E2, E1. simpl.
    apply Permutation_middle.
  - destruct (workers y !! i) as [[]|] eqn:Ei; try done.
    destruct (deliveries y) eqn:Ed; [|done]. destruct (is_open y); [done|]. injection He as <-.
    exists [], []. simpl. rewrite !app_nil_r. split_and!; [done..| |done].
    destruct (bind_insert owes _ _ _ Ei) as (rest & E1 & E2). by rewrite E2, E1, Ed, app_nil_r.
  - destruct (workers y !! i) as [p|] eqn:Ei; [|done]. simpl in He.
    destruct (busy p); [|done]. destruct (work _ _ _ _) as [p' w'] eqn:Ew. injection He as <-.
    destruct (work_owes _ _ _ _ _ _ Ew) as (ss & Hs & Ho & Hr & _).
    exists ss, []. simpl. rewrite !app_nil_r. split_and!; [done..| |done].
    destruct (bind_insert owes _ _ _ Ei) as (rest & E1 & E2).
    by rewrite E2, E1, Ho, <- !app_assoc.
Qed.

(** Every delivery that arrived is settled, in a worker's hands or still in the channel. *)
Definition conserved (w0 : World) (y : System) : Prop :=
  exists ss, settled (world y) = settled w0 ++ ss /\
    (settle_tag <$> ss) ++ unsettled y ≡ₚ d_DeliveryTag <$> arrived y /\
    Forall (fun s => requeues s = false) ss.

Lemma exec_conserved w0 e y y' : conserved w0 y -> exec e y = Some y' -> conserved w0 y'.
Proof.
  intros (ss & Hs & Hp & Hr) He.
  destruct (exec_account e y y' He) as (ss' & new & Hs' & Ha & Hp' & Hr').
  exists (ss ++ ss'). split_and!; [by rewrite Hs', Hs, app_assoc| |by apply Forall_app].
  by rewrite Ha, !fmap_app, <- app_assoc, Hp', app_assoc, Hp.
Qed.

Lemma run_conserved w0 es y y' : conserved w0 y -> run es y = Some y' -> conserved w0 y'.
Proof.
  revert y. induction es as [|e es IH]; intros y Hy Hr; simpl in Hr; [by simplify_eq|].
  destruct (exec e y) as [y1|] eqn:E; [|done]. eauto using exec_conserved.
Qed.

Lemma initial_conserved n w : conserved w (initial n w).
Proof.
  exists []. rewrite app_nil_r. split_and!; [done| |done]. simpl.
  by induction n.
Qed.

(** Under every interleaving of the workers each delivery that arrived is settled once
    or not yet: at any moment the tags settled, the tags in the workers' hands and the tags
    in the channel together are exactly the tags that arrived, and nothing is requeued.
    (Handlers that settle deliveries themselves are excluded.) *)
Theorem workers_conserve_deliveries n w es y :
  run es (initial n w) = Some y ->
  exists ss, settled (world y) = settled w ++ ss /\
    (settle_tag <$> ss) ++ (workers y ≫= owes) ++ (d_DeliveryTag <$> deliveries y) ≡ₚ
      d_DeliveryTag <$> arrived y /\
    Forall (fun s => requeues s = false) ss.
Proof. apply (run_conserved w), initial_conserved. Qed.

(** ** Shutdown *)

(** The steps a worker can still make for the delivery it has, and to exit. *)
Definition rank (p : pc) : nat :=
  match p with
  | Trace _ => 7 | Allow _ _ => 6 | Execute _ _ => 5 | Failed _ _ _ => 4
  | Retrying _ _ | Succeeded _ _ => 3
  | Reject _ _ | Settling _ _ _ | Recording => 2
  | Idle => 1
  | Gone => 0
  end.

Definition measure (y : System) : nat :=
  sum_list_with rank (workers y) + 7 * length (deliveries y).

Lemma sum_insert {A} (f : A -> nat) l i x y :
  l !! i = Some x -> (sum_list_with f (<[i := y]> l) + f x = sum_list_with f l + f y)%nat.
Proof.
  revert i. induction l as [|z l IH]; intros [|i] Hi; simplify_eq/=; [lia|].
  specialize (IH i Hi). lia.
Qed.

Lemma ranks_le ws : (sum_list_with rank ws <= 7 * length ws)%nat.
Proof. induction ws as [|p ws IH]; simpl; [lia|]. destruct p; simpl; lia. Qed.

Lemma work_rank workerID env p w p' w' :
  work workerID env p w = (p', w') -> busy p = true -> (0 < rank p' < rank p)%nat.
Proof.
  intros Hw Hb. destruct p; try done; simpl in Hw; cbv [mbind M_bind mret M_ret] in Hw.
  - destruct (take_delivery workerID env delivery w) as [[t d] w1]. injection Hw as <- <-. simpl. lia.
  - destruct (allowed env w) as [[] w1]; injection Hw as <- <-; simpl; lia.
  - unfold log, settle in Hw. run_m. injection Hw as <- <-. simpl. lia.
  - destruct (Router.GetHandler _ router) as [h|].
    + destruct (h _ w) as [[] w1]; injection Hw as <- <-; simpl; lia.
    + unfold log, settle in Hw. run_m. injection Hw as <- <-. simpl. lia.
  - unfold log, on_breaker in Hw. run_m. injection Hw as <- <-. simpl. lia.
  - unfold on_base in Hw. destruct (Retry.Retry _ _ _ _) as [r bs]. injection Hw as <- <-. simpl. lia.
  - unfold log, settle in Hw. run_m. destruct retryErr as [e|]; simpl in Hw;
      [destruct (search _ e)|]; injection Hw as <- <-; simpl; lia.
  - unfold log, settle in Hw. run_m. destruct (ack_error env); injection Hw as <- <-; simpl; lia.
  - unfold on_breaker in Hw. run_m. injection Hw as <- <-. simpl. lia.
Qed.

(** The events of the broker and the library. *)
Definition from_outside (e : Event) : bool :=
  match e with Arrive _ | CloseDeliveries => true | _ => false end.

(** The workers' own events are progress. *)
Lemma exec_progress e y y' :
  from_outside e = false -> exec e y = Some y' ->
  is_open y' = is_open y /\ arrived y' = arrived y /\
  length (workers y') = length (workers y) /\ (measure y' < measure y)%nat.
Proof.
  intros Ho He. unfold measure. destruct e; simpl in He; try done.
  - destruct (workers y !! i) as [[]|] eqn:Ei; try done.
    destruct (deliveries y) as [|d ds] eqn:Ed; [done|]. injection He as <-. simpl.
    rewrite length_insert. pose proof (sum_insert rank _ _ _ (Trace d) Ei). simpl in *.
    split_and!; try done. lia.
  - destruct (workers y !! i) as [[]|] eqn:Ei; try done.
    destruct (deliveries y) eqn:Ed; [|done]. destruct (is_open y) eqn:Eo; [done|].
    injection He as <-. simpl.
    rewrite length_insert, Ed. pose proof (sum_insert rank _ _ _ Gone Ei). simpl in *.
    split_and!; try done. lia.
  - destruct (workers y !! i) as [p|] eqn:Ei; [|done]. simpl in He.
    destruct (busy p) eqn:Eb; [|done]. destruct (work _ _ _ _) as [p' w'] eqn:Ew. injection He as <-.
    simpl. rewrite length_insert. apply work_rank in Ew; [|done].
    pose proof (sum_insert rank _ _ _ p' Ei). split_and!; try done. lia.
Qed.

(** After the channel of deliveries was closed there are no others. *)
Lemma exec_measure e y y' :
  is_open y = false -> exec e y = Some y' ->
  is_open y' = false /\ arrived y' = arrived y /\ length (workers y') = length (workers y) /\
  (measure y' < measure y)%nat.
Proof.
  intros Ho He. rewrite <- Ho. apply (exec_progress e); [|done].
  destruct e; simpl in *; by rewrite ?Ho in He.
Qed.

Lemma run_measure es y y' :
  is_open y = false -> run es y = Some y' ->
  is_open y' = false /\ arrived y' = arrived y /\ length (workers y') = length (workers y) /\
  (measure y' + length es <= measure y)%nat.
Proof.
  revert y. induction es as [|e es IH]; intros y Ho Hr; simpl in Hr.
  { simplify_eq. simpl. split_and!; [done..|lia]. }
  destruct (exec e y) as [y1|] eqn:E; [|done].
  destruct (exec_measure e y y1 Ho E) as (Ho1 & Ha & Hl & Hm).
  destruct (IH y1 Ho1 Hr) as (? & ? & ? & ?). simpl. split_and!; [done|congruence..|lia].
Qed.

Lemma run_length es y y' : run es y = Some y' -> length (workers y') = length (workers y).
Proof.
  revert y. induction es as [|e es IH]; intros y Hr; simpl in Hr; [by simplify_eq|].
  destruct (exec e y) as [y1|] eqn:E; [|done]. rewrite (IH y1 Hr). clear -E.
  destruct e; simpl in E; repeat case_match; simplify_eq/=; rewrite ?length_insert; try done.
  destruct (workers y !! i) as [p|]; [|done]. simpl in E. destruct (busy p); [|done].
  destruct (work _ _ _ _). simplify_eq/=. by rewrite length_insert.
Qed.

(** A worker leaves only when the channel is closed and drained. *)
Definition leaves_drained (y : System) : Prop :=
  forall i, workers y !! i = Some Gone -> is_open y = false /\ deliveries y = [].

Lemma exec_leaves_drained e y y' : leaves_drained y -> exec e y = Some y' -> leaves_drained y'.
Proof.
  intros Hd He. destruct e; simpl in He.
  - destruct (is_open y) eqn:Eo; [|done]. injection He as <-. intros k [Hk _]%Hd. congruence.
  - destruct (is_open y) eqn:Eo; [|done]. injection He as <-. intros k [Hk _]%Hd. congruence.
  - destruct (workers y !! i) as [[]|] eqn:Ei; try done.
    destruct (deliveries y) as [|d ds] eqn:Ed; [done|]. injection He as <-.
    intros k [(_ & ? & _)|[_ Hk]]%list_lookup_insert_Some; [done|]. apply Hd in Hk as [_ Hk]. congruence.
  - destruct (workers y !! i) as [[]|] eqn:Ei; try done.
    destruct (deliveries y) eqn:Ed; [|done]. destruct (is_open y) eqn:Eo; [done|].
    injection He as <-. intros k _. simpl. by rewrite Eo, Ed.
  - destruct (workers y !! i) as [p|] eqn:Ei; [|done]. simpl in He.
    destruct (busy p) eqn:Eb; [|done]. destruct (work _ _ _ _) as [p' w'] eqn:Ew.
    injection He as <-. apply work_rank in Ew; [|done].
    intros k [(_ & -> & _)|[_ Hk]]%list_lookup_insert_Some; [simpl in Ew; lia|]. by apply (Hd k).
Qed.

Lemma run_leaves_drained es y y' : leaves_drained y -> run es y = Some y' -> leaves_drained y'.
Proof.
  revert y. induction es as [|e es IH]; intros y Hy Hr; simpl in Hr; [by simplify_eq|].
  destruct (exec e y) as [y1|] eqn:E; [|done]. eauto using exec_leaves_drained.
Qed.

(** A state in which no event is possible: everybody is gone. *)
Lemma stuck_gone y :
  leaves_drained y -> is_open y = false -> workers y <> [] -> (forall e, exec e y = None) ->
  Forall (eq Gone) (workers y) /\ deliveries y = [].
Proof.
  intros Hd Ho Hne Hstuck.
  assert (forall i p, workers y !! i = Some p -> p = Gone) as Hall.
  { intros i p Hi. pose proof (Hstuck (Work i (env_at 0))) as Hw.
    pose proof (Hstuck (Take i)) as Ht. pose proof (Hstuck (Exit i)) as Hx.
    simpl in Hw, Ht, Hx. rewrite Hi in Hw, Ht, Hx. simpl in Hw.
    destruct (busy p) eqn:Eb; [by destruct (work _ _ _ _)|].
    destruct p; try done. destruct (deliveries y); [by rewrite Ho in Hx|done]. }
  split; [apply Forall_lookup; intros i p Hi; by rewrite (Hall i p Hi)|].
  destruct (workers y) as [|p ws] eqn:Ew; [done|].
  apply (Hd 0%nat). rewrite Ew. simpl. f_equal. by apply (Hall 0%nat).
Qed.

(** Shutdown drains.  Once the channel of deliveries is closed, every run of the
    workers is finite, with at most seven steps per delivery left and per worker, and when
    no step is possible any more every worker has exited, the channel is empty and every
    delivery that ever arrived has been settled exactly once. *)
Theorem workers_drain n w es y es' y' :
  (0 < n)%nat -> run es (initial n w) = Some y -> is_open y = false -> run es' y = Some y' ->
  (length es' <= 7 * (n + length (deliveries y)))%nat /\
  ((forall e, exec e y' = None) ->
   Forall (eq Gone) (workers y') /\ deliveries y' = [] /\
   exists ss, settled (world y') = settled w ++ ss /\
     settle_tag <$> ss ≡ₚ d_DeliveryTag <$> arrived y).
Proof.
  intros Hn Hr Ho Hr'.
  destruct (run_measure es' y y' Ho Hr') as (Ho' & Ha & Hl & Hm).
  assert (length (workers y) = n) as Hlen
    by (rewrite (run_length _ _ _ Hr); apply length_replicate).
  split.
  - unfold measure in Hm. pose proof (ranks_le (workers y)). lia.
  - intros Hstuck. destruct (stuck_gone y') as [Hg Hd]; [..|done|].
    + eapply run_leaves_drained; [|exact Hr']. eapply run_leaves_drained; [|exact Hr].
      intros i Hi. simpl in Hi. by apply lookup_replicate in Hi as [? _].
    + done.
    + intros E. rewrite E in Hl. simpl in Hl. lia.
    + split_and!; [done..|].
      destruct (run_conserved w es' y y') as (ss & Hs & Hp & _); [|done|].
      { eapply run_conserved; [apply initial_conserved|done]. }
      exists ss. split; [done|]. unfold unsettled in Hp. rewrite <- Ha, <- Hp, Hd, app_nil_r.
      assert (workers y' ≫= owes = []) as ->; [|by rewrite app_nil_r].
      clear -Hg. induction Hg as [|? ? <- _ IH]; [done|]. exact IH.
Qed.

(** ** The shared breaker *)

(** The breaker operation of a step. *)
Definition breaker_op (env : Env) (p : pc) : option CB.Op :=
  match p with
  | Allow _ _ => Some (CB.OpAllow (t_allow env) (t_allow' env))
  | Failed _ _ _ => Some (CB.OpFailure (t_fail env) (t_fail' env))
  | Recording => Some (CB.OpSuccess (t_success env))
  | _ => None
  end.

Definition after (op : option CB.Op) (cb : CB.CircuitBreaker) : CB.CircuitBreaker :=
  match op with Some op => fst (CB.apply op cb) | None => cb end.

(** The handler does not touch the breaker, which is private to the consumer. *)
Definition discreet (h : HandlerService) : Prop :=
  forall ctx w, breaker (snd (h ctx w)) = breaker w.

Hypothesis discreet_handlers : forall t h, Router.GetHandler t router = Some h -> discreet h.

Lemma work_breaker workerID env p w p' w' cb :
  work workerID env p w = (p', w') -> breaker w = Some cb ->
  breaker w' = Some (after (breaker_op env p) cb) /\
  (forall t d, p' = Execute t d -> exists d', p = Allow t d' /\
     snd (CB.apply (CB.OpAllow (t_allow env) (t_allow' env)) cb) = Some true).
Proof.
  intros Hw Hb. destruct p; simpl in Hw; cbv [mbind M_bind mret M_ret] in Hw.
  - injection Hw as <- <-. by split.
  - destruct (take_delivery_spec workerID env delivery w) as (t & d' & l & bs & E & _).
    rewrite E in Hw. injection Hw as <- <-. by split.
  - unfold allowed in Hw. rewrite Hb in Hw. simpl.
    destruct (CB.AllowRequest _ _ cb) as [[ok cb'] ev]. injection Hw as <- <-.
    split; [done|]. destruct ok; [|done]. intros t d [= <- <-]. by eexists.
  - unfold log, settle in Hw. run_m. injection Hw as <- <-. by split.
  - destruct (Router.GetHandler _ router) as [h|] eqn:Eh.
    + pose proof (discreet_handlers _ _ Eh {| Msg.Delivery := delivery |} w) as Hp.
      destruct (h _ w) as [r w1]. injection Hw as <- <-. simpl in Hp. rewrite Hp.
      split; [done|]. by destruct r.
    + unfold log, settle in Hw. run_m. injection Hw as <- <-. by split.
  - unfold log, on_breaker in Hw. run_m. injection Hw as <- <-. simpl. by rewrite Hb.
  - unfold on_base in Hw. destruct (Retry.Retry _ _ _ _) as [r bs]. injection Hw as <- <-.
    by split.
  - unfold log, settle in Hw. run_m. destruct retryErr as [e|]; simpl in Hw;
      [destruct (search _ e)|]; injection Hw as <- <-; by split.
  - unfold log, settle in Hw. run_m. destruct (ack_error env); injection Hw as <- <-; by split.
  - unfold on_breaker in Hw. run_m. injection Hw as <- <-. simpl. by rewrite Hb.
  - injection Hw as <- <-. by split.
Qed.

(** An event moves the breaker by at most one operation. *)
Lemma exec_breaker e y y' cb :
  exec e y = Some y' -> breaker (world y) = Some cb ->
  breaker (world y') = Some cb \/
  exists op, breaker (world y') = Some (fst (CB.apply op cb)) /\
    exists i env p, e = Work i env /\ workers y !! i = Some p /\ breaker_op env p = Some op.
Proof.
  intros He Hb. destruct e; simpl in He; try (repeat case_match; simplify_eq/=; by left).
  destruct (workers y !! i) as [p|] eqn:Ei; [|done]. simpl in He. destruct (busy p); [|done].
  destruct (work _ _ _ _) as [p' w'] eqn:Ew. injection He as <-. simpl.
  destruct (work_breaker _ _ _ _ _ _ _ Ew Hb) as [-> _].
  destruct (breaker_op env p) as [op|] eqn:Eo; [right|by left]. eauto 8.
Qed.

Lemma run_breaker es y y' cb :
  run es y = Some y' -> breaker (world y) = Some cb -> CB.wf cb ->
  exists cb', breaker (world y') = Some cb' /\ CB.wf cb'.
Proof.
  revert y cb. induction es as [|e es IH]; intros y cb Hr Hb Hc; simpl in Hr.
  { simplify_eq. eauto. }
  destruct (exec e y) as [y1|] eqn:E; [|done].
  destruct (exec_breaker e y y1 cb E Hb) as [Hb1|(op & Hb1 & _)]; [by eapply IH|].
  eapply IH; [done..|]. by apply CB.apply_wf.
Qed.

(** A worker whose delivery has not passed the breaker. *)
Definition unadmitted (p : pc) : bool :=
  match p with Idle | Trace _ | Allow _ _ | Reject _ _ | Gone => true | _ => false end.

Definition early (deadline : Z) (e : Event) : Prop :=
  match e with Work _ env => t_allow env < deadline | _ => True end.

(** The breaker is open, until [deadline] at least. *)
Definition open_until (deadline : Z) (y : System) : Prop :=
  exists cb, breaker (world y) = Some cb /\ CB.wf cb /\ CB.state cb = CB.StateOpen /\
    deadline = CB.lastStateChangeTime cb + CB.ResetTimeout (CB.config cb).

Lemma early_op deadline i env p op :
  early deadline (Work i env) -> breaker_op env p = Some op -> CB.before deadline op.
Proof. intros He Hop. destruct p; simplify_eq/=; done. Qed.

Lemma exec_open deadline e y y' :
  open_until deadline y -> early deadline e -> exec e y = Some y' -> open_until deadline y'.
Proof.
  intros (cb & Hb & Hwf & Hst & Hd) He Hx.
  destruct (exec_breaker e y y' cb Hx Hb) as [Hb'|(op & Hb' & i & env & p & -> & _ & Hop)].
  { by exists cb. }
  pose proof (early_op deadline i env p op He Hop) as Hop'.
  destruct (CB.before_step deadline op cb Hwf Hst Hd Hop') as (Hst' & Ht & Hc & _).
  exists (fst (CB.apply op cb)). split_and!; [done|by apply CB.apply_wf|done|by rewrite Ht, Hc].
Qed.

(** No delivery passes an open breaker. *)
Lemma work_not_admitted deadline workerID env p w p' w' cb :
  work workerID env p w = (p', w') -> breaker w = Some cb -> CB.wf cb ->
  CB.state cb = CB.StateOpen ->
  deadline = CB.lastStateChangeTime cb + CB.ResetTimeout (CB.config cb) -> t_allow env < deadline ->
  forall t d, p' <> Execute t d.
Proof.
  intros Hw Hb Hwf Hst Hd He t d ->.
  destruct (work_breaker _ _ _ _ _ _ _ Hw Hb) as [_ Hadm].
  destruct (Hadm t d eq_refl) as (d' & _ & Hans).
  destruct (CB.before_step deadline (CB.OpAllow (t_allow env) (t_allow' env)) cb Hwf Hst Hd He)
    as (_ & _ & _ & Ho). rewrite Hans in Ho. by destruct Ho.
Qed.

(** Before the breaker, a worker publishes nothing and settles only by rejecting. *)
Lemma work_unadmitted workerID env p w p' w' :
  work workerID env p w = (p', w') -> unadmitted p = true ->
  (unadmitted p' = true \/ exists t d, p' = Execute t d) /\
  Retry.outgoing (base w') = Retry.outgoing (base w) /\
  exists ss, settled w' = settled w ++ ss /\
    Forall (fun s => exists tag, s = Msg.CallNack tag false) ss.
Proof.
  intros Hw Hu. destruct p; try done; simpl in Hw; cbv [mbind M_bind mret M_ret] in Hw.
  - injection Hw as <- <-. split_and!; [by left|done|]. exists []. by rewrite app_nil_r.
  - destruct (take_delivery_spec workerID env delivery w) as (t & d' & l & bs & E & _ & _ & _ & Ho & _).
    rewrite E in Hw. injection Hw as <- <-. split_and!; [by left|done|]. exists [].
    by rewrite app_nil_r.
  - destruct (allowed_spec env w) as (ok & cb & E & _). rewrite E in Hw. injection Hw as <- <-.
    split_and!; [destruct ok; [right; eauto|by left]|done|]. exists []. by rewrite app_nil_r.
  - unfold log, settle in Hw. run_m. injection Hw as <- <-. split_and!; [by left|done|].
    eexists. split; [done|]. apply Forall_singleton. by eexists.
  - injection Hw as <- <-. split_and!; [by left|done|]. exists []. by rewrite app_nil_r.
Qed.

(** What an open breaker keeps from happening between two states. *)
Definition shielded (y y' : System) : Prop :=
  (forall i t d, workers y' !! i = Some (Execute t d) -> workers y !! i = Some (Execute t d)) /\
  (Forall (fun p => unadmitted p = true) (workers y) ->
   Forall (fun p => unadmitted p = true) (workers y') /\
   Retry.outgoing (base (world y')) = Retry.outgoing (base (world y)) /\
   exists ss, settled (world y') = settled (world y) ++ ss /\
     Forall (fun s => exists tag, s = Msg.CallNack tag false) ss).

Lemma shielded_trans y1 y2 y3 : shielded y1 y2 -> shielded y2 y3 -> shielded y1 y3.
Proof.
  intros [Hx1 H1] [Hx2 H2]. split; [eauto|]. intros Hu.
  destruct (H1 Hu) as (Hu2 & Ho & ss & Hs & Hn). destruct (H2 Hu2) as (Hu3 & Ho' & ss' & Hs' & Hn').
  split_and!; [done|congruence|]. exists (ss ++ ss'). rewrite Hs', Hs, app_assoc.
  split; [done|by apply Forall_app].
Qed.

(** A worker moves to a point before the breaker, and nothing else happens. *)
Lemma shielded_insert y y' i p :
  workers y' = <[i := p]> (workers y) -> world y' = world y -> unadmitted p = true -> shielded y y'.
Proof.
  intros Hw Hworld Hp. split; rewrite Hw.
  - intros k t d [(_ & -> & _)|[_ ?]]%list_lookup_insert_Some; done.
  - intros Hu. rewrite Hworld. split_and!; [by apply Forall_insert|done|].
    exists []. by rewrite app_nil_r.
Qed.

Lemma exec_shielded deadline e y y' :
  open_until deadline y -> early deadline e -> exec e y = Some y' -> shielded y y'.
Proof.
  intros (cb & Hb & Hwf & Hst & Hd) Hearly He.
  assert (forall y', workers y' = workers y -> world y' = world y -> shielded y y') as Hsame.
  { intros y1 E1 E2. split; rewrite E1; [done|]. intros Hu. rewrite E2. split_and!; [done..|].
    exists []. by rewrite app_nil_r. }
  destruct e; simpl in He.
  - destruct (is_open y); [|done]. injection He as <-. by apply Hsame.
  - destruct (is_open y); [|done]. injection He as <-. by apply Hsame.
  - destruct (workers y !! i) as [[]|] eqn:Ei; try done. destruct (deliveries y); [done|].
    injection He as <-. by eapply shielded_insert.
  - destruct (workers y !! i) as [[]|] eqn:Ei; try done. destruct (deliveries y); [|done].
    destruct (is_open y); [done|]. injection He as <-. by eapply shielded_insert.
  - destruct (workers y !! i) as [p|] eqn:Ei; [|done]. simpl in He.
    destruct (busy p) eqn:Eb; [|done]. destruct (work _ _ _ _) as [p' w'] eqn:Ew.
    injection He as <-. simpl in Hearly.
    pose proof (work_not_admitted deadline _ _ _ _ _ _ _ Ew Hb Hwf Hst Hd Hearly) as Hno.
    split; simpl.
    + intros k t d [(_ & E & _)|[_ ?]]%list_lookup_insert_Some; [by destruct (Hno t d)|done].
    + intros Hu. pose proof (Forall_lookup_1 _ _ _ _ Hu Ei) as Hp.
      destruct (work_unadmitted _ _ _ _ _ _ Ew Hp) as ([Hp'|(t & d & ->)] & Ho & Hs).
      * split_and!; [by apply Forall_insert|done|done].
      * by destruct (Hno t d).
Qed.

(** An open breaker shields the handlers from every interleaving.  Take any state the
    workers reach from the start with a new breaker, and let the breaker be open there.
    Until its timeout has passed, whatever the workers and late outcomes do: the breaker stays open, no
    further delivery reaches a handler, and if no delivery had passed the breaker before,
    nothing is published and deliveries are only rejected, without requeue. *)
Theorem open_breaker_shields_handlers n w c t es y cb es' y' :
  CB.config_in_range c -> breaker w = Some (CB.New c t) -> run es (initial n w) = Some y ->
  breaker (world y) = Some cb -> CB.state cb = CB.StateOpen ->
  Forall (early (CB.lastStateChangeTime cb + CB.ResetTimeout (CB.config cb))) es' ->
  run es' y = Some y' ->
  (CB.state <$> breaker (world y')) = Some CB.StateOpen /\ shielded y y'.
Proof.
  intros Hc Hw Hr Hb Hst He Hr'.
  destruct (run_breaker es (initial n w) y (CB.New c t) Hr Hw) as (cb' & Hb' & Hwf).
  { by apply CB.New_wf. }
  assert (cb' = cb) as -> by congruence. set (deadline := CB.lastStateChangeTime cb + _) in He.
  assert (open_until deadline y) as Ho.
  { by exists cb. }
  clearbody deadline. clear -He Hr' Ho discreet_handlers.
  revert y Ho Hr'. induction He as [|e es' He Hes IH]; intros y Ho Hr; simpl in Hr.
  - simplify_eq. split; [destruct Ho as (cb & -> & _ & Hst & _); simpl; by rewrite Hst|].
    split; [done|]. intros Hu. split_and!; [done..|]. exists []. by rewrite app_nil_r.
  - destruct (exec e y) as [y1|] eqn:E; [|done].
    destruct (IH y1) as [Hst Hsh]; [by eapply exec_open|done|]. split; [done|].
    eapply shielded_trans; [by eapply exec_shielded|done].
Qed.

End Workers.

(** ** Witnesses *)

(** A delivery of an order with its own tag and no headers. *)
Definition order_no (tag : Z) : Delivery :=
  {| d_Headers := None; d_ContentType := "application/json"; d_ContentEncoding := "";
     d_DeliveryMode := 2; d_Priority := 0; d_CorrelationId := ""; d_ReplyTo := "";
     d_Expiration := ""; d_MessageId := ""; d_Timestamp := 0; d_Type := "order"; d_UserId := "";
     d_AppId := ""; d_DeliveryTag := tag; d_Exchange := "orders"; d_RoutingKey := "order";
     d_Body := order_body |}.

(** Two workers fail on two orders in lock step, which opens the breaker; a third order is in
    the channel when it is closed. *)
Definition lock_step : list Event :=
  [Arrive (order_no 1); Arrive (order_no 2); Arrive (order_no 3); Take 0; Take 1] ++
  mjoin (replicate 6 [Work 0 (env_at 4); Work 1 (env_at 4)]) ++ [CloseDeliveries].

(** The third order, rejected, and both workers leaving. *)
Definition rejected_order : list Event :=
  [Take 1; Exit 0; Work 1 (env_at 5); Work 1 (env_at 5); Work 1 (env_at 5); Exit 1].

Abbreviation demo_router := (routes (failing boom)).
Abbreviation demo_run es y := (run (G := amd64) demo_router 3 es y).

Definition demo_start : @System accepting :=
  initial 2 (demo_world (Some (CB.New CB.demo_config 0)) ∅).

Definition reached (es : list Event) : @System accepting := default demo_start (demo_run es demo_start).

Lemma demo_polite t h : Router.GetHandler t demo_router = Some h -> polite h /\ discreet h.
Proof.
  unfold Router.GetHandler, routes, Router.Handle. simpl. rewrite lookup_insert.
  case_decide; [intros [= <-]; by split; intros ctx w|]. by rewrite lookup_empty.
Qed.

Lemma reached_run es :
  (if demo_run es demo_start then true else false) = true ->
  demo_run es demo_start = Some (reached es).
Proof. unfold reached. by destruct (demo_run es demo_start). Qed.

Lemma workers_conserve_deliveries_witness :
  exists ss, settled (world (reached lock_step)) = ss /\
    (settle_tag <$> ss) ++ [3] ≡ₚ [1; 2; 3] /\ Forall (fun s => requeues s = false) ss.
Proof.
  destruct (workers_conserve_deliveries (G := amd64) demo_router 3
    (fun t h H => proj1 (demo_polite t h H)) 2 (demo_world (Some (CB.New CB.demo_config 0)) ∅)
    lock_step (reached lock_step)) as (ss & H1 & H2 & H3).
  - apply reached_run. vm_compute. reflexivity.
  - exists ss. split; [exact H1|]. split; [exact H2|exact H3].
Defined.

Lemma workers_drain_witness :
  exists ss, settled (world (reached (lock_step ++ rejected_order))) = ss /\
    settle_tag <$> ss ≡ₚ [1; 2; 3].
Proof.
  destruct (workers_drain (G := amd64) demo_router 3
    (fun t h H => proj1 (demo_polite t h H)) 2 (demo_world (Some (CB.New CB.demo_config 0)) ∅)
    lock_step (reached lock_step) rejected_order (reached (lock_step ++ rejected_order)))
    as [_ Hend].
  - lia.
  - apply reached_run. vm_compute. reflexivity.
  - vm_compute. reflexivity.
  - vm_compute. reflexivity.
  - destruct Hend as (_ & _ & H); [|exact H].
    intros [d| |[|[|i]]|[|[|i]]|[|[|i]] env]; vm_compute; reflexivity.
Defined.

Lemma open_breaker_shields_handlers_witness :
  CB.state <$> breaker (world (reached (lock_step ++ rejected_order))) = Some CB.StateOpen /\
  shielded (reached lock_step) (reached (lock_step ++ rejected_order)).
Proof.
  apply (open_breaker_shields_handlers (G := amd64) demo_router 3
    (fun t h H => proj2 (demo_polite t h H)) 2 (demo_world (Some (CB.New CB.demo_config 0)) ∅)
    CB.demo_config 0 lock_step (reached lock_step)
    (default (CB.New CB.demo_config 0) (breaker (world (reached lock_step)))) rejected_order).
  - by_compute.
  - reflexivity.
  - apply reached_run. vm_compute. reflexivity.
  - vm_compute. reflexivity.
  - vm_compute. reflexivity.
  - repeat constructor.
  - vm_compute. reflexivity.
Defined.

End Workers.
