(* ===== verification/Groups.v ===== *)
(** * Several queues (eventbus.go, internal/broker/consumer.go)

    Every call of [StartConsume] on a bus uses the same [Consumer]: it starts a group of workers
    on a channel of deliveries of its own, but all groups share the handlers, the publisher and
    the circuit breaker.  The state here is that shared world and a list of groups; an event of a
    group is an event of [Workers] on the group and the shared world, and the application can
    reset the breaker at any time. *)

From stdpp Require Import base gmap strings list fin_maps relations.
From Stdlib Require Import ZArith Lia.
From S2P Require Import Prelude CircuitBreaker Errors Json Values Router PublisherApi Retry Consumer Workers.
Import Err Val PubApi Cons.
Local Open Scope Z_scope.
Local Open Scope kit_scope.

Module Groups.

Section Groups.
Context {P : Publisher} {G : GoImpl}.
Context (router : Router.Router HandlerService) (maxRetries : Z).

(** ** The system *)

(** The workers of one call, with their channel of deliveries. *)
Record Group := {
  queue : string;
  deliveries : list Delivery;
  is_open : bool;
  workers : list Workers.pc;
  arrived : list Delivery
}.

Record State := { world : World; groups : list Group }.

Inductive Event :=
| StartConsume (queue : string) (workers : nat)
| InGroup (k : nat) (e : Workers.Event)
| ResetCircuitBreaker (now : Z).

(** A group in the shared world, as [Workers] has it, and back. *)
Definition view (w : World) (g : Group) : Workers.System :=
  {| Workers.world := w; Workers.deliveries := deliveries g; Workers.is_open := is_open g;
     Workers.workers := workers g; Workers.arrived := arrived g |}.

Definition back (g : Group) (y : Workers.System) : Group :=
  {| queue := queue g; deliveries := Workers.deliveries y; is_open := Workers.is_open y;
     workers := Workers.workers y; arrived := Workers.arrived y |}.

(** What [Consume] starts. *)
Definition new_group (q : string) (n : nat) : Group :=
  {| queue := q; deliveries := []; is_open := true; workers := replicate n Workers.Idle;
     arrived := [] |}.

Definition exec (e : Event) (s : State) : option State :=
  match e with
  | StartConsume q n => Some {| world := world s; groups := groups s ++ [new_group q n] |}
  | InGroup k e =>
      g ← groups s !! k;
      y ← Workers.exec router maxRetries e (view (world s) g);
      Some {| world := Workers.world y; groups := <[k := back g y]> (groups s) |}
  | ResetCircuitBreaker now =>
      Some {| world := snd (Cons.ResetCircuitBreaker now (world s)); groups := groups s |}
  end.

Fixpoint run (es : list Event) (s : State) : option State :=
  match es with
  | [] => Some s
  | e :: es' => s' ← exec e s; run es' s'
  end.

(** A consumer that has not been started on any queue. *)
Definition initial (w : World) : State := {| world := w; groups := [] |}.

Lemma view_back w g y : Workers.world y = w -> view w (back g y) = y.
Proof. intros <-. by destruct y. Qed.

(** One event, seen by the group it is in. *)
Lemma exec_group e s s' :
  exec e s = Some s' ->
  (exists q n, e = StartConsume q n /\
     s' = {| world := world s; groups := groups s ++ [new_group q n] |}) \/
  (exists k e0 g y, e = InGroup k e0 /\ groups s !! k = Some g /\
     Workers.exec router maxRetries e0 (view (world s) g) = Some y /\
     s' = {| world := Workers.world y; groups := <[k := back g y]> (groups s) |}) \/
  (exists now, e = ResetCircuitBreaker now /\
     s' = {| world := snd (Cons.ResetCircuitBreaker now (world s)); groups := groups s |}).
Proof.
  intros He. destruct e as [q n|k e|now]; simpl in He.
  - injection He as <-. left. eauto.
  - right. left. destruct (groups s !! k) as [g|] eqn:Eg; [|done]. simpl in He.
    destruct (Workers.exec _ _ _ _) as [y|] eqn:Ey; [|done]. injection He as <-. eauto 8.
  - injection He as <-. eauto.
Qed.

(** A property of groups that only the group's own events can change. *)
Lemma exec_groups (Q : Group -> Prop) e s s' :
  (forall q n, Q (new_group q n)) ->
  (forall w g e y, Q g -> Workers.exec router maxRetries e (view w g) = Some y -> Q (back g y)) ->
  Forall Q (groups s) -> exec e s = Some s' -> Forall Q (groups s').
Proof.
  intros Hnew Hstep Hs He.
  destruct (exec_group e s s' He) as [(q & n & _ & ->)|[(k & e0 & g & y & _ & Hk & Hy & ->)|(t & _ & ->)]]; simpl.
  - by apply Forall_snoc.
  - apply Forall_insert; [done|]. eapply Hstep; [|done]. exact (Forall_lookup_1 _ _ _ _ Hs Hk).
  - done.
Qed.

(** ** Conservation *)

Hypothesis polite_handlers : forall t h, Router.GetHandler t router = Some h -> polite h.

(** The deliveries of a group that are not settled, and all it has had. *)
Definition unsettled (g : Group) : list Z :=
  (workers g ≫= Workers.owes) ++ (d_DeliveryTag <$> deliveries g).

Definition received (g : Group) : list Z := d_DeliveryTag <$> arrived g.

Definition conserved (w0 : World) (s : State) : Prop :=
  exists ss, settled (world s) = settled w0 ++ ss /\
    (Workers.settle_tag <$> ss) ++ (groups s ≫= unsettled) ≡ₚ groups s ≫= received /\
    Forall (fun x => Workers.requeues x = false) ss.

Lemma unsettled_new q n : unsettled (new_group q n) = [].
Proof. unfold unsettled. simpl. rewrite app_nil_r. by induction n. Qed.

Lemma group_exec_conserved w0 e s s' : conserved w0 s -> exec e s = Some s' -> conserved w0 s'.
Proof.
  intros (ss & Hs & Hp & Hr) He.
  destruct (exec_group e s s' He)
    as [(q & n & _ & ->)|[(k & e0 & g & y & _ & Hk & Hy & ->)|(t & _ & ->)]].
  - exists ss. simpl. split_and!; [done| |done]. rewrite !bind_app. simpl.
    by rewrite unsettled_new, !app_nil_r.
  - destruct (Workers.exec_account _ _ polite_handlers _ _ _ Hy) as (ss' & new & Hs' & Ha & Hp' & Hr').
    exists (ss ++ ss'). simpl in *. split_and!; [by rewrite Hs', Hs, app_assoc| |by apply Forall_app].
    rewrite fmap_app.
    eapply (Workers.insert_account unsettled received _ _ _ (back g y)); [done| |exact Hp'|done].
    unfold received. simpl. by rewrite Ha, fmap_app.
  - exists ss. simpl. by rewrite reset_settled.
Qed.

Lemma run_groups_conserved w0 es s s' : conserved w0 s -> run es s = Some s' -> conserved w0 s'.
Proof.
  revert s. induction es as [|e es IH]; intros s Hs Hr; simpl in Hr; [by simplify_eq|].
  destruct (exec e s) as [s1|] eqn:E; [|done]. eauto using group_exec_conserved.
Qed.

Lemma initial_groups_conserved w : conserved w (initial w).
Proof. exists []. by rewrite app_nil_r. Qed.

(** Whatever the number of queues a bus consumes from, and under every interleaving of all
    their workers, no delivery is lost or settled twice: at any moment the tags settled, the tags
    in the hands of the workers of all groups and the tags in their channels together are exactly
    the tags that arrived, and nothing is requeued.  (Handlers that settle deliveries themselves
    are excluded.) *)
Theorem groups_conserve_deliveries w es s :
  run es (initial w) = Some s ->
  exists ss, settled (world s) = settled w ++ ss /\
    (Workers.settle_tag <$> ss) ++ (groups s ≫= unsettled) ≡ₚ groups s ≫= received /\
    Forall (fun x => Workers.requeues x = false) ss.
Proof. apply (run_groups_conserved w), initial_groups_conserved. Qed.

(** ** Shutdown *)

Lemma fmap_bind_eq {A B} (f : A -> list B) l1 l2 : f <$> l1 = f <$> l2 -> l1 ≫= f = l2 ≫= f.
Proof.
  revert l2. induction l1 as [|x l1 IH]; intros [|y l2] H; try done. simpl in H.
  injection H as Hx Hl. by rewrite !bind_cons, Hx, (IH l2 Hl).
Qed.

Definition measure (g : Group) : nat :=
  (sum_list_with Workers.rank (workers g) + 7 * length (deliveries g))%nat.

(** A group whose channel of deliveries is closed. *)
Definition closing (g : Group) : Prop := is_open g = false.

(** Workers leave a group only when its channel is closed and drained. *)
Definition leaves_drained (g : Group) : Prop :=
  forall i, workers g !! i = Some Workers.Gone -> is_open g = false /\ deliveries g = [].

(** A step in one of several groups whose channels are closed. *)
Lemma closing_step k e s s' :
  Forall closing (groups s) -> exec (InGroup k e) s = Some s' ->
  Forall closing (groups s') /\ received <$> groups s' = received <$> groups s /\
  (length ∘ workers) <$> groups s' = (length ∘ workers) <$> groups s /\
  (sum_list_with measure (groups s') < sum_list_with measure (groups s))%nat.
Proof.
  intros Hc He. destruct (exec_group _ s s' He)
    as [(? & ? & ? & _)|[(k' & e' & g & y & [= <- <-] & Hk & Hy & ->)|(? & ? & _)]]; [done| |done].
  pose proof (Forall_lookup_1 _ _ _ _ Hc Hk) as Hg.
  destruct (Workers.exec_measure _ _ _ (view (world s) g) y Hg Hy) as (Ho & Ha & Hl & Hm). simpl in *.
  split_and!.
  - by apply Forall_insert.
  - rewrite list_fmap_insert. apply list_insert_id. rewrite list_lookup_fmap, Hk. simpl.
    unfold received. simpl. by rewrite Ha.
  - rewrite list_fmap_insert. apply list_insert_id. rewrite list_lookup_fmap, Hk. simpl. by rewrite Hl.
  - pose proof (Workers.sum_insert measure _ _ _ (back g y) Hk).
    change (measure (back g y)) with (Workers.measure y) in *.
    change (Workers.measure (view (world s) g)) with (measure g) in *. lia.
Qed.

Definition within (e : Event) : Prop := if e is InGroup _ _ then True else False.

Lemma closing_run es s s' :
  Forall within es -> Forall closing (groups s) -> run es s = Some s' ->
  Forall closing (groups s') /\ received <$> groups s' = received <$> groups s /\
  (length ∘ workers) <$> groups s' = (length ∘ workers) <$> groups s /\
  (sum_list_with measure (groups s') + length es <= sum_list_with measure (groups s))%nat.
Proof.
  intros Hw. revert s. induction Hw as [|e es He _ IH]; intros s Hc Hr; simpl in Hr.
  { simplify_eq. simpl. split_and!; [done..|lia]. }
  destruct e as [|k e|]; [done| |done]. destruct (exec _ s) as [s1|] eqn:E; [|done].
  destruct (closing_step k e s s1 Hc E) as (Hc1 & Ha1 & Hl1 & Hm1).
  destruct (IH s1 Hc1 Hr) as (? & ? & ? & ?). simpl. split_and!; [done|congruence..|lia].
Qed.

Lemma run_leaves es s s' :
  Forall leaves_drained (groups s) -> run es s = Some s' -> Forall leaves_drained (groups s').
Proof.
  revert s. induction es as [|e es IH]; intros s Hs Hr; simpl in Hr; [by simplify_eq|].
  destruct (exec e s) as [s1|] eqn:E; [|done]. apply (IH s1); [|done].
  eapply exec_groups; [..|done|done].
  - intros q n i Hi. simpl in Hi. by apply lookup_replicate in Hi as [? _].
  - intros w g e0 y Hg Hy. exact (Workers.exec_leaves_drained _ _ _ (view w g) y Hg Hy).
Qed.

(** Groups that cannot take a step. *)
Lemma stuck_groups s :
  Forall leaves_drained (groups s) -> Forall closing (groups s) ->
  Forall (fun g => workers g <> []) (groups s) -> (forall k e, exec (InGroup k e) s = None) ->
  Forall (fun g => Forall (eq Workers.Gone) (workers g) /\ deliveries g = []) (groups s).
Proof.
  intros Hl Hc Hn Hstuck. apply Forall_lookup. intros k g Hk.
  apply (Workers.stuck_gone router maxRetries (view (world s) g)).
  - exact (Forall_lookup_1 _ _ _ _ Hl Hk).
  - exact (Forall_lookup_1 _ _ _ _ Hc Hk).
  - exact (Forall_lookup_1 _ _ _ _ Hn Hk).
  - intros e. specialize (Hstuck k e). simpl in Hstuck. rewrite Hk in Hstuck. simpl in Hstuck.
    by destruct (Workers.exec _ _ _ _).
Qed.

Lemma gone_unsettled gs :
  Forall (fun g => Forall (eq Workers.Gone) (workers g) /\ deliveries g = []) gs ->
  gs ≫= unsettled = [].
Proof.
  induction 1 as [|g gs [Hg Hd] _ IH]; [done|]. rewrite bind_cons, IH, app_nil_r.
  unfold unsettled.
  rewrite Hd, app_nil_r. clear -Hg. induction Hg as [|? ? <- _ IH]; [done|]. exact IH.
Qed.

(** C12: shutdown drains all queues.  Once the channels of deliveries of all groups are closed,
    every run of the workers is finite, with at most seven steps per delivery left and per
    worker, and when no worker can take a step any more every worker of every group has exited,
    every channel is empty and every delivery that ever arrived has been settled exactly once. *)
Theorem groups_drain w es s es' s' :
  run es (initial w) = Some s -> Forall closing (groups s) ->
  Forall (fun g => workers g <> []) (groups s) -> Forall within es' -> run es' s = Some s' ->
  (length es' <=
     7 * sum_list_with (fun g => length (workers g) + length (deliveries g))%nat (groups s))%nat /\
  ((forall k e, exec (InGroup k e) s' = None) ->
   Forall (fun g => Forall (eq Workers.Gone) (workers g) /\ deliveries g = []) (groups s') /\
   exists ss, settled (world s') = settled w ++ ss /\
     Workers.settle_tag <$> ss ≡ₚ groups s ≫= received).
Proof.
  intros Hr Hc Hn Hw Hr'.
  destruct (closing_run es' s s' Hw Hc Hr') as (Hc' & Ha & Hl & Hm). split.
  - assert (sum_list_with measure (groups s) <= 7 * sum_list_with
      (fun g => length (workers g) + length (deliveries g))%nat (groups s))%nat; [|lia].
    clear. induction (groups s) as [|g gs IH]; simpl; [lia|]. unfold measure at 1.
    pose proof (Workers.ranks_le (workers g)). lia.
  - intros Hstuck. assert (Forall (fun g => Forall (eq Workers.Gone) (workers g) /\
      deliveries g = []) (groups s')) as Hgone.
    { apply stuck_groups; [|done| |done].
      - eapply run_leaves; [|exact Hr']. eapply run_leaves; [|exact Hr]. by constructor.
      - apply Forall_lookup. intros k g' Hk.
        assert (((length ∘ workers) <$> groups s) !! k = Some (length (workers g'))) as Hk'
          by (by rewrite <- Hl, list_lookup_fmap, Hk).
        rewrite list_lookup_fmap in Hk'. destruct (groups s !! k) as [g|] eqn:E; [|done].
        simpl in Hk'. pose proof (Forall_lookup_1 _ _ _ _ Hn E) as Hne. simpl in Hne.
        injection Hk' as Hk'. intros E0. rewrite E0 in Hk'. by destruct (workers g). }
    split; [done|]. destruct (run_groups_conserved w es' s s') as (ss & Hs & Hp & _); [|done|].
    { eapply run_groups_conserved; [apply initial_groups_conserved|done]. }
    exists ss. split; [done|]. rewrite (gone_unsettled _ Hgone), app_nil_r in Hp. rewrite Hp.
    assert (groups s' ≫= received = groups s ≫= received) as ->; [|done].
    by apply fmap_bind_eq.
Qed.

(** ** The breaker of all queues *)

Hypothesis discreet_handlers : forall t h, Router.GetHandler t router = Some h -> Workers.discreet h.

(** The breaker is open, until [deadline] at least. *)
Definition open_until (deadline : Z) (s : State) : Prop :=
  exists cb, breaker (world s) = Some cb /\ CB.wf cb /\ CB.state cb = CB.StateOpen /\
    deadline = CB.lastStateChangeTime cb + CB.ResetTimeout (CB.config cb).

(** An event before [deadline] that is not a reset of the breaker by hand. *)
Definition early (deadline : Z) (e : Event) : Prop :=
  match e with
  | StartConsume _ _ => True
  | InGroup _ e => Workers.early deadline e
  | ResetCircuitBreaker _ => False
  end.

(** No delivery of a group has passed the breaker. *)
Definition unadmitted (g : Group) : Prop :=
  Forall (fun p => Workers.unadmitted p = true) (workers g).

(** What an open breaker keeps from happening between two states, in all groups. *)
Definition shielded (s s' : State) : Prop :=
  (forall k g' i t d, groups s' !! k = Some g' -> workers g' !! i = Some (Workers.Execute t d) ->
     exists g, groups s !! k = Some g /\ workers g !! i = Some (Workers.Execute t d)) /\
  (Forall unadmitted (groups s) ->
   Forall unadmitted (groups s') /\
   Retry.outgoing (base (world s')) = Retry.outgoing (base (world s)) /\
   exists ss, settled (world s') = settled (world s) ++ ss /\
     Forall (fun x => exists tag, x = Msg.CallNack tag false) ss).

Lemma group_shielded_refl s : shielded s s.
Proof. split; [eauto|]. intros Hu. split_and!; [done..|]. exists []. by rewrite app_nil_r. Qed.

Lemma group_shielded_trans s1 s2 s3 : shielded s1 s2 -> shielded s2 s3 -> shielded s1 s3.
Proof.
  intros [Hx1 H1] [Hx2 H2]. split.
  - intros k g3 i t d Hk Hi. destruct (Hx2 _ _ _ _ _ Hk Hi) as (g2 & Hk2 & Hi2). eauto.
  - intros Hu. destruct (H1 Hu) as (Hu2 & Ho & ss & Hs & Hn).
    destruct (H2 Hu2) as (Hu3 & Ho' & ss' & Hs' & Hn').
    split_and!; [done|congruence|]. exists (ss ++ ss'). rewrite Hs', Hs, app_assoc.
    split; [done|by apply Forall_app].
Qed.

Lemma exec_group_shielded deadline e s s' :
  open_until deadline s -> early deadline e -> exec e s = Some s' ->
  open_until deadline s' /\ shielded s s'.
Proof.
  intros Ho He Hx.
  destruct (exec_group e s s' Hx)
    as [(q & n & -> & ->)|[(k & e0 & g & y & -> & Hk & Hy & ->)|(t & -> & ->)]]; [| |done].
  - split; [done|]. split; simpl.
    + intros k g' i t d [Hk|[_ Hk]]%lookup_app_Some Hi; [eauto|].
      apply list_lookup_singleton_Some in Hk as [_ <-]. simpl in Hi.
      by apply lookup_replicate in Hi as [? _].
    + intros Hu. split_and!; [|done|exists []; by rewrite app_nil_r].
      apply Forall_snoc. split; [done|]. by apply Forall_replicate.
  - assert (Workers.open_until deadline (view (world s) g)) as Hov by done.
    pose proof (Workers.exec_open router maxRetries discreet_handlers _ _ _ _ Hov He Hy) as Hoy.
    destruct (Workers.exec_shielded router maxRetries discreet_handlers _ _ _ _ Hov He Hy) as [H1 H2].
    split; [exact Hoy|]. split; simpl.
    + intros k' g' i t d [(<- & <- & _)|[_ Hk']]%list_lookup_insert_Some Hi; [|eauto].
      exists g. split; [done|]. by apply H1.
    + intros Hu. destruct (H2 (Forall_lookup_1 _ _ _ _ Hu Hk)) as (Hu' & Hout & Hs).
      split_and!; [by apply Forall_insert|done|done].
Qed.

Lemma run_group_breaker es s s' cb :
  run es s = Some s' -> breaker (world s) = Some cb -> CB.wf cb ->
  exists cb', breaker (world s') = Some cb' /\ CB.wf cb'.
Proof.
  revert s cb. induction es as [|e es IH]; intros s cb Hr Hb Hc; simpl in Hr.
  { simplify_eq. eauto. }
  destruct (exec e s) as [s1|] eqn:E; [|done].
  destruct (exec_group e s s1 E)
    as [(q & n & -> & ->)|[(k & e0 & g & y & -> & Hk & Hy & ->)|(t & -> & ->)]]; [by eapply IH| |].
  - destruct (Workers.run_breaker router maxRetries discreet_handlers [e0] (view (world s) g) y cb)
      as (cb1 & ? & ?); [simpl; by rewrite Hy|done..|]. by eapply IH.
  - eapply (IH _ (fst (CB.Reset t cb))); [exact Hr| |].
    + simpl. destruct (reset_world t (world s)) as (_ & _ & ->). by rewrite Hb.
    + by apply (CB.apply_wf (CB.OpReset t)).
Qed.

(** C15: one open breaker stops all queues.  Take any state that the consumer reaches with a new
    breaker, and let the breaker be open there, whichever queue's messages opened it.  Until its
    timeout has passed or the application calls [ResetCircuitBreaker], whatever the workers of
    all groups do, and whatever queues are added, the breaker stays open, no further delivery of
    any queue reaches a handler, and if no delivery had passed the breaker before, nothing is
    published and the deliveries of every queue are only rejected, without requeue.  (Handlers that reach into the consumer's private
    breaker are excluded.) *)
Theorem open_breaker_stops_all_queues w c t es s cb es' s' :
  CB.config_in_range c -> breaker w = Some (CB.New c t) -> run es (initial w) = Some s ->
  breaker (world s) = Some cb -> CB.state cb = CB.StateOpen ->
  Forall (early (CB.lastStateChangeTime cb + CB.ResetTimeout (CB.config cb))) es' ->
  run es' s = Some s' ->
  (CB.state <$> breaker (world s')) = Some CB.StateOpen /\ shielded s s'.
Proof.
  intros Hc Hw Hr Hb Hst He Hr'.
  destruct (run_group_breaker es (initial w) s (CB.New c t) Hr Hw) as (cb' & Hb' & Hwf).
  { by apply CB.New_wf. }
  assert (cb' = cb) as -> by congruence. set (deadline := CB.lastStateChangeTime cb + _) in He.
  assert (open_until deadline s) as Ho by (by exists cb).
  clearbody deadline. clear -He Hr' Ho discreet_handlers.
  revert s Ho Hr'. induction He as [|e es' He Hes IH]; intros s Ho Hr; simpl in Hr.
  - simplify_eq. split; [destruct Ho as (cb & -> & _ & Hst & _); simpl; by rewrite Hst|].
    apply group_shielded_refl.
  - destruct (exec e s) as [s1|] eqn:E; [|done].
    destruct (exec_group_shielded _ _ _ _ Ho He E) as [Ho1 Hsh].
    destruct (IH s1 Ho1 Hr) as [Hst Hsh']. split; [done|]. by eapply group_shielded_trans.
Qed.

End Groups.

(** ** Runs *)

(** A delivery of type invoice with its own tag. *)
Definition invoice_no (tag : Z) : Delivery :=
  let d := Workers.order_no tag in
  let q := String Json.Json.quote "" in
  {| d_Headers := None; d_ContentType := d_ContentType d; d_ContentEncoding := "";
     d_DeliveryMode := 2; d_Priority := 0; d_CorrelationId := ""; d_ReplyTo := "";
     d_Expiration := ""; d_MessageId := ""; d_Timestamp := 0; d_Type := "invoice"; d_UserId := "";
     d_AppId := ""; d_DeliveryTag := tag; d_Exchange := "invoices"; d_RoutingKey := "invoice";
     d_Body := "{" +:+ q +:+ "type" +:+ q +:+ ":" +:+ q +:+ "invoice" +:+ q +:+ "}" |}.

(** Orders always fail, invoices always succeed. *)
Definition two_routes : Router.Router (@HandlerService accepting) :=
  Router.Handle "invoice" (Some (fun _ => mret None)) (routes (failing boom)).

Lemma two_routes_polite t h :
  Router.GetHandler t two_routes = Some h -> polite h /\ Workers.discreet h.
Proof.
  unfold Router.GetHandler, two_routes, routes, Router.Handle. simpl. rewrite !lookup_insert.
  repeat case_decide; simpl; try rewrite lookup_empty; intros [= <-]; by split; intros ctx w.
Qed.

(** Two queues; both orders fail in lock step, which opens the breaker of demo_config. *)
Definition orders_fail : list Event :=
  [StartConsume "orders" 2; StartConsume "invoices" 1;
   InGroup 0 (Workers.Arrive (Workers.order_no 1)); InGroup 0 (Workers.Arrive (Workers.order_no 2));
   InGroup 0 (Workers.Take 0); InGroup 0 (Workers.Take 1)] ++
  mjoin (replicate 6 [InGroup 0 (Workers.Work 0 (env_at 4)); InGroup 0 (Workers.Work 1 (env_at 4))]).

(** Then an invoice arrives on its own queue. *)
Definition invoice_comes : list Event :=
  [InGroup 1 (Workers.Arrive (invoice_no 3)); InGroup 1 (Workers.Take 0);
   InGroup 1 (Workers.Work 0 (env_at 5)); InGroup 1 (Workers.Work 0 (env_at 5));
   InGroup 1 (Workers.Work 0 (env_at 5))].

(** Both channels are closed and the workers leave. *)
Definition shut_down : list Event :=
  [InGroup 0 Workers.CloseDeliveries; InGroup 1 Workers.CloseDeliveries].

Definition all_leave : list Event :=
  [InGroup 1 (Workers.Exit 0); InGroup 0 (Workers.Exit 0); InGroup 0 (Workers.Exit 1)].

Definition demo_start : @State accepting :=
  initial (demo_world (Some (CB.New CB.demo_config 0)) ∅).

Abbreviation demo_run es s := (run (G := amd64) two_routes 3 es s).

Definition reached (es : list Event) : @State accepting := default demo_start (demo_run es demo_start).

Lemma reached_groups es :
  match demo_run es demo_start with Some _ => true | None => false end = true ->
  demo_run es demo_start = Some (reached es).
Proof. unfold reached. by destruct (demo_run es demo_start). Qed.

(** The invoice without the orders. *)
Definition invoice_alone : list Event :=
  [StartConsume "orders" 2; StartConsume "invoices" 1] ++ invoice_comes ++
  [InGroup 1 (Workers.Work 0 (env_at 5)); InGroup 1 (Workers.Work 0 (env_at 5))].

(** Failures on one queue cost the messages of another: the invoice, which is acknowledged when
    it comes alone, is rejected for good after the orders have opened the breaker. *)
Theorem failures_cross_queues :
  settled (world (reached invoice_alone)) = [Msg.CallAck 3] /\
  settled (world (reached (orders_fail ++ invoice_comes))) =
    [Msg.CallAck 1; Msg.CallAck 2; Msg.CallNack 3 false].
Proof. split; vm_compute; reflexivity. Qed.

Lemma groups_conserve_deliveries_witness :
  exists ss, settled (world (reached orders_fail)) = ss /\
    (Workers.settle_tag <$> ss) ++ [] ≡ₚ [1; 2] /\ Forall (fun x => Workers.requeues x = false) ss.
Proof.
  destruct (groups_conserve_deliveries (G := amd64) two_routes 3
    (fun t h H => proj1 (two_routes_polite t h H)) (demo_world (Some (CB.New CB.demo_config 0)) ∅)
    orders_fail (reached orders_fail)) as (ss & H1 & H2 & H3).
  - apply reached_groups. vm_compute. reflexivity.
  - exists ss. split; [exact H1|]. split; [exact H2|exact H3].
Defined.

Lemma groups_drain_witness :
  exists ss, settled (world (reached (orders_fail ++ invoice_comes ++ shut_down ++ all_leave))) = ss /\
    Workers.settle_tag <$> ss ≡ₚ [1; 2; 3].
Proof.
  destruct (groups_drain (G := amd64) two_routes 3
    (fun t h H => proj1 (two_routes_polite t h H)) (demo_world (Some (CB.New CB.demo_config 0)) ∅)
    (orders_fail ++ invoice_comes ++ shut_down)
    (reached (orders_fail ++ invoice_comes ++ shut_down)) all_leave
    (reached (orders_fail ++ invoice_comes ++ shut_down ++ all_leave))) as [_ Hend].
  - apply reached_groups. vm_compute. reflexivity.
  - vm_compute. repeat constructor.
  - vm_compute. repeat constructor; discriminate.
  - repeat constructor.
  - vm_compute. reflexivity.
  - destruct Hend as (_ & H); [|exact H].
    intros [|[|k]] [d| |[|[|i]]|[|[|i]]|[|[|i]] env]; vm_compute; reflexivity.
Defined.

Lemma open_breaker_stops_all_queues_witness :
  CB.state <$> breaker (world (reached (orders_fail ++ invoice_comes))) = Some CB.StateOpen /\
  shielded (reached orders_fail) (reached (orders_fail ++ invoice_comes)).
Proof.
  apply (open_breaker_stops_all_queues (G := amd64) two_routes 3
    (fun t h H => proj2 (two_routes_polite t h H)) (demo_world (Some (CB.New CB.demo_config 0)) ∅)
    CB.demo_config 0 orders_fail (reached orders_fail)
    (default (CB.New CB.demo_config 0) (breaker (world (reached orders_fail)))) invoice_comes).
  - by_compute.
  - reflexivity.
  - apply reached_groups. vm_compute. reflexivity.
  - vm_compute. reflexivity.
  - vm_compute. reflexivity.
  - repeat constructor.
  - vm_compute. reflexivity.
Defined.

End Groups.
