(* ===== verification/Service.v ===== *)
(** * The whole service

    The bus of [System] with everything that runs on it: groups of workers for several queues,
    whose deliveries come from the AMQP channel the client had when they were started, and whose
    retries are calls of the bus's own publisher, interleaved with the calls of the application,
    the confirmation processors, the broker and the reconnections.  A worker that retries starts
    a [Publish] call and waits until it has returned; all its other steps are those of [Workers].
    The application can also reset the breaker.  The last two fields of [State] are history: the
    copies that retries handed to the publisher, by the number of the call, and why deliveries
    were acknowledged; that these reasons are true is part of what is proved. *)

From stdpp Require Import base gmap strings list fin_maps relations.
From Stdlib Require Import ZArith Lia.
From S2P Require Import Prelude CircuitBreaker Errors Values Router Reconnect Publisher PublisherSafety PublisherSteps PublisherConfirms PublisherApi System Retry Consumer Workers.
Import Err Val Cons.
Local Open Scope kit_scope.

Module Service.

(** ** Messages and their identities *)

(** The publisher's model keeps an identity of every message; a new message has a new one. *)
Definition ids (j : Pub.Job) : list nat :=
  match j with Pub.JPublish m => [Pub.mid m] | Pub.JBatch ms => Pub.mid <$> ms end.

Definition used (y : Pub.System) : list nat := Pub.threads y ≫= (fun x => ids x.1).

Definition fresh_id (y : Pub.System) : nat := S (max_list (used y)).

Definition new_ids (j : Pub.Job) (y : Pub.System) : bool := bool_decide (NoDup (used y ++ ids j)).

(** What a finished [Publish] call returned. *)
Definition returned (n : nat) (y : Pub.System) : option (option error) :=
  match Pub.threads y !! n with
  | Some (_, Pub.Returned (Pub.OPublish e)) => Some e
  | _ => None
  end.

(** ** The publisher's calls along a run *)

(** What an event of the bus adds to the calls. *)
Definition spawned (e : Pub.Event) : list Pub.Job := if e is Pub.Spawn j then [j] else [].

Definition bus_spawned (e : Sys.Event) : list Pub.Job :=
  if e is Sys.Publisher e then spawned e else [].

(** Calls keep their jobs, and those that have returned their results. *)
Record keeps (new : list Pub.Job) (y y' : Pub.System) : Prop := {
  kp_jobs : fst <$> Pub.threads y' = (fst <$> Pub.threads y) ++ new;
  kp_returned : forall n j o, Pub.threads y !! n = Some (j, Pub.Returned o) ->
    Pub.threads y' !! n = Some (j, Pub.Returned o)
}.

Lemma keeps_refl y : keeps [] y y.
Proof. split; [by rewrite app_nil_r|done]. Qed.

Lemma keeps_trans new new' y1 y2 y3 :
  keeps new y1 y2 -> keeps new' y2 y3 -> keeps (new ++ new') y1 y3.
Proof. intros [J1 R1] [J2 R2]. split; [by rewrite J2, J1, app_assoc|eauto]. Qed.

Lemma keeps_job new y y' n j p :
  keeps new y y' -> Pub.threads y !! n = Some (j, p) -> exists p', Pub.threads y' !! n = Some (j, p').
Proof.
  intros [HJ _] Hn. assert ((fst <$> Pub.threads y') !! n = Some j) as Hj.
  { rewrite HJ. apply lookup_app_l_Some. by rewrite list_lookup_fmap, Hn. }
  rewrite list_lookup_fmap in Hj. destruct (Pub.threads y' !! n) as [[j' p']|]; simplify_eq/=. eauto.
Qed.

Lemma keeps_used new y y' : keeps new y y' -> used y' = used y ++ (new ≫= ids).
Proof.
  intros [HJ _]. unfold used.
  assert (forall l : list (Pub.Job * Pub.pc), l ≫= (fun x => ids x.1) = (fst <$> l) ≫= ids) as E.
  { induction l as [|x l IH]; [done|]. rewrite fmap_cons, !bind_cons. by rewrite IH. }
  by rewrite !E, HJ, bind_app.
Qed.

Lemma returned_step j o c s : Pub.thread_step j (Pub.Returned o) c s = None.
Proof. by destruct j, c. Qed.

Lemma pub_keeps e y y' : Pub.exec e y = Some y' -> keeps (spawned e) y y'.
Proof.
  intros He. assert (forall n j o, Pub.threads y !! n = Some (j, Pub.Returned o) ->
    Pub.threads y' !! n = Some (j, Pub.Returned o)) as Hret.
  { intros n j o Hn.
    assert ((exists c, e = Pub.Thread n c) \/ forall c, e <> Pub.Thread n c) as [[c ->]|Hne].
    { destruct e; try (by right). destruct (decide (i = n)) as [->|]; [left; eauto|right; congruence]. }
    - unfold Pub.exec in He. destruct (Pub.crashed y); [done|]. rewrite Hn in He. simpl in He.
      by rewrite returned_step in He.
    - eapply PubSafety.exec_others; eauto. }
  split; [|done]. clear Hret. unfold Pub.exec in He. destruct (Pub.crashed y); [done|].
  destruct e; simpl; rewrite ?app_nil_r; try (repeat case_match; simplify_eq/=; done).
  - injection He as <-. simpl. by rewrite fmap_app.
  - destruct (Pub.threads y !! i) as [[j p]|] eqn:Ei; [|done]. simpl in He.
    destruct (Pub.thread_step _ _ _ _) as [[[[s' p'] sp]|]|]; simplify_eq/=; [|done].
    rewrite list_fmap_insert. apply list_insert_id. by rewrite list_lookup_fmap, Ei.
Qed.

Lemma pub_run_keeps es y y' : Pub.run es y = Some y' -> keeps (es ≫= spawned) y y'.
Proof.
  revert y. induction es as [|e es IH]; intros y Hr; simpl in Hr.
  { simplify_eq. apply keeps_refl. }
  destruct (Pub.exec e y) as [y1|] eqn:E; [|done]. rewrite bind_cons.
  eapply keeps_trans; [by apply pub_keeps|by apply IH].
Qed.

Lemma bus_keeps e b b' : Sys.exec e b = Some b' -> keeps (bus_spawned e) (Sys.pb b) (Sys.pb b').
Proof.
  destruct e as [e|e]; simpl; intros He.
  - destruct (Pub.crashed (Sys.pb b)); [done|]. destruct (Reconn.exec e (Sys.cl b)); [|done].
    simpl in He. destruct (Pub.run _ _) as [y|] eqn:Er; [|done]. injection He as <-. simpl.
    apply pub_run_keeps in Er.
    assert (Sys.effects e b ≫= spawned = []) as E0; [|by rewrite E0 in Er].
    unfold Sys.effects. repeat case_match; done.
  - destruct (Sys.own_event e); [|done]. destruct (Pub.exec e (Sys.pb b)) as [y|] eqn:E; [|done].
    injection He as <-. by apply pub_keeps.
Qed.

Lemma bus_spawn j b b' :
  Sys.exec (Sys.Publisher (Pub.Spawn j)) b = Some b' ->
  Pub.threads (Sys.pb b') = Pub.threads (Sys.pb b) ++ [(j, Pub.PStart)].
Proof.
  simpl. unfold Pub.exec. destruct (Pub.crashed (Sys.pb b)); [done|]. by intros [= <-].
Qed.

Lemma orderly_app es1 es2 y :
  PubConfirms.run_orderly (es1 ++ es2) y = y' ← PubConfirms.run_orderly es1 y;
    PubConfirms.run_orderly es2 y'.
Proof.
  revert y. induction es1 as [|e es1 IH]; intros y; simpl; [done|].
  destruct (PubConfirms.orderly e y); [|done]. destruct (Pub.exec e y); simpl; [apply IH|done].
Qed.

Lemma orderly_run es y y' : PubConfirms.run_orderly es y = Some y' -> Pub.run es y = Some y'.
Proof.
  revert y. induction es as [|e es IH]; intros y Hr; simpl in *; [done|].
  destruct (PubConfirms.orderly e y); [|done]. destruct (Pub.exec e y); [by apply IH|done].
Qed.

Section Service.
Context {P : PubApi.Publisher} {G : GoImpl}.
Context (router : Router.Router HandlerService) (maxRetries : Z).

(** ** The system *)

(** A worker: a point of [Workers], waiting for the call that publishes its retry, or after
    that call has succeeded. *)
Inductive wpc :=
| At (p : Workers.pc)
| Publishing (traceID : string) (delivery : Delivery) (call : nat)
| Confirmed (traceID : string) (delivery : Delivery) (call : nat).

Record Group := {
  queue : string;
  source : Pub.handle;            (* the AMQP channel the deliveries come from *)
  deliveries : list Delivery;
  is_open : bool;
  workers : list wpc;
  arrived : list Delivery
}.

(** Why a delivery was acknowledged. *)
Inductive Cause := Handled | Unrouted | Requeued (call : nat).

Record State := {
  bus : Sys.State;
  world : World;
  groups : list Group;
  copies : gmap nat PubApi.PublishMessage;
  acks : list (Delivery * Cause)
}.

#[export] Instance State_eta : Eta State := fun s =>
  {| bus := bus s; world := world s; groups := groups s; copies := copies s; acks := acks s |}.

Inductive Event :=
| OnBus (e : Sys.Event)
| StartConsume (queue : string) (workers : nat)
| InGroup (k : nat) (e : Workers.Event)
| ResetCircuitBreaker (now : Z).

Definition pub (s : State) : Pub.System := Sys.pb (bus s).

Definition source_dead (g : Group) (s : State) : bool :=
  bool_decide (source g ∈ Pub.dead (Pub.shared (pub s))).

(** The acknowledgement a step of [Workers] makes. *)
Definition ack_of (p : Workers.pc) : list (Delivery * Cause) :=
  match p with
  | Workers.Succeeded _ d => [(d, Handled)]
  | Workers.Execute _ d =>
      match Router.GetHandler (type_of d) router with None => [(d, Unrouted)] | Some _ => [] end
  | _ => []
  end.

(** One step of worker [i]: the state without its group, and the worker afterwards; [None]
    while it waits. *)
Definition work (i : nat) (env : Env) (p : wpc) (s : State) : option (State * wpc) :=
  let plain p c :=
    let '(p', w) := Workers.work router maxRetries (Z.of_nat i) env p (world s) in
    let a := acks s ++ c in Some (s <| world := w |> <| acks := a |>, At p') in
  match p with
  | At (Workers.Retrying traceID d) =>
      let '(r, bs) := Retry.prepare (t_retry env) d (Retry.NewHandler maxRetries)
                        (base (world s)) in
      let w := (world s) <| base := bs |> in
      match r with
      | inl e => Some (s <| world := w |>, At (Workers.Settling traceID d (Some e)))
      | inr msg =>
          let m := Retry.handed (Retry.heap bs) (d_Exchange d) (d_RoutingKey d) msg in
          let n := length (Pub.threads (pub s)) in
          let j := Pub.JPublish (PubApi.to_model (fresh_id (pub s)) m) in
          b ← Sys.exec (Sys.Publisher (Pub.Spawn j)) (bus s);
          let cs := <[n := m]> (copies s) in
          Some (s <| bus := b |> <| world := w |> <| copies := cs |>, Publishing traceID d n)
      end
  | At p => if Workers.busy p then plain p (ack_of p) else None
  | Publishing traceID d n =>
      e ← returned n (pub s);
      Some (s, match e with
               | None => Confirmed traceID d n
               | Some e => At (Workers.Settling traceID d (Some e))
               end)
  | Confirmed traceID d n => plain (Workers.Settling traceID d None) [(d, Requeued n)]
  end.

Definition set_group (k : nat) (g : Group) (s : State) : State :=
  let gs := <[k := g]> (groups s) in s <| groups := gs |>.

Definition with_workers (ws : list wpc) (g : Group) : Group :=
  {| queue := queue g; source := source g; deliveries := deliveries g; is_open := is_open g;
     workers := ws; arrived := arrived g |}.

(** One event of group [g], number [k]. *)
Definition group_exec (k : nat) (g : Group) (e : Workers.Event) (s : State) : option State :=
  match e with
  | Workers.Arrive d =>
      if is_open g && negb (source_dead g s) then
        Some (set_group k {| queue := queue g; source := source g;
          deliveries := deliveries g ++ [d]; is_open := true; workers := workers g;
          arrived := arrived g ++ [d] |} s)
      else None
  | Workers.CloseDeliveries =>
      if is_open g && source_dead g s then
        Some (set_group k {| queue := queue g; source := source g; deliveries := deliveries g;
          is_open := false; workers := workers g; arrived := arrived g |} s)
      else None
  | Workers.Take i =>
      match workers g !! i, deliveries g with
      | Some (At Workers.Idle), d :: ds =>
          Some (set_group k {| queue := queue g; source := source g; deliveries := ds;
            is_open := is_open g; workers := <[i := At (Workers.Trace d)]> (workers g);
            arrived := arrived g |} s)
      | _, _ => None
      end
  | Workers.Exit i =>
      match workers g !! i, deliveries g, is_open g with
      | Some (At Workers.Idle), [], false =>
          Some (set_group k (with_workers (<[i := At Workers.Gone]> (workers g)) g) s)
      | _, _, _ => None
      end
  | Workers.Work i env =>
      p ← workers g !! i;
      '(s', p') ← work i env p s;
      Some (set_group k (with_workers (<[i := p']> (workers g)) g) s')
  end.

(** What [Consume] starts on channel [ch]. *)
Definition new_group (q : string) (ch : Pub.handle) (n : nat) : Group :=
  {| queue := q; source := ch; deliveries := []; is_open := true;
     workers := replicate n (At Workers.Idle); arrived := [] |}.

(** One event; none is possible once a panic has ended the process.  [StartConsume] is a call
    that succeeds; one that returns an error (closed client, no channel, a channel that is
    closed) changes nothing. *)
Definition exec (e : Event) (s : State) : option State :=
  if Pub.crashed (pub s) then None else
  match e with
  | OnBus e =>
      if match e with Sys.Publisher (Pub.Spawn j) => new_ids j (pub s) | _ => true end then
        b ← Sys.exec e (bus s); Some (s <| bus := b |>)
      else None
  | StartConsume q n =>
      if Pub.closed (Pub.shared (pub s)) then None
      else ch ← Pub.channel (Pub.shared (pub s));
           if bool_decide (ch ∈ Pub.dead (Pub.shared (pub s))) then None
           else let gs := groups s ++ [new_group q ch n] in Some (s <| groups := gs |>)
  | InGroup k e => g ← groups s !! k; group_exec k g e s
  | ResetCircuitBreaker now =>
      let w := snd (Cons.ResetCircuitBreaker now (world s)) in Some (s <| world := w |>)
  end.

Fixpoint run (es : list Event) (s : State) : option State :=
  match es with
  | [] => Some s
  | e :: es' => s' ← exec e s; run es' s'
  end.

(** A bus just created, with or without confirms, and a consumer in world [w]. *)
Definition initial (confirms : bool) (w : World) : State :=
  {| bus := Sys.initial confirms; world := w; groups := []; copies := ∅; acks := [] |}.

Lemma pub_initial c w : pub (initial c w) = Pub.initial c.
Proof. reflexivity. Qed.

(** ** Events, as rules *)

Inductive step (s : State) : Event -> State -> Prop :=
| step_bus e b :
    (forall j, e = Sys.Publisher (Pub.Spawn j) -> NoDup (used (pub s) ++ ids j)) ->
    Sys.exec e (bus s) = Some b -> step s (OnBus e) (s <| bus := b |>)
| step_start q n ch gs :
    gs = groups s ++ [new_group q ch n] -> step s (StartConsume q n) (s <| groups := gs |>)
| step_group k g e s' :
    groups s !! k = Some g -> group_exec k g e s = Some s' -> step s (InGroup k e) s'
| step_reset now w :
    w = snd (Cons.ResetCircuitBreaker now (world s)) ->
    step s (ResetCircuitBreaker now) (s <| world := w |>).

Lemma exec_step e s s' : exec e s = Some s' -> step s e s'.
Proof.
  intros He. unfold exec in He. destruct (Pub.crashed (pub s)); [done|]. destruct e as [e|q n|k e|now].
  - destruct (match e with Sys.Publisher (Pub.Spawn j) => new_ids j (pub s) | _ => true end) eqn:Ej;
      [|done]. destruct (Sys.exec e (bus s)) as [b|] eqn:Eb; [|done]. injection He as <-.
    apply step_bus; [|done]. intros j ->. by apply bool_decide_eq_true_1 in Ej.
  - destruct (Pub.closed _); [done|]. destruct (Pub.channel _) as [ch|]; [|done]. simpl in He.
    case_bool_decide; [done|]. injection He as <-. by eapply step_start.
  - destruct (groups s !! k) as [g|] eqn:Ek; [|done]. by eapply step_group.
  - injection He as <-. by apply step_reset.
Qed.

(** ** The steps of a worker, as rules *)

Abbreviation count hp d := (Msg.GetRetryCount hp {| Msg.Delivery := d |}).

(** [msg] is a retry of [d]: the message of [Retry.retry_message] for a count below the limit. *)
Definition copy_of (d : Delivery) (msg : PubApi.PublishMessage) : Prop :=
  exists hp now, (count hp d < maxRetries)%Z /\
    msg = Retry.retry_message hp d (int64 (count hp d + 1)) now.

(** The point of [Workers] at which a worker makes an ordinary step, and the acknowledgement
    that the step can make. *)
Inductive ordinary : wpc -> Workers.pc -> list (Delivery * Cause) -> Prop :=
| ordinary_at p : Workers.busy p = true -> (forall t d, p <> Workers.Retrying t d) ->
    ordinary (At p) p (ack_of p)
| ordinary_confirmed t d n :
    ordinary (Confirmed t d n) (Workers.Settling t d None) [(d, Requeued n)].

Inductive wstep (i : nat) (env : Env) (s : State) : wpc -> State -> wpc -> Prop :=
| step_ordinary p q c q' s' :
    ordinary p q c ->
    Workers.work router maxRetries (Z.of_nat i) env q (world s) = (q', world s') ->
    bus s' = bus s -> groups s' = groups s -> copies s' = copies s -> acks s' = acks s ++ c ->
    wstep i env s p s' (At q')
| step_exhausted t d s' :
    settled (world s') = settled (world s) ->
    bus s' = bus s -> groups s' = groups s -> copies s' = copies s -> acks s' = acks s ->
    wstep i env s (At (Workers.Retrying t d)) s'
      (At (Workers.Settling t d (Some (Sentinel ErrMaxRetriesExceeded))))
| step_publish t d msg s' :
    copy_of d msg ->
    Sys.exec (Sys.Publisher (Pub.Spawn (Pub.JPublish (PubApi.to_model (fresh_id (pub s)) msg))))
      (bus s) = Some (bus s') ->
    copies s' = <[length (Pub.threads (pub s)) := msg]> (copies s) ->
    settled (world s') = settled (world s) -> groups s' = groups s -> acks s' = acks s ->
    wstep i env s (At (Workers.Retrying t d)) s' (Publishing t d (length (Pub.threads (pub s))))
| step_confirmed t d n :
    returned n (pub s) = Some None -> wstep i env s (Publishing t d n) s (Confirmed t d n)
| step_refused t d n e :
    returned n (pub s) = Some (Some e) ->
    wstep i env s (Publishing t d n) s (At (Workers.Settling t d (Some e))).

Lemma work_step i env p s s' p' : work i env p s = Some (s', p') -> wstep i env s p s' p'.
Proof.
  intros Hw. destruct p as [q|t d n|t d n]; cbn -[Sys.exec Workers.work] in Hw.
  - assert ((exists t d, q = Workers.Retrying t d) \/ forall t d, q <> Workers.Retrying t d)
      as [(t & d & ->)|Hq] by (destruct q; eauto).
    + destruct (Z.lt_ge_cases (count (Retry.heap (base (world s))) d) maxRetries) as [Hlt|Hge].
      * destruct (Retry.prepare_message (t_retry env) d (Retry.NewHandler maxRetries) _ Hlt)
          as (hp & Hm & _ & E). rewrite E in Hw. cbn -[Sys.exec Workers.work] in Hw. rewrite Hm in Hw.
        destruct (Sys.exec _ (bus s)) as [b|] eqn:Eb; [|done]. injection Hw as <- <-.
        eapply step_publish; [|exact Eb|done..]. do 2 eexists. split; [exact Hlt|done].
      * rewrite Retry.prepare_exhausted in Hw by done. injection Hw as <- <-. by apply step_exhausted.
    + assert (Workers.busy q = true /\
        (let '(p', w) := Workers.work router maxRetries (Z.of_nat i) env q (world s) in
         let a := acks s ++ ack_of q in Some (s <| world := w |> <| acks := a |>, At p')) =
        Some (s', p')) as [Hb Hw'].
      { destruct q; try done. by destruct (Hq traceID delivery). }
      clear Hw. destruct (Workers.work _ _ _ _ _ _) as [q' w] eqn:Ew. injection Hw' as <- <-.
      eapply step_ordinary; [apply ordinary_at; eauto|exact Ew|done..].
  - destruct (returned n (pub s)) as [[e|]|] eqn:Er; [| |done]; injection Hw as <- <-;
      by constructor.
  - destruct (Workers.work _ _ _ _ _ _) as [q' w] eqn:Ew. injection Hw as <- <-.
    eapply step_ordinary; [apply ordinary_confirmed|exact Ew|done..].
Qed.

(** ** The calls behind the retries *)

(** Call [n] publishes a retry of [d] and is at [p]. *)
Definition call_of (s : State) (d : Delivery) (n : nat) (p : Pub.pc) : Prop :=
  exists msg k, copies s !! n = Some msg /\ copy_of d msg /\
    Pub.threads (pub s) !! n = Some (Pub.JPublish (PubApi.to_model k msg), p).

Definition published (s : State) (d : Delivery) (n : nat) : Prop :=
  call_of s d n (Pub.Returned (Pub.OPublish None)).

Definition worker_ok (s : State) (p : wpc) : Prop :=
  match p with
  | At (Workers.Settling _ _ None) => False
  | At _ => True
  | Publishing _ d n => exists p, call_of s d n p
  | Confirmed _ d n => published s d n
  end.

Definition acks_ok (s : State) (l : list (Delivery * Cause)) : Prop :=
  forall d n, (d, Requeued n) ∈ l -> published s d n.

(** The calls of the workers, and those that acknowledgements rest on. *)
Definition worker_call (p : wpc) : list nat :=
  match p with Publishing _ _ n | Confirmed _ _ n => [n] | At _ => [] end.

Definition group_calls (g : Group) : list nat := workers g ≫= worker_call.

Definition ack_calls (l : list (Delivery * Cause)) : list nat :=
  l ≫= (fun x => if x.2 is Requeued n then [n] else []).

Record inv (s : State) : Prop := {
  inv_workers : Forall (fun g => Forall (worker_ok s) (workers g)) (groups s);
  inv_acks : acks_ok s (acks s);
  inv_copies : forall n, is_Some (copies s !! n) -> n < length (Pub.threads (pub s));
  inv_calls : NoDup (ack_calls (acks s) ++ (groups s ≫= group_calls));
  inv_used : NoDup (used (pub s))
}.

(** What later states keep of the calls. *)
Record follows (s s' : State) : Prop := {
  fo_copies : copies s ⊆ copies s';
  fo_calls : exists new, keeps new (pub s) (pub s')
}.

Lemma follows_refl s s' : copies s' = copies s -> bus s' = bus s -> follows s s'.
Proof. intros E1 E2. split; [by rewrite E1|]. exists []. unfold pub. rewrite E2. apply keeps_refl. Qed.

Lemma call_follows s s' d n p : follows s s' -> call_of s d n p -> exists p', call_of s' d n p'.
Proof.
  intros [Hc [new Hk]] (msg & k & Hm & Hd & Ht). destruct (keeps_job _ _ _ _ _ _ Hk Ht) as [p' Hp].
  exists p', msg, k. split_and!; [by eapply lookup_weaken|done|done].
Qed.

Lemma published_follows s s' d n : follows s s' -> published s d n -> published s' d n.
Proof.
  intros [Hc [new Hk]] (msg & k & Hm & Hd & Ht). exists msg, k.
  split_and!; [by eapply lookup_weaken|done|]. by eapply kp_returned.
Qed.

Lemma worker_ok_follows s s' p : follows s s' -> worker_ok s p -> worker_ok s' p.
Proof.
  intros Hf. destruct p as [q|t d n|t d n]; simpl; [done| |by apply published_follows].
  intros [p Hp]. by eapply call_follows.
Qed.

Lemma acks_ok_follows s s' l : follows s s' -> acks_ok s l -> acks_ok s' l.
Proof. intros Hf Hl d n Hd. by eapply published_follows, Hl. Qed.

Lemma groups_ok_follows s s' l :
  follows s s' -> Forall (fun g => Forall (worker_ok s) (workers g)) l ->
  Forall (fun g => Forall (worker_ok s') (workers g)) l.
Proof.
  intros Hf Hl. eapply Forall_impl; [exact Hl|]. intros g Hg. eapply Forall_impl; [exact Hg|].
  intros p. by apply worker_ok_follows.
Qed.

Lemma call_bound s d n p : call_of s d n p -> n < length (Pub.threads (pub s)).
Proof. intros (msg & k & _ & _ & Ht). by eapply lookup_lt_Some. Qed.

Lemma calls_bound s n :
  inv s -> n ∈ ack_calls (acks s) ++ (groups s ≫= group_calls) -> n < length (Pub.threads (pub s)).
Proof.
  intros Hs [Hn|Hn]%elem_of_app.
  - apply list_elem_of_bind in Hn as ([d []] & Hn & Hd); simpl in Hn; [by apply elem_of_nil in Hn..|].
    apply list_elem_of_singleton in Hn as ->. eapply call_bound. by apply (inv_acks s Hs).
  - apply list_elem_of_bind in Hn as (g & Hn & Hg). apply list_elem_of_bind in Hn as (p & Hn & Hp).
    pose proof (inv_workers s Hs) as Hw. rewrite Forall_forall in Hw. specialize (Hw g Hg).
    rewrite Forall_forall in Hw. specialize (Hw p Hp).
    destruct p as [q|t d m|t d m]; simpl in Hn, Hw; [by apply elem_of_nil in Hn|..];
      apply list_elem_of_singleton in Hn as ->; [destruct Hw as [p Hw]|]; by eapply call_bound.
Qed.

Lemma fresh_id_new y : fresh_id y ∉ used y.
Proof. intros H%max_list_elem_of_le. unfold fresh_id in H. lia. Qed.

(** An ordinary step does not lead to the settlement of a retry. *)
Lemma ordinary_result workerID env q w q' w' :
  (forall t d, q <> Workers.Retrying t d) ->
  Workers.work router maxRetries workerID env q w = (q', w') -> forall s, worker_ok s (At q').
Proof.
  intros Hq Hw s. destruct q; simpl in Hw; cbv [mbind M_bind mret M_ret log settle on_breaker] in Hw.
  - by simplify_eq.
  - destruct (take_delivery_spec workerID env delivery w) as (t & d' & l & bs & E & _).
    rewrite E in Hw. by simplify_eq.
  - destruct (allowed_spec env w) as (ok & cb & E & _). rewrite E in Hw. simplify_eq. by destruct ok.
  - run_m. by simplify_eq.
  - destruct (Router.GetHandler _ router) as [h|]; [|by run_m; simplify_eq].
    destruct (h _ w) as [r w1]. simplify_eq. by destruct r.
  - run_m. by simplify_eq.
  - by destruct (Hq traceID delivery).
  - run_m. destruct retryErr as [e|]; simpl in Hw; [destruct (search _ e)|]; by simplify_eq.
  - run_m. destruct (ack_error env); by simplify_eq.
  - run_m. by simplify_eq.
  - by simplify_eq.
Qed.

(** The calls [l] become [l']: some are given up, acknowledgements [c] rest on others, and
    the one started last is new. *)
Definition moves (s : State) (c : list (Delivery * Cause)) (l l' : list nat) : Prop :=
  exists gone new, gone ++ ack_calls c ++ l' ≡ₚ new ++ l /\
    (new = [] \/ new = [length (Pub.threads (pub s))]).

(** What a worker's step leaves to the others, and to itself. *)
Record step_ok (s : State) (p : wpc) (s' : State) (p' : wpc) : Prop := {
  so_groups : groups s' = groups s;
  so_follows : follows s s';
  so_worker : worker_ok s' p';
  so_copies : forall n, is_Some (copies s' !! n) -> n < length (Pub.threads (pub s'));
  so_used : NoDup (used (pub s'));
  so_acks : exists c, acks s' = acks s ++ c /\ acks_ok s' c /\
    moves s c (worker_call p) (worker_call p')
}.

Lemma returned_spec n y e :
  returned n y = Some e -> exists j, Pub.threads y !! n = Some (j, Pub.Returned (Pub.OPublish e)).
Proof.
  unfold returned. destruct (Pub.threads y !! n) as [[j []]|]; try done.
  destruct o; [|done]. intros [= ->]. eauto.
Qed.

(** A step that starts no call. *)
Lemma step_ok_same s p s' p' c :
  inv s -> bus s' = bus s -> groups s' = groups s -> copies s' = copies s ->
  acks s' = acks s ++ c -> worker_ok s' p' -> acks_ok s' c ->
  moves s c (worker_call p) (worker_call p') -> step_ok s p s' p'.
Proof.
  intros Hs Hb Hg Hc Ha Hw Hk Hd. pose proof (follows_refl s s' Hc Hb) as Hf.
  split; unfold pub; rewrite ?Hb, ?Hc; try done; try apply Hs. by exists c.
Qed.

Lemma ordinary_calls s p q c : worker_ok s p -> ordinary p q c ->
  worker_call p = ack_calls c /\ acks_ok s c.
Proof.
  intros Hp Ho. destruct Ho as [q' _ _|t d n]; simpl in Hp.
  - assert (forall d n, (d, Requeued n) ∉ ack_of q') as Hn.
    { intros d n Hd. destruct q'; simpl in Hd; [..|destruct (Router.GetHandler _ router)| | | | | |];
        by rewrite ?list_elem_of_singleton, ?elem_of_nil in Hd. }
    split; [|intros d n Hd; by destruct (Hn d n)]. destruct q'; simpl; try done.
    by destruct (Router.GetHandler _ router).
  - split; [done|]. intros d' n' [= -> ->]%list_elem_of_singleton. done.
Qed.

Lemma wstep_ok i env s p s' p' :
  inv s -> worker_ok s p -> wstep i env s p s' p' -> step_ok s p s' p'.
Proof.
  intros Hs Hp Hw. destruct Hw as [p q c q' s' Ho Hw Hb Hg Hc Ha|t d s' _ Hb Hg Hc Ha
    |t d msg s' Hd Hb Hc _ Hg Ha|t d n Hr|t d n e Hr].
  - destruct (ordinary_calls s p q c Hp Ho) as [Hcall Hk].
    eapply (step_ok_same s p s' _ c); try done.
    + destruct Ho as [q _ Hq|t d n]; [by eapply ordinary_result|].
      by eapply (ordinary_result _ _ (Workers.Settling t d None)).
    + eapply acks_ok_follows; [by apply follows_refl|done].
    + exists [], []. rewrite Hcall. simpl. rewrite app_nil_r. auto.
  - apply (step_ok_same _ _ _ _ []); try done; [by rewrite app_nil_r|by intros ?? ?%elem_of_nil|].
    exists [], []. auto.
  - pose proof (bus_keeps _ _ _ Hb) as Hk. simpl in Hk.
    pose proof (kp_jobs _ _ _ Hk) as Hj. apply (f_equal length) in Hj as Hl.
    rewrite length_app, !length_fmap in Hl. simpl in Hl.
    assert (copies s !! length (Pub.threads (pub s)) = None) as Hnone.
    { destruct (copies s !! _) eqn:E; [|done]. pose proof (inv_copies s Hs _ (mk_is_Some _ _ E)). lia. }
    assert (follows s s') as Hf.
    { split; [rewrite Hc; by apply insert_subseteq|eauto]. }
    split; [done|done| | | |].
    + simpl. exists Pub.PStart, msg, (fresh_id (pub s)).
      split_and!; [by rewrite Hc, lookup_insert_eq|done|].
      change (pub s') with (Sys.pb (bus s')). rewrite (bus_spawn _ _ _ Hb). by apply list_lookup_middle.
    + intros m [x Hx]. rewrite Hc in Hx. unfold pub. rewrite Hl. unfold pub in *.
      apply lookup_insert_Some in Hx as [[<- _]|[_ Hx]]; [lia|].
      pose proof (inv_copies s Hs m (mk_is_Some _ _ Hx)). unfold pub in *. lia.
    + unfold pub. rewrite (keeps_used _ _ _ Hk). simpl. apply NoDup_app. split_and!; [apply Hs| |].
      * intros x Hx ->%list_elem_of_singleton. by apply (fresh_id_new (pub s)).
      * apply NoDup_singleton.
    + exists []. split_and!; [by rewrite app_nil_r|by intros ?? ?%elem_of_nil|].
      exists [], [length (Pub.threads (pub s))]. auto.
  - destruct (returned_spec _ _ _ Hr) as [j Hj]. destruct Hp as (p & msg & k & Hm & Hd & Ht).
    eapply (step_ok_same _ _ _ _ []); try done;
      [by rewrite app_nil_r| |by intros ?? ?%elem_of_nil|by exists [], []; auto].
    exists msg, k. rewrite Hj in Ht. injection Ht as -> _. by split_and!.
  - eapply (step_ok_same _ _ _ _ []); try done; [by rewrite app_nil_r|by intros ?? ?%elem_of_nil|].
    exists [n], []. auto.
Qed.

(** *** Along a run *)

Lemma ack_calls_app l1 l2 : ack_calls (l1 ++ l2) = ack_calls l1 ++ ack_calls l2.
Proof. apply bind_app. Qed.

(** One group changes. *)
Lemma inv_move s s' k g g' c :
  inv s -> groups s !! k = Some g -> groups s' = <[k := g']> (groups s) -> follows s s' ->
  Forall (worker_ok s') (workers g') ->
  (forall n, is_Some (copies s' !! n) -> n < length (Pub.threads (pub s'))) ->
  NoDup (used (pub s')) -> acks s' = acks s ++ c -> acks_ok s' c ->
  moves s c (group_calls g) (group_calls g') -> inv s'.
Proof.
  intros Hs Hk Hg Hf Hw Hc Hu Ha Hac (gone & new & Hm & Hnew).
  split; [|rewrite Ha|done|rewrite Ha, Hg|done].
  - rewrite Hg. apply Forall_insert; [|done]. eapply groups_ok_follows; [done|apply Hs].
  - intros d n [Hd|Hd]%elem_of_app; [|by apply Hac].
    eapply published_follows; [done|]. by apply (inv_acks s Hs).
  - destruct (Workers.bind_insert group_calls _ _ _ Hk) as (rest & E1 & E2).
    assert (NoDup (new ++ ack_calls (acks s) ++ (groups s ≫= group_calls))) as Hnd.
    { pose proof (inv_calls s Hs). destruct Hnew as [->| ->]; [done|]. apply NoDup_cons.
      split; [|done]. intros Hn%calls_bound; [lia|done]. }
    rewrite E1 in Hnd. rewrite E2, ack_calls_app.
    assert (gone ++ (ack_calls (acks s) ++ ack_calls c) ++ group_calls g' ++ rest ≡ₚ
      new ++ ack_calls (acks s) ++ group_calls g ++ rest) as Hp.
    { transitivity (ack_calls (acks s) ++ (gone ++ ack_calls c ++ group_calls g') ++ rest);
        [solve_Permutation|]. rewrite Hm. solve_Permutation. }
    rewrite <- Hp in Hnd. by apply NoDup_app in Hnd as (_ & _ & ?).
Qed.

(** A group changes without its calls. *)
Lemma inv_set_group s k g g' :
  inv s -> groups s !! k = Some g -> Forall (worker_ok s) (workers g') ->
  group_calls g' ≡ₚ group_calls g -> inv (set_group k g' s).
Proof.
  intros Hs Hk Hw Hc. apply (inv_move s _ k g g' []); try done; try apply Hs.
  - by apply follows_refl.
  - simpl. by rewrite app_nil_r.
  - by intros ?? ?%elem_of_nil.
  - exists [], []. auto.
Qed.

(** A worker at a point without a call goes to another. *)
Lemma inv_set_worker s k g i q q' ds o ar :
  inv s -> groups s !! k = Some g -> workers g !! i = Some (At q) -> worker_ok s (At q') ->
  inv (set_group k {| queue := queue g; source := source g; deliveries := ds; is_open := o;
    workers := <[i := At q']> (workers g); arrived := ar |} s).
Proof.
  intros Hs Hk Hi Hq. eapply inv_set_group; [done|done| |].
  - simpl. apply Forall_insert; [|done]. exact (Forall_lookup_1 _ _ _ _ (inv_workers s Hs) Hk).
  - destruct (Workers.bind_insert worker_call _ _ _ Hi) as (rest & E1 & E2).
    unfold group_calls. simpl. by rewrite E2, E1.
Qed.

Lemma inv_group_exec k g e s s' :
  inv s -> groups s !! k = Some g -> group_exec k g e s = Some s' -> inv s'.
Proof.
  intros Hs Hk He. pose proof (Forall_lookup_1 _ _ _ _ (inv_workers s Hs) Hk) as Hg.
  destruct e as [d| |i|i|i env]; simpl in He.
  - destruct (_ && _); [|done]. injection He as <-. by eapply inv_set_group.
  - destruct (_ && _); [|done]. injection He as <-. by eapply inv_set_group.
  - destruct (workers g !! i) as [[[]| |]|] eqn:Ei; try done. destruct (deliveries g); [done|].
    injection He as <-. by eapply inv_set_worker.
  - destruct (workers g !! i) as [[[]| |]|] eqn:Ei; try done. destruct (deliveries g) eqn:Ed; [|done].
    destruct (is_open g) eqn:Eo; [done|]. injection He as <-. by eapply inv_set_worker.
  - destruct (workers g !! i) as [p|] eqn:Ei; [|done]. simpl in He.
    destruct (work i env p s) as [[s1 p']|] eqn:Ew; [|done]. injection He as <-.
    apply work_step, (wstep_ok _ _ _ _ _ _ Hs (Forall_lookup_1 _ _ _ _ Hg Ei)) in Ew.
    destruct Ew as [Eg Hf Hp Hc Hu (c & Ha & Hac & gone & new & Hm & Hn)].
    assert (follows s1 (set_group k (with_workers (<[i := p']> (workers g)) g) s1)) as Hf1
      by by apply follows_refl.
    destruct (Workers.bind_insert worker_call _ _ _ Ei) as (rest & E1 & E2).
    eapply (inv_move s _ k g _ c); [done|done|simpl; by rewrite Eg|by destruct Hf; split| |done..|].
    + simpl. apply Forall_insert; [|done]. eapply Forall_impl; [exact Hg|].
      intros x Hx. eapply worker_ok_follows; [exact Hf1|]. by eapply worker_ok_follows.
    + exists gone, new. split; [|done]. unfold group_calls. simpl. rewrite E1, E2, !app_assoc.
      rewrite <- Hm. by rewrite !app_assoc.
Qed.

Lemma inv_exec e s s' : inv s -> exec e s = Some s' -> inv s'.
Proof.
  intros Hs He. apply exec_step in He. destruct He as [e b Hj Eb|q n ch gs ->|k g e s' Ek He|now w _].
  - pose proof (bus_keeps _ _ _ Eb) as Hk. set (s' := s <| bus := b |>).
    assert (follows s s') as Hf by (split; [done|eauto]).
    split; simpl.
    + eapply groups_ok_follows; [done|apply Hs].
    + eapply acks_ok_follows; [done|apply Hs].
    + intros n Hn. apply (inv_copies s Hs) in Hn. pose proof (kp_jobs _ _ _ Hk) as Hl.
      apply (f_equal length) in Hl. rewrite length_app, !length_fmap in Hl.
      unfold pub in *. simpl. lia.
    + apply Hs.
    + unfold pub. simpl. rewrite (keeps_used _ _ _ Hk).
      destruct e as [e|[]]; simpl; rewrite ?app_nil_r; try apply Hs. by apply Hj.
  - split; simpl; try apply Hs.
    + apply Forall_app. split; [by apply Hs|]. apply Forall_singleton. simpl.
      by apply Forall_replicate.
    + rewrite bind_app. simpl. rewrite app_nil_r.
      replace (group_calls _) with (@nil nat); [rewrite app_nil_r; apply Hs|].
      unfold group_calls. simpl. by induction n.
  - by eapply inv_group_exec.
  - by destruct Hs.
Qed.

Lemma inv_run es s s' : inv s -> run es s = Some s' -> inv s'.
Proof.
  revert s. induction es as [|e es IH]; intros s Hs Hr; simpl in Hr; [by simplify_eq|].
  destruct (exec e s) as [s1|] eqn:E; [|done]. eauto using inv_exec.
Qed.

Lemma inv_initial c w : inv (initial c w).
Proof.
  split; simpl; try done.
  - by intros ?? ?%elem_of_nil.
  - intros n [x Hx]. by rewrite lookup_empty in Hx.
  - constructor.
  - rewrite pub_initial. destruct c; constructor.
Qed.

(** ** Conservation *)

Section Conservation.
Hypothesis polite_handlers : forall t h, Router.GetHandler t router = Some h -> polite h.

Definition owes (p : wpc) : list Z :=
  match p with
  | At p => Workers.owes p
  | Publishing _ d _ | Confirmed _ d _ => [d_DeliveryTag d]
  end.

(** The deliveries of a group that are not settled, and all it has had. *)
Definition unsettled (g : Group) : list Z :=
  (workers g ≫= owes) ++ (d_DeliveryTag <$> deliveries g).

Definition received (g : Group) : list Z := d_DeliveryTag <$> arrived g.

Definition ack_tags (l : list (Delivery * Cause)) : list Z := (d_DeliveryTag ∘ fst) <$> l.

(** Settlements [ss] and acknowledgements [c] are added between two states. *)
Record adds (s s' : State) (ss : list Msg.Settle) (c : list (Delivery * Cause)) : Prop := {
  ad_settled : settled (world s') = settled (world s) ++ ss;
  ad_acks : acks s' = acks s ++ c;
  ad_acked : Workers.acked ss = ack_tags c;
  ad_kept : Forall (fun x => Workers.requeues x = false) ss
}.

Lemma adds_nothing s s' :
  settled (world s') = settled (world s) -> acks s' = acks s -> adds s s' [] [].
Proof. intros E1 E2. split; by rewrite ?E1, ?E2, ?app_nil_r. Qed.

Lemma adds_trans s1 s2 s3 ss1 ss2 c1 c2 :
  adds s1 s2 ss1 c1 -> adds s2 s3 ss2 c2 -> adds s1 s3 (ss1 ++ ss2) (c1 ++ c2).
Proof.
  intros [S1 A1 K1 F1] [S2 A2 K2 F2]. split.
  - by rewrite S2, S1, app_assoc.
  - by rewrite A2, A1, app_assoc.
  - unfold Workers.acked, ack_tags in *. by rewrite bind_app, fmap_app, K1, K2.
  - by apply Forall_app.
Qed.

Lemma ordinary_acked s p q c :
  worker_ok s p -> ordinary p q c ->
  ack_tags c = Workers.acknowledges router q /\ Workers.owes q = owes p.
Proof.
  intros Hp Ho. destruct Ho as [q _ _|t d n]; [|done]. split; [|done].
  destruct q; simpl in *; try done; [|by destruct retryErr].
  by destruct (Router.GetHandler _ router).
Qed.

Lemma wstep_owes i env s p s' p' :
  worker_ok s p -> wstep i env s p s' p' ->
  exists ss c, adds s s' ss c /\ owes p = (Workers.settle_tag <$> ss) ++ owes p'.
Proof.
  intros Hp Hw. destruct Hw as [p q c q' s' Ho Hw Hb Hg Hc Ha|t d s' Hs Hb Hg Hc Ha
    |t d msg s' Hd Hb Hc Hs Hg Ha|t d n Hr|t d n e Hr];
    [|exists [], []; split; [by apply adds_nothing|done]..].
  destruct (Workers.work_owes _ _ polite_handlers _ _ _ _ _ _ Hw) as (ss & Hs & Hq & Hf & Hk).
  destruct (ordinary_acked s p q c Hp Ho) as [Hc' Ho']. rewrite Ho' in Hq.
  exists ss, c. split; [|done]. split; [done|done|congruence|done].
Qed.

(** One event of a group. *)
Lemma group_exec_account k g e s s' :
  inv s -> groups s !! k = Some g -> group_exec k g e s = Some s' ->
  exists ss c g' new, adds s s' ss c /\ groups s' = <[k := g']> (groups s) /\
    received g' = received g ++ new /\
    (Workers.settle_tag <$> ss) ++ unsettled g' ≡ₚ unsettled g ++ new.
Proof.
  intros Hs Hk He. destruct e as [d| |i|i|i env]; simpl in He.
  - destruct (_ && _); [|done]. injection He as <-. eexists [], [], _, [d_DeliveryTag d].
    split_and!; [by apply adds_nothing|done| |]; unfold received, unsettled; simpl; rewrite fmap_app.
    + done.
    + by rewrite <- app_assoc.
  - destruct (_ && _); [|done]. injection He as <-. eexists [], [], _, [].
    split_and!; [by apply adds_nothing|done| |]; by rewrite app_nil_r.
  - destruct (workers g !! i) as [[[]| |]|] eqn:Ei; try done.
    destruct (deliveries g) as [|d ds] eqn:Ed; [done|]. injection He as <-. eexists [], [], _, [].
    split_and!; [by apply adds_nothing|done|by rewrite app_nil_r|]. rewrite app_nil_r.
    destruct (Workers.bind_insert owes _ _ _ Ei) as (rest & E1 & E2).
    unfold unsettled. simpl. rewrite E2, E1, Ed. simpl. apply Permutation_middle.
  - destruct (workers g !! i) as [[[]| |]|] eqn:Ei; try done.
    destruct (deliveries g) eqn:Ed; [|done]. destruct (is_open g); [done|]. injection He as <-.
    eexists [], [], _, []. split_and!; [by apply adds_nothing|done|by rewrite app_nil_r|].
    rewrite app_nil_r. destruct (Workers.bind_insert owes _ _ _ Ei) as (rest & E1 & E2).
    unfold unsettled. simpl. by rewrite E2, E1.
  - destruct (workers g !! i) as [p|] eqn:Ei; [|done]. simpl in He.
    destruct (work i env p s) as [[s1 p']|] eqn:Ew; [|done]. injection He as <-.
    pose proof (Forall_lookup_1 _ _ _ _ (inv_workers s Hs) Hk) as Hg.
    pose proof (Forall_lookup_1 _ _ _ _ Hg Ei) as Hp. apply work_step in Ew.
    destruct (wstep_ok _ _ _ _ _ _ Hs Hp Ew) as [Eg _ _ _ _ _].
    destruct (wstep_owes _ _ _ _ _ _ Hp Ew) as (ss & c & Had & Ho).
    eexists ss, c, _, []. split_and!.
    + by destruct Had.
    + simpl. by rewrite Eg.
    + by rewrite app_nil_r.
    + rewrite app_nil_r. destruct (Workers.bind_insert owes _ _ _ Ei) as (rest & E1 & E2).
      unfold unsettled. simpl. by rewrite E2, E1, Ho, <- !app_assoc.
Qed.

(** Every delivery that arrived is settled, in a worker's hands or still in a channel, and
    every acknowledgement is accounted for. *)
Definition conserved (w0 : World) (s : State) : Prop :=
  exists ss, settled (world s) = settled w0 ++ ss /\
    (Workers.settle_tag <$> ss) ++ (groups s ≫= unsettled) ≡ₚ groups s ≫= received /\
    Workers.acked ss = ack_tags (acks s) /\ Forall (fun x => Workers.requeues x = false) ss.

Lemma service_exec_conserved w0 e s s' :
  inv s -> conserved w0 s -> exec e s = Some s' -> conserved w0 s'.
Proof.
  intros Hi (ss & Hs & Hp & Ha & Hr) He. apply exec_step in He.
  destruct He as [e b _ _|q n ch gs ->|k g e s' Ek He|now w ->];
    [| | |exists ss; simpl; by rewrite reset_settled].
  - by exists ss.
  - exists ss. simpl. split_and!; [done| |done..]. rewrite !bind_app. simpl. rewrite !app_nil_r.
    replace (unsettled _) with (@nil Z); [by rewrite app_nil_r|]. unfold unsettled. simpl.
    rewrite app_nil_r. by induction n.
  - destruct (group_exec_account k g e s s' Hi Ek He)
      as (ss' & c & g' & new & [S1 A1 K1 F1] & Hg & Hrec & Hu).
    exists (ss ++ ss'). split_and!.
    + by rewrite S1, Hs, app_assoc.
    + rewrite Hg, fmap_app. by eapply (Workers.insert_account unsettled received).
    + unfold Workers.acked, ack_tags in *. by rewrite A1, bind_app, fmap_app, K1, Ha.
    + by apply Forall_app.
Qed.

Lemma run_service_conserved w0 es s s' :
  inv s -> conserved w0 s -> run es s = Some s' -> conserved w0 s'.
Proof.
  revert s. induction es as [|e es IH]; intros s Hi Hs Hr; simpl in Hr; [by simplify_eq|].
  destruct (exec e s) as [s1|] eqn:E; [|done]. eauto using inv_exec, service_exec_conserved.
Qed.

(** *** Reasons *)

(** Given the worlds [seen] so far: the handler for [d] ran in one of them and returned [r]. *)
Definition outcome (seen : World -> Prop) (d : Delivery) (r : option error) : Prop :=
  exists h w, seen w /\ Router.GetHandler (type_of d) router = Some h /\
    fst (h {| Msg.Delivery := d |} w) = r.

(** [d] is one of the deliveries [l], but for the header map the worker gave it. *)
Definition came (l : list Delivery) (d : Delivery) : Prop := exists d0, d0 ∈ l /\ same_message d0 d.

Definition hand (p : wpc) : option Delivery :=
  match p with
  | At (Workers.Idle | Workers.Recording | Workers.Gone) => None
  | At (Workers.Trace d | Workers.Allow _ d | Workers.Reject _ d | Workers.Execute _ d
       | Workers.Failed _ d _ | Workers.Retrying _ d | Workers.Settling _ d _
       | Workers.Succeeded _ d) | Publishing _ d _ | Confirmed _ d _ => Some d
  end.

(** What has happened when a worker is where it is. *)
Definition reason (seen : World -> Prop) (p : wpc) : Prop :=
  match p with
  | At (Workers.Succeeded _ d) => outcome seen d None
  | At (Workers.Failed _ d e) => outcome seen d (Some e)
  | At (Workers.Retrying _ d | Workers.Settling _ d _) | Publishing _ d _ | Confirmed _ d _ =>
      exists e, outcome seen d (Some e)
  | At _ => True
  end.

(** Why [d] was acknowledged. *)
Definition justified (seen : World -> Prop) (d : Delivery) (c : Cause) : Prop :=
  match c with
  | Handled => outcome seen d None
  | Unrouted => Router.GetHandler (type_of d) router = None
  | Requeued _ => exists e, outcome seen d (Some e)
  end.

Definition reasoned (seen : World -> Prop) (l : list Delivery) (p : wpc) : Prop :=
  (forall d, hand p = Some d -> came l d) /\ reason seen p.

Record reasons (seen : World -> Prop) (s : State) : Prop := {
  re_groups : Forall (fun g => deliveries g ⊆ arrived g /\
    Forall (reasoned seen (arrived g)) (workers g)) (groups s);
  re_acks : forall d c, (d, c) ∈ acks s ->
    justified seen d c /\ exists g, g ∈ groups s /\ came (arrived g) d
}.

Lemma outcome_mono (seen seen' : World -> Prop) d r :
  (forall w, seen w -> seen' w) -> outcome seen d r -> outcome seen' d r.
Proof. intros H (h & w & Hw & Hh & Hr). exists h, w. eauto. Qed.

Lemma reasoned_mono (seen seen' : World -> Prop) l l' p :
  (forall w, seen w -> seen' w) -> l ⊆ l' -> reasoned seen l p -> reasoned seen' l' p.
Proof.
  intros H Hl [Hc Hr]. split.
  - intros d Hd. destruct (Hc d Hd) as (d0 & H0 & Hs). exists d0. auto.
  - destruct p as [[]| |]; simpl in *; try done; try (by eapply outcome_mono);
      destruct Hr as [e Hr]; exists e; by eapply outcome_mono.
Qed.

Lemma reasons_mono (seen seen' : World -> Prop) s :
  (forall w, seen w -> seen' w) -> reasons seen s -> reasons seen' s.
Proof.
  intros H [Hg Ha]. split.
  - eapply Forall_impl; [exact Hg|]. intros g [Hd Hw]. split; [done|].
    eapply Forall_impl; [exact Hw|]. intros p. by apply reasoned_mono.
  - intros d c Hd. destruct (Ha d c Hd) as [Hj Hc]. split; [|done].
    destruct c; simpl in *; [by eapply outcome_mono|done|].
    destruct Hj as [e Hj]. exists e. by eapply outcome_mono.
Qed.

(** A step of [Workers] has its reason, and so has the acknowledgement it makes. *)
Lemma ordinary_reasoned (seen : World -> Prop) l workerID env q w q' w' :
  seen w -> reasoned seen l (At q) ->
  Workers.work router maxRetries workerID env q w = (q', w') ->
  reasoned seen l (At q') /\ forall d c, (d, c) ∈ ack_of q -> hand (At q) = Some d /\ justified seen d c.
Proof.
  intros Hw [Hc Hr] E. destruct q; simpl in E, Hr;
    cbv [mbind M_bind mret M_ret log settle on_breaker] in E;
    (split; [|try (by intros ?? ?%elem_of_nil)]).
  - by simplify_eq.
  - destruct (take_delivery_spec workerID env delivery w) as (t & d' & l' & bs & E' & Hs & _).
    rewrite E' in E. simplify_eq. split; [|done]. intros d [= <-].
    destruct (Hc delivery eq_refl) as (d0 & H0 & Hs0). exists d0. split; [done|].
    unfold same_message in *. by destruct Hs as (-> & -> & -> & -> & ->).
  - destruct (allowed_spec env w) as (ok & cb & E' & _). rewrite E' in E. simplify_eq.
    by destruct ok.
  - run_m. by simplify_eq.
  - destruct (Router.GetHandler _ router) as [h|] eqn:Eh; [|by run_m; simplify_eq].
    destruct (h _ w) as [r w1] eqn:Ex. simplify_eq. 
    assert (outcome seen delivery r) as Ho by (exists h, w; rewrite Ex; by split_and!).
    by destruct r.
  - simpl. destruct (Router.GetHandler _ router) eqn:Eh; [by intros ?? ?%elem_of_nil|].
    by intros d c [= -> ->]%list_elem_of_singleton.
  - run_m. simplify_eq. split; [done|]. simpl. eauto.
  - destruct (on_base _ w) as [re w1]. by simplify_eq.
  - run_m. destruct retryErr as [e|]; simpl in E; [destruct (search _ e)|]; by simplify_eq.
  - run_m. destruct (ack_error env); by simplify_eq.
  - by intros d c [= -> ->]%list_elem_of_singleton.
  - run_m. by simplify_eq.
  - by simplify_eq.
Qed.

(** So has every step of a worker. *)
Lemma wstep_reasoned (seen : World -> Prop) l i env s p s' p' :
  seen (world s) -> reasoned seen l p -> wstep i env s p s' p' ->
  reasoned seen l p' /\ exists c, acks s' = acks s ++ c /\
    forall d x, (d, x) ∈ c -> hand p = Some d /\ justified seen d x.
Proof.
  intros Hw Hp Hst. destruct Hst as [p q c q' s' Ho E _ _ _ Ha|t d s' _ _ _ _ Ha
    |t d msg s' _ _ _ _ _ Ha|t d n _|t d n e _];
    [|split; [done|]; exists []; split; [by rewrite ?Ha, app_nil_r|by intros ?? ?%elem_of_nil]..].
  assert (reasoned seen l (At q)) as Hq by by destruct Ho.
  destruct (ordinary_reasoned _ _ _ _ _ _ _ _ Hw Hq E) as [Hq' Hj]. split; [done|].
  exists c. split; [done|]. destruct Ho as [q _ _|t d n]; [done|].
  intros d' x [= -> ->]%list_elem_of_singleton. by destruct Hq.
Qed.

(** One group changes, its deliveries are kept, and acknowledgements [c] are added. *)
Lemma reasons_move (seen : World -> Prop) s s' k g g' c :
  reasons seen s -> groups s !! k = Some g -> groups s' = <[k := g']> (groups s) ->
  arrived g ⊆ arrived g' -> deliveries g' ⊆ arrived g' ->
  Forall (reasoned seen (arrived g')) (workers g') -> acks s' = acks s ++ c ->
  (forall d x, (d, x) ∈ c -> justified seen d x /\ came (arrived g') d) -> reasons seen s'.
Proof.
  intros [Hg Ha] Hk Eg Hsub Hd Hw Ea Hc.
  assert (g' ∈ groups s') as Hin.
  { rewrite Eg. apply list_elem_of_lookup. exists k. apply list_lookup_insert_eq.
    by eapply lookup_lt_Some. }
  split.
  - rewrite Eg. by apply Forall_insert.
  - intros d x. rewrite Ea. intros [Hx|Hx]%elem_of_app; [|destruct (Hc d x Hx); eauto].
    destruct (Ha d x Hx) as (Hj & g0 & H0 & d0 & Hd0 & Hs). split; [done|].
    apply list_elem_of_lookup in H0 as [k0 Hk0].
    destruct (decide (k0 = k)) as [->|Hne].
    + simplify_eq. exists g'. split; [done|]. exists d0. auto.
    + exists g0. split; [|by exists d0]. rewrite Eg. apply list_elem_of_lookup. exists k0.
      by rewrite list_lookup_insert_ne.
Qed.

(** A group changes and nothing is acknowledged. *)
Lemma reasons_set_group (seen : World -> Prop) s k g g' :
  reasons seen s -> groups s !! k = Some g -> arrived g ⊆ arrived g' ->
  deliveries g' ⊆ arrived g' -> Forall (reasoned seen (arrived g')) (workers g') ->
  reasons seen (set_group k g' s).
Proof.
  intros Hr Hk Hsub Hd Hw. eapply (reasons_move seen s _ k g g' []); try done.
  - by rewrite app_nil_r.
  - by intros ?? ?%elem_of_nil.
Qed.

Lemma reasons_group_exec (seen : World -> Prop) k g e s s' :
  inv s -> seen (world s) -> reasons seen s -> groups s !! k = Some g ->
  group_exec k g e s = Some s' -> reasons seen s'.
Proof.
  intros Hs Hseen Hr Hk He.
  destruct (Forall_lookup_1 _ _ _ _ (re_groups _ _ Hr) Hk) as [Hd Hw].
  destruct e as [d| |i|i|i env]; simpl in He.
  - destruct (_ && _); [|done]. injection He as <-. eapply reasons_set_group; [done..| | |]; simpl.
    + intros x Hx. apply elem_of_app. by left.
    + intros x [Hx|Hx]%elem_of_app; apply elem_of_app; [left; by apply Hd|by right].
    + eapply Forall_impl; [exact Hw|]. intros p. apply reasoned_mono; [done|].
      intros x Hx. apply elem_of_app. by left.
  - destruct (_ && _); [|done]. injection He as <-. by eapply reasons_set_group.
  - destruct (workers g !! i) as [[[]| |]|] eqn:Ei; try done.
    destruct (deliveries g) as [|d ds] eqn:Ed; [done|]. injection He as <-.
    eapply reasons_set_group; [done|done|done| |]; simpl.
    + intros x Hx. apply Hd. by right.
    + apply Forall_insert; [done|]. split; [|done]. intros d0 [= <-]. exists d.
      split; [apply Hd; left|done].
  - destruct (workers g !! i) as [[[]| |]|] eqn:Ei; try done. destruct (deliveries g) eqn:Ed; [|done].
    destruct (is_open g); [done|]. injection He as <-.
    eapply reasons_set_group; [done|done|done|by rewrite <- Ed in Hd|]. simpl. by apply Forall_insert.
  - destruct (workers g !! i) as [p|] eqn:Ei; [|done]. simpl in He.
    destruct (work i env p s) as [[s1 p']|] eqn:Ew; [|done]. injection He as <-. apply work_step in Ew.
    pose proof (Forall_lookup_1 _ _ _ _ Hw Ei) as Hp.
    destruct (wstep_reasoned _ _ _ _ _ _ _ _ Hseen Hp Ew) as (Hp' & c & Ha & Hj).
    pose proof (Forall_lookup_1 _ _ _ _ (inv_workers s Hs) Hk) as Hok.
    destruct (wstep_ok _ _ _ _ _ _ Hs (Forall_lookup_1 _ _ _ _ Hok Ei) Ew) as [Eg _ _ _ _ _].
    eapply (reasons_move seen s _ k g _ c); [done|done|simpl; by rewrite Eg|done|done| |done|].
    + simpl. by apply Forall_insert.
    + intros d x Hx. destruct (Hj d x Hx) as [Hh Hx']. split; [done|]. by apply Hp.
Qed.

Lemma reasons_exec (seen : World -> Prop) e s s' :
  inv s -> seen (world s) -> reasons seen s -> exec e s = Some s' -> reasons seen s'.
Proof.
  intros Hs Hseen Hr He. apply exec_step in He.
  destruct He as [e b _ _|q n ch gs ->|k g e s' Ek He|now w _]; [by destruct Hr| | |by destruct Hr].
  - destruct Hr as [Hg Ha]. split; simpl.
    + apply Forall_app. split; [done|]. apply Forall_singleton. split; [done|].
      simpl. by apply Forall_replicate.
    + intros d c Hd. destruct (Ha d c Hd) as (Hj & g & Hin & Hc). split; [done|].
      exists g. split; [|done]. apply elem_of_app. by left.
  - by eapply reasons_group_exec.
Qed.

(** The worlds of the states that run [es] from [s] goes through. *)
Definition past (es : list Event) (s : State) (w : World) : Prop :=
  exists es1 es2 s1, es = es1 ++ es2 /\ run es1 s = Some s1 /\ w = world s1.

Lemma run_reasons es (seen : World -> Prop) s s' :
  inv s -> reasons seen s -> run es s = Some s' -> reasons (fun w => seen w \/ past es s w) s'.
Proof.
  revert seen s. induction es as [|e es IH]; intros seen s Hs Hr Hrun; simpl in Hrun.
  { simplify_eq. eapply reasons_mono; [|done]. by left. }
  destruct (exec e s) as [s1|] eqn:E; [|done]. simpl in Hrun.
  assert (reasons (fun w => seen w \/ w = world s) s1) as H1.
  { eapply reasons_exec; [done|by right| |done]. eapply reasons_mono; [|done]. by left. }
  apply (reasons_mono _ (fun w => seen w \/ past (e :: es) s w)) in H1.
  - eapply reasons_mono; [|exact (IH _ _ (inv_exec _ _ _ Hs E) H1 Hrun)].
    intros w [Hw|(es1 & es2 & s2 & -> & H2 & ->)]; [done|]. right. exists (e :: es1), es2, s2.
    simpl. by rewrite E.
  - intros w [Hw|Hw]; [by left|]. right. exists [], (e :: es), s. done.
Qed.

(** C4: no delivery is lost or settled twice on a whole bus, with or without confirms.  Under
    every interleaving of the workers of any number of queues, of the retries they publish, of
    the application's calls and resets of the breaker, of the confirmation processors, the broker
    and the reconnections: at any moment the tags settled, the tags in the workers' hands (also
    of those that wait for the publication of a retry) and the tags in the channels together are
    exactly the tags that arrived; nothing is requeued; and every delivery acknowledged is one
    that arrived and has its reason: its handler was run at some moment of the run and returned
    nil, or no handler is registered for its type, or its handler was run and failed and the
    publisher has reported the retry of this delivery as published.  (Handlers that settle
    deliveries themselves are excluded.) *)
Theorem service_conserves_deliveries confirms w es s :
  run es (initial confirms w) = Some s ->
  exists ss, settled (world s) = settled w ++ ss /\
    (Workers.settle_tag <$> ss) ++ (groups s ≫= unsettled) ≡ₚ groups s ≫= received /\
    Forall (fun x => Workers.requeues x = false) ss /\
    Workers.acked ss = ack_tags (acks s) /\
    forall d c, (d, c) ∈ acks s -> (exists g, g ∈ groups s /\ came (arrived g) d) /\
      let ran := outcome (past es (initial confirms w)) d in
      match c with
      | Handled => ran None
      | Unrouted => Router.GetHandler (type_of d) router = None
      | Requeued n => (exists e, ran (Some e)) /\ published s d n
      end.
Proof.
  intros Hr. pose proof (inv_run es _ _ (inv_initial confirms w) Hr) as Hi.
  assert (conserved w (initial confirms w)) as H0 by (exists []; simpl; by rewrite app_nil_r).
  destruct (run_service_conserved w es _ _ (inv_initial confirms w) H0 Hr) as (ss & ? & ? & ? & ?).
  exists ss. split_and!; [done..|].
  assert (reasons (fun _ => False) (initial confirms w)) as R0
    by (split; [constructor|by intros ?? ?%elem_of_nil]).
  pose proof (run_reasons es _ _ _ (inv_initial confirms w) R0 Hr) as Hre.
  apply (reasons_mono _ (past es (initial confirms w))) in Hre; [|by intros ? [[]|?]].
  intros d c Hd. destruct (re_acks _ _ Hre d c Hd) as [Hj Hc]. split; [done|].
  destruct c; [done..|]. split; [done|]. by apply (inv_acks s Hi).
Qed.

End Conservation.

(** ** The bus of a run *)

(** An event is an event of the bus, a worker's start of a call, or does not touch the bus. *)
Lemma exec_bus e s s' :
  exec e s = Some s' ->
  bus s' = bus s \/
  exists e', Sys.exec e' (bus s) = Some (bus s') /\
    (e = OnBus e' \/ exists j, e' = Sys.Publisher (Pub.Spawn j)).
Proof.
  intros He. apply exec_step in He. destruct He as [e b _ Eb|q n ch gs ->|k g e s' Ek He|now w _];
    [eauto|by left| |by left].
  destruct e as [d| |i|i|i env]; simpl in He; try (repeat case_match; simplify_eq/=; by left).
  destruct (workers g !! i) as [p|]; [|done]. simpl in He.
  destruct (work i env p s) as [[s1 p']|] eqn:Ew; [|done]. injection He as <-.
  change (bus (set_group _ _ s1)) with (bus s1). apply work_step in Ew.
  destruct Ew; try (by left). right. eexists. eauto.
Qed.

Lemma run_pub es s s' : run es s = Some s' -> exists es', Pub.run es' (pub s) = Some (pub s').
Proof.
  revert s. induction es as [|e es IH]; intros s Hr; simpl in Hr.
  { simplify_eq. by exists []. }
  destruct (exec e s) as [s1|] eqn:E; [|done]. destruct (IH s1 Hr) as [es2 H2].
  assert (exists es1, Pub.run es1 (pub s) = Some (pub s1)) as [es1 H1].
  { destruct (exec_bus e s s1 E) as [Eb|(e' & Eb & _)].
    - exists []. unfold pub. by rewrite Eb.
    - apply (Sys.exec_parts _ _ _ Eb). }
  exists (es1 ++ es2). by rewrite PubSafety.pub_run_app, H1.
Qed.

(** ** Retries in orderly runs *)

(** The events of the publisher that an event brings are orderly. *)
Definition orderly (e : Event) (s : State) : bool :=
  match e with
  | OnBus (Sys.Publisher e) => PubConfirms.orderly e (pub s)
  | OnBus (Sys.Client e) =>
      if PubConfirms.run_orderly (Sys.effects e (bus s)) (pub s) is Some _ then true else false
  | _ => true
  end.

Fixpoint run_orderly (es : list Event) (s : State) : option State :=
  match es with
  | [] => Some s
  | e :: es' => if orderly e s then s' ← exec e s; run_orderly es' s' else None
  end.

(** The publisher's machine has made an orderly run. *)
Definition pub_orderly (y : Pub.System) : Prop :=
  exists es, PubConfirms.run_orderly es (Pub.initial true) = Some y.

Lemma pub_orderly_snoc es y y' :
  pub_orderly y -> PubConfirms.run_orderly es y = Some y' -> pub_orderly y'.
Proof. intros [es0 H0] H. exists (es0 ++ es). by rewrite orderly_app, H0. Qed.

Lemma orderly_exec e s s' :
  pub_orderly (pub s) -> orderly e s = true -> exec e s = Some s' -> pub_orderly (pub s').
Proof.
  intros Hp Ho He. destruct (exec_bus e s s' He) as [E|(e' & Eb & He')].
  { unfold pub in *. by rewrite E. }
  assert (orderly (OnBus e') s = true) as Ho' by (destruct He' as [->|[j ->]]; done).
  clear He He' Ho. unfold pub in *. destruct e' as [e'|e']; simpl in Ho', Eb; unfold pub in Ho'.
  - destruct (PubConfirms.run_orderly _ _) as [y|] eqn:Er; [|done].
    destruct (Pub.crashed _); [done|]. destruct (Reconn.exec _ _); [|done]. simpl in Eb.
    rewrite (orderly_run _ _ _ Er) in Eb. injection Eb as <-. by eapply pub_orderly_snoc.
  - destruct (Sys.own_event e'); [|done]. destruct (Pub.exec e' _) as [y|] eqn:Ey; [|done].
    injection Eb as <-. simpl. apply (pub_orderly_snoc [e'] (Sys.pb (bus s))); [done|].
    simpl. by rewrite Ho', Ey.
Qed.

Lemma orderly_run_facts es s s' :
  inv s -> pub_orderly (pub s) -> run_orderly es s = Some s' -> inv s' /\ pub_orderly (pub s').
Proof.
  revert s. induction es as [|e es IH]; intros s Hs Hp Hr; simpl in Hr; [by simplify_eq|].
  destruct (orderly e s) eqn:Eo; [|done]. destruct (exec e s) as [s1|] eqn:E; [|done].
  eauto using inv_exec, orderly_exec.
Qed.

(** C3: a failed message is not lost while its retry is on its way.  In an orderly run of the
    whole bus with confirms (in the publisher's sense: no call, of a worker or of the application, takes a
    number while another has one it has not sent under, no numbered send fails, and so on across
    reconnections) a delivery is acknowledged for a retry only after the broker has itself
    acknowledged the copy: the message published is the retry of that delivery, with its count
    one higher, the number that the broker acknowledged is the copy's own, and no two
    deliveries are acknowledged on the strength of the same call. *)
Theorem retries_are_confirmed w es s :
  run_orderly es (initial true w) = Some s ->
  NoDup (used (pub s)) /\ NoDup (ack_calls (acks s)) /\
  forall d n, (d, Requeued n) ∈ acks s ->
    exists msg k, copies s !! n = Some msg /\ copy_of d msg /\
      let m := PubApi.to_model k msg in
      Pub.threads (pub s) !! n = Some (Pub.JPublish m, Pub.Returned (Pub.OPublish None)) /\
      PubConfirms.told (Pub.shared (pub s)) m true.
Proof.
  intros Hr. apply orderly_run_facts in Hr as [Hi [es' Hp]]; [|apply inv_initial|].
  2: { rewrite pub_initial. by exists []. }
  split_and!; [apply Hi| |].
  - pose proof (inv_calls s Hi) as Hc. by apply NoDup_app in Hc as [? _].
  - intros d n Hd. destruct (inv_acks s Hi d n Hd) as (msg & k & Hm & Hc & Ht).
    exists msg, k. split; [done|]. split; [done|]. intros m. split; [done|].
    exact (proj1 (PubConfirms.orderly_honest es' _ n _ _ Hp Ht) eq_refl).
Qed.

(** ** Workers that retry go on *)

(** The steps a call can still take. *)
Definition call_rank (n : nat) (s : State) : nat :=
  if Pub.threads (pub s) !! n is Some (j, p) then PubSafety.rank j p else 0.

(** The steps a worker can still take until it is back at its receive, with those of the call
    it waits for. *)
Definition wrank (s : State) (p : wpc) : nat :=
  match p with
  | At (Workers.Succeeded _ _) => 3
  | At q => if 3 <=? Workers.rank q then 16 + Workers.rank q else Workers.rank q
  | Publishing _ _ n => 4 + call_rank n s
  | Confirmed _ _ _ => 3
  end.

(** The worker has a delivery in hand, or an outcome to record. *)
Definition occupied (p : wpc) : bool := if p is At q then Workers.busy q else true.

(** The events that are worker [i]'s of group [k]: its steps and those of its call. *)
Definition own (k i : nat) (p : wpc) (e : Event) : Prop :=
  match e with
  | InGroup k' (Workers.Work i' _) => k' = k /\ i' = i
  | OnBus (Sys.Publisher (Pub.Thread n _)) => n ∈ worker_call p
  | _ => False
  end.

(** A worker at [p] in group [k]. *)
Definition worker_at (s : State) (k i : nat) (p : wpc) : Prop :=
  exists g, groups s !! k = Some g /\ workers g !! i = Some p.

Lemma ordinary_rank workerID env q w q' w' s :
  Workers.work router maxRetries workerID env q w = (q', w') -> Workers.busy q = true ->
  wrank s (At q') < wrank s (At q).
Proof.
  intros Hw Hb. apply Workers.work_rank in Hw; [|done].
  destruct q; try done; destruct q'; simpl in *; lia.
Qed.

Lemma work_rank_lower i env p s s' p' :
  worker_ok s p -> wstep i env s p s' p' -> wrank s' p' < wrank s p.
Proof.
  intros Hp Hw. destruct Hw as [p q c q' s' Ho Hw Hb Hg Hc Ha|t d s' Hs Hb Hg Hc Ha
    |t d msg s' Hd Hb Hc Hs Hg Ha|t d n Hr|t d n e Hr]; [|simpl; lia| |simpl; lia..].
  - destruct Ho as [q Hb' Hq|t d n].
    + assert (wrank s' (At q') < wrank s' (At q)) by by eapply ordinary_rank.
      destruct q; simpl in *; lia.
    + apply Workers.work_rank in Hw; [|done]. simpl in Hw. destruct q'; simpl in *; lia.
  - simpl. unfold call_rank, pub. rewrite (bus_spawn _ _ _ Hb), list_lookup_middle by done.
    simpl. lia.
Qed.

Lemma service_work_enabled i env p s :
  Pub.crashed (pub s) = false -> occupied p = true ->
  (forall t d n, p = Publishing t d n -> is_Some (returned n (pub s))) ->
  is_Some (work i env p s).
Proof.
  intros Hcr Ho Hret. destruct p as [q|t d n|t d n]; simpl in Ho.
  - destruct q; try done; cbn -[Workers.work Retry.prepare Sys.exec];
      try (destruct (Workers.work _ _ _ _ _ _); eauto; done).
    destruct (Retry.prepare _ _ _ _) as [[e|msg] bs]; [by eexists|].
    cbn. unfold Pub.exec. unfold pub in Hcr. rewrite Hcr. by eexists.
  - simpl. destruct (Hret t d n eq_refl) as [e ->]. by eexists.
  - cbn -[Workers.work]. destruct (Workers.work _ _ _ _ _ _). by eexists.
Qed.

(** A call that has not returned has a step. *)
Lemma call_step cf s d n p :
  Pub.reachable cf (pub s) -> Pub.crashed (pub s) = false -> call_of s d n p ->
  is_Some (returned n (pub s)) \/
  exists x s', exec (OnBus (Sys.Publisher (Pub.Thread n x))) s = Some s'.
Proof.
  intros Hr Hcr (msg & m & _ & _ & Ht). apply PubSafety.reachable_ok in Hr as [_ Hts].
  pose proof (Forall_lookup_1 _ _ _ _ Hts Ht) as Hp. simpl in Hp.
  assert ((exists o, p = Pub.Returned o) \/ forall o, p <> Pub.Returned o) as [[o ->]|Hn]
    by (destruct p; eauto).
  - left. unfold returned. rewrite Ht. destruct o as [e|? []]; [by eexists|done..].
  - right. destruct (PubSafety.thread_progress _ _ _ Hp Hn) as (c & r & Hc). exists c.
    unfold exec. rewrite Hcr. cbn. unfold Pub.exec. unfold pub in *. rewrite Hcr, Ht.
    cbn -[Pub.thread_step]. rewrite Hc. by eexists.
Qed.

(** A step of the call that a worker waits for. *)
Lemma call_rank_lower cf s n c b d p :
  Pub.reachable cf (pub s) -> call_of s d n p ->
  Sys.exec (Sys.Publisher (Pub.Thread n c)) (bus s) = Some b -> Pub.crashed (Sys.pb b) = false ->
  call_rank n (s <| bus := b |>) < call_rank n s.
Proof.
  intros Hr (msg & m & _ & _ & Ht) He Hcr. apply PubSafety.reachable_ok in Hr as [_ Hts].
  pose proof (Forall_lookup_1 _ _ _ _ Hts Ht) as Hp. simpl in Hp.
  cbn in He. unfold Pub.exec in He. unfold pub in *. destruct (Pub.crashed (Sys.pb (bus s))); [done|].
  rewrite Ht in He. cbn -[Pub.thread_step] in He.
  destruct (Pub.thread_step _ _ _ _) as [[[[sh p'] sp]|]|] eqn:Es; [| |done].
  2: { injection He as <-. done. }
  injection He as <-. unfold call_rank, pub. simpl.
  rewrite list_lookup_insert_eq by eauto using lookup_lt_Some. rewrite Ht.
  by eapply PubSafety.thread_rank.
Qed.

(** Events of others do not move a call. *)
Lemma call_rank_kept e s b n :
  n < length (Pub.threads (pub s)) -> (forall c, e <> Sys.Publisher (Pub.Thread n c)) ->
  Sys.exec e (bus s) = Some b -> call_rank n (s <| bus := b |>) = call_rank n s.
Proof.
  intros [x Hx]%lookup_lt_is_Some_2 Hne He. unfold call_rank, pub in *. simpl. rewrite Hx.
  assert (Pub.threads (Sys.pb b) !! n = Some x) as ->; [|done].
  destruct e as [e|e]; cbn in He.
  - destruct (Pub.crashed _); [done|]. destruct (Reconn.exec _ _); [|done]. simpl in He.
    destruct (Pub.run _ _) as [y|] eqn:Er; [|done]. injection He as <-. simpl.
    assert (Forall (fun e => forall c, e <> Pub.Thread n c) (Sys.effects e (bus s))) as Hf.
    { unfold Sys.effects. repeat case_match; repeat constructor; done. }
    clear -Hf Er Hx. revert Er Hx. generalize (Sys.pb (bus s)). induction Hf as [|e' es H _ IH];
      intros y0 Er Hx; simpl in Er; [by simplify_eq|].
    destruct (Pub.exec e' y0) as [y1|] eqn:E; [|done]. eapply IH; [done|].
    by eapply PubSafety.exec_others.
  - destruct (Sys.own_event e); [|done]. destruct (Pub.exec e _) as [y|] eqn:Ey; [|done].
    injection He as <-. simpl. eapply PubSafety.exec_others; [|done|done].
    intros c ->. by apply (Hne c).
Qed.

Lemma wrank_bus s s' p :
  (forall n, n ∈ worker_call p -> call_rank n s' = call_rank n s) -> wrank s' p = wrank s p.
Proof.
  intros H. destruct p as [q|t d n|t d n]; simpl; [done| |done].
  by rewrite (H n) by by apply list_elem_of_singleton.
Qed.

Lemma wrank_bound s p : worker_ok s p -> wrank s p <= 23.
Proof.
  intros Hp. destruct p as [q|t d n|t d n]; simpl; [destruct q; simpl; lia| |lia].
  destruct Hp as (p & msg & k & _ & _ & Ht). unfold call_rank. rewrite Ht.
  destruct p; simpl; lia.
Qed.

(** An event of a group leaves the other groups and, unless it is the worker's own, the
    workers that are occupied. *)
Lemma group_exec_others k g e s s' i p :
  inv s -> groups s !! k = Some g -> group_exec k g e s = Some s' ->
  exists g', groups s' = <[k := g']> (groups s) /\
    (workers g !! i = Some p -> occupied p = true -> (forall env, e <> Workers.Work i env) ->
     workers g' !! i = Some p).
Proof.
  intros Hs Hk He. destruct e as [d| |j|j|j env]; simpl in He.
  - destruct (_ && _); [|done]. injection He as <-. by eexists.
  - destruct (_ && _); [|done]. injection He as <-. by eexists.
  - destruct (workers g !! j) as [[[]| |]|] eqn:Ej; try done. destruct (deliveries g); [done|].
    injection He as <-. eexists. split; [done|]. intros Hi Ho _. simpl.
    rewrite list_lookup_insert_ne; [done|]. intros ->. rewrite Ej in Hi. by simplify_eq.
  - destruct (workers g !! j) as [[[]| |]|] eqn:Ej; try done. destruct (deliveries g); [|done].
    destruct (is_open g); [done|]. injection He as <-. eexists. split; [done|]. intros Hi Ho _. simpl.
    rewrite list_lookup_insert_ne; [done|]. intros ->. rewrite Ej in Hi. by simplify_eq.
  - destruct (workers g !! j) as [q|] eqn:Ej; [|done]. simpl in He.
    destruct (work j env q s) as [[s1 q']|] eqn:Ew; [|done]. injection He as <-.
    pose proof (Forall_lookup_1 _ _ _ _ (inv_workers s Hs) Hk) as Hg.
    apply work_step, (wstep_ok _ _ _ _ _ _ Hs (Forall_lookup_1 _ _ _ _ Hg Ej)) in Ew.
    eexists. split; [simpl; by rewrite (so_groups _ _ _ _ Ew)|]. intros Hi _ Hne. simpl.
    rewrite list_lookup_insert_ne; [done|]. intros ->. by apply (Hne env).
Qed.

Lemma worker_at_ok s k i p : inv s -> worker_at s k i p -> worker_ok s p.
Proof.
  intros Hs (g & Hk & Hi). pose proof (Forall_lookup_1 _ _ _ _ (inv_workers s Hs) Hk) as Hg.
  exact (Forall_lookup_1 _ _ _ _ Hg Hi).
Qed.

Lemma worker_call_bound s p n :
  worker_ok s p -> n ∈ worker_call p -> n < length (Pub.threads (pub s)).
Proof.
  intros Hp Hn. destruct p as [q|t d m|t d m]; simpl in *; [by apply elem_of_nil in Hn|..];
    apply list_elem_of_singleton in Hn as ->; [destruct Hp as [p Hp]|]; by eapply call_bound.
Qed.

Lemma worker_kept e s s' k i p :
  inv s -> exec e s = Some s' -> worker_at s k i p -> occupied p = true -> ~ own k i p e ->
  worker_at s' k i p /\ wrank s' p = wrank s p.
Proof.
  intros Hs He Hat Ho Hn. pose proof (worker_at_ok _ _ _ _ Hs Hat) as Hp. split.
  - destruct Hat as (g & Hk & Hi). apply exec_step in He.
    destruct He as [e b _ _|q n ch gs ->|k' g0 e s' Ek He|now w _]; [| | |by exists g].
    + by exists g.
    + exists g. split; [|done]. simpl. by apply lookup_app_l_Some.
    + destruct (group_exec_others k' g0 e s s' i p Hs Ek He) as (g' & Hg & Hw).
      destruct (decide (k' = k)) as [->|Hne].
      * simplify_eq. exists g'. rewrite Hg, list_lookup_insert_eq by eauto using lookup_lt_Some.
        split; [done|]. apply Hw; [done..|]. intros env ->. by apply Hn.
      * exists g. by rewrite Hg, list_lookup_insert_ne.
  - apply wrank_bus. intros n Hin. destruct (exec_bus e s s' He) as [E|(e' & Eb & He')].
    + unfold call_rank, pub. by rewrite E.
    + change (call_rank n s') with (call_rank n (s <| bus := bus s' |>)).
      apply (call_rank_kept e'); [by eapply worker_call_bound| |done].
      intros c ->. destruct He' as [->|[j ?]]; [|done]. by apply Hn.
Qed.

Lemma worker_advances cf e s s' k i p :
  inv s -> Pub.reachable cf (pub s) -> exec e s = Some s' -> worker_at s k i p -> own k i p e ->
  Pub.crashed (pub s') = false -> exists p', worker_at s' k i p' /\ wrank s' p' < wrank s p.
Proof.
  intros Hs Hr He Hat Hown Hcr. pose proof (worker_at_ok _ _ _ _ Hs Hat) as Hp.
  destruct Hat as (g & Hk & Hi). apply exec_step in He.
  destruct He as [e b _ Eb|q n ch gs _|k' g0 e s' Ek He|now w _]; [|done| |done].
  - destruct e as [e|[|n c| | | | | | | | | |]]; try done. simpl in Hown.
    destruct p as [q|t d m|t d m]; simpl in Hown; [by apply elem_of_nil in Hown|..];
      apply list_elem_of_singleton in Hown as ->; simpl in Hp.
    + exists (Publishing t d m). split; [by exists g|]. destruct Hp as [p Hp].
      pose proof (call_rank_lower cf s m c b d p Hr Hp Eb Hcr). simpl in *. lia.
    + exfalso. destruct Hp as (msg & x & _ & _ & Ht). cbn in Eb. unfold Pub.exec in Eb. unfold pub in *.
      destruct (Pub.crashed _); [done|]. rewrite Ht in Eb. cbn -[Pub.thread_step] in Eb.
      by rewrite returned_step in Eb.
  - destruct e as [| | | |i' env]; try done. destruct Hown as [-> ->]. simplify_eq. simpl in He.
    rewrite Hi in He. simpl in He. destruct (work i env p s) as [[s1 p']|] eqn:Ew; [|done].
    injection He as <-. apply work_step in Ew. exists p'. split.
    + pose proof (wstep_ok _ _ _ _ _ _ Hs Hp Ew) as [Eg _ _ _ _ _].
      eexists. simpl. rewrite Eg, list_lookup_insert_eq by eauto using lookup_lt_Some.
      split; [done|]. simpl. apply list_lookup_insert_eq. by eapply lookup_lt_Some.
    + change (wrank (set_group _ _ s1) p') with (wrank s1 p'). by eapply work_rank_lower.
Qed.

Lemma worker_moves cf s k i p :
  inv s -> Pub.reachable cf (pub s) -> Pub.crashed (pub s) = false -> worker_at s k i p ->
  occupied p = true -> forall env, exists e s', own k i p e /\ exec e s = Some s' /\
    (e = InGroup k (Workers.Work i env) \/ exists c n, e = OnBus (Sys.Publisher (Pub.Thread n c))).
Proof.
  intros Hs Hr Hcr Hat Ho env. pose proof (worker_at_ok _ _ _ _ Hs Hat) as Hp.
  assert (is_Some (work i env p s) -> exists e s', own k i p e /\ exec e s = Some s' /\
    (e = InGroup k (Workers.Work i env) \/ exists c n, e = OnBus (Sys.Publisher (Pub.Thread n c))))
    as Hwork.
  { destruct Hat as (g & Hk & Hi). intros [[s1 p'] Ew]. exists (InGroup k (Workers.Work i env)).
    eexists. split; [done|]. split; [|by left]. unfold exec. rewrite Hcr, Hk. simpl. rewrite Hi. simpl.
    by rewrite Ew. }
  destruct p as [q|t d n|t d n]; [|clear Ho|]; try (by apply Hwork, service_work_enabled).
  destruct Hp as [p Hp]. destruct (call_step cf s d n p Hr Hcr Hp) as [Hret|(c & s' & He)].
  - apply Hwork, service_work_enabled; [done..|]. by intros ??? [= <- <- <-].
  - exists (OnBus (Sys.Publisher (Pub.Thread n c))), s'. split_and!; [by left|done|]. right. eauto.
Qed.

(** C8: a worker that has taken a delivery gets back to its receive.  In every state the whole
    bus, with or without confirms, can reach in which no panic has ended the process, an occupied worker (also one that
    waits for the publication of a retry) has an event of its own, a step of the worker or of
    the call it waits for; each such event lowers a bound of at most 23 steps; and no
    event of other workers, calls, processors, the broker or the client moves it. *)
Theorem service_workers_progress confirms w es s k i p :
  run es (initial confirms w) = Some s -> Pub.crashed (pub s) = false -> worker_at s k i p ->
  occupied p = true ->
  (forall env, exists e s', own k i p e /\ exec e s = Some s' /\
     (e = InGroup k (Workers.Work i env) \/ exists c n, e = OnBus (Sys.Publisher (Pub.Thread n c)))) /\
  wrank s p <= 23 /\
  (forall e s', exec e s = Some s' -> own k i p e -> Pub.crashed (pub s') = false ->
     exists p', worker_at s' k i p' /\ wrank s' p' < wrank s p) /\
  (forall e s', exec e s = Some s' -> ~ own k i p e ->
     worker_at s' k i p /\ wrank s' p = wrank s p).
Proof.
  intros Hr Hcr Hat Ho. pose proof (inv_run _ _ _ (inv_initial confirms w) Hr) as Hs.
  assert (Pub.reachable confirms (pub s)) as Hreach
    by (destruct (run_pub _ _ _ Hr) as [es' Hp]; rewrite pub_initial in Hp; by exists es').
  split_and!.
  - by apply (worker_moves confirms).
  - apply wrank_bound. by eapply worker_at_ok.
  - intros e s' He Hown Hcr'. by eapply worker_advances.
  - intros e s' He Hn. by eapply worker_kept.
Qed.

End Service.

(** ** Concrete runs *)

Definition demo_service : @State PubApi.accepting :=
  initial true (demo_world (Some (CB.New CB.demo_config 0)) ∅).

Abbreviation demo_run es := (run (G := amd64) Workers.demo_router 3 es demo_service).
Abbreviation demo_orderly es := (run_orderly (G := amd64) Workers.demo_router 3 es demo_service).

Definition reached (es : list Event) : @State PubApi.accepting := default demo_service (demo_run es).

Lemma reached_service es :
  (if demo_run es is Some _ then true else false) = true -> demo_run es = Some (reached es).
Proof. unfold reached. by destruct (demo_run es). Qed.

Definition worker (i n : nat) : list Event := replicate n (InGroup 0 (Workers.Work i (env_at 4))).

Definition on_publisher (es : list Pub.Event) : list Event := (OnBus ∘ Sys.Publisher) <$> es.

(** Two workers fail on two orders and start the calls that publish them again. *)
Definition two_failures : list Event :=
  [StartConsume "orders" 2; InGroup 0 (Workers.Arrive (Workers.order_no 1));
   InGroup 0 (Workers.Arrive (Workers.order_no 2)); InGroup 0 (Workers.Take 0);
   InGroup 0 (Workers.Take 1)] ++ mjoin (replicate 5 (worker 0 1 ++ worker 1 1)).

(** The calls send one after the other; the broker rejects the first copy and acknowledges the
    second. *)
Definition in_turn : list Event :=
  two_failures ++
  on_publisher (Pub.send_one 0 ++ Pub.send_one 1 ++ Pub.confirm_one 1 false ++
    Pub.confirm_one 2 true ++
    [Pub.Thread 0 Pub.Receive; Pub.Thread 1 Pub.Receive; Pub.Thread 0 Pub.Go]) ++
  worker 0 2 ++ worker 1 2.

(** Both calls take their numbers, the second sends first; the broker acknowledges the first
    message it gets and rejects the second. *)
Definition overtaken : list Event :=
  two_failures ++
  on_publisher (Pub.up_to_send 0 ++ Pub.send_one 1 ++ [Pub.Thread 0 Pub.SendOk] ++
    Pub.confirm_one 1 true ++ Pub.confirm_one 2 false ++
    [Pub.Thread 0 Pub.Receive; Pub.Thread 1 Pub.Receive; Pub.Thread 1 Pub.Go]) ++
  worker 0 2 ++ worker 1 2.

(** C16: two workers that retry at the same time can lose a message.  Their calls take numbers 1
    and 2 but send in the other order; the broker acknowledges the copy of delivery 2 and rejects
    the copy of delivery 1.  Each call gets the other's answer: delivery 1 is acknowledged
    although its copy was rejected, so the message is gone, and delivery 2 is rejected to the
    dead-letter queue although its copy is queued again. *)
Theorem concurrent_retries_lose_message :
  exists s, demo_run overtaken = Some s /\
    (ids ∘ fst <$> Pub.threads (pub s)) = [[1]; [2]] /\
    Pub.sent (Pub.shared (pub s)) = [(0, 2); (0, 1)] /\
    Pub.confirmed (Pub.shared (pub s)) = [(0, 1%Z, true); (0, 2%Z, false)] /\
    ((fun x => (d_DeliveryTag x.1, x.2)) <$> acks s) = [(1%Z, Requeued 0)] /\
    settled (world s) = [Msg.CallAck 1; Msg.CallNack 2 false] /\
    demo_orderly overtaken = None.
Proof.
  exists (reached overtaken). split; [apply reached_service; vm_compute; reflexivity|].
  split_and!; vm_compute; reflexivity.
Qed.

(** ** Witnesses *)

Lemma service_conserves_deliveries_witness :
  let s := reached overtaken in
  exists ss, settled (world s) = ss /\ (Workers.settle_tag <$> ss) ≡ₚ [1; 2]%Z /\
    Workers.acked ss = [1%Z] /\
    forall d c, (d, c) ∈ acks s -> exists e, outcome Workers.demo_router
      (past (G := amd64) Workers.demo_router 3 overtaken demo_service) d (Some e).
Proof.
  intros s. destruct (service_conserves_deliveries (G := amd64) Workers.demo_router 3
    (fun t h H => proj1 (Workers.demo_polite t h H)) true
    (demo_world (Some (CB.New CB.demo_config 0)) ∅) overtaken (reached overtaken))
    as (ss & H1 & H2 & _ & H3 & H4).
  - apply reached_service. vm_compute. reflexivity.
  - exists ss. split; [exact H1|]. split; [|split; [exact H3|]].
    + rewrite <- (app_nil_r (Workers.settle_tag <$> ss)). exact H2.
    + intros d c Hd. destruct (H4 d c Hd) as [_ Hj]. destruct c; [exfalso..|apply Hj].
      all: assert (Forall (fun x => match x.2 with Requeued _ => True | _ => False end)
             (acks (reached overtaken))) as Hall by (vm_compute; repeat constructor);
           rewrite Forall_forall in Hall; exact (Hall _ Hd).
Defined.

Lemma retries_are_confirmed_witness :
  exists m, Pub.threads (pub (reached in_turn)) !! 1 =
      Some (Pub.JPublish m, Pub.Returned (Pub.OPublish None)) /\
    PubConfirms.told (Pub.shared (pub (reached in_turn))) m true.
Proof.
  destruct (retries_are_confirmed (G := amd64) Workers.demo_router 3
    (demo_world (Some (CB.New CB.demo_config 0)) ∅) in_turn (reached in_turn)) as (_ & _ & H).
  - vm_compute. reflexivity.
  - destruct (H (default (Workers.order_no 1) (fst <$> head (acks (reached in_turn)))) 1)
      as (msg & k & _ & _ & Ht & Hm).
    + vm_compute. left.
    + exists (PubApi.to_model k msg). split; [exact Ht|exact Hm].
Defined.

(** Where worker [i] of group [k] is. *)
Definition worker_of (k i : nat) (s : @State PubApi.accepting) : wpc :=
  default (At Workers.Gone) (g ← groups s !! k; workers g !! i).

Lemma worker_of_at k i s : occupied (worker_of k i s) = true -> worker_at s k i (worker_of k i s).
Proof.
  unfold worker_of, worker_at. destruct (groups s !! k) as [g|]; [|done]. simpl.
  destruct (workers g !! i) eqn:E; [|done]. eauto.
Qed.

Lemma service_workers_progress_witness :
  let s := reached two_failures in
  worker_call (worker_of 0 0 s) = [0] /\ wrank s (worker_of 0 0 s) <= 23 /\
  exists e s', own 0 0 (worker_of 0 0 s) e /\
    exec (G := amd64) Workers.demo_router 3 e s = Some s'.
Proof.
  intros s. split; [vm_compute; reflexivity|].
  destruct (service_workers_progress (G := amd64) Workers.demo_router 3 true
    (demo_world (Some (CB.New CB.demo_config 0)) ∅) two_failures (reached two_failures) 0 0
    (worker_of 0 0 s)) as (He & Hb & _).
  - apply reached_service. vm_compute. reflexivity.
  - vm_compute. reflexivity.
  - apply worker_of_at. vm_compute. reflexivity.
  - vm_compute. reflexivity.
  - split; [exact Hb|]. destruct (He (env_at 4)) as (e & s' & Ho & Hx & _). exists e, s'. by split.
Defined.

End Service.
