(* ===== verification/Marshal.v ===== *)
(** * Encoding event bodies (encoding/json.Marshal, as event.go uses it)

    The values a [map[string]any] built by [ToMap] can hold, by what the encoder does with
    them, and the encoder: keys in byte order, strings with the default HTML escaping.  A
    number is carried as the literal the encoder writes for it; a value of a type the
    encoder refuses (a channel, a function, a NaN) is [GoUnsupported]. *)

From stdpp Require Import base strings list pretty sorting.
From Stdlib Require Import Ascii NArith ZArith Lia.
From S2P Require Import Prelude Errors Json.
Import Err Json.

Module Marshal.

Inductive gov :=
| GoNil
| GoBool (b : bool)
| GoNumber (literal : string)
| GoString (s : string)
| GoSlice (l : list gov)
| GoMap (m : list (string * gov))
| GoUnsupported (type_name : string).

(** ** Strings *)

Definition hex_digit (n : N) : ascii := if (n <? 10)%N then chr (48 + n) else chr (87 + n).

Definition escaped (e : ascii) : string := String backslash (String e "").

(** A backslash, [u00] and two hexadecimal digits. *)
Definition escape_u00 (c : ascii) : string :=
  String backslash (String (chr 117) (String (chr 48) (String (chr 48)
    (String (hex_digit (code c / 16)) (String (hex_digit (code c mod 16)) ""))))).

(** An ASCII character inside a literal: [<], [>] and [&] are escaped as well. *)
Definition encode_ascii (c : ascii) : string :=
  match code c with
  | 34 | 92 => escaped c
  | 8 => escaped (chr 98)
  | 12 => escaped (chr 102)
  | 10 => escaped (chr 110)
  | 13 => escaped (chr 114)
  | 9 => escaped (chr 116)
  | 60 | 62 | 38 => escape_u00 c
  | _ => if (code c <? 32)%N then escape_u00 c else String c ""
  end%N.

(** The escape of a byte that is not UTF-8, and of the line separators U+2028 and U+2029. *)
Definition escape_u (h1 h2 h3 h4 : N) : string :=
  String backslash (String (chr 117) (String (hex_digit h1) (String (hex_digit h2)
    (String (hex_digit h3) (String (hex_digit h4) ""))))).

Definition is_separator (s : string) : option N :=
  match s with
  | String a (String b (String c _)) =>
      if (code a =? 226)%N && (code b =? 128)%N then
        if (code c =? 168)%N then Some 8%N else if (code c =? 169)%N then Some 9%N else None
      else None
  | _ => None
  end.

(** [keep] counts the remaining bytes of the well-formed sequence being copied, [skip] those
    of a sequence that was escaped. *)
Fixpoint encode_chars (keep skip : nat) (s : string) : string :=
  match s with
  | EmptyString => ""
  | String c s' =>
      match skip, keep with
      | S k, _ => encode_chars 0 k s'
      | 0, S k => String c (encode_chars k 0 s')
      | 0, 0 =>
          if (code c <? 128)%N then encode_ascii c +:+ encode_chars 0 0 s'
          else match rune_size s with
               | S (S k) =>
                   match is_separator s with
                   | Some d => escape_u 2 0 2 d +:+ encode_chars 0 2 s'
                   | None => String c (encode_chars (S k) 0 s')
                   end
               | _ => escape_u 15 15 15 13 +:+ encode_chars 0 0 s'
               end
      end
  end.

Definition quoted (s : string) : string := String quote (s +:+ String quote "").

Definition encode_string (s : string) : string := quoted (encode_chars 0 0 s).

(** ** Values *)

(** The members of an object are written in the byte order of their keys. *)
Definition key_le (a b : string * string) : Prop := String.leb (fst a) (fst b) = true.

#[export] Instance key_le_dec a b : Decision (key_le a b).
Proof. unfold key_le. solve_decision. Defined.

Definition member (kv : string * string) : string := encode_string (fst kv) +:+ ":" +:+ snd kv.

Fixpoint join (l : list string) : string :=
  match l with
  | [] => ""
  | [x] => x
  | x :: l' => x +:+ "," +:+ join l'
  end.

Fixpoint encode (v : gov) : option string :=
  match v with
  | GoNil => Some "null"
  | GoBool b => Some (if b then "true" else "false")
  | GoNumber t => Some t
  | GoString s => Some (encode_string s)
  | GoSlice l =>
      let fix go (l : list gov) : option (list string) :=
        match l with
        | [] => Some []
        | v :: l' => t ← encode v; ts ← go l'; Some (t :: ts)
        end in
      ts ← go l; Some ("[" +:+ join ts +:+ "]")
  | GoMap m =>
      let fix go (m : list (string * gov)) : option (list (string * string)) :=
        match m with
        | [] => Some []
        | (k, v) :: m' => t ← encode v; ts ← go m'; Some ((k, t) :: ts)
        end in
      ts ← go m; Some ("{" +:+ join (member <$> merge_sort key_le ts) +:+ "}")
  | GoUnsupported _ => None
  end.

(** [json.Marshal(m)] of a [map[string]any]; a nil map is encoded as null. *)
Definition Marshal (m : option (list (string * gov))) : error + string :=
  match encode (match m with Some l => GoMap l | None => GoNil end) with
  | Some s => inr s
  | None => inl (Foreign "json: unsupported type" [])
  end.

End Marshal.
