(* ===== verification/Roundtrip.v ===== *)
(** * Event bodies from the encoder to the router

    What [json.Marshal] writes for an event ([Marshal]) is read back by the decoder ([Json]):
    strings come back with ill-formed UTF-8 replaced, values as the tree they stand for.  With
    it, the type under which the consumer looks up a handler for a published event. *)

From stdpp Require Import base strings list sorting.
From Stdlib Require Import Ascii NArith ZArith Lia.
From S2P Require Import Prelude Json Marshal.
Import Json Marshal.

Module JsonRT.

(** ** Strings of characters *)

Lemma app_cons c s t : String c s +:+ t = String c (s +:+ t).
Proof. reflexivity. Qed.

Lemma app_nil s : "" +:+ s = s.
Proof. reflexivity. Qed.

Lemma app_nil_r s : s +:+ "" = s.
Proof. induction s as [|c s IH]; [done|]. by rewrite app_cons, IH. Qed.

Lemma app_assoc s t u : (s +:+ t) +:+ u = s +:+ (t +:+ u).
Proof. induction s as [|c s IH]; [done|]. by rewrite !app_cons, IH. Qed.

(** A string as the decoder returns it: bytes that are not UTF-8 become U+FFFD.  [keep]
    counts the remaining bytes of the well-formed sequence being copied. *)
Fixpoint coerce (keep : nat) (s : string) : string :=
  match s with
  | EmptyString => ""
  | String c s' =>
      match keep with
      | S k => String c (coerce k s')
      | 0 =>
          if (code c <? 128)%N then String c (coerce 0 s')
          else match rune_size s with
               | S (S k) => String c (coerce (S k) s')
               | _ => replacement +:+ coerce 0 s'
               end
      end
  end.

(** Valid UTF-8 text. *)
Definition utf8 (s : string) : bool := String.eqb (coerce 0 s) s.

(** The bytes of a multi-byte sequence after the first. *)
Fixpoint continued (k : nat) (s : string) : Prop :=
  match k with
  | 0 => True
  | S k' => match s with String c s' => (128 <= code c)%N /\ continued k' s' | _ => False end
  end.

(** Two texts with the same first [k] characters. *)
Fixpoint same_prefix (k : nat) (s t : string) : Prop :=
  match k with
  | 0 => True
  | S k' => match s, t with
            | String c s', String d t' => c = d /\ same_prefix k' s' t'
            | _, _ => False
            end
  end.

Lemma between_ge lo hi c : between lo hi c = true -> (lo <= code c)%N.
Proof. unfold between. rewrite andb_true_iff, N.leb_le. tauto. Qed.

(** A multi-byte sequence is recognised by its own bytes, which are not ASCII. *)
Lemma rune_size_cons a s k :
  rune_size (String a s) = S (S k) ->
  continued (S k) s /\ forall t, same_prefix (S k) s t -> rune_size (String a t) = S (S k).
Proof.
  destruct s as [|b s2]; [done|]. cbn [rune_size].
  destruct (between 194 223 a && cont b) eqn:E2.
  { intros [= <-]. apply andb_true_iff in E2 as E. destruct E as [_ Hb%between_ge].
    split; [simpl; split; [lia|done]|]. intros [|b' t] H; simpl in H; [done|].
    destruct H as [<- _]. cbn [rune_size]. by rewrite E2. }
  destruct s2 as [|c s3]; [done|]. cbv zeta.
  match goal with |- context [if ?b then 3 else _] => destruct b eqn:E3 end.
  { intros [= <-]. apply andb_true_iff in E3 as E. destruct E as [Hab Hc%between_ge].
    split.
    - simpl. split_and!; [|lia|done].
      rewrite !orb_true_iff, !andb_true_iff in Hab.
      destruct Hab as [[[[_ H]|[_ H]]|[_ H]]|[_ H]]; apply between_ge in H; lia.
    - intros [|b' [|c' t]] H; simpl in H; [tauto..|]. destruct H as (<- & <- & _).
      cbn [rune_size]. by rewrite E2, E3. }
  destruct s3 as [|d s4]; [done|].
  match goal with |- context [if ?b then 4 else _] => destruct b eqn:E4 end; [|done].
  intros [= <-]. apply andb_true_iff in E4 as E. destruct E as [E Hd%between_ge].
  apply andb_true_iff in E as [Hab Hc%between_ge]. split.
  - simpl. split_and!; [|lia|lia|done].
    rewrite !orb_true_iff, !andb_true_iff in Hab.
    destruct Hab as [[[_ H]|[_ H]]|[_ H]]; apply between_ge in H; lia.
  - intros [|b' [|c' [|d' t]]] H; simpl in H; [tauto..|]. destruct H as (<- & <- & <- & _).
    cbn [rune_size]. by rewrite E2, E3, E4.
Qed.

(** ** String literals *)

(** A text that can stand in a literal: the lexer passes over it. *)
Definition lexes (t : string) : Prop :=
  forall rest raw r, lex_string rest = Some (raw, r) -> lex_string (t +:+ rest) = Some (t +:+ raw, r).

Lemma lexes_app t u : lexes t -> lexes u -> lexes (t +:+ u).
Proof. intros Ht Hu rest raw r H. rewrite !app_assoc. by apply Ht, Hu. Qed.

Lemma encode_ascii_ok c :
  (code c < 128)%N ->
  lexes (encode_ascii c) /\
  forall rest, unquote 0 (encode_ascii c +:+ rest) = String c (unquote 0 rest).
Proof.
  intros Hc. destruct c as [[] [] [] [] [] [] [] []]; try (by exfalso; revert Hc; vm_compute);
    (split; [intros rest raw r H|reflexivity]);
    match goal with |- context [encode_ascii ?c] =>
      let t := eval vm_compute in (encode_ascii c) in change (encode_ascii c) with t end;
    rewrite !app_cons, !app_nil; simpl; by rewrite H.
Qed.

Lemma high_lexes c : (128 <= code c)%N -> lexes (String c "").
Proof.
  intros Hc rest raw r H. rewrite !app_cons, !app_nil. simpl.
  destruct (Ascii.eqb_spec c quote) as [->|_]; [by vm_compute in Hc|].
  destruct (Ascii.eqb_spec c backslash) as [->|_]; [by vm_compute in Hc|].
  rewrite (proj2 (N.ltb_ge _ _)) by lia. by rewrite H.
Qed.

(** The escapes that stand for U+FFFD and for the two line separators. *)
Lemma escape_ok h1 h2 h3 h4 :
  (h1, h2, h3, h4) ∈ [(15, 15, 15, 13); (2, 0, 2, 8); (2, 0, 2, 9)]%N ->
  lexes (escape_u h1 h2 h3 h4) /\
  forall rest, unquote 0 (escape_u h1 h2 h3 h4 +:+ rest) =
    encode_rune (((h1 * 16 + h2) * 16 + h3) * 16 + h4) +:+ unquote 0 rest.
Proof.
  rewrite !elem_of_cons, elem_of_nil. intros [E|[E|[E|[]]]]; simplify_eq;
    (split; [intros rest raw r H; unfold escape_u; rewrite !app_cons, !app_nil; simpl; by rewrite H
            |reflexivity]).
Qed.

Lemma is_separator_spec s d :
  is_separator s = Some d ->
  (d = 8 \/ d = 9)%N /\ exists rest, s = encode_rune (8224 + d) +:+ rest.
Proof.
  destruct s as [|a [|b [|c rest]]]; try done. simpl.
  destruct (N.eqb_spec (code a) 226) as [Ea|]; [|done].
  destruct (N.eqb_spec (code b) 128) as [Eb|]; [|done]. simpl.
  assert (forall x n, code x = n -> x = chr n) as Hchr.
  { intros x n <-. symmetry. apply ascii_N_embedding. }
  rewrite (Hchr _ _ Ea), (Hchr _ _ Eb).
  destruct (N.eqb_spec (code c) 168) as [Ec|].
  { intros [= <-]. split; [by left|]. exists rest. by rewrite (Hchr _ _ Ec). }
  destruct (N.eqb_spec (code c) 169) as [Ec|]; [|done].
  intros [= <-]. split; [by right|]. exists rest. by rewrite (Hchr _ _ Ec).
Qed.

(** The encoder's text for a string, from inside a copied sequence of [keep] bytes: the lexer
    passes over it, the decoder returns the string, and copied bytes are copied. *)
Definition chars_ok (keep : nat) (s : string) : Prop :=
  lexes (encode_chars keep 0 s) /\
  unquote keep (encode_chars keep 0 s) = coerce keep s /\
  same_prefix keep s (encode_chars keep 0 s).

Lemma chars_keep k c s : (128 <= code c)%N -> chars_ok k s -> chars_ok (S k) (String c s).
Proof.
  intros Hc (Hl & Hu & Hp). split_and!.
  - exact (lexes_app (String c "") _ (high_lexes c Hc) Hl).
  - simpl. by rewrite Hu.
  - simpl. by split.
Qed.

Lemma chars_high c s k :
  (128 <= code c)%N -> rune_size (String c s) = S (S k) -> is_separator (String c s) = None ->
  chars_ok (S k) s -> chars_ok 0 (String c s).
Proof.
  intros Hc Hr Hs (Hl & Hu & Hp). unfold chars_ok. cbn [encode_chars coerce].
  rewrite (proj2 (N.ltb_ge _ _)), Hr, Hs by lia. split_and!; [..|done].
  - exact (lexes_app (String c "") _ (high_lexes c Hc) Hl).
  - cbn [unquote]. destruct (Ascii.eqb_spec c backslash) as [->|_]; [by vm_compute in Hc|].
    rewrite (proj2 (N.ltb_ge _ _)) by lia.
    rewrite (proj2 (rune_size_cons c s k Hr) _ Hp). by rewrite Hu.
Qed.

Lemma chars_separator d rest :
  (d = 8 \/ d = 9)%N -> chars_ok 0 rest -> chars_ok 0 (encode_rune (8224 + d) +:+ rest).
Proof.
  intros Hd (Hl & Hu & _). destruct (escape_ok 2 0 2 d) as [El Eu].
  { destruct Hd as [-> | ->]; by_compute. }
  assert (encode_chars 0 0 (encode_rune (8224 + d) +:+ rest) =
          escape_u 2 0 2 d +:+ encode_chars 0 0 rest) as E by (by destruct Hd as [-> | ->]).
  unfold chars_ok. rewrite E. split_and!; [by apply lexes_app| |done].
  rewrite Eu, Hu. by destruct Hd as [-> | ->].
Qed.

Lemma encode_chars_ok n s keep : len s <= n -> continued keep s -> chars_ok keep s.
Proof.
  revert s keep. induction n as [n IH] using lt_wf_ind. intros s keep Hn Hk.
  destruct s as [|c s]; [destruct keep; [by split_and!; [intros ??? H|..]|done]|]. simpl in Hn.
  destruct keep as [|k].
  2:{ destruct Hk as [Hc Hk]. apply chars_keep; [done|]. by apply (IH (len s)). }
  assert (chars_ok 0 s) as (Hl & Hu & _) by (by apply (IH (len s))).
  destruct (N.lt_ge_cases (code c) 128) as [Hc|Hc].
  { destruct (encode_ascii_ok c Hc) as [El Eu]. unfold chars_ok. cbn [encode_chars coerce].
    rewrite (proj2 (N.ltb_lt _ _)) by done.
    split_and!; [by apply lexes_app|by rewrite Eu, Hu|done]. }
  destruct (is_separator (String c s)) as [d|] eqn:Es.
  { destruct (is_separator_spec _ _ Es) as (Hd & rest & E). rewrite E.
    apply chars_separator; [done|]. apply (IH (len rest)); [|done..].
    apply (f_equal len) in E.
    destruct Hd as [-> | ->]; change (S (len s) = S (S (S (len rest)))) in E; lia. }
  destruct (rune_size (String c s)) as [|[|k]] eqn:Er.
  3:{ apply (chars_high c s k Hc Er Es). apply (IH (len s)); [lia..|].
      by apply (rune_size_cons c s k). }
  all: destruct (escape_ok 15 15 15 13) as [El Eu]; [by_compute|];
    unfold chars_ok; cbn [encode_chars coerce]; rewrite (proj2 (N.ltb_ge _ _)), Er by lia;
    (split_and!; [by apply lexes_app|by rewrite Eu, Hu|done]).
Qed.

(** A string literal is read back as the string, ill-formed bytes replaced. *)
Lemma literal_roundtrip s rest :
  exists raw, lex_string (encode_chars 0 0 s +:+ String quote rest) = Some (raw, rest) /\
    unquote 0 raw = coerce 0 s.
Proof.
  destruct (encode_chars_ok (len s) s 0) as (Hl & Hu & _); [done..|].
  exists (encode_chars 0 0 s). split; [|done].
  rewrite (Hl (String quote rest) "" rest) by done. by rewrite app_nil_r.
Qed.

(** ** Numbers *)

(** What can follow a value: the end, a comma or a closing bracket. *)
Definition stops (rest : string) : Prop :=
  match rest with
  | EmptyString => True
  | String c _ => code c = 44%N \/ code c = 93%N \/ code c = 125%N
  end.

Lemma starts_app n s rest :
  stops rest -> n ∉ [44; 93; 125]%N ->
  starts n (s +:+ rest) = (fun r => r +:+ rest) <$> starts n s.
Proof.
  intros Hr Hn. destruct s as [|c s].
  - rewrite app_nil. destruct rest as [|c rest]; [done|]. simpl in *.
    rewrite (proj2 (N.eqb_neq _ _)); [done|]. intros E. apply Hn. rewrite <- E.
    rewrite !elem_of_cons. tauto.
  - rewrite app_cons. simpl. by case_match.
Qed.

Lemma span_digits_app s rest :
  stops rest ->
  span_digits (s +:+ rest) = let '(d, r) := span_digits s in (d, r +:+ rest).
Proof.
  intros Hr. induction s as [|c s IH].
  - rewrite app_nil. destruct rest as [|c rest]; [done|]. simpl in *.
    unfold is_digit, between. destruct Hr as [->|[->| ->]]; done.
  - rewrite app_cons. simpl. rewrite IH. destruct (is_digit c); [|done].
    by destruct (span_digits s).
Qed.

Abbreviation tail rest := (prod_map (fun d : string => d) (fun r => r +:+ rest)).

Lemma digits1_app s rest :
  stops rest -> digits1 (s +:+ rest) = tail rest <$> digits1 s.
Proof.
  intros Hr. unfold digits1. rewrite span_digits_app by done.
  by destruct (span_digits s) as [[|c d] r].
Qed.

Lemma lex_int_app s rest : stops rest -> lex_int (s +:+ rest) = tail rest <$> lex_int s.
Proof.
  intros Hr. unfold lex_int. rewrite starts_app, digits1_app; [|done|done|by_compute].
  by destruct (starts 48 s).
Qed.

Lemma lex_frac_app s rest : stops rest -> lex_frac (s +:+ rest) = tail rest <$> lex_frac s.
Proof.
  intros Hr. unfold lex_frac. rewrite starts_app by (done || by_compute).
  destruct (starts 46 s) as [r|]; simpl; [|done]. rewrite digits1_app by done.
  by destruct (digits1 r) as [[d r']|].
Qed.

Lemma lex_sign_app s rest : stops rest -> lex_sign (s +:+ rest) = tail rest (lex_sign s).
Proof.
  intros Hr. unfold lex_sign. rewrite !starts_app by (done || by_compute).
  destruct (starts 43 s); [done|]. by destruct (starts 45 s).
Qed.

Lemma lex_exp_app s rest : stops rest -> lex_exp (s +:+ rest) = tail rest <$> lex_exp s.
Proof.
  intros Hr. destruct s as [|c s].
  - rewrite app_nil. destruct rest as [|c rest]; [done|]. simpl in *.
    destruct Hr as [->|[->| ->]]; done.
  - rewrite app_cons. simpl. destruct (_ || _); [|done]. rewrite lex_sign_app by done.
    destruct (lex_sign s) as [g s1]. simpl. rewrite digits1_app by done.
    by destruct (digits1 s1) as [[d r]|].
Qed.

Lemma lex_number_app s rest : stops rest -> lex_number (s +:+ rest) = tail rest <$> lex_number s.
Proof.
  intros Hr. unfold lex_number. rewrite starts_app by (done || by_compute).
  destruct (starts 45 s) as [s1|]; simpl; [|rename s into s1].
  all: rewrite lex_int_app by done; destruct (lex_int s1) as [[i s2]|]; simpl; [|done];
    rewrite lex_frac_app by done; destruct (lex_frac s2) as [[f s3]|]; simpl; [|done];
    rewrite lex_exp_app by done; by destruct (lex_exp s3) as [[e s4]|].
Qed.

(** A number starts with a digit or a minus sign. *)
Lemma lex_number_head s r :
  lex_number s = Some r -> exists c s', s = String c s' /\ (is_digit c = true \/ code c = 45%N).
Proof.
  unfold lex_number. destruct s as [|c s]; [done|]. intros H. exists c, s. split; [done|].
  simpl in H. destruct (N.eqb_spec (code c) 45); [by right|]. left. unfold lex_int in H. simpl in H.
  destruct (N.eqb_spec (code c) 48) as [E|]; [unfold is_digit, between; by rewrite E|].
  unfold digits1 in H. simpl in H. by destruct (is_digit c).
Qed.

(** ** Values *)

Section gov_induction.
Context (Q : gov -> Prop).
Hypothesis Hnil : Q GoNil.
Hypothesis Hbool : forall b, Q (GoBool b).
Hypothesis Hnumber : forall t, Q (GoNumber t).
Hypothesis Hstring : forall s, Q (GoString s).
Hypothesis Hslice : forall l, Forall Q l -> Q (GoSlice l).
Hypothesis Hmap : forall m, Forall (fun kv => Q (snd kv)) m -> Q (GoMap m).
Hypothesis Hunsupported : forall t, Q (GoUnsupported t).

Fixpoint gov_induction (v : gov) : Q v :=
  match v with
  | GoNil => Hnil
  | GoBool b => Hbool b
  | GoNumber t => Hnumber t
  | GoString s => Hstring s
  | GoSlice l =>
      Hslice l ((fix go l : Forall Q l :=
                   match l with
                   | [] => Forall_nil_2 _
                   | v :: l' => Forall_cons_2 _ _ _ (gov_induction v) (go l')
                   end) l)
  | GoMap m =>
      Hmap m ((fix go m : Forall (fun kv => Q (snd kv)) m :=
                 match m with
                 | [] => Forall_nil_2 _
                 | kv :: m' => Forall_cons_2 _ kv _ (gov_induction (snd kv)) (go m')
                 end) m)
  | GoUnsupported t => Hunsupported t
  end.
End gov_induction.

(** The nesting of slices and maps. *)
Fixpoint nesting (v : gov) : Z :=
  match v with
  | GoSlice l => 1 + foldr (fun v n => Z.max (nesting v) n) 0 l
  | GoMap m => 1 + foldr (fun kv n => Z.max (nesting (snd kv)) n) 0 m
  | _ => 0
  end%Z.

(** Every number is carried as a JSON number literal. *)
Fixpoint numbers_ok (v : gov) : bool :=
  match v with
  | GoNumber t => bool_decide (lex_number t = Some (t, ""))
  | GoSlice l => forallb numbers_ok l
  | GoMap m => forallb (fun kv => numbers_ok (snd kv)) m
  | _ => true
  end.

(** The tree a value stands for; the members of an object come in some order. *)
Inductive represents : gov -> json -> Prop :=
| rep_nil : represents GoNil JNull
| rep_bool b : represents (GoBool b) (JBool b)
| rep_number t : represents (GoNumber t) (JNumber t)
| rep_string s : represents (GoString s) (JString (coerce 0 s))
| rep_slice l js : Forall2 represents l js -> represents (GoSlice l) (JArray js)
| rep_map m ms ms' :
    Forall2 (fun kv kj => fst kj = coerce 0 (fst kv) /\ represents (snd kv) (snd kj)) m ms ->
    Permutation ms ms' -> represents (GoMap m) (JObject ms').

Lemma encode_slice l :
  encode (GoSlice l) = ts ← mapM encode l; Some ("[" +:+ join ts +:+ "]").
Proof. reflexivity. Qed.

Definition encode_member (kv : string * gov) : option (string * string) :=
  t ← encode (snd kv); Some (fst kv, t).

Lemma encode_map m :
  encode (GoMap m) =
  ts ← mapM encode_member m; Some ("{" +:+ join (member <$> merge_sort key_le ts) +:+ "}").
Proof.
  simpl. match goal with |- ?g m ≫= _ = _ => assert (forall m, g m = mapM encode_member m) as E end.
  { clear m. intros m. induction m as [|[k v] m IH]; simpl; [done|]. rewrite IH.
    unfold encode_member. simpl. by destruct (encode v). }
  by rewrite E.
Qed.

(** ** Reading back *)

(** A text that starts with a character that is neither space nor a closing bracket. *)
Definition headed (t : string) : Prop :=
  exists c t', t = String c t' /\ is_space c = false /\ code c <> 93%N /\ code c <> 125%N.

(** The parser reads [t] as [j] at nesting [depth], whatever follows. *)
Definition reads (depth : Z) (t : string) (j : json) : Prop :=
  headed t /\
  forall rest, stops rest -> exists n, value n depth (t +:+ rest) = Some (j, rest).

Lemma len_app s t : len (s +:+ t) = len s + len t.
Proof. induction s as [|c s IH]; [done|]. rewrite app_cons. simpl. by rewrite IH. Qed.

Lemma reads_fuel depth t j rest n :
  reads depth t j -> stops rest -> len t <= n -> value n depth (t +:+ rest) = Some (j, rest).
Proof.
  intros [_ Hr] Hs Hn. destruct (Hr rest Hs) as [m Hm].
  apply (value_fuel _ _ _ _ _ Hm). rewrite len_app. lia.
Qed.

Lemma headed_skip t rest : headed t -> skip_space (t +:+ rest) = t +:+ rest.
Proof. intros (c & t' & -> & Hc & _). rewrite app_cons. simpl. by rewrite Hc. Qed.

Lemma headed_starts n t rest :
  headed t -> n = 93%N \/ n = 125%N -> starts n (skip_space (t +:+ rest)) = None.
Proof.
  intros Ht Hn. rewrite headed_skip by done. destruct Ht as (c & t' & -> & _ & H1 & H2).
  rewrite app_cons. simpl. rewrite (proj2 (N.eqb_neq _ _)); [done|]. by destruct Hn as [-> | ->].
Qed.

Lemma join_cons t ts rest :
  join (t :: ts) +:+ rest =
  t +:+ match ts with [] => rest | _ => "," +:+ (join ts +:+ rest) end.
Proof. destruct ts; [done|]. cbn [join]. by rewrite !app_assoc. Qed.

Lemma elements_read depth ts js rest :
  Forall2 (reads depth) ts js -> ts <> [] ->
  exists n, elements n depth (join ts +:+ "]" +:+ rest) = Some (js, rest).
Proof.
  induction 1 as [|t j ts js Ht Hts IH]; [done|]. intros _. rewrite join_cons.
  destruct ts as [|t2 ts].
  - apply Forall2_nil_inv_l in Hts as ->. exists (S (len t)). simpl.
    rewrite (reads_fuel _ _ j) by (done || (right; left; done)). reflexivity.
  - destruct IH as [n Hn]; [done|].
    set (u := join (t2 :: ts) +:+ "]" +:+ rest) in *.
    exists (S (len t + len u)). simpl.
    rewrite (reads_fuel _ _ j) by (lia || done || (left; done)). simpl mbind.
    destruct (parsers_enough n) as (_ & He & _). apply He in Hn as [_ Hn].
    change (starts 44 (skip_space ("," +:+ u))) with (Some u). cbv iota.
    rewrite Hn by lia. reflexivity.
Qed.

Lemma member_text k t rest :
  member (k, t) +:+ rest =
  String quote (encode_chars 0 0 k +:+ String quote (":" +:+ (t +:+ rest))).
Proof.
  unfold member, encode_string, quoted. cbn [fst snd]. rewrite !app_assoc, app_cons, !app_assoc.
  rewrite !app_cons, !app_nil. reflexivity.
Qed.

(** A member of an object and what it is read as. *)
Definition member_reads (depth : Z) (kt : string * string) (kj : string * json) : Prop :=
  fst kj = coerce 0 (fst kt) /\ reads depth (snd kt) (snd kj).

Lemma members_read depth kts kjs rest :
  Forall2 (member_reads depth) kts kjs -> kts <> [] ->
  exists n, members n depth (join (member <$> kts) +:+ "}" +:+ rest) = Some (kjs, rest).
Proof.
  induction 1 as [|[k t] [k' j] kts kjs [Hk Ht] Hts IH]; [done|]. intros _.
  simpl in Hk, Ht. subst k'. rewrite fmap_cons, join_cons, member_text.
  match goal with |- context [t +:+ ?x] => set (after := x) end.
  destruct (literal_roundtrip k (":" +:+ (t +:+ after))) as (raw & Hraw & Hu).
  assert (forall n, len t <= n -> stops after ->
    members (S n) depth (String quote (encode_chars 0 0 k +:+ String quote (":" +:+ (t +:+ after)))) =
    match starts 44 (skip_space after) with
    | Some r3 => '(l, r4) ← members n depth r3; Some ((coerce 0 k, j) :: l, r4)
    | None => r3 ← starts 125 (skip_space after); Some ([(coerce 0 k, j)], r3)
    end) as Hstep.
  { intros n Hn Hst. cbn [members].
    change (starts 34 (skip_space (String quote ?x))) with (Some x). cbn [mbind option_bind].
    rewrite Hraw. cbn [mbind option_bind].
    change (starts 58 (skip_space (":" +:+ ?x))) with (Some x). cbn [mbind option_bind].
    rewrite (reads_fuel _ _ j) by done. cbn [mbind option_bind]. by rewrite Hu. }
  destruct kts as [|[k2 t2] kts].
  - apply Forall2_nil_inv_l in Hts as ->. exists (S (len t)).
    rewrite Hstep; [reflexivity|lia|right; right; done].
  - destruct IH as [n Hn]; [done|]. destruct (parsers_enough n) as (_ & _ & Hm).
    apply Hm in Hn as [_ Hn]. exists (S (len t + len after)).
    rewrite Hstep; [|lia|left; done].
    set (u := join (member <$> (k2, t2) :: kts) +:+ "}" +:+ rest) in *.
    change after with ("," +:+ u). change (starts 44 (skip_space ("," +:+ u))) with (Some u).
    cbv iota. rewrite Hn; [done|]. change (len u - len rest <= len t + S (len u)). lia.
Qed.

(** ** The round trip *)

Lemma strip_prefix_ne a p b s :
  Ascii.eqb a b = false -> strip_prefix (String a p) (String b s) = None.
Proof. simpl. by intros ->. Qed.

Lemma number_reads depth t : lex_number t = Some (t, "") -> reads depth t (JNumber t).
Proof.
  intros Ht. destruct (lex_number_head t _ Ht) as (c & t' & -> & Hc).
  assert (45 <= code c <= 57)%N as Hrange.
  { destruct Hc as [Hc|Hc]; [|lia]. unfold is_digit, between in Hc.
    rewrite andb_true_iff, !N.leb_le in Hc. lia. }
  assert (forall x, ~ (45 <= code x <= 57)%N -> Ascii.eqb x c = false) as Hne.
  { intros x Hx. destruct (Ascii.eqb_spec x c) as [->|]; [done|done]. }
  split.
  - exists c, t'. split; [done|]. split; [|lia].
    unfold is_space. repeat (case_match; try done); lia.
  - intros rest Hs. exists 1. rewrite value_S.
    assert (skip_space (String c t' +:+ rest) = String c t' +:+ rest) as ->.
    { rewrite app_cons. simpl.
      replace (is_space c) with false; [done|]. symmetry.
      unfold is_space. repeat (case_match; try done); lia. }
    rewrite app_cons. unfold value_at. rewrite !(proj2 (N.eqb_neq _ _)) by lia.
    rewrite <- app_cons. unfold lex_literal. rewrite lex_number_app, Ht by done.
    rewrite app_cons, !strip_prefix_ne by (apply Hne; vm_compute; intros []; congruence).
    reflexivity.
Qed.

Lemma string_reads depth s : reads depth (encode_string s) (JString (coerce 0 s)).
Proof.
  split; [by exists quote, (encode_chars 0 0 s +:+ String quote "")|].
  intros rest _. exists 1. rewrite value_S. unfold encode_string, quoted. rewrite app_cons.
  destruct (literal_roundtrip s rest) as (raw & Hraw & Hu).
  change (skip_space (String quote ?x)) with (String quote x). cbv iota.
  change (value_at 0 depth quote ?x) with
    ('(raw, r) ← lex_string x; Some (JString (unquote 0 raw), r)).
  rewrite app_assoc, app_cons, app_nil, Hraw. simpl. by rewrite Hu.
Qed.

Lemma array_reads depth ts js :
  (depth + 1 <= maxNestingDepth)%Z -> Forall2 (reads (depth + 1)) ts js ->
  reads depth ("[" +:+ join ts +:+ "]") (JArray js).
Proof.
  intros Hd Hts. split; [by exists "["%char, (join ts +:+ "]")|]. intros rest _.
  rewrite !app_assoc.
  assert (forall n x, value (S n) depth ("[" +:+ x) = enclosed elements 93 JArray n depth x) as E
    by reflexivity.
  assert ((maxNestingDepth <? depth + 1)%Z = false) as Hmax by lia.
  destruct (decide (ts = [])) as [->|Hne].
  { apply Forall2_nil_inv_l in Hts as ->. exists 1. rewrite E. unfold enclosed. by rewrite Hmax. }
  destruct (elements_read (depth + 1) ts js rest Hts Hne) as [n Hn]. exists (S n).
  rewrite E. unfold enclosed. rewrite Hmax.
  destruct Hts as [|t j ts js [Ht _] _]; [done|].
  rewrite join_cons in *. rewrite headed_starts by auto. by rewrite Hn.
Qed.

Lemma object_reads depth kts kjs :
  (depth + 1 <= maxNestingDepth)%Z -> Forall2 (member_reads (depth + 1)) kts kjs ->
  reads depth ("{" +:+ join (member <$> kts) +:+ "}") (JObject kjs).
Proof.
  intros Hd Hts. split; [by exists "{"%char, (join (member <$> kts) +:+ "}")|]. intros rest _.
  rewrite !app_assoc.
  assert (forall n x, value (S n) depth ("{" +:+ x) = enclosed members 125 JObject n depth x) as E
    by reflexivity.
  assert ((maxNestingDepth <? depth + 1)%Z = false) as Hmax by lia.
  destruct (decide (kts = [])) as [->|Hne].
  { apply Forall2_nil_inv_l in Hts as ->. exists 1. rewrite E. unfold enclosed. by rewrite Hmax. }
  destruct (members_read (depth + 1) kts kjs rest Hts Hne) as [n Hn]. exists (S n).
  rewrite E. unfold enclosed. rewrite Hmax.
  destruct Hts as [|[k t] j kts kjs _ _]; [done|].
  rewrite fmap_cons, join_cons, member_text in *.
  change (starts 125 (skip_space (String quote ?x))) with (@None string). cbv iota.
  by rewrite Hn.
Qed.

Lemma nesting_slice v l : v ∈ l -> (nesting v + 1 <= nesting (GoSlice l))%Z.
Proof.
  intros Hv. simpl. induction Hv as [v l|v w l _ IH]; simpl; lia.
Qed.

Lemma nesting_map kv m : kv ∈ m -> (nesting (snd kv) + 1 <= nesting (GoMap m))%Z.
Proof.
  intros Hv. simpl. induction Hv as [kv m|kv w m _ IH]; simpl; lia.
Qed.

Lemma nesting_pos :
  (forall l, 1 <= nesting (GoSlice l))%Z /\ (forall m, 1 <= nesting (GoMap m))%Z.
Proof. split; intros l; simpl; induction l; simpl; lia. Qed.

(** What is proved of each part of a value. *)
Definition encodes (v : gov) : Prop :=
  forall t depth, encode v = Some t -> numbers_ok v = true ->
    (0 <= depth)%Z -> (depth + nesting v <= maxNestingDepth)%Z ->
    exists j, represents v j /\ reads depth t j.

Lemma slice_encodes l : Forall encodes l -> encodes (GoSlice l).
Proof.
  intros IH t depth He Hn Hp Hd. rewrite encode_slice in He.
  destruct (mapM encode l) as [ts|] eqn:Hts; simplify_eq/=. apply mapM_Some in Hts.
  assert (exists js, Forall2 represents l js /\ Forall2 (reads (depth + 1)) ts js)
    as (js & Hrep & Hread).
  { assert (forall v, v ∈ l -> (depth + 1 + nesting v <= maxNestingDepth)%Z) as Hdep.
    { intros v Hv%nesting_slice. simpl in Hv. lia. }
    clear Hd. induction Hts as [|v t l ts Hv Hts IHl]; [by exists []|].
    apply Forall_cons in IH as [IHv IH]. apply andb_true_iff in Hn as [Hnv Hn].
    destruct (IHv t (depth + 1)%Z) as (j & Hj & Hr); [done..|lia| |].
    { apply Hdep. by left. }
    destruct IHl as (js & Hjs & Hrs); [done..| |].
    { intros w Hw. apply Hdep. by right. }
    exists (j :: js). split; by constructor. }
  exists (JArray js). split; [by constructor|]. apply array_reads; [|done].
  pose proof (proj1 nesting_pos l). simpl in *. lia.
Qed.

Lemma map_encodes m : Forall (fun kv => encodes (snd kv)) m -> encodes (GoMap m).
Proof.
  intros IH t depth He Hn Hp Hd. rewrite encode_map in He.
  destruct (mapM encode_member m) as [ts|] eqn:Hts; simplify_eq/=. apply mapM_Some in Hts.
  assert (exists ms,
    Forall2 (fun kv kj => fst kj = coerce 0 (fst kv) /\ represents (snd kv) (snd kj)) m ms /\
    Forall2 (member_reads (depth + 1)) ts ms) as (ms & Hrep & Hread).
  { assert (forall kv, kv ∈ m -> (depth + 1 + nesting (snd kv) <= maxNestingDepth)%Z) as Hdep.
    { intros kv Hv%nesting_map. simpl in Hv. lia. }
    clear Hd. induction Hts as [|[k v] t m ts Hv Hts IHl]; [by exists []|].
    apply Forall_cons in IH as [IHv IH]. apply andb_true_iff in Hn as [Hnv Hn].
    unfold encode_member in Hv. simpl in Hv. destruct (encode v) as [tv|] eqn:Ev; simplify_eq/=.
    destruct (IHv tv (depth + 1)%Z) as (j & Hj & Hr); [done..|lia| |].
    { apply (Hdep (k, v)). by left. }
    destruct IHl as (ms & Hjs & Hrs); [done..| |].
    { intros w Hw. apply Hdep. by right. }
    exists ((coerce 0 k, j) :: ms). split; by constructor. }
  destruct (Permutation_Forall2 (symmetry (merge_sort_Permutation key_le ts)) Hread)
    as (ms' & Hperm & Hread').
  exists (JObject ms'). split; [by econstructor|]. apply object_reads; [|done].
  pose proof (proj2 nesting_pos m). simpl in *. lia.
Qed.

Lemma encode_reads v : encodes v.
Proof.
  induction v as [|b|t|s|l IH|m IH|t] using gov_induction.
  - intros t depth [= <-] _ _ _. exists JNull. split; [constructor|].
    split; [by eexists _, _|]. intros rest _. by exists 1.
  - intros t depth [= <-] _ _ _. exists (JBool b). split; [constructor|].
    split; [by destruct b; eexists _, _|]. intros rest _. exists 1. by destruct b.
  - intros t' depth [= <-] Hn _ _. apply bool_decide_eq_true in Hn.
    exists (JNumber t). split; [constructor|]. by apply number_reads.
  - intros t depth [= <-] _ _ _. exists (JString (coerce 0 s)). split; [constructor|].
    apply string_reads.
  - by apply slice_encodes.
  - by apply map_encodes.
  - done.
Qed.

Lemma reads_parse t j : reads 0 t j -> parse t = Some j.
Proof.
  intros Hr. unfold parse.
  pose proof (reads_fuel 0%Z t j "" (S (len t)) Hr I) as E. rewrite app_nil_r in E.
  rewrite E by lia. reflexivity.
Qed.

(** What [json.Marshal] writes is what [json.Unmarshal] reads: the encoder's text of a
    value whose numbers are JSON numbers and that is nested at most ten thousand deep is
    parsed, to the end and with the fuel [parse] provides, into a tree that represents the
    value. *)
Theorem marshal_roundtrip v t :
  encode v = Some t -> numbers_ok v = true -> (nesting v <= maxNestingDepth)%Z ->
  exists j, parse t = Some j /\ represents v j.
Proof.
  intros He Hn Hd. destruct (encode_reads v t 0%Z He Hn) as (j & Hj & Hr); [lia..|].
  exists j. split; [by apply reads_parse|done].
Qed.

(** ** The type of a body *)

(** The string under the key [type], as the decoder returns it. *)
Definition body_type (m : list (string * gov)) : string :=
  match snd <$> find (fun kv => String.eqb (fst kv) "type") m with
  | Some (GoString s) => coerce 0 s
  | _ => ""
  end.

Definition no_type_key {A} (m : list (string * A)) : Prop :=
  Forall (fun kv => is_type_key (fst kv) = false) m.

Lemma decode_no_type acc ms : no_type_key ms -> foldl decode_member acc ms = acc.
Proof.
  intros H. revert acc. induction H as [|[k j] ms Hk _ IH]; intros acc; simpl; [done|].
  rewrite IH. unfold decode_member. by rewrite Hk.
Qed.

(** Members whose keys do not select the field stay so under the representation. *)
Lemma represented_no_type m ms :
  Forall2 (fun kv kj => fst kj = coerce 0 (fst kv) /\ represents (snd kv) (snd kj)) m ms ->
  Forall (fun kv => is_type_key (coerce 0 (fst kv)) = false) m -> no_type_key ms.
Proof.
  intros H Hm. induction H as [|kv kj m ms [Hk _] _ IH]; [constructor|].
  apply Forall_cons in Hm as [Hkv Hm]. constructor; [by rewrite Hk|by apply IH].
Qed.

(** The field a single selecting member sets. *)
Lemma decode_one_type v j ms ms' k :
  represents v j -> is_type_key k = true -> no_type_key ms ->
  Permutation ((k, j) :: ms) ms' ->
  default "" (foldl decode_member (Some "") ms') =
  match v with GoString s => coerce 0 s | _ => "" end.
Proof.
  intros Hv Hk Hms Hp. pose proof (symmetry Hp) as (l1 & l2 & ->)%Permutation_vs_cons_inv.
  apply Permutation_cons_app_inv in Hp. unfold no_type_key in Hms. rewrite Hp in Hms.
  apply Forall_app in Hms as [H1 H2].
  rewrite foldl_app. simpl. rewrite (decode_no_type _ l1), (decode_no_type _ l2) by done.
  unfold decode_member. simpl. rewrite Hk. by destruct Hv.
Qed.

Lemma key_elsewhere {A} (m1 m2 : list (string * A)) kv kv' :
  NoDup (fst <$> m1 ++ kv :: m2) -> kv' ∈ m1 ++ m2 -> fst kv' <> fst kv.
Proof.
  rewrite fmap_app, fmap_cons, <- Permutation_middle, NoDup_cons, <- fmap_app.
  intros [Hn _] Hin E. apply Hn. rewrite <- E. by apply list_elem_of_fmap_2.
Qed.

(** The decoder's field for the body of a map with at most one key that selects it. *)
Lemma unmarshal_body m body :
  NoDup (fst <$> m) ->
  (forall kv, kv ∈ m -> is_type_key (coerce 0 (fst kv)) = true -> fst kv = "type") ->
  encode (GoMap m) = Some body -> numbers_ok (GoMap m) = true ->
  (nesting (GoMap m) <= maxNestingDepth)%Z ->
  default "" (unmarshal_type body) = body_type m.
Proof.
  intros Hnd Hkeys He Hn Hd. destruct (encode_reads _ _ 0%Z He Hn) as (j & Hj & Hr); [lia..|].
  unfold unmarshal_type. rewrite (reads_parse _ _ Hr). simpl.
  inversion Hj as [| | | | |? ms ms' Hms Hp]; subst.
  unfold body_type. destruct (find _ m) as [[k v]|] eqn:Ef.
  - apply find_some in Ef as [Hin Hk]. simpl in Hk. apply String.eqb_eq in Hk as ->.
    apply list_elem_of_In, list_elem_of_split in Hin as (m1 & m2 & ->).
    apply Forall2_app_inv_l in Hms as (ms1 & r & Hms1 & Hr2 & ->).
    apply Forall2_cons_inv_l in Hr2 as ([k' jv] & ms2 & [Hk' Hv] & Hms2 & ->).
    simpl in Hk', Hv. subst k'.
    apply (decode_one_type v jv (ms1 ++ ms2) ms' (coerce 0 "type")); [done|done| |].
    + apply (represented_no_type (m1 ++ m2)); [by apply Forall2_app|].
      apply Forall_forall. intros kv Hkv. apply not_true_iff_false. intros Ht.
      apply (key_elsewhere _ _ _ _ Hnd Hkv). apply Hkeys; [|done].
      rewrite elem_of_app in *. rewrite elem_of_cons. tauto.
    + rewrite <- Hp. apply Permutation_middle.
  - rewrite decode_no_type; [done|]. unfold no_type_key. rewrite <- Hp.
    apply (represented_no_type m); [done|]. apply Forall_forall. intros kv Hkv.
    apply not_true_iff_false. intros Ht%Hkeys; [|done].
    apply list_elem_of_In in Hkv. apply (find_none _ _ Ef) in Hkv. simpl in Hkv.
    by rewrite Ht in Hkv.
Qed.

(** ** Witness *)

(** An order event with text that needs every kind of escape: quotes, a tab, an ampersand, a
    line separator, a two-byte letter and a byte that is not UTF-8. *)
Definition demo_text : string :=
  String quote "a&b" +:+ String (chr 9) (encode_rune 8232 +:+ encode_rune 233 +:+ String (chr 255) "").

Definition demo_map : list (string * gov) :=
  [("type", GoString "order.created"); ("note", GoString demo_text);
   ("items", GoSlice [GoNumber "-1.5e+3"; GoBool true; GoNil; GoMap []])].

Lemma marshal_roundtrip_witness :
  exists t j, encode (GoMap demo_map) = Some t /\ parse t = Some j /\ represents (GoMap demo_map) j.
Proof.
  eexists. destruct (marshal_roundtrip (GoMap demo_map)
    (default "" (encode (GoMap demo_map)))) as (j & Hp & Hj).
  - vm_compute. reflexivity.
  - vm_compute. reflexivity.
  - vm_compute. discriminate.
  - exists j. split; [|split; [exact Hp|exact Hj]]. vm_compute. reflexivity.
Defined.

End JsonRT.
