(* ===== verification/EventBus.v ===== *)
(** * The event bus (eventbus.go, publish.go, event.go)

    Publishing events, singly and in batches, through the publisher interface; bringing
    messages back from a dead letter queue; and the bus's own life cycle.  The caller's
    [Event] is a record of what its methods return; its header map is the caller's, a location
    in the heap.  [uuid.New()] and [time.Now()] are
    successive readings of two supplies. *)

From stdpp Require Import base gmap strings list fin_maps.
From Stdlib Require Import ZArith Lia.
From S2P Require Import Prelude CircuitBreaker Errors Values Marshal Router Config Amqp Client PublisherApi Retry Consumer.
Import Err Val PubApi.
Local Open Scope Z_scope.
Local Open Scope kit_scope.
Local Arguments deref : simpl never.
Local Arguments map_set : simpl never.
Local Arguments map_delete : simpl never.
Local Arguments map_copy : simpl never.

Module Bus.

(** [Headers()] is nil or a map; [ToMap()] likewise. *)
Record Event := {
  Type_ : string;
  Exchange_ : string;
  ToMap : option (list (string * Marshal.gov));
  Headers_ : option loc
}.

(** One per failed event. *)
Record BatchError := { Index : Z; Event_ : Event; Error_ : error }.

Record BatchResult := { Total : Z; Success : Z; Failed : Z; Errors : list BatchError }.

#[export] Instance BatchResult_eta : Eta BatchResult := fun r =>
  {| Total := Total r; Success := Success r; Failed := Failed r; Errors := Errors r |}.

(** ** Publishing *)

Section Publish.
Context {P : Publisher}.
(** The successive results of [uuid.New().String()] and [time.Now()]. *)
Context (uuids : nat -> string) (clock : nat -> Z).

Record World := { base : Retry.World; ids : nat; ticks : nat }.

Definition on_base {B} (m : M Retry.World B) : M World B := fun w =>
  let '(b, bs) := m (base w) in (b, {| base := bs; ids := ids w; ticks := ticks w |}).

Definition new_uuid : M World string := fun w =>
  (uuids (ids w), {| base := base w; ids := S (ids w); ticks := ticks w |}).

Definition now : M World Z := fun w =>
  (clock (ticks w), {| base := base w; ids := ids w; ticks := S (ticks w) |}).

(** [headersToSend["trace_id"] == nil] *)
Definition no_trace (t : Table) : bool :=
  match t !! Cons.trace_header with None | Some ANil => true | Some _ => false end.

(** A new map, into which the event's headers are copied, with a trace id. *)
Definition headersToSend (event : Event) : M World loc :=
  l ← on_base (Retry.with_heap (alloc ∅));
  (match Headers_ event with
   | Some headers => on_base (Retry.with_heap (fun h => (tt, map_copy l (Some headers) h)))
   | None => mret tt
   end);;
  w ← get;
  if no_trace (deref (Retry.heap (base w)) (Some l)) then
    id ← new_uuid;
    on_base (Retry.with_heap (fun h => (tt, map_set l Cons.trace_header (AString id) h)));;
    mret l
  else mret l.

Definition createDefaultPublishing (event : Event) : M World (error + Publishing) :=
  headers ← headersToSend event;
  match Marshal.Marshal (ToMap event) with
  | inl err => mret (inl err)
  | inr body =>
      correlation ← new_uuid;
      message ← new_uuid;
      timestamp ← now;
      mret (inr {| p_Headers := Some headers; p_ContentType := "application/json";
                   p_ContentEncoding := ""; p_DeliveryMode := Persistent; p_Priority := 0;
                   p_CorrelationId := correlation; p_ReplyTo := ""; p_Expiration := "";
                   p_MessageId := message; p_Timestamp := timestamp; p_Type := Type_ event;
                   p_UserId := ""; p_AppId := ""; p_Body := body |})
  end.

Definition Publish (event : Event) : M World (option error) :=
  r ← createDefaultPublishing event;
  match r with
  | inl err => mret (Some err)
  | inr msg => on_base (Retry.publish (Exchange_ event) (Type_ event) msg)
  end.

(** ** Batches *)

(** [result.Failed++] and [result.Errors = append(result.Errors, ...)] *)
Definition add_failure (i : nat) (event : Event) (err : error) (r : BatchResult) : BatchResult :=
  {| Total := Total r; Success := Success r; Failed := int64 (Failed r + 1);
     Errors := Errors r ++ [{| Index := Z.of_nat i; Event_ := event; Error_ := err |}] |}.

Definition add_success (r : BatchResult) : BatchResult :=
  {| Total := Total r; Success := int64 (Success r + 1); Failed := Failed r;
     Errors := Errors r |}.

(** The loop of [publishBatchSequential] from index [i] on. *)
Fixpoint sequential (failFast : bool) (i : nat) (events : list Event) (result : BatchResult)
  : M World (BatchResult * option error) :=
  match events with
  | [] => mret (result, None)
  | event :: events' =>
      r ← Publish event;
      match r with
      | Some err =>
          let result := add_failure i event err result in
          if failFast then mret (result, Some err)
          else sequential failFast (S i) events' result
      | None => sequential failFast (S i) events' (add_success result)
      end
  end.

Definition publishBatchSequential (events : list Event) (cfg : Cfg.BatchConfig)
    (result : BatchResult) : M World (BatchResult * option error) :=
  sequential (Cfg.FailFast cfg) 0 events result.

(** The serialising loop of [publishBatchPipeline]: the messages, which stay zero where
    serialising failed, or the early return. *)
Fixpoint serialize (failFast : bool) (i : nat) (events : list Event) (result : BatchResult)
    (messages : list PublishMessage) : M World (BatchResult * (error + list PublishMessage)) :=
  match events with
  | [] => mret (result, inr messages)
  | event :: events' =>
      r ← createDefaultPublishing event;
      match r with
      | inl err =>
          let result := add_failure i event err result in
          if failFast then mret (result, inl err)
          else serialize failFast (S i) events' result (messages ++ [zero_message])
      | inr msg =>
          w ← get;
          serialize failFast (S i) events' result
            (messages ++ [Retry.handed (Retry.heap (base w)) (Exchange_ event) (Type_ event) msg])
      end
  end.

(** The loop over the publisher's error slots.  Every slot belongs to an event, by the
    publisher's promise; reading past the events would panic. *)
Fixpoint collect (failFast : bool) (i : nat) (events : list Event)
    (messageErrors : list (option error)) (result : BatchResult)
  : option (BatchResult * option error) :=
  match messageErrors with
  | [] => Some (result, None)
  | Some msgErr :: rest =>
      match events with
      | [] => None
      | event :: events' =>
          let result := add_failure i event msgErr result in
          if failFast then Some (result, Some msgErr)
          else collect failFast (S i) events' rest result
      end
  | None :: rest => collect failFast (S i) (tail events) rest (add_success result)
  end.

(** The messages of a batch with the slot the publisher returned for each. *)
Definition in_batch (ms : list PublishMessage) (es : list (option error)) : list Retry.Outgoing :=
  imap (fun i m => {| Retry.o_Message := m; Retry.o_Error := mjoin (es !! i) |}) ms.

(** [None] stands for the panic. *)
Definition publishBatchPipeline (events : list Event) (cfg : Cfg.BatchConfig)
    (result : BatchResult) : M World (option (BatchResult * option error)) :=
  '(result, r) ← serialize (Cfg.FailFast cfg) 0 events result [];
  match r with
  | inl err => mret (Some (result, Some err))
  | inr messages =>
      '(messageErrors, err) ← on_base (fun w =>
        let '(r, pw) := PublishBatchPipeline messages (Retry.pworld w) in
        (r, {| Retry.heap := Retry.heap w; Retry.pworld := pw;
               Retry.outgoing := Retry.outgoing w ++ in_batch messages (fst r) |}));
      match err with
      | Some err => mret (Some (result, Some err))
      | None => mret (collect (Cfg.FailFast cfg) 0 events messageErrors result)
      end
  end.

Definition PublishBatch (events : list Event) (opts : list Cfg.BatchOption)
  : M World (option (BatchResult * option error)) :=
  match events with
  | [] => mret (Some ({| Total := 0; Success := 0; Failed := 0; Errors := [] |}, None))
  | _ =>
      let cfg := Cfg.apply_options opts Cfg.DefaultBatchConfig in
      let result :=
        {| Total := Z.of_nat (length events); Success := 0; Failed := 0; Errors := [] |} in
      if Cfg.UsePipelining cfg then publishBatchPipeline events cfg result
      else r ← publishBatchSequential events cfg result; mret (Some r)
  end.

(** ** Dead letter queues *)

Section Requeue.
Context {G : GoImpl}.

Definition x_death : string := "x-death".

(** A new map with the delivery's headers, the count reset if asked, without x-death. *)
Definition requeue_headers (resetRetryCount : bool) (d : Delivery) : M World loc :=
  w ← get;
  headers ← on_base (Retry.with_heap (alloc (deref (Retry.heap (base w)) (d_Headers d))));
  (if resetRetryCount then
     on_base (Retry.with_heap (fun h => (tt, map_set headers Msg.CountHeader (AInt32 0) h)))
   else mret tt);;
  on_base (Retry.with_heap (fun h => (tt, map_delete headers x_death h)));;
  mret headers.

Definition RequeueFromDLQ (dlqMsg : Dlq.DLQMessage) (resetRetryCount : bool)
  : M World (option error) :=
  if String.eqb (Dlq.OriginalExchange dlqMsg) "" || String.eqb (Dlq.OriginalRoutingKey dlqMsg) ""
  then mret (Some (NewConfigFieldError "DLQMessage" "missing original exchange or routing key"))
  else
    let d := Msg.Delivery (Dlq.MessageContext dlqMsg) in
    headers ← requeue_headers resetRetryCount d;
    timestamp ← now;
    on_base (Retry.publish (Dlq.OriginalExchange dlqMsg) (Dlq.OriginalRoutingKey dlqMsg)
      {| p_Headers := Some headers; p_ContentType := d_ContentType d; p_ContentEncoding := "";
         p_DeliveryMode := d_DeliveryMode d; p_Priority := d_Priority d; p_CorrelationId := "";
         p_ReplyTo := ""; p_Expiration := ""; p_MessageId := ""; p_Timestamp := timestamp;
         p_Type := ""; p_UserId := ""; p_AppId := "";
         p_Body := Msg.Body (Dlq.MessageContext dlqMsg) |}).

(** How the loop over the deliveries ends: it returns, or it waits for a delivery that does
    not come. *)
Inductive Ended := Returns (requeuedCount : Z) (err : option error) | Waits.

(** What is in the channel of deliveries, each with what [ctx.Err()] says when it is taken. *)
Definition Deliveries : Type := list (Delivery * option error).

(** The loop over the deliveries that arrive, and whether the channel is closed after them:
    how it ends, the settlements, and what it leaves in the channel. *)
Fixpoint drain (resetRetryCount : bool) (maxMessages requeuedCount : Z) (deliveries : Deliveries)
    (closed : bool) : M World (Ended * list Msg.Settle * Deliveries) :=
  match deliveries with
  | [] => mret (if closed then Returns requeuedCount None else Waits, [], [])
  | (delivery, ctxErr) :: rest =>
      let ctx := {| Msg.Delivery := delivery |} in
      if (0 <? maxMessages) && (maxMessages <=? requeuedCount) then
        mret (Returns requeuedCount None, [Msg.Nack true ctx], rest)
      else match ctxErr with
      | Some err => mret (Returns requeuedCount (Some err), [Msg.Nack true ctx], rest)
      | None =>
          w ← get;
          err ← RequeueFromDLQ (Dlq.NewDLQMessage (Retry.heap (base w)) ctx) resetRetryCount;
          match err with
          | Some _ =>
              '(e, ss, remaining) ← drain resetRetryCount maxMessages requeuedCount rest closed;
              mret (e, Msg.Nack true ctx :: ss, remaining)
          | None =>
              '(e, ss, remaining) ←
                drain resetRetryCount maxMessages (int64 (requeuedCount + 1)) rest closed;
              mret (e, Msg.Ack ctx :: ss, remaining)
          end
      end
  end.

(** [channel] is the client's channel or its error, [consumed] the answer to the consume
    call and what arrives on its channel. *)
Definition RequeueAllFromDLQ (channel : error + Amqp.handle) (dlqName : string)
    (consumed : error + (Deliveries * bool)) (resetRetryCount : bool)
    (maxMessages : Z) : M World (Ended * list Msg.Settle * Deliveries) :=
  match channel with
  | inl err => mret (Returns 0 (Some err), [], [])
  | inr _ =>
      match consumed with
      | inl err => mret (Returns 0 (Some (NewConsumeError dlqName (Some err))), [], [])
      | inr (deliveries, closed) => drain resetRetryCount maxMessages 0 deliveries closed
      end
  end.

End Requeue.

(** ** Properties of publishing *)

Abbreviation hp w := (Retry.heap (base w)).
Abbreviation sentout w := (Retry.outgoing (base w)).

(** The headers an event is sent with: a copy of the caller's, with a trace id. *)
Definition sent_headers (h : Heap) (event : Event) (id : string) : Table :=
  let t := deref h (Headers_ event) in
  if no_trace t then <[Cons.trace_header := AString id]> t else t.

Lemma sent_headers_traced h event id : no_trace (sent_headers h event id) = false.
Proof.
  unfold sent_headers. destruct (no_trace (deref h (Headers_ event))) eqn:E; [|done].
  unfold no_trace. by rewrite lookup_insert_eq.
Qed.

(** The maps of [h] are as they were in [h0]. *)
Definition maps_kept (h0 h : Heap) : Prop :=
  heap_ok h /\ forall r, allocated h0 r -> deref h r = deref h0 r.

(** A map allocated in [h0] with the contents of [r]. *)
Lemma copied_map h0 r :
  heap_ok h0 -> allocated h0 r ->
  let l := next h0 in
  let h := match r with
           | Some l' => map_copy l (Some l') (snd (alloc ∅ h0))
           | None => snd (alloc ∅ h0)
           end in
  deref h (Some l) = deref h0 r /\ allocated h (Some l) /\ maps_kept h0 h.
Proof.
  intros Hh Hr l. pose proof (heap_ok_alloc ∅ h0 Hh) as Hh'.
  assert (allocated (snd (alloc ∅ h0)) (Some l)) as Hl
    by (simpl; rewrite lookup_insert_eq; by eexists).
  unfold maps_kept. destruct r as [l'|]; cbv zeta; split_and!; try done.
  - rewrite deref_copy_eq, (deref_alloc_old ∅ h0 (Some l') Hh Hr), deref_alloc_eq.
    by rewrite map_union_empty.
  - simpl. rewrite lookup_insert_eq. by eexists.
  - by apply heap_ok_copy.
  - intros [l1|] H1; [|done]. rewrite deref_copy_ne; [by apply (deref_alloc_old _ _ (Some l1))|].
    apply Hh in H1. subst l. lia.
  - apply deref_alloc_eq.
  - intros [l1|] H1; [|done]. by apply (deref_alloc_old _ _ (Some l1)).
Qed.

Lemma headersToSend_spec event w :
  exists h i, headersToSend event w =
    (next (hp w), {| base := {| Retry.heap := h; Retry.pworld := Retry.pworld (base w);
                                Retry.outgoing := sentout w |}; ids := i; ticks := ticks w |}) /\
    (heap_ok (hp w) -> allocated (hp w) (Headers_ event) ->
     deref h (Some (next (hp w))) = sent_headers (hp w) event (uuids (ids w)) /\
     maps_kept (hp w) h).
Proof.
  set (l := next (hp w)). set (h1 := match Headers_ event with
    | Some l' => map_copy l (Some l') (snd (alloc ∅ (hp w))) | None => snd (alloc ∅ (hp w)) end).
  assert (headersToSend event w =
    let b h := {| Retry.heap := h; Retry.pworld := Retry.pworld (base w);
                  Retry.outgoing := sentout w |} in
    if no_trace (deref h1 (Some l)) then
      (l, {| base := b (map_set l Cons.trace_header (AString (uuids (ids w))) h1);
             ids := S (ids w); ticks := ticks w |})
    else (l, {| base := b h1; ids := ids w; ticks := ticks w |})) as ->.
  { unfold headersToSend, on_base, Retry.with_heap, new_uuid, h1. run_m.
    destruct (Headers_ event); simpl; by destruct (no_trace _). }
  simpl. destruct (no_trace (deref h1 (Some l))) eqn:En; do 2 eexists; (split; [done|]);
    intros Hh Hr; destruct (copied_map (hp w) (Headers_ event) Hh Hr) as (Hd & Ha & Hk & Hold);
    fold l in Hd, Ha, Hk, Hold; fold h1 in Hd, Ha, Hk, Hold; unfold sent_headers;
    rewrite Hd in En; rewrite En.
  - split; [by rewrite deref_set_eq, Hd|]. split; [by apply heap_ok_set|].
    intros [l1|] H1; [|done]. rewrite deref_set_ne; [by apply Hold|]. apply Hh in H1. subst l. lia.
  - done.
Qed.

(** What [createDefaultPublishing] returns and that it publishes nothing. *)
Lemma create_spec event w :
  exists h i tk, snd (createDefaultPublishing event w) =
    {| base := {| Retry.heap := h; Retry.pworld := Retry.pworld (base w);
                  Retry.outgoing := sentout w |}; ids := i; ticks := tk |} /\
    (heap_ok (hp w) -> allocated (hp w) (Headers_ event) -> maps_kept (hp w) h) /\
    match Marshal.Marshal (ToMap event) with
    | inl e => fst (createDefaultPublishing event w) = inl e
    | inr body => exists m, fst (createDefaultPublishing event w) = inr m /\
        (heap_ok (hp w) -> allocated (hp w) (Headers_ event) ->
         deref h (p_Headers m) = sent_headers (hp w) event (uuids (ids w))) /\
        p_Headers m = Some (next (hp w)) /\ p_Body m = body /\ p_Type m = Type_ event /\ p_DeliveryMode m = Persistent /\
        p_ContentType m = "application/json"
    end.
Proof.
  unfold createDefaultPublishing, new_uuid, now. run_m.
  destruct (headersToSend_spec event w) as (h & i & -> & Hh).
  destruct (Marshal.Marshal (ToMap event)); simpl; do 3 eexists; (split; [done|]);
    (split; [by intros; apply Hh|]); [done|]. eexists. split_and!; try done. by intros; apply Hh.
Qed.

(** C25: [Publish] sends an event that can be serialised exactly once, to the event's exchange
    with its type as routing key and message type, persistent, with the JSON body and a copy
    of the headers in the caller's map, to which a trace id is added when there is none; it
    returns what the publisher answers.  The caller's map, and every other map that existed, is
    as it was afterwards, and the message's own map is none of them.  An event that cannot be
    serialised is not sent.  (The caller's map is nil or one that exists.) *)
Theorem Publish_spec event w :
  heap_ok (hp w) -> allocated (hp w) (Headers_ event) ->
  let '(err, w') := Publish event w in
  (forall r, allocated (hp w) r -> deref (hp w') r = deref (hp w) r) /\
  match Marshal.Marshal (ToMap event) with
  | inl e => err = Some e /\ sentout w' = sentout w
  | inr body => exists o m, sentout w' = sentout w ++ [o] /\ Retry.o_Error o = err /\
      m = Retry.o_Message o /\
      Exchange m = Exchange_ event /\ RoutingKey m = Type_ event /\
      Headers m = sent_headers (hp w) event (uuids (ids w)) /\ no_trace (Headers m) = false /\
      (exists l, p_Headers (Message m) = Some l /\ ~ allocated (hp w) (Some l)) /\
      p_Body (Message m) = body /\ p_Type (Message m) = Type_ event /\
      p_DeliveryMode (Message m) = Persistent
  end.
Proof.
  intros Hok Hev. unfold Publish. run_m.
  destruct (create_spec event w) as (h & i & tk & Hs & Hh & Hm). specialize (Hh Hok Hev) as [_ Hh].
  destruct (createDefaultPublishing event w) as [r w1]. simpl in Hs, Hm. subst w1.
  destruct (Marshal.Marshal (ToMap event)) as [e|body]; [by subst r|].
  destruct Hm as (m & -> & Hd & Hp & Hb & Hty & Hdm & _). specialize (Hd Hok Hev).
  unfold on_base, Retry.publish, Retry.handed. simpl. rewrite Hd.
  destruct (PubApi.Publish _ _) as [err pw]. simpl. split; [done|].
  eexists _, _. split_and!; try done; [apply sent_headers_traced|].
  eexists. split; [done|]. intros Hl. apply Hok in Hl. lia.
Qed.

(** ** Accounting of batches *)

(** The entries for the failures among the outcomes [rs] of the first [events], the first
    of which has index [i]. *)
Fixpoint failures_from (i : nat) (events : list Event) (rs : list (option error))
  : list BatchError :=
  match events, rs with
  | event :: events', r :: rs' =>
      (match r with
       | Some e => [{| Index := Z.of_nat i; Event_ := event; Error_ := e |}]
       | None => []
       end) ++ failures_from (S i) events' rs'
  | _, _ => []
  end.

Definition nils (rs : list (option error)) : Z :=
  Z.of_nat (length (filter (fun r => r = None) rs)).

Definition errs (rs : list (option error)) : Z :=
  Z.of_nat (length (filter (fun r => r <> None) rs)).

(** [r] with the outcomes [rs] of [events], from index [i] on, added. *)
Definition tally (i : nat) (events : list Event) (rs : list (option error)) (r : BatchResult)
  : BatchResult :=
  {| Total := Total r; Success := Success r + nils rs; Failed := Failed r + errs rs;
     Errors := Errors r ++ failures_from i events rs |}.

(** Counters far from overflow. *)
Definition small (r : BatchResult) (n : nat) : Prop :=
  0 <= Success r /\ 0 <= Failed r /\ Success r + Failed r + Z.of_nat n <= int64_max.

Lemma nils_cons r rs : nils (r :: rs) = nils rs + (match r with None => 1 | Some _ => 0 end).
Proof. unfold nils. rewrite filter_cons. destruct r; case_decide; simpl; done || lia. Qed.

Lemma errs_cons r rs : errs (r :: rs) = errs rs + (match r with None => 0 | Some _ => 1 end).
Proof. unfold errs. rewrite filter_cons. destruct r; case_decide; simpl; done || lia. Qed.

Lemma nils_errs rs : nils rs + errs rs = Z.of_nat (length rs).
Proof.
  induction rs as [|r rs IH]; [done|]. rewrite nils_cons, errs_cons.
  destruct r; simpl; lia.
Qed.

(** Adding one outcome, then the rest. *)
Definition add_outcome (i : nat) (event : Event) (o : option error) (r : BatchResult)
  : BatchResult :=
  match o with Some e => add_failure i event e r | None => add_success r end.

Lemma small_add i event o r n : small r (S n) -> small (add_outcome i event o r) n.
Proof.
  unfold small. intros (H1 & H2 & H3). destruct o; simpl;
    rewrite int64_id by (unfold in_int64, int64_min; lia); lia.
Qed.

Lemma tally_cons i event events o rs r n :
  small r (S n) ->
  tally (S i) events rs (add_outcome i event o r) = tally i (event :: events) (o :: rs) r.
Proof.
  unfold small. intros (H1 & H2 & H3). unfold tally. rewrite nils_cons, errs_cons.
  destruct o as [e|]; simpl; rewrite int64_id by (unfold in_int64, int64_min; lia); f_equal;
    try lia; by rewrite <- app_assoc.
Qed.

Lemma tally_nil i events r : tally i events [] r = r.
Proof.
  unfold tally, nils, errs. rewrite !filter_nil. simpl. rewrite !Z.add_0_r.
  replace (failures_from i events []) with (@nil BatchError) by (by destruct events).
  rewrite app_nil_r. by destruct r.
Qed.

(** Reference for the sequential batch: publish the events one after the other and list the
    outcomes, stopping after the first failure if asked. *)
Fixpoint attempts (failFast : bool) (events : list Event) : M World (list (option error)) :=
  match events with
  | [] => mret []
  | event :: events' =>
      r ← Publish event;
      match r, failFast with
      | Some e, true => mret [Some e]
      | _, _ => rs ← attempts failFast events'; mret (r :: rs)
      end
  end.

(** The error a fail-fast batch returns. *)
Definition fast_error (failFast : bool) (rs : list (option error)) : option error :=
  if failFast then mjoin (last rs) else None.

Lemma sequential_tally failFast i events r w :
  small r (length events) ->
  sequential failFast i events r w =
  let '(rs, w') := attempts failFast events w in
  ((tally i events rs r, fast_error failFast rs), w').
Proof.
  revert i r w. induction events as [|event events IH]; intros i r w Hs; simpl.
  { run_m. rewrite tally_nil. by destruct failFast. }
  unfold mbind, M_bind, mret, M_ret. destruct (Publish event w) as [o w1]. simpl in Hs.
  pose proof (small_add i event o r _ Hs) as Hs'.
  destruct o as [e|], failFast; simpl in *.
  1: { f_equal. f_equal. rewrite <- (tally_cons i event events (Some e) [] r _ Hs).
       by rewrite tally_nil. }
  all: rewrite IH by done; destruct (attempts _ events w1) as [rs w2] eqn:Ea;
    rewrite <- (tally_cons i event events _ rs r _ Hs); try done.
  f_equal. f_equal. unfold fast_error. by destruct rs.
Qed.

Lemma attempts_all events w : length (fst (attempts false events w)) = length events.
Proof.
  revert w. induction events as [|event events IH]; intros w; [done|]. simpl.
  unfold mbind, M_bind, mret, M_ret. destruct (Publish event w) as [[e|] w1];
    specialize (IH w1); destruct (attempts false events w1); simpl in *; lia.
Qed.

(** C21: a sequential batch accounts for its events: the result counts the outcomes of
    publishing the events one after the other and lists the failures with their indices, in
    order; without fail-fast every event is tried, successes and failures add up to the
    total and no error is returned; with it the batch stops at the first failure and returns
    that error. *)
Theorem sequential_batch_accounts events opts w :
  let cfg := Cfg.apply_options opts Cfg.DefaultBatchConfig in
  Cfg.UsePipelining cfg = false -> Z.of_nat (length events) <= int64_max -> events <> [] ->
  let '(rs, w') := attempts (Cfg.FailFast cfg) events w in
  exists result err, PublishBatch events opts w = (Some (result, err), w') /\
    Total result = Z.of_nat (length events) /\
    Success result = nils rs /\ Failed result = errs rs /\
    Errors result = failures_from 0 events rs /\
    err = fast_error (Cfg.FailFast cfg) rs /\
    (Cfg.FailFast cfg = false -> Success result + Failed result = Total result).
Proof.
  intros cfg Hp Hlen Hne.
  destruct (attempts (Cfg.FailFast cfg) events w) as [rs w'] eqn:Ea.
  set (r0 := {| Total := Z.of_nat (length events); Success := 0; Failed := 0; Errors := [] |}).
  assert (PublishBatch events opts w =
    (Some (tally 0 events rs r0, fast_error (Cfg.FailFast cfg) rs), w')) as ->.
  { unfold PublishBatch. fold cfg. destruct events as [|event events]; [done|]. rewrite Hp.
    fold r0. unfold publishBatchSequential, mbind, M_bind, mret, M_ret.
    rewrite sequential_tally by (unfold small, r0; simpl in *; lia). by rewrite Ea. }
  do 2 eexists. split; [done|]. simpl. rewrite !Z.add_0_l. split_and!; try done.
  intros Hf. rewrite nils_errs. pose proof (attempts_all events w) as Hall.
  rewrite Hf in Ea. rewrite Ea in Hall. simpl in Hall. by rewrite Hall.
Qed.

(** *** Pipelined batches *)

(** Whether an event can be serialised. *)
Definition ser (event : Event) : option error :=
  match Marshal.Marshal (ToMap event) with inl e => Some e | inr _ => None end.

(** The message the pipeline sends for an event: a zero message if serialising failed. *)
Definition message_for (event : Event) (m : PublishMessage) : Prop :=
  match Marshal.Marshal (ToMap event) with
  | inl _ => m = zero_message
  | inr body => Exchange m = Exchange_ event /\ RoutingKey m = Type_ event /\
      p_Body (Message m) = body
  end.

(** The failures of serialising are recorded without the successes. *)
Definition tally_failures (i : nat) (events : list Event) (rs : list (option error))
    (r : BatchResult) : BatchResult :=
  {| Total := Total r; Success := Success r; Failed := Failed r + errs rs;
     Errors := Errors r ++ failures_from i events rs |}.

Lemma tally_failures_cons i event events r n :
  small r (S n) ->
  tally_failures (S i) events (ser <$> events)
    (match ser event with Some e => add_failure i event e r | None => r end) =
  tally_failures i (event :: events) (ser <$> event :: events) r.
Proof.
  unfold small. intros (H1 & H2 & H3). unfold tally_failures. rewrite fmap_cons, errs_cons.
  destruct (ser event) as [e|]; simpl;
    rewrite ?int64_id by (unfold in_int64, int64_min; lia); f_equal; try lia;
    by rewrite <- app_assoc.
Qed.

Lemma serialize_spec i events r ms w :
  small r (length events) ->
  exists ms' w', serialize false i events r ms w =
    ((tally_failures i events (ser <$> events) r, inr (ms ++ ms')), w') /\
    Forall2 message_for events ms' /\
    Retry.pworld (base w') = Retry.pworld (base w) /\ sentout w' = sentout w.
Proof.
  revert i r ms w. induction events as [|event events IH]; intros i r ms w Hs.
  { exists [], w. simpl. unfold tally_failures, errs. rewrite filter_nil, !app_nil_r. simpl.
    rewrite Z.add_0_r. split_and!; try done. by destruct r. }
  cbn [serialize]. unfold mbind at 1, M_bind at 1.
  destruct (create_spec event w) as (h & k & tk & Hw & _ & Hm).
  destruct (createDefaultPublishing event w) as [o w1]. simpl in Hw, Hm.
  rewrite <- (tally_failures_cons i event events r _ Hs).
  pose proof (small_add i event (ser event) r _ Hs) as Hs1.
  unfold message_for, ser in *.
  destruct (Marshal.Marshal (ToMap event)) as [e|body] eqn:Em.
  - subst o. simpl in Hs1.
    destruct (IH (S i) (add_failure i event e r) (ms ++ [zero_message]) w1 Hs1)
      as (ms' & w' & -> & Hf & Hp & Ho).
    exists (zero_message :: ms'), w'. rewrite <- app_assoc. split; [done|].
    split; [constructor; [by rewrite Em|done]|]. by rewrite Hp, Ho, Hw.
  - destruct Hm as (m & -> & _ & _ & Hb & _). run_m.
    assert (small r (length events)) as Hs2 by (unfold small in *; simpl in Hs; lia).
    set (msg := Retry.handed _ _ _ _).
    destruct (IH (S i) r (ms ++ [msg]) w1 Hs2) as (ms' & w' & -> & Hf & Hp & Ho).
    exists (msg :: ms'), w'. rewrite <- app_assoc. split; [done|].
    split; [constructor; [by rewrite Em|done]|]. by rewrite Hp, Ho, Hw.
Qed.

Lemma collect_tally i events es r :
  small r (length events) -> length es = length events ->
  collect false i events es r = Some (tally i events es r, None).
Proof.
  revert i es r. induction events as [|event events IH]; intros i [|o es] r Hs Hl; try done.
  { simpl. by rewrite tally_nil. }
  simpl in Hs, Hl. injection Hl as Hl. rewrite <- (tally_cons i event events o es r _ Hs).
  pose proof (small_add i event o r _ Hs) as Hs'.
  destruct o; simpl in *; by apply IH.
Qed.

(** C22: a pipelined batch without fail-fast hands the publisher one message per event and
    counts the publisher's slots on top of the serialising failures.  An event that cannot
    be serialised is listed as failed, but an empty message with no exchange and no routing
    key is sent in its place and its slot is counted too, so successes and failures exceed
    the total by the number of such events; when every event can be serialised they add up
    to the total. *)
Theorem pipelined_batch_accounts events opts w :
  let cfg := Cfg.apply_options opts Cfg.DefaultBatchConfig in
  Cfg.UsePipelining cfg = true -> Cfg.FailFast cfg = false ->
  2 * Z.of_nat (length events) <= int64_max -> events <> [] ->
  exists ms, Forall2 message_for events ms /\
    let '((es, fatal), _) := PublishBatchPipeline ms (Retry.pworld (base w)) in
    exists result w', PublishBatch events opts w = (Some (result, fatal), w') /\
      sentout w' = sentout w ++ in_batch ms es /\
      Total result = Z.of_nat (length events) /\
      match fatal with
      | Some _ => Success result = 0 /\ Failed result = errs (ser <$> events)
      | None =>
          Success result = nils es /\ Failed result = errs (ser <$> events) + errs es /\
          Success result + Failed result = Total result + errs (ser <$> events)
      end.
Proof.
  intros cfg Hp Hf Hlen Hne.
  set (r0 := {| Total := Z.of_nat (length events); Success := 0; Failed := 0; Errors := [] |}).
  destruct (serialize_spec 0 events r0 [] w) as (ms & w1 & Hser & Hms & Hpw & Hout);
    [unfold small, r0; simpl; lia|].
  exists ms. split; [done|].
  destruct (PublishBatchPipeline ms (Retry.pworld (base w))) as [[es fatal] pw] eqn:Epub.
  assert (0 <= errs (ser <$> events) <= Z.of_nat (length events)) as Hbad.
  { pose proof (nils_errs (ser <$> events)) as Hn. rewrite length_fmap in Hn.
    unfold nils, errs in *. lia. }
  set (r1 := tally_failures 0 events (ser <$> events) r0) in *.
  assert (PublishBatch events opts w = (match fatal with
    | Some e => Some (r1, Some e)
    | None => collect false 0 events es r1
    end, {| base := {| Retry.heap := Retry.heap (base w1); Retry.pworld := pw;
                       Retry.outgoing := sentout w ++ in_batch ms es |};
            ids := ids w1; ticks := ticks w1 |})) as ->.
  { unfold PublishBatch. fold cfg. destruct events as [|event events]; [done|]. rewrite Hp.
    fold r0. unfold publishBatchPipeline. rewrite Hf. unfold mbind, M_bind. rewrite Hser.
    simpl. unfold on_base. rewrite Hpw, Epub, Hout. by destruct fatal. }
  destruct fatal as [e|]; [do 2 eexists; by split_and!|].
  pose proof (pipeline_one_slot _ _ _ _ Epub) as Hslots.
  rewrite <- (Forall2_length _ _ _ Hms) in Hslots.
  rewrite collect_tally by (done || (unfold small, r1; simpl; lia)).
  pose proof (nils_errs es) as Hne'. rewrite Hslots in Hne'.
  do 2 eexists. split; [done|]. simpl. split_and!; lia || done.
Qed.

(** ** Properties of requeueing *)

Section RequeueProofs.
Context {G : GoImpl}.

(** The headers a dead-lettered message is sent back with. *)
Definition requeued_headers (reset : bool) (t : Table) : Table :=
  delete x_death (if reset then <[Msg.CountHeader := AInt32 0]> t else t).

Lemma requeue_headers_spec reset d w :
  exists h, requeue_headers reset d w =
    (next (hp w), {| base := {| Retry.heap := h; Retry.pworld := Retry.pworld (base w);
                                Retry.outgoing := sentout w |}; ids := ids w; ticks := ticks w |}) /\
    deref h (Some (next (hp w))) = requeued_headers reset (deref (hp w) (d_Headers d)) /\
    (heap_ok (hp w) -> forall r, allocated (hp w) r -> deref h r = deref (hp w) r).
Proof.
  unfold requeue_headers, requeued_headers, on_base, Retry.with_heap. run_m.
  set (t := deref (hp w) (d_Headers d)). set (h0 := snd (alloc t (hp w))).
  pose proof (deref_alloc_eq t (hp w)) as Ha. fold h0 in Ha.
  exists (map_delete (next (hp w)) x_death
    (if reset then map_set (next (hp w)) Msg.CountHeader (AInt32 0) h0 else h0)).
  split; [by destruct reset|]. split.
  - rewrite deref_delete_eq. destruct reset; [rewrite deref_set_eq|]; by rewrite Ha.
  - intros Hh [l|] Hl; [|done]. pose proof Hl as Hlt. apply Hh in Hlt.
    rewrite deref_delete_ne by lia. destruct reset; [rewrite deref_set_ne by lia|];
      by apply (deref_alloc_old _ _ (Some l)).
Qed.

(** C37: a dead-lettered message goes back exactly once to the exchange it came from, with its
    original routing key, its body and its headers less x-death, the retry count set to zero
    if asked; the delivery's own header map is not changed; a message whose origin is unknown
    is refused and nothing is sent. *)
Theorem RequeueFromDLQ_spec m reset w :
  heap_ok (hp w) ->
  let d := Msg.Delivery (Dlq.MessageContext m) in
  let '(err, w') := RequeueFromDLQ m reset w in
  (forall r, allocated (hp w) r -> deref (hp w') r = deref (hp w) r) /\
  (Dlq.OriginalExchange m = "" \/ Dlq.OriginalRoutingKey m = "" ->
     (exists msg, err = Some (ConfigError "DLQMessage" msg)) /\ sentout w' = sentout w) /\
  (Dlq.OriginalExchange m <> "" -> Dlq.OriginalRoutingKey m <> "" ->
     exists o, sentout w' = sentout w ++ [o] /\ Retry.o_Error o = err /\
       Exchange (Retry.o_Message o) = Dlq.OriginalExchange m /\
       RoutingKey (Retry.o_Message o) = Dlq.OriginalRoutingKey m /\
       Headers (Retry.o_Message o) = requeued_headers reset (deref (hp w) (d_Headers d)) /\
       p_Body (Message (Retry.o_Message o)) = d_Body d).
Proof.
  intros Hok d. unfold RequeueFromDLQ.
  destruct (String.eqb_spec (Dlq.OriginalExchange m) "") as [E1|E1];
    [|destruct (String.eqb_spec (Dlq.OriginalRoutingKey m) "") as [E2|E2]]; simpl.
  1-2: run_m; split_and!; try done; intros _; by split; [eexists|].
  unfold mbind, M_bind, now. destruct (requeue_headers_spec reset d w) as (h & Hr & Hd & Hold).
  fold d. rewrite Hr. unfold on_base, Retry.publish, Retry.handed. simpl. rewrite Hd.
  destruct (PubApi.Publish _ _) as [err pw]. simpl. split; [by apply Hold|].
  split; [by intros [?|?]|]. intros _ _. eexists. by split_and!.
Qed.

(** [o] is the message of delivery [d], accepted by the publisher. *)
Definition sent_back (d : Delivery) (o : Retry.Outgoing) : Prop :=
  Retry.o_Error o = None /\ p_Body (Message (Retry.o_Message o)) = d_Body d.

(** One requeued message: what it adds to the log of handed messages. *)
Lemma requeue_step m reset w :
  exists l, sentout (snd (RequeueFromDLQ m reset w)) = sentout w ++ l /\
    (fst (RequeueFromDLQ m reset w) = None ->
     exists o, l = [o] /\ sent_back (Msg.Delivery (Dlq.MessageContext m)) o) /\
    (forall e, fst (RequeueFromDLQ m reset w) = Some e ->
     Forall (fun o => Retry.o_Error o <> None) l).
Proof.
  unfold RequeueFromDLQ. destruct (_ || _); simpl.
  { run_m. exists []. rewrite app_nil_r. by split_and!. }
  unfold mbind, M_bind, now.
  destruct (requeue_headers_spec reset (Msg.Delivery (Dlq.MessageContext m)) w) as (h & -> & _).
  unfold on_base, Retry.publish. simpl. destruct (PubApi.Publish _ _) as [[e|] pw]; simpl.
  - eexists. split; [done|]. split; [done|]. intros e' _. by constructor.
  - eexists. split; [done|]. split; [by eexists|done].
Qed.

Definition is_ack (s : Msg.Settle) : bool :=
  match s with Msg.CallAck _ => true | Msg.CallNack _ _ => false end.

Definition acks (ss : list Msg.Settle) : Z :=
  Z.of_nat (length (filter (fun s => is_ack s = true) ss)).

(** The messages that the publisher has accepted. *)
Definition accepted (l : list Retry.Outgoing) : list Retry.Outgoing :=
  filter (fun o => Retry.o_Error o = None) l.

(** The deliveries among [taken] that [ss] acknowledges. *)
Fixpoint acknowledged (taken : Deliveries) (ss : list Msg.Settle) : list Delivery :=
  match taken, ss with
  | (d, _) :: taken', s :: ss' => (if is_ack s then [d] else []) ++ acknowledged taken' ss'
  | _, _ => []
  end.

(** The settlement of one delivery: acknowledged, or put back into its queue. *)
Definition settles (x : Delivery * option error) (s : Msg.Settle) : Prop :=
  s = Msg.CallAck (d_DeliveryTag x.1) \/ s = Msg.CallNack (d_DeliveryTag x.1) true.

Lemma requeue_acks_cons s ss : acks (s :: ss) = (if is_ack s then 1 else 0) + acks ss.
Proof. unfold acks. rewrite filter_cons. destruct (is_ack s); simpl; lia. Qed.

Lemma accepted_none l : Forall (fun o => Retry.o_Error o <> None) l -> accepted l = [].
Proof.
  unfold accepted. induction 1 as [|o l Ho Hl IH]; [done|]. rewrite filter_cons.
  by case_decide.
Qed.

(** How a drain ends: the channel of deliveries is exhausted, the limit is reached or the
    context is cancelled. *)
Definition ends (max m : Z) (taken remaining : Deliveries) (closed : bool) (e : Ended) : Prop :=
  match e with
  | Returns k err => k = m /\
      match err with
      | None => (remaining = [] /\ closed = true) \/ (0 < max /\ m = max)
      | Some e => exists d, last taken = Some (d, Some e)
      end
  | Waits => closed = false /\ remaining = []
  end.

(** What one run of the loop guarantees, with [n] messages sent back before. *)
Definition drained (max n : Z) (ds : Deliveries) (closed : bool) (w w' : World) (e : Ended)
    (ss : list Msg.Settle) (remaining : Deliveries) : Prop :=
  exists taken, ds = taken ++ remaining /\ Forall2 settles taken ss /\
    (exists l, sentout w' = sentout w ++ l /\
       Forall2 sent_back (acknowledged taken ss) (accepted l)) /\
    (0 < max -> n <= max -> n + acks ss <= max) /\
    ends max (n + acks ss) taken remaining closed e.

Lemma drained_step max n ds closed w w1 w' e ss remaining d c s l :
  settles (d, c) s -> sentout w1 = sentout w ++ l ->
  Forall2 sent_back (if is_ack s then [d] else []) (accepted l) -> ~ (0 < max /\ max <= n) ->
  drained max (n + if is_ack s then 1 else 0) ds closed w1 w' e ss remaining ->
  drained max n ((d, c) :: ds) closed w w' e (s :: ss) remaining.
Proof.
  intros Hs Hl Ha Hmax (taken & -> & Hset & (l' & Hl' & Ha') & Hb & He).
  assert (0 <= acks ss) by (unfold acks; lia).
  exists ((d, c) :: taken). split_and!.
  - done.
  - by constructor.
  - exists (l ++ l'). rewrite Hl', Hl, app_assoc. split; [done|]. unfold accepted.
    rewrite filter_app. simpl. by apply Forall2_app.
  - intros H1 H2. rewrite requeue_acks_cons. destruct (is_ack s); lia.
  - rewrite requeue_acks_cons, Z.add_assoc. destruct e as [k [err|]|]; simpl in *; try done.
    destruct He as [-> (d' & Hd')]. split; [done|]. exists d'. by rewrite last_cons, Hd'.
Qed.

Lemma drained_stop max n ds closed w err d c :
  n <= max \/ max <= 0 ->
  match err with None => 0 < max /\ max <= n | Some e => c = Some e end ->
  drained max n ((d, c) :: ds) closed w w (Returns n err)
    [Msg.Nack true {| Msg.Delivery := d |}] ds.
Proof.
  intros Hle Herr. exists [(d, c)].
  assert (acks [Msg.Nack true {| Msg.Delivery := d |}] = 0) as -> by done.
  split_and!; [done|by repeat constructor; right|exists []; by rewrite app_nil_r|lia|].
  simpl. split; [lia|]. destruct err as [e|]; [subst; by eexists|right; lia].
Qed.

Lemma drain_spec reset max n ds closed w :
  0 <= n -> n + Z.of_nat (length ds) <= int64_max ->
  let '((e, ss, remaining), w') := drain reset max n ds closed w in
  (n <= max \/ max <= 0 -> drained max n ds closed w w' e ss remaining).
Proof.
  revert n w. induction ds as [|[d c] ds IH]; intros n w Hn Hmax; simpl.
  { run_m. intros _. exists []. assert (acks [] = 0) as -> by done.
    split_and!; [done|done|exists []; by rewrite app_nil_r|lia|].
    destruct closed; simpl; [|done]. split; [lia|by left]. }
  destruct (Z.ltb_spec 0 max), (Z.leb_spec max n); simpl.
  1: run_m; intros Hle; apply drained_stop; lia.
  all: destruct c as [err|]; [run_m; intros Hle; by apply drained_stop|].
  all: unfold mbind, M_bind, get, mret, M_ret; simpl in Hmax;
    set (m := Dlq.NewDLQMessage _ _);
    destruct (requeue_step m reset w) as (l & Hl & Hacc & Hrej);
    unfold m in Hacc at 2; rewrite Dlq.NewDLQMessage_context in Hacc;
    destruct (RequeueFromDLQ m reset w) as [[e|] w1]; simpl in Hl, Hacc, Hrej.
  all: try rewrite int64_id by (unfold in_int64, int64_min; lia).
  all: match goal with |- context [drain ?a ?b ?k ?l ?cl ?x] =>
    specialize (IH k x ltac:(lia) ltac:(lia));
    destruct (drain a b k l cl x) as [[[e' ss] remaining] w2] end; intros Hle.
  all: try (destruct (Hacc eq_refl) as (o & -> & Ho); eapply (drained_step _ _ _ _ _ w1);
    [by left|exact Hl| |lia|apply IH; lia];
    unfold accepted; rewrite filter_cons_True by apply Ho; by apply Forall2_cons).
  all: eapply (drained_step _ _ _ _ _ w1); [by right|exact Hl| |lia|].
  all: try (rewrite (accepted_none l) by (by apply (Hrej e)); by apply Forall2_nil).
  all: simpl; rewrite Z.add_0_r; apply IH; lia.
Qed.

(** C23: draining a dead letter queue settles every delivery it takes from the channel exactly
    once, in order, also the one it has taken when it stops for the limit or a cancelled
    context: the deliveries are those settled followed by those left in the channel.  The
    messages that were sent back and accepted are those of the deliveries acknowledged, in
    order, and the other deliveries taken are put back; never more than [maxMessages] are sent
    back when a limit is given; the number returned is the number acknowledged; without an
    error it returns only when the limit is reached or the channel is closed and empty, and with
    one only when the context was cancelled before the last delivery taken. *)
Theorem RequeueAllFromDLQ_accounts ch dlq ds closed reset max w :
  Z.of_nat (length ds) <= int64_max ->
  let '((e, ss, remaining), w') := RequeueAllFromDLQ (inr ch) dlq (inr (ds, closed)) reset max w in
  exists taken, ds = taken ++ remaining /\ Forall2 settles taken ss /\
    (exists l, sentout w' = sentout w ++ l /\
       Forall2 sent_back (acknowledged taken ss) (accepted l)) /\
    (0 < max -> acks ss <= max) /\
    ends max (acks ss) taken remaining closed e.
Proof.
  intros Hlen. unfold RequeueAllFromDLQ.
  pose proof (drain_spec reset max 0 ds closed w ltac:(lia) ltac:(lia)) as Hd.
  destruct (drain reset max 0 ds closed w) as [[[e ss] remaining] w'].
  destruct Hd as (taken & H1 & H2 & H3 & H4 & H5); [lia|]. exists taken.
  split_and!; try done. intros. by apply H4; lia.
Qed.

(** Draining does not end when the queue is empty: as long as the channel of deliveries
    stays open and the context is not cancelled, a call without a limit, or with a limit
    that at least covers the messages present, waits for a further delivery after handling
    them all. *)
Theorem RequeueAllFromDLQ_waits ch dlq ds reset max w :
  Z.of_nat (length ds) <= int64_max -> Forall (fun x => snd x = None) ds ->
  max <= 0 \/ Z.of_nat (length ds) <= max ->
  fst (fst (fst (RequeueAllFromDLQ (inr ch) dlq (inr (ds, false)) reset max w))) = Waits.
Proof.
  intros Hlen Hctx Hmax. unfold RequeueAllFromDLQ.
  assert (forall n w, 0 <= n -> n + Z.of_nat (length ds) <= int64_max ->
    max <= 0 \/ n + Z.of_nat (length ds) <= max ->
    fst (fst (fst (drain reset max n ds false w))) = Waits) as Hgen.
  { clear Hlen Hmax w. induction Hctx as [|[d c] ds Hc Hds IH]; intros n w Hn Hl Hm; [done|].
    simpl in Hc. subst c. simpl in Hl, Hm |- *.
    replace ((0 <? max) && (max <=? n)) with false
      by (destruct (Z.ltb_spec 0 max), (Z.leb_spec max n); simpl; lia).
    unfold mbind, M_bind, get, mret, M_ret. set (m := Dlq.NewDLQMessage _ _).
    destruct (RequeueFromDLQ m reset w) as [[e|] w1].
    - specialize (IH n w1). destruct (drain _ _ n _ _ w1) as [[[e' ss] remaining] w2]. apply IH; lia.
    - rewrite int64_id by (unfold in_int64, int64_min; lia).
      specialize (IH (n + 1) w1). destruct (drain _ _ (n + 1) _ _ w1) as [[[e' ss] remaining] w2].
      apply IH; lia. }
  apply Hgen; lia.
Qed.

End RequeueProofs.
End Publish.

(** ** The life of a bus *)

Section Bus.
Context {A : Amqp.Amqp} {HandlerService : Type}.

(** The bus's own fields: a consumer is its breaker, a router is created when the first
    handler is registered. *)
Record EventBus := {
  consumer : option (option CB.CircuitBreaker);
  router : option (Router.Router HandlerService);
  dlqRouter : option (Router.Router HandlerService)
}.

Record State := { bus : EventBus; sys : Client.Sys }.

Definition with_default_logger (cfg : Cfg.Config) : Cfg.Config :=
  match Cfg.CfgLogger cfg with
  | Some _ => cfg
  | None => Cfg.WithLogger (Some Cfg.DefaultLogger) cfg
  end.

(** A bus, or the error; the state of the AMQP library in either case. *)
Definition NewEventBus (cfg : Cfg.Config) (opts : list Cfg.Option) (s : Amqp.St)
  : (error + State) * Amqp.St :=
  let cfg := with_default_logger (Cfg.apply_options opts cfg) in
  match Cfg.Validate cfg with
  | Some err => (inl err, s)
  | None =>
      let '(r, y) := Client.New cfg s in
      (match r with
       | inl err => inl err
       | inr _ => inr {| bus := {| consumer := None; router := None; dlqRouter := None |};
                         sys := y |}
       end, Client.st y)
  end.

Definition RegisterHandler (eventType : string) (handler : option HandlerService)
    (b : EventBus) : EventBus :=
  let r := default Router.NewRouter (router b) in
  {| consumer := consumer b; router := Some (Router.Handle eventType handler r);
     dlqRouter := dlqRouter b |}.

Definition RegisterDLQHandler (eventType : string) (handler : option HandlerService)
    (b : EventBus) : EventBus :=
  let r := default Router.NewRouter (dlqRouter b) in
  {| consumer := consumer b; router := router b;
     dlqRouter := Some (Router.Handle eventType handler r) |}.

Definition on_sys {B} (m : M Client.Sys B) : M State B := fun s =>
  let '(b, y) := m (sys s) in (b, {| bus := bus s; sys := y |}).

(** [now] is read when a breaker is created. *)
Definition StartConsume (queue : string) (workers now : Z) : M State (option error * list Z) :=
  s ← get;
  match router (bus s) with
  | None => mret (Some (Sentinel ErrNoHandlersRegistered), [])
  | Some r =>
      modify (fun s =>
        match consumer (bus s) with
        | Some _ => s
        | None =>
            let c := Cons.NewConsumer (Client.config (Client.client (sys s))) now in
            {| bus := {| consumer := Some c; router := router (bus s);
                         dlqRouter := dlqRouter (bus s) |}; sys := sys s |}
        end);;
      on_sys (Cons.Consume queue workers)
  end.

(** The consumer of a dead letter queue is not kept. *)
Definition StartConsumeDLQ (queue : string) (workers : Z) : M State (option error * list Z) :=
  s ← get;
  match dlqRouter (bus s) with
  | None => mret (Some (Sentinel ErrNoHandlersRegistered), [])
  | Some _ => on_sys (Cons.Consume queue workers)
  end.

Definition GetCircuitBreakerMetrics (s : State) : option CB.Metrics :=
  match consumer (bus s) with
  | None => None
  | Some cb => CB.GetMetrics <$> cb
  end.

Definition ResetCircuitBreaker (now : Z) : M State bool := fun s =>
  match consumer (bus s) with
  | Some (Some cb) =>
      let c := Some (Some (fst (CB.Reset now cb))) in
      (true, {| bus := {| consumer := c; router := router (bus s); dlqRouter := dlqRouter (bus s) |};
                sys := sys s |})
  | _ => (false, s)
  end.

Definition IsConnected (s : State) : bool := Client.IsConnected (sys s).

(** [Close], after the publisher's confirmation processor was stopped (modelled in
    [Publisher]). *)
Definition Close : M State (option error) := on_sys Client.Close.

(** *** Properties *)

(** A bus is only created from a valid configuration: the options are applied in order,
    a default logger is filled in, and if the result is not valid its first error is
    returned before anything is asked of the broker; a bus that is created is connected,
    with a channel, and has no handlers and no consumer yet. *)
Theorem NewEventBus_spec cfg opts s :
  let cfg' := with_default_logger (Cfg.apply_options opts cfg) in
  let '(r, s') := NewEventBus cfg opts s in
  match Cfg.Validate cfg', r with
  | Some err, r => r = inl err /\ s' = s
  | None, inr y =>
      Client.config (Client.client (sys y)) = cfg' /\ is_Some (Client.channel (Client.client (sys y))) /\
      Client.closed (Client.client (sys y)) = false /\ s' = Client.st (sys y) /\
      bus y = {| consumer := None; router := None; dlqRouter := None |}
  | None, inl err => exists y, Client.New cfg' s = (inl err, y)
  end.
Proof.
  simpl. unfold NewEventBus. destruct (Cfg.Validate _); [done|].
  destruct (Client.New _ s) as [[err|c] y] eqn:E; [by eexists|].
  unfold Client.New in E. set (c0 := {| Client.config := _; Client.conn := None |}) in E.
  pose proof (Client.connect_calls {| Client.client := c0; Client.st := s; Client.next_handle := 0 |})
    as Hc.
  destruct (Client.connect _) as [[e|] y']; [done|]. injection E as _ <-.
  destruct Hc as (new & _ & _ & Hcfg & Hcl & _ & Hch & _). simpl in *. by rewrite Hcfg, Hcl, Hch.
Qed.

(** Consuming needs handlers: before the first registration [StartConsume] and
    [StartConsumeDLQ] return [ErrNoHandlersRegistered] and change nothing; afterwards the
    router [StartConsume] uses knows every handler registered so far, and the breaker
    created by the first call is kept by later ones. *)
Theorem StartConsume_spec regs queue workers now s :
  let s0 := {| bus := foldl (fun b x => RegisterHandler (fst x) (snd x) b) (bus s) regs;
               sys := sys s |} in
  let '(r, s1) := StartConsume queue workers now s0 in
  router (bus s) = None -> consumer (bus s) = None ->
  (regs = [] -> r = (Some (Sentinel ErrNoHandlersRegistered), []) /\ s1 = s0) /\
  (regs <> [] ->
     router (bus s1) = Some (Router.register_all regs) /\
     consumer (bus s1) =
       Some (Cons.NewConsumer (Client.config (Client.client (sys s))) now) /\
     r = fst (Cons.Consume queue workers (sys s)) /\
     forall queue' workers' now',
       consumer (bus (snd (StartConsume queue' workers' now' s1))) = consumer (bus s1)).
Proof.
  set (b' := foldl _ (bus s) regs). intros s0.
  destruct (StartConsume queue workers now s0) as [r s1] eqn:E. intros Hr Hc.
  assert (consumer b' = None /\ dlqRouter b' = dlqRouter (bus s) /\
    router b' = match regs with [] => None | _ => Some (Router.register_all regs) end)
    as (Hc' & _ & Hr').
  { unfold b', Router.register_all. clear E r s1 s0 b'. revert Hr Hc. destruct (bus s) as [c0 r0 d0].
    simpl. intros -> ->. induction regs as [|[k v] regs IH] using rev_ind; [done|].
    rewrite !foldl_app. simpl. destruct IH as (-> & -> & ->). split_and!; try done.
    destruct regs; simpl; done. }
  unfold StartConsume, s0 in E. run_m. rewrite Hr' in E. split; intros Hregs.
  - subst regs. by injection E as <- <-.
  - destruct regs as [|reg regs]; [done|]. cbn [bus sys] in E. rewrite Hc' in E. unfold on_sys in E. simpl in E.
    destruct (Cons.Consume queue workers (sys s)) as [r' y] eqn:Ec. injection E as <- <-.
    simpl. rewrite Hr'. split_and!; try done. intros q' w' n'. unfold StartConsume. run_m.
    rewrite ?Hr'. unfold on_sys. simpl. by destruct (Cons.Consume q' w' y).
Qed.

End Bus.

(** ** Witnesses *)

Definition demo_uuid (n : nat) : string := "u".

Definition demo_clock (n : nat) : Z := 5.

Definition demo_world (bad : string) (headers : Table) : @World (choosy bad) :=
  @Build_World (choosy bad)
    (@Retry.Build_World (choosy bad) (demo_heap headers) tt []) 0 0.

Definition demo_event (type : string) (body : Marshal.gov) : Event :=
  {| Type_ := type; Exchange_ := "orders";
     ToMap := Some [("type", Marshal.GoString type); ("data", body)]; Headers_ := Some 0%nat |}.

Lemma bus_demo_heap_ok t : heap_ok (demo_heap t).
Proof. intros l [v Hv]. simpl in *. apply lookup_singleton_Some in Hv as [<- _]. lia. Qed.

Lemma Publish_spec_witness :
  let '(err, w') := Publish demo_uuid demo_clock (demo_event "created" Marshal.GoNil)
                      (demo_world "bad" ∅) in
  forall r, allocated (demo_heap ∅) r -> deref (Retry.heap (base w')) r = deref (demo_heap ∅) r.
Proof.
  pose proof (Publish_spec demo_uuid demo_clock (demo_event "created" Marshal.GoNil)
    (demo_world "bad" ∅) (bus_demo_heap_ok ∅) ltac:(vm_compute; eexists; reflexivity)) as H.
  destruct (Publish _ _ _ _) as [err w']. exact (proj1 H).
Defined.

Definition three_events : list Event :=
  [demo_event "created" Marshal.GoNil; demo_event "bad" Marshal.GoNil;
   demo_event "paid" (Marshal.GoUnsupported "chan int")].

Lemma sequential_batch_accounts_witness :
  exists result err w', PublishBatch demo_uuid demo_clock three_events [Cfg.WithPipelining false]
      (demo_world "bad" ∅) = (Some (result, err), w') /\
    Total result = 3 /\ Success result = 1 /\ Failed result = 2.
Proof.
  pose proof (sequential_batch_accounts demo_uuid demo_clock three_events
    [Cfg.WithPipelining false] (demo_world "bad" ∅) eq_refl
    ltac:(unfold int64_max; simpl; lia) ltac:(discriminate)) as H.
  destruct (attempts _ _ _ _ _) as [rs w'] eqn:E.
  destruct H as (result & err & H1 & H2 & H3 & H4 & _). exists result, err, w'.
  rewrite H3, H4. vm_compute in E. injection E as <- _. split; [exact H1|].
  split; [exact H2|]. split; vm_compute; reflexivity.
Defined.

Lemma pipelined_batch_accounts_witness :
  exists result w', PublishBatch demo_uuid demo_clock three_events [] (demo_world "bad" ∅) =
      (Some (result, None), w') /\
    Total result = 3 /\ Success result + Failed result = 4.
Proof.
  destruct (pipelined_batch_accounts demo_uuid demo_clock three_events [] (demo_world "bad" ∅)
    eq_refl eq_refl ltac:(unfold int64_max; simpl; lia) ltac:(discriminate))
    as (ms & _ & result & w' & H1 & _ & H2 & _ & _ & H3).
  exists result, w'. split; [exact H1|]. split; [exact H2|]. rewrite H3, H2. vm_compute. reflexivity.
Defined.

(** A message dead-lettered from queue orders.queue. *)
Definition dead_delivery : Delivery := demo_delivery (Some 0%nat) "{}".

Lemma RequeueFromDLQ_spec_witness :
  let m := Dlq.NewDLQMessage (G := amd64) (demo_heap demo_dead_headers)
             {| Msg.Delivery := dead_delivery |} in
  let '(err, w') := RequeueFromDLQ (P := choosy "bad") demo_clock m true
                      (demo_world "bad" demo_dead_headers) in
  exists o, Retry.outgoing (base w') = [o] /\ Exchange (Retry.o_Message o) = "orders".
Proof.
  set (m := Dlq.NewDLQMessage (G := amd64) (demo_heap demo_dead_headers)
             {| Msg.Delivery := dead_delivery |}).
  pose proof (RequeueFromDLQ_spec (P := choosy "bad") demo_clock m true
    (demo_world "bad" demo_dead_headers) (bus_demo_heap_ok _)) as H.
  cbv zeta in H |- *. destruct (RequeueFromDLQ _ m true _) as [err w'].
  destruct H as (_ & _ & H).
  destruct H as (o & Ho & _ & He & _); [vm_compute; discriminate|vm_compute; discriminate|].
  exists o. split; [exact Ho|]. rewrite He. vm_compute. reflexivity.
Defined.

Definition two_dead : list (Delivery * option error) := [(dead_delivery, None); (dead_delivery, None)].

Lemma RequeueAllFromDLQ_accounts_witness :
  let '((e, ss, remaining), _) := RequeueAllFromDLQ (P := choosy "bad") (G := amd64) demo_clock (inr 1%nat)
      "dlq.orders" (inr (two_dead, false)) true 1 (demo_world "bad" demo_dead_headers) in
  acks ss <= 1 /\ exists taken, two_dead = taken ++ remaining /\ Forall2 settles taken ss.
Proof.
  pose proof (RequeueAllFromDLQ_accounts (P := choosy "bad") (G := amd64) demo_clock 1%nat
    "dlq.orders" two_dead false true 1 (demo_world "bad" demo_dead_headers)
    ltac:(unfold int64_max; simpl; lia)) as H.
  destruct (RequeueAllFromDLQ _ _ _ _ _ _ _) as [[[e ss] remaining] w'].
  destruct H as (taken & H1 & H2 & _ & H & _). split; [apply H; lia|]. by exists taken.
Defined.

Lemma RequeueAllFromDLQ_waits_witness :
  fst (fst (fst (RequeueAllFromDLQ (P := choosy "bad") (G := amd64) demo_clock (inr 1%nat)
      "dlq.orders" (inr (two_dead, false)) true 2 (demo_world "bad" demo_dead_headers)))) = Waits.
Proof.
  apply (RequeueAllFromDLQ_waits (P := choosy "bad") (G := amd64) demo_clock).
  - unfold int64_max. simpl. lia.
  - repeat constructor.
  - right. simpl. lia.
Defined.

Lemma StartConsume_spec_witness :
  let s := {| bus := {| consumer := None; router := @None (Router.Router unit); dlqRouter := None |};
              sys := Client.demo_sys |} in
  StartConsume "orders" 2 0 s = ((Some (Sentinel ErrNoHandlersRegistered), []), s).
Proof.
  set (s := {| bus := {| consumer := None; router := @None (Router.Router unit); dlqRouter := None |};
               sys := Client.demo_sys |}).
  pose proof (StartConsume_spec [] "orders" 2 0 s) as H. cbv zeta in H |- *.
  change {| bus := foldl _ (bus s) []; sys := sys s |} with s in H.
  destruct (StartConsume "orders" 2 0 s) as [r s1].
  destruct (H eq_refl eq_refl) as [H1 _]. destruct (H1 eq_refl) as [-> ->]. reflexivity.
Defined.

End Bus.
