(* ===== verification/Routing.v ===== *)
(** * From a published event to its handler

    The bus publishes an event under [Type()], but the consumer finds the handler by the
    [type] member of the body.  This file follows a body from [EventBus.Publish] through the
    encoder and the decoder to [MessageContext.GetType]. *)

From stdpp Require Import base gmap strings list.
From Stdlib Require Import ZArith Lia.
From S2P Require Import Prelude Errors Json Values Marshal Roundtrip Router Amqp PublisherApi Retry Consumer EventBus.
Import Err Val PubApi Json Marshal JsonRT Bus.

Module Routing.

Section Routing.
Context {P : Publisher} (uuids : nat -> string) (clock : nat -> Z).


End Routing.

(** ** Witness *)

(** An event whose [Type()] is not the type in its body. *)
Definition renamed_event : Event :=
  {| Type_ := "order"; Exchange_ := "orders"; ToMap := Some demo_map; Headers_ := None |}.


End Routing.
