(* ===== verification/Direct.v ===== *)
(** * Direct access to AMQP (direct/)

    [Connect], [Disconnect] and the declaration of one exchange, queue and its bindings on a
    bare channel, against the interface of [Amqp]. *)

From stdpp Require Import base gmap strings list fin_maps.
From Stdlib Require Import ZArith Lia.
From S2P Require Import Prelude Errors Values Config Amqp.
Import Err Val Cfg Amqp.

Module Direct.

Record Topology := { Exchange : ExchangeConfig; Queue_ : QueueConfig }.

Section Direct.
Context {A : Amqp}.

(** The caller owns the connection; its handle is what the library returns. *)
Definition Connect (uri : string) : M St Reply := perform (Dial uri).

(** A nil connection is [None]. *)
Definition Disconnect (conn : option handle) : M St (option error) :=
  match conn with
  | None => mret None
  | Some cn => r ← perform (CloseConn cn); mret (err_of r)
  end.

Definition declareExchange (ch : handle) (cfg : ExchangeConfig) : M St (option error) :=
  s ← get;
  r ← perform (ExchangeDeclare ch (ex_Name cfg) (ex_Type cfg) (ex_Durable cfg)
                 (ex_AutoDelete cfg) (ex_Internal cfg) (deref (heap s) (ex_Args cfg)));
  mret (err_of r).

Definition declareQueue (ch : handle) (cfg : QueueConfig) : M St Reply :=
  s ← get;
  perform (QueueDeclare ch (q_Name cfg) (q_Durable cfg) (q_AutoDelete cfg) (q_Exclusive cfg)
             (deref (heap s) (q_Args cfg))).

Fixpoint bindQueue (ch : handle) (queueName exchangeName : string) (routingKeys : list string)
  : M St (option error) :=
  match routingKeys with
  | [] => mret None
  | rk :: rest =>
      r ← perform (QueueBind ch queueName rk exchangeName);
      match r with
      | inl e => mret (Some e)
      | inr _ => bindQueue ch queueName exchangeName rest
      end
  end.

Definition DeclareTopology (ch : handle) (t : Topology) : M St (Queue * option error) :=
  r ← declareExchange ch (Exchange t);
  match r with
  | Some err => mret (empty_queue, Some err)
  | None =>
      r ← declareQueue ch (Queue_ t);
      match r with
      | inl err => mret (empty_queue, Some err)
      | inr q =>
          r ← bindQueue ch (qu_Name q) (ex_Name (Exchange t)) (q_RoutingKeys (Queue_ t));
          match r with
          | Some err => mret (empty_queue, Some err)
          | None => mret (q, None)
          end
      end
  end.

(** The calls of a whole declaration, for a queue the broker named [name]. *)
Definition topology_calls (ch : handle) (h : Heap) (t : Topology) (name : string) : list Call :=
  ExchangeDeclare ch (ex_Name (Exchange t)) (ex_Type (Exchange t)) (ex_Durable (Exchange t))
    (ex_AutoDelete (Exchange t)) (ex_Internal (Exchange t)) (deref h (ex_Args (Exchange t))) ::
  QueueDeclare ch (q_Name (Queue_ t)) (q_Durable (Queue_ t)) (q_AutoDelete (Queue_ t))
    (q_Exclusive (Queue_ t)) (deref h (q_Args (Queue_ t))) ::
  ((fun rk => QueueBind ch name rk (ex_Name (Exchange t))) <$> q_RoutingKeys (Queue_ t)).

(** The broker's replies to calls made one after the other. *)
Fixpoint ask (cs : list Call) (w : World) : list Reply * World :=
  match cs with
  | [] => ([], w)
  | c :: cs' => let '(r, w1) := answer c w in let '(rs, w2) := ask cs' w1 in (r :: rs, w2)
  end.

Definition accepted (r : Reply) : Prop := err_of r = None.

(** The calls [cs], the first of the list [all], lead from [s] to [s'] with replies [rs], and
    [err] is the first refusal: the reply to the last call made if there is one, and all calls
    are made if there is none. *)
Definition stops_at_refusal (all cs : list Call) (rs : list Reply) (err : option error) (s s' : St)
  : Prop :=
  trace s' = trace s ++ cs /\ ask cs (world s) = (rs, world s') /\ cs `prefix_of` all /\
  match err with
  | None => cs = all /\ Forall accepted rs
  | Some e => exists rs0, rs = rs0 ++ [inl e] /\ Forall accepted rs0
  end.

(** One call that succeeds before the others. *)
Lemma stops_cons c q w all cs rs err s s' :
  answer c (world s) = (inr q, w) ->
  stops_at_refusal all cs rs err {| heap := heap s; world := w; trace := trace s ++ [c] |} s' ->
  stops_at_refusal (c :: all) (c :: cs) (inr q :: rs) err s s'.
Proof.
  intros Hc (Ht & Ha & Hp & He). simpl in *. split_and!.
  - by rewrite Ht, <- app_assoc.
  - simpl. by rewrite Hc, Ha.
  - by apply prefix_cons.
  - destruct err as [e|].
    + destruct He as (rs0 & -> & Hrs). exists (inr q :: rs0). split; [done|by constructor].
    + destruct He as [-> Hrs]. split; [done|by constructor].
Qed.

(** One call that is refused. *)
Lemma stops_here c e w all s :
  answer c (world s) = (inl e, w) ->
  stops_at_refusal (c :: all) [c] [inl e] (Some e) s
    {| heap := heap s; world := w; trace := trace s ++ [c] |}.
Proof.
  intros Hc. split_and!; [done|simpl; by rewrite Hc|by eexists|]. by exists [].
Qed.

Lemma bindQueue_calls ch name ex rks s :
  let '(err, s') := bindQueue ch name ex rks s in
  exists cs rs,
    stops_at_refusal ((fun rk => QueueBind ch name rk ex) <$> rks) cs rs err s s'.
Proof.
  revert s. induction rks as [|rk rks IH]; intros s.
  { exists [], []. split_and!; by rewrite ?app_nil_r. }
  simpl. unfold perform. run_m. destruct (answer _ _) as [[e|q] w] eqn:Ec; simpl.
  - exists [QueueBind ch name rk ex], [inl e]. by apply stops_here.
  - set (s1 := {| heap := heap s; world := w; trace := trace s ++ [QueueBind ch name rk ex] |}).
    specialize (IH s1). destruct (bindQueue ch name ex rks s1) as [err s'].
    destruct IH as (cs & rs & H). do 2 eexists. by eapply stops_cons.
Qed.

(** C40: [DeclareTopology] declares the exchange, then the queue, then one binding per routing
    key, in order and to the topology's own exchange, using the name the broker gave the
    queue.  It stops at the first refusal: every call before the last was accepted, and the
    error it returns, with the zero queue, is the reply to the last call; it returns no error
    only when all calls were made and accepted, and then the queue that the broker described,
    so that without routing keys the queue is left unbound. *)
Theorem DeclareTopology_spec ch t s :
  let '((q, err), s') := DeclareTopology ch t s in
  exists name cs rs,
    stops_at_refusal (topology_calls ch (heap s) t name) cs rs err s s' /\
    (forall q', rs !! 1%nat = Some (inr q') -> name = qu_Name q') /\
    match err with
    | None => rs !! 1%nat = Some (inr q)
    | Some _ => q = empty_queue
    end.
Proof.
  unfold DeclareTopology, declareExchange, declareQueue, perform. run_m.
  destruct (answer _ _) as [[e|q0] w1] eqn:E1; simpl.
  { exists "". do 2 eexists. split; [by apply stops_here|]. split; [by intros q' ?; simplify_eq/=|done]. }
  destruct (answer _ w1) as [[e|q] w2] eqn:E2; simpl.
  { exists "". do 2 eexists. split.
    - eapply stops_cons; [exact E1|]. by apply (stops_here _ e w2 _ {| heap := heap s; world := w1; trace := _ |}).
    - split; [by intros q' ?; simplify_eq/=|done]. }
  match goal with |- context [bindQueue ?a ?b ?c ?d ?x] =>
    pose proof (bindQueue_calls a b c d x) as H; destruct (bindQueue a b c d x) as [err s'] end.
  destruct H as (cs & rs & H).
  assert (exists cs' rs', stops_at_refusal (topology_calls ch (heap s) t (qu_Name q))
    cs' (inr q0 :: inr q :: rs') err s s') as (cs' & rs' & H').
  { do 2 eexists. eapply stops_cons; [exact E1|].
    by apply (stops_cons _ q w2 _ cs rs _ {| heap := heap s; world := w1; trace := _ |}). }
  destruct err as [e|]; simpl; exists (qu_Name q), cs', (inr q0 :: inr q :: rs');
    (split; [done|]); (split; [by intros q' [= <-]|done]).
Qed.

End Direct.
End Direct.
