(* ===== verification/Logger.v ===== *)
(** * The default logger (logger.go, internal/logger/)

    The logger the library uses when the application sets none, as an instance of the logger
    interface.  It writes through a [log.Logger] of the standard library, whose lines consist
    of its prefix, the date and time its flags ask for, and the text, ended by a newline.  How
    a value is shown under [%v] and how the time is written are parameters. *)

From stdpp Require Import base gmap strings list sorting fin_maps.
From Stdlib Require Import ZArith Lia.
From S2P Require Import Prelude Errors Values.
Import Val.

Module Logger.

(** The interface [Logger]; the methods of an implementation change its state [L].  The first
    argument is the time of the call. *)
Class Logger (L : Type) := {
  Info : Z -> string -> Table -> L -> L;
  Error : Z -> string -> Table -> L -> L;
  Warn : Z -> string -> Table -> L -> L;
  Debug : Z -> string -> Table -> L -> L;
  Close : L -> L * option Err.error
}.

(** [log.Logger], with what it has written. *)
Record LogLogger := { prefix : string; flags : Z; out : list string }.

Record DefaultLogger := { logger : LogLogger }.

(** [log.LstdFlags] is [Ldate | Ltime]. *)
Definition LstdFlags : Z := 3.

Definition New : DefaultLogger :=
  {| logger := {| prefix := "[rabbitmq-kit] "; flags := LstdFlags; out := [] |} |}.

Definition NewTestLogger (l : LogLogger) : DefaultLogger := {| logger := l |}.

Section Logger.
(** The text of a value under [%v], and the date and time written for some flags. *)
Context (show : any -> string) (stamp : Z -> Z -> string).

(** [sort.Strings] orders strings by their bytes. *)
Definition byte_le (a b : string) : Prop := String.leb a b = true.

#[export] Instance byte_le_dec a b : Decision (byte_le a b).
Proof. unfold byte_le. solve_decision. Defined.

(** [strings.Join(pairs, " ")] *)
Fixpoint Join (pairs : list string) : string :=
  match pairs with
  | [] => ""
  | [p] => p
  | p :: rest => p +:+ " " +:+ Join rest
  end.

Definition pair_text (fields : Table) (k : string) : string :=
  k +:+ "=" +:+ show (default ANil (fields !! k)).

(** [order] is the order in which ranging over the map yields its keys. *)
Definition FormatFields (order : list string) (fields : Table) : string :=
  if bool_decide (size fields = 0) then ""
  else Join (pair_text fields <$> merge_sort byte_le order).

Definition newline : string := String (Ascii.ascii_of_nat 10) "".

Fixpoint ends_with_newline (s : string) : bool :=
  match s with
  | "" => false
  | String c "" => bool_decide (c = Ascii.ascii_of_nat 10)
  | String _ s' => ends_with_newline s'
  end.

(** [log.Logger.Printf] of a text that is formatted already. *)
Definition Printf (now : Z) (text : string) (l : LogLogger) : LogLogger :=
  {| prefix := prefix l; flags := flags l;
     out := out l ++ [prefix l +:+ stamp (flags l) now +:+ text +:+
                      (if ends_with_newline text then "" else newline)] |}.

(** [DefaultLogger.log] *)
Definition log (level : string) (order : list string) (now : Z) (msg : string) (fields : Table)
  (l : DefaultLogger) : DefaultLogger :=
  {| logger :=
       if bool_decide (0 < size fields)
       then Printf now (level +:+ ": " +:+ msg +:+ " " +:+ FormatFields order fields) (logger l)
       else Printf now (level +:+ ": " +:+ msg) (logger l) |}.

(** The order in which the map is ranged over when nothing is known about it; [log_order]
    shows that it does not matter. *)
Definition some_order (fields : Table) : list string := (map_to_list fields).*1.

Definition log_Info (now : Z) (msg : string) (fields : Table) : DefaultLogger -> DefaultLogger :=
  log "INFO" (some_order fields) now msg fields.
Definition log_Error (now : Z) (msg : string) (fields : Table) : DefaultLogger -> DefaultLogger :=
  log "ERROR" (some_order fields) now msg fields.
Definition log_Warn (now : Z) (msg : string) (fields : Table) : DefaultLogger -> DefaultLogger :=
  log "WARN" (some_order fields) now msg fields.
Definition log_Debug (now : Z) (msg : string) (fields : Table) : DefaultLogger -> DefaultLogger :=
  log "DEBUG" (some_order fields) now msg fields.

(** [DefaultLogger.Close] has nothing to do. *)
Definition log_Close (l : DefaultLogger) : DefaultLogger * option Err.error := (l, None).

#[export] Instance DefaultLogger_Logger : Logger DefaultLogger := {
  Info := log_Info; Error := log_Error; Warn := log_Warn; Debug := log_Debug; Close := log_Close
}.

(** ** Properties *)

#[export] Instance byte_le_trans : Transitive byte_le.
Proof.
  intros a b c. unfold byte_le, String.leb. revert b c.
  induction a as [|x a IH]; intros [|y b] [|z c]; simpl; try done.
  unfold Ascii.compare.
  destruct (N.compare_spec (Ascii.N_of_ascii x) (Ascii.N_of_ascii y)),
    (N.compare_spec (Ascii.N_of_ascii y) (Ascii.N_of_ascii z)),
    (N.compare_spec (Ascii.N_of_ascii x) (Ascii.N_of_ascii z)); try done; try lia.
  apply IH.
Qed.

#[export] Instance byte_le_antisymm : AntiSymm eq byte_le.
Proof. intros a b. apply String.leb_antisym. Qed.

#[export] Instance byte_le_total : Total byte_le.
Proof. intros a b. apply String.leb_total. Qed.

(** The text of log fields does not depend on the order in which the map is ranged over:
    every key of the map appears exactly once as key=value, in byte order, separated by
    spaces. *)
Theorem FormatFields_deterministic order order' fields :
  order ≡ₚ (map_to_list fields).*1 -> order' ≡ₚ (map_to_list fields).*1 ->
  FormatFields order fields = FormatFields order' fields /\
  exists keys, StronglySorted byte_le keys /\ keys ≡ₚ (map_to_list fields).*1 /\
    FormatFields order fields = Join (pair_text fields <$> keys).
Proof.
  intros Ho Ho'.
  assert (merge_sort byte_le order = merge_sort byte_le order') as He.
  { apply (Sorted_unique byte_le); try apply (Sorted_merge_sort _).
    by rewrite !merge_sort_Permutation, Ho, Ho'. }
  split; [unfold FormatFields; by rewrite He|].
  exists (merge_sort byte_le order). split_and!.
  - apply (StronglySorted_merge_sort _).
  - by rewrite merge_sort_Permutation.
  - unfold FormatFields. case_bool_decide as Hs; [|done].
    apply map_size_empty_inv in Hs. subst fields. rewrite map_to_list_empty in Ho. simpl in Ho.
    apply Permutation_nil_r in Ho. by subst order.
Qed.

(** A call of a method writes one line, the same whatever the order in which the map is
    ranged over: the prefix, the time, and the text. *)
Theorem log_order level order now msg fields l :
  order ≡ₚ (map_to_list fields).*1 ->
  log level order now msg fields l = log level (some_order fields) now msg fields l /\
  exists text, out (logger (log level order now msg fields l)) =
    out (logger l) ++ [prefix (logger l) +:+ stamp (flags (logger l)) now +:+ text +:+
                       (if ends_with_newline text then "" else newline)].
Proof.
  intros Ho. destruct (FormatFields_deterministic order (some_order fields) fields Ho ltac:(done))
    as [He _]. unfold log. rewrite He. split; [done|]. case_bool_decide; by eexists.
Qed.

End Logger.

(** ** Witnesses *)

Definition demo_show (v : any) : string := match v with AString s => s | _ => "?" end.

Lemma FormatFields_deterministic_witness :
  FormatFields demo_show ["b"; "a"] {["a" := AString "1"; "b" := AString "2"]} = "a=1 b=2".
Proof.
  rewrite (proj1 (FormatFields_deterministic demo_show ["b"; "a"] ["a"; "b"]
    {["a" := AString "1"; "b" := AString "2"]}
    ltac:(by_compute) ltac:(by_compute))). vm_compute. reflexivity.
Defined.

(** A line of the default logger. *)
Example default_line :
  out (logger (Info (Logger := DefaultLogger_Logger demo_show (fun _ _ => "2026/01/02 03:04:05 "))
                 0 "ready" {["queue" := AString "orders"]} New)) =
    ["[rabbitmq-kit] 2026/01/02 03:04:05 INFO: ready queue=orders" +:+ newline].
Proof. vm_compute. reflexivity. Qed.

End Logger.
